(* ===== verification/_CoqProject ===== *)
-Q . S2P
Prelude.v
RustStr.v
Externals.v
Instances.v
Routing.v
Table.v
Identity.v
Scopes.v
Conc.v
Pool.v
Directory.v
Forward.v
Brain.v
Idempotency.v
Proxy.v
Node.v
Revocation.v
RevocationGate.v
Auth.v
TokenGate.v
App.v
System.v
Testing.v
RoutingTests.v
TableTests.v
AuthTests.v
RevocationTests.v
MainTests.v
ForwardTests.v
IdempotencyTests.v
