(* ===== verification/Prelude.v ===== *)
(** * fiducia-load-balance: verification library

    The program is the load balancer in front of a fleet of sharded nodes
    ([src/src/*.rs]). A client request enters at the router ([main.rs]), gets an
    identity (from the trusted edge's headers or from its own credential,
    [auth.rs] with [revocation.rs]), passes the dot-segment and scope checks, is
    claimed under its idempotency key if it has one, and is forwarded to the node
    that leads the shard of its routing key ([routing.rs], [table.rs]); the
    forwarding loop follows "not leader" answers ([proxy.rs]). A background task
    keeps the shard-to-leader table fresh from the control plane (the "brain").

    ** Files

    - [Prelude]: Rust's [Result], [?] and machine integers, automation, generic
      lemmas. [RustStr]: Rust strings as UTF-8 byte strings.
    - [Externals]: the third-party crates as type classes (operations) and classes
      of documented laws; [Instances]: one concrete function for each of them, so
      that every theorem can be applied at a concrete input.
    - [Routing] ([routing.rs]): [routing_key], [routing_key_with_body], the two
      percent decoders. The hash and the scoped key are the crate's ([Externals]).
    - [Table] ([table.rs]): [RouteTable] with every method, the brain snapshot
      included; [table_ok] is the invariant, [run_ops] any sequence of operations.
      [Directory]: the interface the proxy needs ([LeaderDirectory] and its laws),
      implemented by [RouteTable].
    - [Identity] ([auth.rs], [Claims] of [revocation.rs]): the edge identity, the
      claim contract, introspection answers, validation, credentials.
    - [Scopes] ([proxy.rs]): required scopes of a route, scope matching.
    - [Conc]: programs as trees of atomic accesses to a shared state, with a rule
      per construct ([runs]; [timed] where the program's own step numbers and the
      states at them matter) and a bound on their steps ([within]). [Pool]: any
      number of such programs interleaved access by access, with arrivals and
      disconnections; [history] says which state the schedule had at a step.
    - [Forward] ([proxy.rs]): [forward_once] (request building, response
      classification, limits and timeouts) and [forward_with_redirect], against any
      [LeaderDirectory] and any network.
    - [Brain] ([table.rs]): [refresh_from_brain], its two reads and the snapshot.
    - [Idempotency] ([proxy.rs]): keys, owners, fingerprints, stored responses and
      the answers to duplicates. [Proxy] ([proxy.rs]): [route], with the claim,
      completion and release of the idempotency record. [Node] ([proxy.rs], tests):
      [FakeNode], the repository's own node, answering those three requests.
    - [Revocation] ([revocation.rs]): the bounded decision cache, the authority's
      answer, the cache key. [RevocationGate]: [authorize] as a concurrent state
      machine, one step per critical section or await, with cancellation.
    - [Auth] ([auth.rs]): configuration, decision cache, key-set cache,
      [authenticate]. [TokenGate] ([auth.rs], [revocation.rs]): the gate with its
      authority, and the verdict that [authenticate] acts on.
    - [App] ([main.rs]): start-up values, the two routers, probes and operator
      endpoints. [System] ([main.rs]): the whole process, its client calls, guard
      calls and refreshes running together.
    - [Testing] and the files [*Tests]: the repository's unit tests, each under its
      own name, run against the model on the instances of [Instances]
      ([RoutingTests], [TableTests], [AuthTests], [RevocationTests], [MainTests];
      [ForwardTests] and [IdempotencyTests] for [proxy.rs]).

    ** How the model reads

    A [HashMap] is a [gmap], an [Instant] or [Duration] an integer (milliseconds in
    [Forward] and [Auth], seconds in [Revocation]); a header map is the sequence of
    its entries with lower-case names. A function that takes a lock is a function of
    the state that returns the new state. An [async] function is a program [M]: a
    tree whose nodes are single accesses to the shared state, so that between any
    two of them other tasks run; a question to the outside world (a node, the
    authentication service, the control plane, the clock) is answered by an
    arbitrary function of the step at which it is asked. Components are proved under
    other tasks that keep the invariant ([rely], [runs]; [trely], [timed]); [System]
    has no such assumption left, its schedules are sequences of moves of the tasks
    themselves ([running]). What a theorem says a request was told, found in a cache
    or found in the table, it says of a step of that very request and of the state
    the schedule had there ([vouched], [published], [remembered], [served_routes]).
    A JSON value comes back from its text up to the order and the repetition of keys
    ([same_json]). Where iteration order of a [HashMap] matters (evicting an oldest
    entry), it is a parameter ([HashOrder]).

    ** What the theorems show

    - End to end ([System], on [App], [Proxy], [Auth], [Identity], [Scopes]): from
      start-up and in every interleaving, nothing reaches a node except for an
      established identity with a scope that covers the route, and then only
      configured or brain-listed nodes, under that identity's organisation. Every
      job answers as its specification allows, keeps the state's invariant and ends
      within 62 steps. The cleartext guard sends nothing.
    - Identities ([Auth], [TokenGate], [Identity]): an identity needs the exact edge
      secret, the authentication service's word, or a verified token that the
      authority called not revoked within the freshness budget. The word and the
      token's key set are of a step of the request itself, or of a cache entry it
      found unexpired. Once the authority calls a token revoked, no later call with it
      reaches a node after the budget, even if the token was allowed before.
    - Forwarding ([Forward]): at most four attempts on distinct members, no replay
      of a mutation that may have committed, exact headers, path and body on the
      wire, bounded buffering and waiting; failover finds a serving member.
      [Proxy.route_refines] relates the whole pipeline to an inductive
      specification of its attempts and answer ([route_run]), and every answer is
      a well-formed response.
    - Idempotency: a mutation runs at most once per granted claim; records of two
      tenants never meet; a fingerprint pins the request; a stored response comes
      back byte for byte or is refused. Against [FakeNode] ([Node]): while a record
      exists its key runs nothing, and a retry gets the stored response, or a 503
      when no answer to its claim could be read.
    - Routing and table: organisations never share a key, coordinators are never
      scoped, percent decoding inverts encoding; the table invariant holds in every
      reachable table, the round-robin scan finds what a reference scan finds, and a
      snapshot is applied whole or not at all: exactly the consistent ones
      ([consistent_nodes], [complete_placement]), after two good answers ([reads]),
      and without undoing what a redirect taught while it was in flight.
    - Revocation: in every reachable state of the gate a verdict rests on a fresh
      answer of the authority, one task per token asks it, nothing deadlocks and
      every task ends within eleven steps of its own.
    - The unit tests of every source file pass on the model, which checks the
      definitions against what the authors expect of the code on concrete inputs:
      scopes, keys, snapshots, replays, redirects, timeouts, concurrent revocation
      checks.
    - Behaviour the code does not seem to mean is stated too, as theorems about the
      code as it is: the idempotency release has no routing key, an ambiguous
      mutation is executed again by the advised retry, a fresh permission can
      become a denial, a key lock can stay for ever, a key-set outage is remembered
      as an invalid token.

    ** Bounds and fuel

    [forward_hops] recurses on the hops left, [MAX_HOPS] = 4 as in the source's
    loop, so it has no other fuel. [any_node_loop] recurses on the number of
    members, the source's loop bound. Every other recursion is on its data. The
    gate has no fuel: [gate_terminates] bounds the steps of each task by eleven
    in any schedule. A job of the service takes at most 62 accesses: 11 to authenticate
    and 17 for each of the claim, the request and the completion. Availability
    results ask for at most four members and for a cursor that does not wrap during
    the request (2^64 picks).

    ** Not modelled

    Sockets, TLS and the runtime; the construction of HTTP clients; logs, tracing
    and the [Display] texts of errors that only reach them; JSON, URL, JWT and hash
    implementations (parameters). The web framework's own answers (body limits,
    method and query rejections) are parameters of [App]. Event streams are an
    opaque body: their later chunks are not followed. Instants and durations do not
    overflow. An attempt is recorded when its answer arrives, so a client that
    disconnects leaves the one in flight unrecorded. The refresh ticker is an
    arbitrary sequence of refreshes, which may overlap; the source's do not. The
    gate's own interleaving is [RevocationGate]'s; for [authenticate] a call of the
    gate is one step, with the verdict of a history of the gate that has reached that
    step ([GateHistory]: any sequence of calls and answers, one for all requests). *)
From stdpp Require Export base tactics option list gmap strings fin_maps sorting.
From Stdlib Require Export ZArith Lia Ascii.

(** ** Notations *)

Declare Scope rust_scope.
Delimit Scope rust_scope with rust.

(** Rust's [Result<A, E>]. *)
Inductive result (A E : Type) : Type :=
| Ok (a : A)
| Err (e : E).
Arguments Ok {A E} a.
Arguments Err {A E} e.

Definition result_bind {A B E} (r : result A E) (f : A -> result B E) : result B E :=
  match r with Ok a => f a | Err e => Err e end.

(** The [?] operator on [Result]. *)
Notation "'let?' x ':=' r 'in' k" := (result_bind r (fun x => k))
  (at level 10, x pattern, r at level 100, k at level 200) : rust_scope.

(** The [?] operator on [Option]. *)
Notation "'let!' x ':=' o 'in' k" := (match o with Some x => k | None => None end)
  (at level 10, x pattern, o at level 100, k at level 200) : rust_scope.

Definition is_ok {A E} (r : result A E) : bool :=
  match r with Ok _ => true | Err _ => false end.

(** [Option::ok_or]. *)
Definition ok_or {A E} (o : option A) (e : E) : result A E :=
  match o with Some a => Ok a | None => Err e end.

Definition is_none {A} (o : option A) : bool :=
  match o with Some _ => false | None => true end.

(** ** Machine integers *)

Definition u16_max : Z := 2 ^ 16 - 1.
Definition u32_max : Z := 2 ^ 32 - 1.
Definition u64_max : Z := 2 ^ 64 - 1.

(** [wrapping_add] on a 64-bit unsigned integer ([usize] of the deployed target). *)
Definition u64_wrapping_add (a b : Z) : Z := (a + b) mod 2 ^ 64.

(** [saturating_add] / [saturating_sub] on [u64]. *)
Definition u64_saturating_add (a b : Z) : Z := Z.min (a + b) u64_max.
Definition u64_saturating_sub (a b : Z) : Z := Z.max (a - b) 0.

Lemma u64_wrapping_add_range a b : (0 <= u64_wrapping_add a b < 2 ^ 64)%Z.
Proof. apply Z.mod_pos_bound. lia. Qed.

(** ** Automation *)

Create HintDb fiducia discriminated.

(** Splits boolean conjunctions and disjunctions of the hypotheses into facts. *)
Ltac breflect :=
  repeat match goal with
  | H : (_ && _)%bool = true |- _ => apply andb_true_iff in H; destruct H
  | H : (_ || _)%bool = false |- _ => apply orb_false_iff in H; destruct H
  | H : negb _ = true |- _ => apply negb_true_iff in H
  | H : negb _ = false |- _ => apply negb_false_iff in H
  | H : (_ <=? _)%Z = true |- _ => apply Z.leb_le in H
  | H : (_ <=? _)%Z = false |- _ => apply Z.leb_gt in H
  | H : (_ <? _)%Z = true |- _ => apply Z.ltb_lt in H
  | H : (_ <? _)%Z = false |- _ => apply Z.ltb_ge in H
  | H : (_ =? _)%Z = true |- _ => apply Z.eqb_eq in H
  | H : (_ =? _)%Z = false |- _ => apply Z.eqb_neq in H
  | H : (_ =? _)%string = true |- _ => apply String.eqb_eq in H
  | H : (_ =? _)%string = false |- _ => apply String.eqb_neq in H
  | H : Ascii.eqb _ _ = true |- _ => apply Ascii.eqb_eq in H
  | H : Ascii.eqb _ _ = false |- _ => apply Ascii.eqb_neq in H
  | H : bool_decide _ = true |- _ => apply bool_decide_eq_true in H
  | H : bool_decide _ = false |- _ => apply bool_decide_eq_false in H
  end.

(** One [match]/[if] of the goal or the hypotheses at a time, then clean up. *)
Ltac crush_match := repeat (case_match; simplify_eq/=); try done.

Lemma result_bind_Ok {A B E} (r : result A E) (f : A -> result B E) b :
  result_bind r f = Ok b <-> exists a, r = Ok a /\ f a = Ok b.
Proof. destruct r; naive_solver. Qed.

Lemma result_bind_Err {A B E} (r : result A E) (f : A -> result B E) e :
  result_bind r f = Err e <-> r = Err e \/ exists a, r = Ok a /\ f a = Err e.
Proof. destruct r; naive_solver. Qed.

(** ** Lists *)

(** [Iterator::find_map]. *)
Fixpoint find_map {A B} (f : A -> option B) (l : list A) : option B :=
  match l with
  | [] => None
  | x :: l' => match f x with Some b => Some b | None => find_map f l' end
  end.

Lemma find_map_Some {A B} (f : A -> option B) l b :
  find_map f l = Some b -> exists x, x ∈ l /\ f x = Some b.
Proof.
  induction l as [|x l IH]; simpl; [done|].
  destruct (f x) eqn:E; intros H; simplify_eq.
  - exists x. split; [left|done].
  - destruct (IH H) as (y & ? & ?). exists y. split; [by right|done].
Qed.

Lemma find_map_None {A B} (f : A -> option B) l :
  find_map f l = None <-> forall x, x ∈ l -> f x = None.
Proof.
  induction l as [|x l IH]; simpl.
  - split; [|done]. intros _ x Hx. by apply not_elem_of_nil in Hx.
  - destruct (f x) eqn:E.
    + split; [done|]. intros H. specialize (H x (list_elem_of_here _ _)). congruence.
    + rewrite IH. split.
      * intros H y [->|Hy]%elem_of_cons; auto.
      * intros H y Hy. apply H. by right.
Qed.

(** [Iterator::skip_while] collected. *)
Fixpoint drop_while {A} (p : A -> bool) (l : list A) : list A :=
  match l with
  | [] => []
  | x :: l' => if p x then drop_while p l' else l
  end.

Lemma drop_while_split {A} (p : A -> bool) l :
  exists l1, l = l1 ++ drop_while p l /\ Forall (fun x => p x = true) l1.
Proof.
  induction l as [|x l IH]; simpl.
  - by exists [].
  - destruct (p x) eqn:E.
    + destruct IH as (l1 & H1 & H2). exists (x :: l1). split; [simpl; congruence|by constructor].
    + by exists [].
Qed.

Lemma existsb_false {A} (p : A -> bool) l :
  existsb p l = false <-> Forall (fun x => p x = false) l.
Proof.
  induction l as [|x l IH]; simpl; [by split|].
  rewrite orb_false_iff, IH. split; [by intros []; constructor|by inversion 1].
Qed.

Lemma existsb_elem_of {A} (p : A -> bool) l :
  existsb p l = true <-> exists x, x ∈ l /\ p x = true.
Proof.
  rewrite existsb_exists. split; intros (x & H & ?); exists x; split; auto;
    by apply list_elem_of_In.
Qed.
