(* ===== verification/RustStr.v ===== *)
(** * Rust strings

    The functions of Rust's [str]/[String] the program uses, on byte strings
    ([string], a list of bytes): a Rust string is its UTF-8 encoding, so [len] is
    the byte length and the [char]-level functions decode. *)
From S2P Require Import Prelude.
Open Scope string_scope.
Open Scope list_scope.
Open Scope Z_scope.
Open Scope rust_scope.

#[global] Arguments String.append !s1 s2 / : simpl nomatch, rename.
#[global] Arguments String.eqb : simpl never.
#[global] Arguments Ascii.eqb : simpl never.

(** ** Bytes *)

Definition ord (a : ascii) : Z := Z.of_N (N_of_ascii a).
Definition chr (z : Z) : ascii := ascii_of_N (Z.to_N z).

Definition str_len (s : string) : Z := Z.of_nat (String.length s).

Definition in_range (lo hi x : Z) : bool := (lo <=? x) && (x <=? hi).

(** [concat]/[collect::<String>()] of pieces. *)
Definition concat_str (l : list string) : string := foldr String.append "" l.

(** [slice::join]. *)
Fixpoint join (sep : string) (l : list string) : string :=
  match l with
  | [] => ""
  | [x] => x
  | x :: l' => x +:+ sep +:+ join sep l'
  end.

(** ** Prefixes, suffixes, splitting on a character *)

Fixpoint strip_prefix (p s : string) : option string :=
  match p, s with
  | "", _ => Some s
  | String a p', String b s' => if Ascii.eqb a b then strip_prefix p' s' else None
  | String _ _, "" => None
  end.

Definition starts_with (p s : string) : bool :=
  match strip_prefix p s with Some _ => true | None => false end.

Fixpoint strip_suffix (p s : string) : option string :=
  if String.eqb s p then Some "" else
  match s with
  | "" => None
  | String c s' => match strip_suffix p s' with Some r => Some (String c r) | None => None end
  end.

(** [str::contains(char)]. *)
Fixpoint contains_char (c : ascii) (s : string) : bool :=
  match s with
  | "" => false
  | String a s' => Ascii.eqb a c || contains_char c s'
  end.

(** [str::split(char)]: always at least one piece. *)
Fixpoint split_on (c : ascii) (s : string) : list string :=
  match s with
  | "" => [""]
  | String a s' =>
      if Ascii.eqb a c then "" :: split_on c s'
      else match split_on c s' with
           | h :: t => String a h :: t
           | [] => [String a ""]
           end
  end.

(** [str::split_once(char)]. *)
Fixpoint split_once (c : ascii) (s : string) : option (string * string) :=
  match s with
  | "" => None
  | String a s' =>
      if Ascii.eqb a c then Some ("", s')
      else match split_once c s' with
           | Some (k, v) => Some (String a k, v)
           | None => None
           end
  end.

Fixpoint trim_start_matches (c : ascii) (s : string) : string :=
  match s with
  | "" => ""
  | String a s' => if Ascii.eqb a c then trim_start_matches c s' else s
  end.

Fixpoint trim_end_matches (c : ascii) (s : string) : string :=
  match s with
  | "" => ""
  | String a s' =>
      match trim_end_matches c s' with
      | "" => if Ascii.eqb a c then "" else String a ""
      | t => String a t
      end
  end.

Definition trim_matches (c : ascii) (s : string) : string :=
  trim_end_matches c (trim_start_matches c s).

(** ** ASCII case *)

Definition ascii_lower (a : ascii) : ascii :=
  if in_range 65 90 (ord a) then chr (ord a + 32) else a.

Fixpoint to_ascii_lowercase (s : string) : string :=
  match s with
  | "" => ""
  | String a s' => String (ascii_lower a) (to_ascii_lowercase s')
  end.

Definition eq_ignore_ascii_case (a b : string) : bool :=
  String.eqb (to_ascii_lowercase a) (to_ascii_lowercase b).

(** ** UTF-8

    [utf8_step s] looks at the first character of [s]: whether it is well formed
    and how many bytes it spans; for a malformed one, the length of the maximal
    subpart that [String::from_utf8_lossy] replaces by one U+FFFD. *)

Definition cont (a : ascii) : bool := in_range 128 191 (ord a).

(** The allowed second byte of a three- and a four-byte sequence. *)
Definition second3 (x : Z) (b : ascii) : bool :=
  if x =? 224 then in_range 160 191 (ord b)
  else if x =? 237 then in_range 128 159 (ord b)
  else cont b.

Definition second4 (x : Z) (b : ascii) : bool :=
  if x =? 240 then in_range 144 191 (ord b)
  else if x =? 244 then in_range 128 143 (ord b)
  else cont b.

Definition utf8_step (s : string) : bool * nat :=
  match s with
  | "" => (false, 0%nat)
  | String a r =>
      let x := ord a in
      if x <? 128 then (true, 1%nat)
      else if in_range 194 223 x then
        match r with
        | String b _ => if cont b then (true, 2%nat) else (false, 1%nat)
        | "" => (false, 1%nat)
        end
      else if in_range 224 239 x then
        match r with
        | String b r2 =>
            if second3 x b then
              match r2 with
              | String c _ => if cont c then (true, 3%nat) else (false, 2%nat)
              | "" => (false, 2%nat)
              end
            else (false, 1%nat)
        | "" => (false, 1%nat)
        end
      else if in_range 240 244 x then
        match r with
        | String b r2 =>
            if second4 x b then
              match r2 with
              | String c r3 =>
                  if cont c then
                    match r3 with
                    | String d _ => if cont d then (true, 4%nat) else (false, 3%nat)
                    | "" => (false, 3%nat)
                    end
                  else (false, 2%nat)
              | "" => (false, 2%nat)
              end
            else (false, 1%nat)
        | "" => (false, 1%nat)
        end
      else (false, 1%nat)
  end.

(** A decoded character: its code point ([None] when malformed) and its bytes. *)
Definition piece : Type := option Z * string.

Definition low6 (a : ascii) : Z := Z.land (ord a) 63.

Definition mk_piece (ok : bool) (code : Z) (bytes : string) : piece :=
  (if ok then Some code else None, bytes).

Fixpoint pieces (s : string) : list piece :=
  match s with
  | "" => []
  | String a r1 =>
      let (ok, n) := utf8_step s in
      match n, r1 with
      | 2%nat, String b r2 =>
          mk_piece ok (Z.lor (Z.shiftl (Z.land (ord a) 31) 6) (low6 b))
            (String a (String b "")) :: pieces r2
      | 3%nat, String b (String c r3) =>
          mk_piece ok (Z.lor (Z.shiftl (Z.land (ord a) 15) 12)
                         (Z.lor (Z.shiftl (low6 b) 6) (low6 c)))
            (String a (String b (String c ""))) :: pieces r3
      | 4%nat, String b (String c (String d r4)) =>
          mk_piece ok (Z.lor (Z.shiftl (Z.land (ord a) 7) 18)
                         (Z.lor (Z.shiftl (low6 b) 12) (Z.lor (Z.shiftl (low6 c) 6) (low6 d))))
            (String a (String b (String c (String d "")))) :: pieces r4
      | _, _ => mk_piece ok (ord a) (String a "") :: pieces r1
      end
  end.

Definition unpieces (l : list piece) : string := concat_str (map snd l).

Definition replacement_char : string :=
  String (chr 239) (String (chr 191) (String (chr 189) "")).

(** [String::from_utf8_lossy(..).into_owned()]. *)
Definition from_utf8_lossy (s : string) : string :=
  concat_str (map (fun p : piece => match fst p with Some _ => snd p | None => replacement_char end)
                  (pieces s)).

Definition utf8_valid (s : string) : bool :=
  forallb (fun p : piece => match fst p with Some _ => true | None => false end) (pieces s).

(** [char::is_whitespace] and [char::is_control]. *)
Definition is_whitespace (c : Z) : bool :=
  in_range 9 13 c || (c =? 32) || (c =? 133) || (c =? 160) || (c =? 5760)
  || in_range 8192 8202 c || (c =? 8232) || (c =? 8233) || (c =? 8239)
  || (c =? 8287) || (c =? 12288).

Definition is_control (c : Z) : bool := in_range 0 31 c || in_range 127 159 c.

Definition piece_code (p : piece) : Z := default 65533 (fst p).
Definition piece_ws (p : piece) : bool := is_whitespace (piece_code p).

(** [str::chars().any(..)]. *)
Definition any_char (f : Z -> bool) (s : string) : bool :=
  existsb (fun p => f (piece_code p)) (pieces s).

(** [str::trim]. *)
Definition trim (s : string) : string :=
  unpieces (rev (drop_while piece_ws (rev (drop_while piece_ws (pieces s))))).

(** [str::split_whitespace]. *)
Fixpoint split_ws_pieces (l : list piece) : list (list piece) :=
  match l with
  | [] => [[]]
  | p :: l' =>
      if piece_ws p then [] :: split_ws_pieces l'
      else match split_ws_pieces l' with
           | h :: t => (p :: h) :: t
           | [] => [[p]]
           end
  end.

Definition split_whitespace (s : string) : list string :=
  List.filter (fun x => negb (String.eqb x "")) (map unpieces (split_ws_pieces (pieces s))).

(** [splitn(2, char::is_whitespace)]: the text before the first whitespace
    character and, if there is one, the text after it. *)
Fixpoint splitn2_ws_pieces (l : list piece) : list piece * option (list piece) :=
  match l with
  | [] => ([], None)
  | p :: l' =>
      if piece_ws p then ([], Some l')
      else let (h, t) := splitn2_ws_pieces l' in (p :: h, t)
  end.

Definition splitn2_ws (s : string) : string * option string :=
  let (h, t) := splitn2_ws_pieces (pieces s) in (unpieces h, unpieces <$> t).

(** ** Numbers *)

Definition digit_val (a : ascii) : option Z :=
  if in_range 48 57 (ord a) then Some (ord a - 48) else None.

(** [(byte as char).to_digit(16)]. *)
Definition to_digit16 (a : ascii) : option Z :=
  if in_range 48 57 (ord a) then Some (ord a - 48)
  else if in_range 97 102 (ord a) then Some (ord a - 87)
  else if in_range 65 70 (ord a) then Some (ord a - 55)
  else None.

(** [char::from_digit(d, 16)]. *)
Definition from_digit16 (d : Z) : option ascii :=
  if in_range 0 9 d then Some (chr (48 + d))
  else if in_range 10 15 d then Some (chr (87 + d))
  else None.

Fixpoint parse_digits (max acc : Z) (s : string) : option Z :=
  match s with
  | "" => Some acc
  | String a s' =>
      let! d := digit_val a in
      let acc' := acc * 10 + d in
      if acc' <=? max then parse_digits max acc' s' else None
  end.

(** [str::parse] at an unsigned type of maximum [max]: an optional [+], then at
    least one ASCII digit; overflow is an error. *)
Definition parse_uint (max : Z) (s : string) : option Z :=
  let digits := match s with String "+" s' => s' | _ => s end in
  match digits with
  | "" => None
  | _ => parse_digits max 0 digits
  end.

(** ** Predicates of the lemmas *)

(** An ASCII byte is always a character of its own. *)
Definition piece_ascii_ok (p : piece) : Prop :=
  forall a, contains_char a (snd p) = true -> ord a < 128 -> p = (Some (ord a), String a "").

(** What [utf8_step] reads stays the same when the text after the character is
    cut off, or changed beyond its first byte. *)
Definition same_head (t r : string) : Prop :=
  t = "" \/ exists a t' r', t = String a t' /\ r = String a r'.

(** ** Lemmas: bytes and concatenation *)

Lemma ord_range a : 0 <= ord a < 256.
Proof.
  unfold ord. pose proof (N_ascii_bounded a). lia.
Qed.

Lemma chr_ord a : chr (ord a) = a.
Proof. unfold chr, ord. rewrite N2Z.id. apply ascii_N_embedding. Qed.

Lemma ord_chr z : 0 <= z < 256 -> ord (chr z) = z.
Proof.
  intros ?. unfold chr, ord. rewrite N_ascii_embedding; [lia|].
  apply (proj2 (N2Z.inj_lt _ _)). rewrite Z2N.id; lia.
Qed.

Lemma ord_inj a b : ord a = ord b -> a = b.
Proof. intros H. rewrite <-(chr_ord a), <-(chr_ord b). congruence. Qed.

Lemma app_nil_r_str s : s +:+ "" = s.
Proof. induction s; simpl; congruence. Qed.

Lemma app_assoc_str a b c : (a +:+ b) +:+ c = a +:+ (b +:+ c).
Proof. induction a; simpl; congruence. Qed.

Lemma app_inj_l_str s a b : s +:+ a = s +:+ b -> a = b.
Proof. induction s; simpl; intros H; simplify_eq; auto. Qed.

Lemma length_app_str a b :
  String.length (a +:+ b) = (String.length a + String.length b)%nat.
Proof. induction a; simpl; congruence. Qed.

Lemma str_len_app a b : str_len (a +:+ b) = str_len a + str_len b.
Proof. unfold str_len. rewrite length_app_str. lia. Qed.

Lemma str_len_nonneg s : 0 <= str_len s.
Proof. unfold str_len. lia. Qed.

Lemma concat_str_app l1 l2 : concat_str (l1 ++ l2) = concat_str l1 +:+ concat_str l2.
Proof.
  induction l1 as [|x l1 IH]; simpl; [done|]. by rewrite IH, app_assoc_str.
Qed.

Lemma strip_prefix_Some p s r : strip_prefix p s = Some r <-> s = p +:+ r.
Proof.
  revert s. induction p as [|a p IH]; intros s; simpl.
  - split; congruence.
  - destruct s as [|b s]; [done|].
    destruct (Ascii.eqb_spec a b) as [->|Hne].
    + rewrite IH. split; congruence.
    + split; [done|]. intros [=]. congruence.
Qed.

Lemma starts_with_true p s : starts_with p s = true <-> exists r, s = p +:+ r.
Proof.
  unfold starts_with. destruct (strip_prefix p s) as [r|] eqn:E.
  - apply strip_prefix_Some in E. split; eauto.
  - split; [done|]. intros [r Hr]. apply strip_prefix_Some in Hr. congruence.
Qed.

Lemma app_inj_r_str s a b : a +:+ s = b +:+ s -> a = b.
Proof.
  revert b. induction a as [|x a IH]; intros [|y b] H; simpl in *; [done|..].
  - apply (f_equal String.length) in H. simpl in H. rewrite length_app_str in H. lia.
  - apply (f_equal String.length) in H. simpl in H. rewrite length_app_str in H. lia.
  - simplify_eq. f_equal. eauto.
Qed.

Lemma strip_suffix_sound p s r : strip_suffix p s = Some r -> s = r +:+ p.
Proof.
  revert r. induction s as [|c s IH]; intros r; simpl.
  - destruct (String.eqb_spec "" p) as [<-|_]; [by intros [= <-]|done].
  - destruct (String.eqb_spec (String c s) p) as [<-|_]; [by intros [= <-]|].
    destruct (strip_suffix p s) as [r'|]; [|done].
    intros [= <-]. simpl. f_equal. by apply IH.
Qed.

Lemma strip_suffix_complete p r : strip_suffix p (r +:+ p) = Some r.
Proof.
  induction r as [|c r IH]; simpl.
  - destruct p as [|a p]; simpl; [done|]. by rewrite String.eqb_refl.
  - destruct (String.eqb_spec (String c (r +:+ p)) p) as [H|_]; [|by rewrite IH].
    apply (f_equal String.length) in H. simpl in H. rewrite length_app_str in H. lia.
Qed.

Lemma strip_suffix_Some p s r : strip_suffix p s = Some r <-> s = r +:+ p.
Proof.
  split; [apply strip_suffix_sound|]. intros ->. apply strip_suffix_complete.
Qed.

Lemma starts_with_refl_app p r : starts_with p (p +:+ r) = true.
Proof. apply starts_with_true. eauto. Qed.

(** ** Lemmas: decoding *)

Lemma unpieces_app l1 l2 : unpieces (l1 ++ l2) = unpieces l1 +:+ unpieces l2.
Proof. unfold unpieces. by rewrite map_app, concat_str_app. Qed.

(** [pieces] unfolds into its first piece and the pieces of what follows. *)
Lemma pieces_cons s :
  s <> "" ->
  exists p r, pieces s = p :: pieces r /\ s = snd p +:+ r /\ snd p <> "".
Proof.
  destruct s as [|a r1]; [done|]. intros _. cbn [pieces].
  destruct (utf8_step _) as [ok n].
  destruct n as [|[|[|[|[|n]]]]];
    destruct r1 as [|b [|c [|d r4]]]; eexists _, _; (split; [reflexivity|done]).
Qed.

Lemma unpieces_pieces s : unpieces (pieces s) = s.
Proof.
  remember (String.length s) as n eqn:Hn.
  revert s Hn. induction n as [n IH] using lt_wf_ind; intros s Hn.
  destruct (decide (s = "")) as [->|Hs]; [done|].
  destruct (pieces_cons s Hs) as (p & r & Hp & Hsr & Hne).
  rewrite Hp. change (unpieces (p :: pieces r)) with (snd p +:+ unpieces (pieces r)).
  rewrite (IH (String.length r)); [done| |done].
  subst n. rewrite Hsr, length_app_str. destruct (snd p); [done|simpl; lia].
Qed.

(** Induction along the pieces of a string. *)
Lemma pieces_ind (P : string -> list piece -> Prop) :
  P "" [] ->
  (forall s p r, s <> "" -> pieces s = p :: pieces r -> s = snd p +:+ r -> snd p <> "" ->
     P r (pieces r) -> P s (p :: pieces r)) ->
  forall s, P s (pieces s).
Proof.
  intros H0 HS s. remember (String.length s) as n eqn:Hn.
  revert s Hn. induction n as [n IH] using lt_wf_ind; intros s Hn.
  destruct (decide (s = "")) as [->|Hs]; [done|].
  destruct (pieces_cons s Hs) as (p & r & Hp & Hsr & Hne). rewrite Hp.
  apply HS; auto. apply (IH (String.length r)); [|done].
  subst n. rewrite Hsr, length_app_str. destruct (snd p); [done|simpl; lia].
Qed.

Lemma cont_ge a : cont a = true -> 128 <= ord a.
Proof. unfold cont, in_range. intros. breflect. lia. Qed.

Lemma second3_ge x b : second3 x b = true -> 128 <= ord b.
Proof. unfold second3, cont, in_range. intros. repeat case_match; breflect; lia. Qed.

Lemma second4_ge x b : second4 x b = true -> 128 <= ord b.
Proof. unfold second4, cont, in_range. intros. repeat case_match; breflect; lia. Qed.

(** What [utf8_step] found: one ASCII byte, or only bytes above 127. *)
Lemma utf8_step_ascii a r ok n :
  utf8_step (String a r) = (ok, n) ->
  (ok = true /\ n = 1%nat /\ ord a < 128) \/
  (128 <= ord a /\
   match n, r with
   | 2%nat, String b _ => 128 <= ord b
   | 3%nat, String b (String c _) => 128 <= ord b /\ 128 <= ord c
   | 4%nat, String b (String c (String d _)) => 128 <= ord b /\ 128 <= ord c /\ 128 <= ord d
   | 1%nat, _ => True
   | _, _ => False
   end).
Proof.
  cbn [utf8_step]. intros H.
  repeat (case_match; simplify_eq/=);
    repeat match goal with
    | H : cont _ = true |- _ => apply cont_ge in H
    | H : second3 _ _ = true |- _ => apply second3_ge in H
    | H : second4 _ _ = true |- _ => apply second4_ge in H
    end; unfold in_range in *; breflect; auto with lia.
Qed.

Lemma piece_ascii_head s p r : pieces s = p :: r -> piece_ascii_ok p.
Proof.
  destruct s as [|a r1]; [done|]. cbn [pieces].
  destruct (utf8_step _) as [ok n] eqn:E. apply utf8_step_ascii in E.
  intros H x Hx Hlt.
  destruct E as [(-> & -> & Ha) | [Ha E]].
  - simplify_eq/=. rewrite orb_false_r in Hx. breflect. by subst.
  - exfalso. destruct n as [|[|[|[|[|n]]]]]; try done;
      destruct r1 as [|b [|c [|d r4]]]; simplify_eq/=; try done;
      repeat (apply orb_true_iff in Hx as [Hx|Hx]); breflect; subst; try done; lia.
Qed.

Lemma pieces_ascii_ok s : Forall piece_ascii_ok (pieces s).
Proof.
  apply (pieces_ind (fun _ l => Forall piece_ascii_ok l)); [done|].
  intros s' p r _ Hp _ _ IH. constructor; [|done]. by eapply piece_ascii_head.
Qed.

Lemma contains_char_app a s t :
  contains_char a (s +:+ t) = contains_char a s || contains_char a t.
Proof. induction s; simpl; [done|]. rewrite IHs. by rewrite orb_assoc. Qed.

Lemma unpieces_contains a l :
  contains_char a (unpieces l) = existsb (fun p => contains_char a (snd p)) l.
Proof.
  induction l as [|p l IH]; [done|].
  change (unpieces (p :: l)) with (snd p +:+ unpieces l). simpl.
  by rewrite contains_char_app, IH.
Qed.

(** A string that contains an ASCII byte has it among its characters. *)
Lemma ascii_char_elem a s :
  contains_char a s = true -> ord a < 128 -> (Some (ord a), String a "") ∈ pieces s.
Proof.
  rewrite <-(unpieces_pieces s) at 1. rewrite unpieces_contains, existsb_elem_of.
  intros (p & Hin & Hp) Hlt. pose proof (pieces_ascii_ok s) as Hok.
  rewrite Forall_forall in Hok. by rewrite <-(Hok p Hin a Hp Hlt).
Qed.

(** ** Lemmas: [trim] *)

(** [trim] removes whitespace pieces at both ends and nothing else. *)
Lemma trim_split s :
  exists l1 l2 l3,
    pieces s = l1 ++ l2 ++ l3 /\ trim s = unpieces l2
    /\ Forall (fun p => piece_ws p = true) l1 /\ Forall (fun p => piece_ws p = true) l3.
Proof.
  destruct (drop_while_split piece_ws (pieces s)) as (l1 & H1 & Hl1).
  destruct (drop_while_split piece_ws (rev (drop_while piece_ws (pieces s)))) as (l3 & H3 & Hl3).
  exists l1, (rev (drop_while piece_ws (rev (drop_while piece_ws (pieces s))))), (rev l3).
  split; [|split; [done|split; [done|]]].
  - rewrite <-rev_app_distr, <-H3, rev_involutive. done.
  - apply Forall_rev in Hl3. done.
Qed.

Lemma utf8_step_local b r t ok :
  utf8_step (b +:+ r) = (ok, String.length b) -> b <> "" -> same_head t r ->
  utf8_step (b +:+ t) = (ok, String.length b).
Proof.
  intros H Hb [-> | (x & t' & r' & -> & ->)].
  - destruct b as [|b1 [|b2 [|b3 [|b4 [|]]]]]; [done|..]; simpl in *;
      repeat (case_match; simplify_eq/=); done.
  - destruct b as [|b1 [|b2 [|b3 [|b4 [|]]]]]; [done|..]; simpl in *;
      repeat (case_match; simplify_eq/=); done.
Qed.

Lemma pieces_head_step c b r l :
  pieces (b +:+ r) = (c, b) :: l ->
  exists ok, utf8_step (b +:+ r) = (ok, String.length b).
Proof.
  destruct b as [|b1 b']; cbn [String.append String.length].
  { destruct r as [|a r1]; [done|]. cbn [pieces]. destruct (utf8_step _) as [ok n].
    intros H. destruct n as [|[|[|[|[|n]]]]]; destruct r1 as [|x [|y [|z w]]]; done. }
  cbn [pieces]. destruct (utf8_step _) as [ok n] eqn:E. intros H. exists ok. f_equal.
  apply utf8_step_ascii in E.
  destruct E as [(-> & -> & Ha) | [Ha E]]; [by simplify_eq|].
  destruct n as [|[|[|[|[|n]]]]]; try done;
    destruct (b' +:+ r) as [|x [|y [|z w]]]; simplify_eq/=; done.
Qed.

Lemma pieces_local c b r t :
  pieces (b +:+ r) = (c, b) :: pieces r -> b <> "" -> same_head t r ->
  pieces (b +:+ t) = (c, b) :: pieces t.
Proof.
  intros H Hb Ht. destruct (pieces_head_step _ _ _ _ H) as [ok E].
  pose proof (utf8_step_local _ _ _ _ E Hb Ht) as E'.
  destruct b as [|b1 [|b2 [|b3 [|b4 [|b5 b']]]]]; [done|..];
    cbn [String.append pieces] in *; rewrite E in H; rewrite E';
    cbn [String.length] in *; unfold mk_piece in *; simplify_eq; try done.
Qed.

Lemma pieces_nonempty s : Forall (fun p => snd p <> "") (pieces s).
Proof.
  apply (pieces_ind (fun _ l => Forall (fun p : piece => snd p <> "") l)); [done|].
  intros. by constructor.
Qed.

Lemma same_head_unpieces l1 l2 :
  Forall (fun p : piece => snd p <> "") l1 -> same_head (unpieces l1) (unpieces (l1 ++ l2)).
Proof.
  destruct 1 as [|[c b] l1 Hp _]; [by left|]. right.
  destruct b as [|x b]; [done|]. simpl. eexists _, _, _. split; reflexivity.
Qed.

(** Cutting a string at character boundaries cuts its decoding. *)
Lemma pieces_split l1 l2 s :
  pieces s = l1 ++ l2 -> pieces (unpieces l1) = l1 /\ pieces (unpieces l2) = l2.
Proof.
  revert s. induction l1 as [|p l1 IH]; intros s H; simpl in H.
  - split; [done|]. by rewrite <-H, unpieces_pieces.
  - assert (Hs : s <> "") by (by intros ->).
    destruct (pieces_cons s Hs) as (p' & r & Hp & -> & Hne).
    rewrite Hp in H. injection H as -> Hr. destruct (IH r Hr) as [IH1 IH2]. split; [|done].
    destruct p as [c b]. cbn [snd] in *. change (unpieces _) with (b +:+ unpieces l1).
    rewrite (pieces_local c b r (unpieces l1)); [by rewrite IH1|done|done|].
    rewrite <-(unpieces_pieces r), Hr. apply same_head_unpieces.
    pose proof (pieces_nonempty r) as Hn. rewrite Hr in Hn. by apply Forall_app in Hn as [].
Qed.

Lemma pieces_infix l1 l2 l3 s :
  pieces s = l1 ++ l2 ++ l3 -> pieces (unpieces l2) = l2.
Proof.
  intros H. destruct (pieces_split l1 (l2 ++ l3) s H) as [_ H2].
  by destruct (pieces_split l2 l3 _ H2) as [? _].
Qed.

Lemma drop_while_none {A} (p : A -> bool) l :
  (match l with x :: _ => p x = false | [] => True end) -> drop_while p l = l.
Proof. destruct l; simpl; [done|]. by intros ->. Qed.

(** What [trim] keeps neither starts nor ends with whitespace. *)
Lemma drop_while_head {A} (p : A -> bool) l :
  match drop_while p l with x :: _ => p x = false | [] => True end.
Proof. induction l; simpl; [done|]. destruct (p a) eqn:E; done. Qed.

Lemma trim_pieces s :
  pieces (trim s) = rev (drop_while piece_ws (rev (drop_while piece_ws (pieces s)))).
Proof.
  unfold trim.
  destruct (drop_while_split piece_ws (pieces s)) as (l1 & H1 & _).
  destruct (drop_while_split piece_ws (rev (drop_while piece_ws (pieces s)))) as (l3 & H3 & _).
  apply (pieces_infix l1 _ (rev l3) s).
  rewrite <-rev_app_distr, <-H3, rev_involutive. done.
Qed.

Lemma drop_while_idem {A} (p : A -> bool) l : drop_while p (drop_while p l) = drop_while p l.
Proof. apply drop_while_none. apply drop_while_head. Qed.

Lemma trim_idem s : trim (trim s) = trim s.
Proof.
  unfold trim at 1. rewrite trim_pieces.
  set (a := drop_while piece_ws (pieces s)).
  destruct (drop_while_split piece_ws (rev a)) as (l3 & H3 & Hl3).
  rewrite (drop_while_none _ (rev (drop_while piece_ws (rev a)))).
  - rewrite rev_involutive, drop_while_idem. reflexivity.
  - apply (f_equal (@rev _)) in H3. rewrite rev_involutive, rev_app_distr in H3.
    pose proof (drop_while_head piece_ws (pieces s)) as Hh. fold a in Hh. rewrite H3 in Hh.
    destruct (rev (drop_while piece_ws (rev a))) eqn:E; [done|]. done.
Qed.

(** ** Lemmas: numbers *)

Lemma digit_val_range a d : digit_val a = Some d -> 0 <= d <= 9.
Proof. unfold digit_val, in_range. intros. case_match; simplify_eq; breflect; lia. Qed.

Lemma to_digit16_range a d : to_digit16 a = Some d -> 0 <= d <= 15.
Proof.
  unfold to_digit16, in_range. intros. repeat case_match; simplify_eq; breflect; lia.
Qed.

Lemma to_digit16_from_digit16 d a :
  from_digit16 d = Some a -> to_digit16 a = Some d.
Proof.
  unfold from_digit16, to_digit16, in_range. intros H.
  repeat case_match; simplify_eq; breflect;
    rewrite ord_chr in * by lia; try lia; f_equal; lia.
Qed.

Lemma from_digit16_total d : 0 <= d <= 15 -> is_Some (from_digit16 d).
Proof.
  intros ?. unfold from_digit16, in_range.
  repeat case_match; eauto. breflect.
  repeat match goal with H : (_ && _) = false |- _ => apply andb_false_iff in H end.
  rewrite !Z.leb_gt in *. lia.
Qed.

Lemma parse_digits_bounds max acc s n :
  0 <= acc <= max -> parse_digits max acc s = Some n -> 0 <= n <= max.
Proof.
  revert acc. induction s as [|a s IH]; intros acc Hacc; simpl; [by intros [= <-]|].
  destruct (digit_val a) as [d|] eqn:E; [|done]. apply digit_val_range in E.
  destruct (Z.leb_spec (acc * 10 + d) max); [|done]. apply IH. lia.
Qed.

Lemma parse_uint_bounds max s n : 0 <= max -> parse_uint max s = Some n -> 0 <= n <= max.
Proof.
  unfold parse_uint. intros Hm H.
  repeat case_match; simplify_eq; apply parse_digits_bounds in H; lia.
Qed.

Lemma app_inj_length a b x y :
  String.length a = String.length b -> a +:+ x = b +:+ y -> a = b /\ x = y.
Proof.
  revert b. induction a as [|c a IH]; intros [|d b] Hl H; simpl in *; try done.
  injection Hl as Hl. injection H as -> H. destruct (IH b Hl H). by subst.
Qed.

Lemma hex_byte a :
  exists hi lo, to_digit16 (default "?"%char (from_digit16 (Z.shiftr (ord a) 4))) = Some hi
    /\ to_digit16 (default "?"%char (from_digit16 (Z.land (ord a) 15))) = Some lo
    /\ chr (hi * 16 + lo) = a.
Proof.
  pose proof (ord_range a) as Ha.
  assert (Hhi : Z.shiftr (ord a) 4 = ord a / 16) by (by rewrite Z.shiftr_div_pow2).
  assert (Hlo : Z.land (ord a) 15 = ord a mod 16) by (change 15 with (Z.ones 4); by rewrite Z.land_ones).
  pose proof (Z.div_mod (ord a) 16 ltac:(lia)). pose proof (Z.mod_pos_bound (ord a) 16 ltac:(lia)).
  destruct (from_digit16_total (ord a / 16)) as [h Hh]; [lia|].
  destruct (from_digit16_total (ord a mod 16)) as [l Hl]; [lia|].
  exists (ord a / 16), (ord a mod 16). rewrite Hhi, Hlo, Hh, Hl. cbn [default].
  split; [by apply to_digit16_from_digit16|]. split; [by apply to_digit16_from_digit16|].
  rewrite <-(chr_ord a) at 3. f_equal. lia.
Qed.

Create Rewrite HintDb rust_str.
#[export] Hint Rewrite app_nil_r_str app_assoc_str unpieces_app unpieces_pieces trim_idem : rust_str.

Lemma ascii_lower_idem a : ascii_lower (ascii_lower a) = ascii_lower a.
Proof. by destruct a as [[] [] [] [] [] [] [] []]. Qed.

Lemma to_ascii_lowercase_idem s : to_ascii_lowercase (to_ascii_lowercase s) = to_ascii_lowercase s.
Proof. induction s as [|a s IH]; simpl; [done|]. by rewrite ascii_lower_idem, IH. Qed.
