(* ===== verification/Externals.v ===== *)
(** * Third-party code

    The crates the program calls but that are not part of its source: data types
    as their documentation gives them, operations as members of type classes (so
    that every definition of the library takes them as parameters), and the
    documented behaviour the proofs rely on as separate classes of laws. *)
From S2P Require Import Prelude RustStr.
Open Scope string_scope.
Open Scope list_scope.
Open Scope Z_scope.

(** The environment variables that are set to valid Unicode ([std::env::var]). *)
Definition Environment : Type := string -> option string.

(** ** [serde_json] *)

(** [serde_json::Value]; an object is the sequence of its entries, a number that
    is not an integer is kept as its text. *)
#[warnings="-register-all"]
Inductive Json : Type :=
| JNull
| JBool (b : bool)
| JNum (n : Z)
| JFloat (text : string)
| JStr (s : string)
| JArr (l : list Json)
| JObj (l : list (string * Json)).

Fixpoint assoc_get {V} (k : string) (l : list (string * V)) : option V :=
  match l with
  | [] => None
  | (k', v) :: l' => if String.eqb k' k then Some v else assoc_get k l'
  end.

(** [Value::get(&str)], [as_str], [as_bool], [as_u64], [as_object]. *)
Definition json_get (v : Json) (k : string) : option Json :=
  match v with JObj l => assoc_get k l | _ => None end.
Definition json_as_str (v : Json) : option string :=
  match v with JStr s => Some s | _ => None end.
Definition json_as_bool (v : Json) : option bool :=
  match v with JBool b => Some b | _ => None end.
Definition json_as_u64 (v : Json) : option Z :=
  match v with JNum n => if in_range 0 u64_max n then Some n else None | _ => None end.
Definition json_as_object (v : Json) : option (list (string * Json)) :=
  match v with JObj l => Some l | _ => None end.

(** [json!] on an [Option]. *)
Definition json_opt {A} (f : A -> Json) (o : option A) : Json :=
  match o with Some a => f a | None => JNull end.

Class SerdeJson := {
  json_from_slice : string -> option Json;
  json_to_vec : Json -> string;
}.

(** The object has one entry with this key. *)
Definition once {V} (k : string) (l : list (string * V)) : Prop :=
  length (List.filter (fun p => String.eqb (fst p) k) l) = 1%nat.

(** What of a value survives being written and read: everything but the order of the
    entries of objects, entries that share a key (the last one wins), and the exact
    value of numbers that are no 64-bit integers. *)
#[warnings="-register-all"]
Inductive same_json : Json -> Json -> Prop :=
| same_null : same_json JNull JNull
| same_bool b : same_json (JBool b) (JBool b)
| same_num n : same_json (JNum n) (JNum n)
| same_wide n v : ~ - 2 ^ 63 <= n <= u64_max -> same_json (JNum n) v
| same_float t v : same_json (JFloat t) v
| same_str s : same_json (JStr s) (JStr s)
| same_arr l l' : Forall2 same_json l l' -> same_json (JArr l) (JArr l')
| same_obj l l' :
    (forall k x, once k l -> assoc_get k l = Some x ->
       once k l' /\ exists x', assoc_get k l' = Some x' /\ same_json x x') ->
    (forall k, assoc_get k l = None -> assoc_get k l' = None) ->
    same_json (JObj l) (JObj l').

(** What is read back of a written value, when it can be read (nested too deeply it
    cannot), is that value, up to the above. *)
Class SerdeJsonLaws `{SerdeJson} : Prop := {
  json_read_back : forall v v', json_from_slice (json_to_vec v) = Some v' -> same_json v v';
}.

(** ** [sha2] *)

Class Sha2 := { sha256_digest : string -> string }.

Class Sha2Laws `{Sha2} : Prop := {
  sha256_length : forall s, String.length (sha256_digest s) = 32%nat;
}.

(** ** [fiducia_routing] *)

Class FiduciaRouting := {
  shard_for : string -> Z -> Z;
  org_scoped_key : string -> string -> string;
  LOCK_COORDINATION_KEY : string;
  SERVICE_DISCOVERY_KEY : string;
}.

Definition soh : string := String (chr 1) "".

(** A key's shard is below the (non-zero) shard count, and the scoped form of a
    key is [\x01{org}\x01{key}]. *)
Class FiduciaRoutingLaws `{FiduciaRouting} : Prop := {
  shard_for_range : forall key n, 0 < n -> 0 <= shard_for key n < n;
  org_scoped_key_eq : forall org key, org_scoped_key org key = soh +:+ org +:+ soh +:+ key;
}.

(** ** [url] (through [reqwest::Url]) *)

Record Url := mkUrl {
  url_as_str : string;
  url_scheme : string;
  url_host_str : option string;
  url_username : string;
  url_password : option string;
  url_query : option string;
  url_fragment : option string;
  url_path : string;
}.

Class UrlCrate := { url_parse : string -> option Url }.

(** The serialisation of a parsed [http(s)] origin, with or without its root
    path, has no surrounding whitespace, starts with its scheme and parses to the
    same URL. *)
Definition is_http_origin (u : Url) : bool :=
  (String.eqb (url_scheme u) "http" || String.eqb (url_scheme u) "https")
  && negb (is_none (url_host_str u)) && String.eqb (url_username u) ""
  && is_none (url_password u) && is_none (url_query u) && is_none (url_fragment u)
  && String.eqb (url_path u) "/".

Class UrlLaws `{UrlCrate} : Prop := {
  url_origin_reparse : forall s u,
    url_parse s = Some u -> is_http_origin u = true ->
    url_parse (trim_end_matches "/" (url_as_str u)) = Some u;
  url_origin_text : forall s u,
    url_parse s = Some u -> is_http_origin u = true ->
    let t := trim_end_matches "/" (url_as_str u) in
    trim t = t /\ starts_with (url_scheme u +:+ "://") t = true;
}.

(** ** [http]: methods, URIs, header maps *)

Inductive Method : Type :=
| GET | HEAD | OPTIONS | POST | PUT | PATCH | DELETE | CONNECT | TRACE
| ExtensionMethod (s : string).

#[export] Instance Method_eq_dec : EqDecision Method.
Proof. solve_decision. Defined.

Definition method_as_str (m : Method) : string :=
  match m with
  | GET => "GET" | HEAD => "HEAD" | OPTIONS => "OPTIONS" | POST => "POST" | PUT => "PUT"
  | PATCH => "PATCH" | DELETE => "DELETE" | CONNECT => "CONNECT" | TRACE => "TRACE"
  | ExtensionMethod s => s
  end.

(** What the accessors of [http::Uri] return. *)
Record Uri := mkUri {
  uri_scheme : option string;
  uri_authority : option string;
  uri_path : string;
  uri_query : option string;
  uri_path_and_query : option string;
}.

(** The URI a constant absolute path parses to. *)
Definition uri_of_path (p : string) : Uri := mkUri None None p None (Some p).

(** [HeaderMap]: a multimap; header names are stored in lower case, so looking
    a (lower-case) name up is comparing strings. *)
Definition HeaderMap : Type := list (string * string).

Definition hm_get (h : HeaderMap) (name : string) : option string := assoc_get name h.

Definition hm_get_all (h : HeaderMap) (name : string) : list string :=
  map snd (List.filter (fun p => String.eqb (fst p) name) h).

Definition hm_append (h : HeaderMap) (name value : string) : HeaderMap :=
  h ++ [(name, value)].

(** [insert] replaces every value the name had. *)
Definition hm_insert (h : HeaderMap) (name value : string) : HeaderMap :=
  List.filter (fun p => negb (String.eqb (fst p) name)) h ++ [(name, value)].

(** Header values are bytes; [to_str] succeeds on visible ASCII only. The
    conversions between [http]'s and [reqwest]'s names, values and methods. *)
Class Http := {
  hv_to_str : string -> option string;
  hv_from_str : string -> option string;
  hn_from_bytes : string -> option string;
  hv_from_bytes : string -> option string;
  method_from_bytes : string -> option Method;
  uri_parse : string -> option Uri;
}.

Definition visible_ascii (a : ascii) : bool := in_range 32 126 (ord a) || (ord a =? 9).

Definition no_ctl_byte (a : ascii) : bool :=
  negb ((ord a <? 32) || (ord a =? 127)) || (ord a =? 9).

Fixpoint all_bytes (f : ascii -> bool) (s : string) : bool :=
  match s with "" => true | String a s' => f a && all_bytes f s' end.

(** Printable, non-blank ASCII. *)
Definition graphic (a : ascii) : bool := in_range 33 126 (ord a).

Class HttpLaws `{Http} : Prop := {
  hv_to_str_Some : forall v s, hv_to_str v = Some s -> s = v /\ all_bytes visible_ascii s = true;
  hv_to_str_visible : forall v, all_bytes visible_ascii v = true -> hv_to_str v = Some v;
  hv_from_str_Some : forall s v, hv_from_str s = Some v -> v = s;
  hv_from_str_visible : forall s, all_bytes visible_ascii s = true -> hv_from_str s = Some s;
  hv_from_str_ctl : forall s, all_bytes no_ctl_byte s = false -> hv_from_str s = None;
  hv_from_bytes_Some : forall s v, hv_from_bytes s = Some v -> v = s;
  hn_from_bytes_Some : forall s v, hn_from_bytes s = Some v -> v = to_ascii_lowercase s;
  method_from_as_str : forall m,
    (forall s, m <> ExtensionMethod s) -> method_from_bytes (method_as_str m) = Some m;
}.

(** ** [fiducia_interfaces]: the shared payload contract *)

Record Introspection := mkIntrospection {
  in_valid : bool;
  in_org_id : option string;
  in_key_id : option string;
  in_scopes : list string;
  in_require_idempotency : option bool;
}.

Inductive ProposeErrorReason : Type := NotLeaderReason | UnavailableReason.

Record ProposeError := mkProposeError {
  pe_reason : ProposeErrorReason;
  pe_leader : option string;
}.

(** Deserialisation of the two types. *)
Class FiduciaInterfaces := {
  propose_error_from_value : Json -> option ProposeError;
  introspection_from_slice : string -> option Introspection;
}.

(** ** [reqwest] *)

(** [RequestBuilder] keeps the first error of its calls and [send] returns it; a
    connection error is another kind of error. [request_url_ok]: the URL text is
    accepted by [Client::request]. *)
Class Reqwest := {
  request_url_ok : string -> bool;
  builder_error_is_connect : bool;
}.

Class ReqwestLaws `{Reqwest} : Prop := {
  builder_error_not_connect : builder_error_is_connect = false;
}.

(** A request handed to a client whose answer is read into memory, and what the
    exchange came to; the body may fail to arrive. *)
Record ClientRequest := mkClientRequest {
  cq_url : string;
  cq_headers : HeaderMap;
  cq_body : string;
}.

Inductive ClientReply : Type :=
| NoReply
| Replied (status : Z) (body : option string).

(** ** [axum]: responses and bodies *)

(** A body is bytes in memory or a stream of chunks, which may end in an error. *)
Inductive Body : Type :=
| BodyFull (bytes : string)
| BodyStream (chunks : list string) (failed : bool).

Record Response := mkResponse {
  rs_status : Z;
  rs_headers : HeaderMap;
  rs_body : Body;
}.

#[export] Instance Body_eq_dec : EqDecision Body.
Proof. solve_decision. Defined.
#[export] Instance Response_eq_dec : EqDecision Response.
Proof. solve_decision. Defined.

(** [axum::body::to_bytes(body, limit)]. *)
Class AxumBody := { to_bytes : Body -> Z -> option string }.

Class AxumBodyLaws `{AxumBody} : Prop := {
  to_bytes_full : forall b limit,
    to_bytes (BodyFull b) limit = if str_len b <=? limit then Some b else None;
  to_bytes_limit : forall b limit r, to_bytes b limit = Some r -> str_len r <= limit;
}.

(** [(status, Json(v)).into_response()]. *)
Definition json_response `{SerdeJson} (status : Z) (v : Json) : Response :=
  mkResponse status [("content-type", "application/json")] (BodyFull (json_to_vec v)).

(** [(status, headers, Json(v)).into_response()]. *)
Definition json_response_with `{SerdeJson} (status : Z) (hs : HeaderMap) (v : Json) : Response :=
  mkResponse status (fold_left (fun h '(n, x) => hm_insert h n x) hs [("content-type", "application/json")])
    (BodyFull (json_to_vec v)).

Definition status_is_success (s : Z) : bool := in_range 200 299 s.
Definition status_is_server_error (s : Z) : bool := in_range 500 599 s.

(** [StatusCode::from_u16]: 100 to 999. *)
Definition status_from_u16 (s : Z) : option Z := if in_range 100 999 s then Some s else None.

(** ** Lemmas *)

Lemma assoc_get_elem {V} k (l : list (string * V)) v : assoc_get k l = Some v -> (k, v) ∈ l.
Proof.
  induction l as [|[k' w] l IH]; cbn; [done|]. destruct (String.eqb_spec k' k) as [->|];
    [intros [= ->]; left|right; auto].
Qed.

Lemma same_json_refl : forall v, same_json v v.
Proof.
  fix IH 1. intros [|b|n|t|s|l|l]; try by constructor.
  - constructor. induction l; constructor; auto.
  - assert (Hl : Forall (fun p => same_json (snd p) (snd p)) l)
      by (induction l as [|[k x] l IHl]; constructor; [apply (IH x)|apply IHl]).
    constructor; [|done]. intros k x Ho Hx. split; [done|]. exists x. split; [done|].
    rewrite Forall_forall in Hl. by apply (Hl (k, x)), assoc_get_elem.
Qed.

Lemma same_json_trans : forall u v w, same_json u v -> same_json v w -> same_json u w.
Proof.
  fix IH 1. intros u v w Huv Hvw. destruct u as [|b|n|t|s|l|l].
  - inversion Huv; subst. exact Hvw.
  - inversion Huv; subst. exact Hvw.
  - inversion Huv; subst; [exact Hvw|by apply same_wide].
  - apply same_float.
  - inversion Huv; subst. exact Hvw.
  - assert (Hl : Forall (fun x => forall y z, same_json x y -> same_json y z -> same_json x z) l).
    { clear -IH. induction l as [|x l IHl]; constructor; [apply (IH x)|apply IHl]. }
    inversion Huv as [| | | | | |? l1 H1|]; subst. inversion Hvw as [| | | | | |? l2 H2|]; subst.
    constructor. clear -Hl H1 H2. revert l1 l2 H1 H2.
    induction Hl as [|x l Hx _ IHl]; intros l1 l2 H1 H2; inversion H1; subst; inversion H2; subst;
      constructor; eauto.
  - inversion Huv as [| | | | | | |? l1 H1 H2]; subst. inversion Hvw as [| | | | | | |? l2 H3 H4]; subst.
    assert (Hl : Forall (fun p => forall y z, same_json (snd p) y -> same_json y z -> same_json (snd p) z) l).
    { clear -IH. induction l as [|[k x] l IHl]; constructor; [apply (IH x)|apply IHl]. }
    constructor; [|auto]. intros k x Ho Hx. destruct (H1 k x Ho Hx) as (Ho' & x' & Hx' & Hs).
    destruct (H3 k x' Ho' Hx') as (Ho2 & x2 & Hx2 & Hs2). split; [done|]. exists x2. split; [done|].
    rewrite Forall_forall in Hl. by eapply (Hl (k, x)); [by apply assoc_get_elem|..].
Qed.

(** Reading a field of a value that was read back. *)
Lemma same_get l v k x :
  same_json (JObj l) v -> once k l -> assoc_get k l = Some x ->
  exists x', json_get v k = Some x' /\ same_json x x'.
Proof. intros H Ho Hx. inversion H as [| | | | | | |? l' H1 _]; subst. by destruct (H1 k x Ho Hx). Qed.

Lemma same_get_str l v k s :
  same_json (JObj l) v -> once k l -> assoc_get k l = Some (JStr s) -> json_get v k = Some (JStr s).
Proof. intros H Ho Hx. destruct (same_get _ _ _ _ H Ho Hx) as (x' & -> & Hs). by inversion Hs. Qed.

Lemma same_get_bool l v k b :
  same_json (JObj l) v -> once k l -> assoc_get k l = Some (JBool b) -> json_get v k = Some (JBool b).
Proof. intros H Ho Hx. destruct (same_get _ _ _ _ H Ho Hx) as (x' & -> & Hs). by inversion Hs. Qed.

Lemma same_get_None l v k : same_json (JObj l) v -> assoc_get k l = None -> json_get v k = None.
Proof. intros H Hx. inversion H as [| | | | | | |? l' _ H2]; subst. cbn. auto. Qed.


Lemma assoc_get_app {V} k (l1 l2 : list (string * V)) :
  assoc_get k (l1 ++ l2) = match assoc_get k l1 with Some v => Some v | None => assoc_get k l2 end.
Proof. induction l1 as [|[k' v] l1 IH]; simpl; [done|]. destruct (String.eqb k' k); [done|exact IH]. Qed.

Lemma assoc_get_Some {V} k (l : list (string * V)) v : assoc_get k l = Some v -> (k, v) ∈ l.
Proof.
  induction l as [|[k' v'] l IH]; simpl; [done|].
  destruct (String.eqb_spec k' k) as [->|_]; [intros [= ->]; left|intros H; right; auto].
Qed.

Lemma hm_get_insert_eq h n v : hm_get (hm_insert h n v) n = Some v.
Proof.
  unfold hm_get, hm_insert. rewrite assoc_get_app. simpl. rewrite String.eqb_refl.
  induction h as [|[k x] h IH]; simpl; [done|].
  destruct (String.eqb_spec k n) as [->|Hn]; simpl; [exact IH|].
  destruct (String.eqb_spec k n); [done|exact IH].
Qed.

Lemma hm_get_insert_ne h n m v : n <> m -> hm_get (hm_insert h n v) m = hm_get h m.
Proof.
  intros Hne. unfold hm_get, hm_insert. rewrite assoc_get_app. simpl.
  destruct (String.eqb_spec n m) as [|_]; [done|].
  induction h as [|[k x] h IH]; simpl; [done|].
  destruct (String.eqb_spec k n) as [->|]; simpl.
  - destruct (String.eqb_spec n m); [done|exact IH].
  - destruct (String.eqb_spec k m); [done|exact IH].
Qed.

Lemma all_bytes_contains f a s : all_bytes f s = true -> contains_char a s = true -> f a = true.
Proof.
  induction s as [|b s IH]; simpl; [done|]. intros Hf Hc. breflect.
  apply orb_true_iff in Hc as [Hc|Hc]; [breflect; by subst|auto].
Qed.

Lemma all_bytes_app f s t : all_bytes f (s +:+ t) = all_bytes f s && all_bytes f t.
Proof. induction s; simpl; [done|]. rewrite IHs. apply andb_assoc. Qed.

Lemma all_bytes_mono (f g : ascii -> bool) s :
  (forall a, f a = true -> g a = true) -> all_bytes f s = true -> all_bytes g s = true.
Proof. intros H. induction s; simpl; [done|]. intros. breflect. apply andb_true_iff. auto. Qed.

(** Text without whitespace has nothing to trim. *)
Lemma graphic_pieces s :
  all_bytes graphic s = true -> Forall (fun p => piece_ws p = false) (pieces s).
Proof.
  intros Hs. rewrite Forall_forall. intros [c b] Hin.
  pose proof (pieces_ascii_ok s) as Hok. rewrite Forall_forall in Hok. specialize (Hok _ Hin).
  pose proof (pieces_nonempty s) as Hne. rewrite Forall_forall in Hne. specialize (Hne _ Hin).
  destruct b as [|a b]; [done|].
  assert (Hg : graphic a = true).
  { apply (all_bytes_contains _ _ s Hs). rewrite <-(unpieces_pieces s), unpieces_contains.
    apply existsb_elem_of. exists (c, String a b). split; [done|]. simpl. by rewrite (proj2 (Ascii.eqb_eq _ _)). }
  unfold graphic, in_range in Hg. breflect.
  assert (E : (c, String a b) = (Some (ord a), String a "")).
  { apply Hok; [|lia]. simpl. by rewrite (proj2 (Ascii.eqb_eq _ _)). }
  injection E as -> _. unfold piece_ws, piece_code, is_whitespace, in_range. simpl.
  rewrite !orb_false_iff, !andb_false_iff, !Z.leb_gt, !Z.eqb_neq. lia.
Qed.

Lemma trim_graphic s : all_bytes graphic s = true -> trim s = s.
Proof.
  intros Hs%graphic_pieces. unfold trim.
  rewrite (drop_while_none _ (pieces s)).
  2:{ destruct Hs; done. }
  rewrite drop_while_none, rev_involutive, unpieces_pieces; [done|].
  apply Forall_rev in Hs. by destruct Hs.
Qed.

Create Rewrite HintDb header.
#[export] Hint Rewrite hm_get_insert_eq : header.

(** ** [HashMap]: iteration order *)

(** The order in which a [HashMap] with given contents is iterated: unspecified,
    but every entry comes exactly once. *)
Class HashOrder := { hash_order : forall {V}, gmap string V -> list (string * V) }.

Class HashOrderLaws `{HashOrder} : Prop := {
  hash_order_perm : forall V (m : gmap string V), hash_order m ≡ₚ map_to_list m;
}.

(** [Iterator::min_by_key]: the first of the minimal elements. *)
Fixpoint min_by_key {A} (key : A -> Z) (l : list A) : option A :=
  match l with
  | [] => None
  | x :: l =>
      match min_by_key key l with
      | Some y => if key x <=? key y then Some x else Some y
      | None => Some x
      end
  end.

Lemma min_by_key_Some {A} (key : A -> Z) l x :
  min_by_key key l = Some x -> x ∈ l /\ forall y, y ∈ l -> key x <= key y.
Proof.
  revert x. induction l as [|a l IH]; intros x; simpl; [done|].
  destruct (min_by_key key l) as [y|] eqn:E.
  - destruct (IH y eq_refl) as [Hy Hmin].
    destruct (Z.leb_spec (key a) (key y)); intros [= <-]; split.
    + left.
    + intros z [->|Hz]%elem_of_cons; [lia|]. specialize (Hmin z Hz). lia.
    + by right.
    + intros z [->|Hz]%elem_of_cons; [lia|auto].
  - intros [= <-]. destruct l as [|b l].
    + split; [left|]. intros y [->|Hy]%elem_of_cons; [done|]. by apply not_elem_of_nil in Hy.
    + simpl in E. destruct (min_by_key key l); [destruct (_ <=? _)|]; done.
Qed.

Lemma min_by_key_None {A} (key : A -> Z) l : min_by_key key l = None -> l = [].
Proof.
  destruct l as [|a l]; [done|]. simpl. destruct (min_by_key key l); [destruct (_ <=? _)|]; done.
Qed.
