(* ===== verification/Instances.v ===== *)
(** * Concrete third-party parameters

    One concrete function for every parameter of [Externals], with proofs of the
    laws, so that the theorems can be applied at concrete inputs: FNV-1a for the
    shard hash, a reversible code for JSON values, a checksum padded to 32 bytes
    for the digest, and small parsers for URLs and URIs. *)
From S2P Require Import Prelude RustStr Externals.
Open Scope string_scope.
Open Scope list_scope.
Open Scope Z_scope.

(** ** Routing *)

Fixpoint fnv1a_from (h : Z) (s : string) : Z :=
  match s with
  | "" => h
  | String a s' => fnv1a_from ((Z.lxor h (ord a) * 1099511628211) mod 2 ^ 64) s'
  end.

#[export] Instance demo_routing : FiduciaRouting := {|
  shard_for key n := fnv1a_from 14695981039346656037 key mod n;
  org_scoped_key org key := soh +:+ org +:+ soh +:+ key;
  LOCK_COORDINATION_KEY := "__locks__";
  SERVICE_DISCOVERY_KEY := "__services__";
|}.

#[export] Instance demo_routing_laws : FiduciaRoutingLaws.
Proof.
  split; [|done]. intros key n Hn. cbn. by apply Z.mod_pos_bound.
Qed.

(** ** JSON: a reversible code

    A tag, then the parts; text is one character in two, the other says whether it
    goes on. *)

Fixpoint put_str (s k : string) : string :=
  match s with
  | "" => String ";" k
  | String a s => String "." (String a (put_str s k))
  end.

Fixpoint get_str (s : string) : option (string * string) :=
  match s with
  | String "." (String a s) =>
      match get_str s with Some (t, k) => Some (String a t, k) | None => None end
  | String ";" k => Some ("", k)
  | _ => None
  end.

Fixpoint pos_bits (p : positive) : string :=
  match p with
  | xH => ""
  | xO p => String "0" (pos_bits p)
  | xI p => String "1" (pos_bits p)
  end.

Fixpoint bits_pos (s : string) : positive :=
  match s with
  | String "0" s => xO (bits_pos s)
  | String "1" s => xI (bits_pos s)
  | _ => xH
  end.

Definition num_text (n : Z) : string :=
  match n with Z0 => "" | Zpos p => String "+" (pos_bits p) | Zneg p => String "-" (pos_bits p) end.

Definition text_num (s : string) : Z :=
  match s with String "+" s => Zpos (bits_pos s) | String "-" s => Zneg (bits_pos s) | _ => 0 end.

Fixpoint put_json (v : Json) (k : string) : string :=
  match v with
  | JNull => String "n" k
  | JBool b => String (if b then "t" else "f")%char k
  | JNum n => String "i" (put_str (num_text n) k)
  | JFloat s => String "d" (put_str s k)
  | JStr s => String "s" (put_str s k)
  | JArr l => String "[" (foldr (fun x k => String "," (put_json x k)) (String "]" k) l)
  | JObj l => String "{" (foldr (fun '(key, x) k => String "," (put_str key (put_json x k))) (String "}" k) l)
  end.

Section Get.
Context (get : string -> option (Json * string)).

Fixpoint get_items (n : nat) (s : string) : option (list Json * string) :=
  match n, s with
  | S n, String "," s =>
      match get s with
      | Some (x, s) => match get_items n s with Some (l, k) => Some (x :: l, k) | None => None end
      | None => None
      end
  | S _, String "]" k => Some ([], k)
  | _, _ => None
  end.

Fixpoint get_fields (n : nat) (s : string) : option (list (string * Json) * string) :=
  match n, s with
  | S n, String "," s =>
      match get_str s with
      | Some (key, s) =>
          match get s with
          | Some (x, s) =>
              match get_fields n s with Some (l, k) => Some ((key, x) :: l, k) | None => None end
          | None => None
          end
      | None => None
      end
  | S _, String "}" k => Some ([], k)
  | _, _ => None
  end.

End Get.

Fixpoint get_json (n : nat) (s : string) : option (Json * string) :=
  match n, s with
  | S n, String c s =>
      match c with
      | "n" => Some (JNull, s)
      | "t" => Some (JBool true, s)
      | "f" => Some (JBool false, s)
      | "i" => match get_str s with Some (t, k) => Some (JNum (text_num t), k) | None => None end
      | "d" => match get_str s with Some (t, k) => Some (JFloat t, k) | None => None end
      | "s" => match get_str s with Some (t, k) => Some (JStr t, k) | None => None end
      | "[" => match get_items (get_json n) n s with Some (l, k) => Some (JArr l, k) | None => None end
      | "{" => match get_fields (get_json n) n s with Some (l, k) => Some (JObj l, k) | None => None end
      | _ => None
      end%char
  | _, _ => None
  end.

Lemma get_put_str s k : get_str (put_str s k) = Some (s, k).
Proof. induction s as [|a s IH]; cbn; [done|by rewrite IH]. Qed.

Lemma text_num_text n : text_num (num_text n) = n.
Proof.
  assert (H : forall p, bits_pos (pos_bits p) = p) by (induction p; cbn; congruence).
  destruct n; cbn; by rewrite ?H.
Qed.

(** The levels and elements below a value, and that its text is longer. *)
Fixpoint fuel (v : Json) : nat :=
  match v with
  | JArr l => S (S (foldr (fun x n => S (fuel x + n)) O l))
  | JObj l => S (S (foldr (fun '(_, x) n => S (fuel x + n)) O l))
  | _ => 1
  end.

Lemma put_str_length s k : (String.length k < String.length (put_str s k))%nat.
Proof. induction s as [|a s IH]; cbn; lia. Qed.

Lemma fuel_enough : forall v k, (fuel v + String.length k <= String.length (put_json v k))%nat.
Proof.
  fix IH 1. intros [|b|n|s|s|l|l] k; cbn [fuel put_json String.length]; try lia.
  - pose proof (put_str_length (num_text n) k). lia.
  - pose proof (put_str_length s k). lia.
  - pose proof (put_str_length s k). lia.
  - induction l as [|x l IHl]; cbn [foldr String.length]; [lia|].
    pose proof (IH x (foldr (fun x k => String "," (put_json x k)) (String "]" k) l)). lia.
  - induction l as [|[key x] l IHl]; cbn [foldr String.length]; [lia|].
    pose proof (IH x (foldr (fun '(key, x) k => String "," (put_str key (put_json x k))) (String "}" k) l)).
    pose proof (put_str_length key
      (put_json x (foldr (fun '(key, x) k => String "," (put_str key (put_json x k))) (String "}" k) l))). lia.
Qed.

Lemma get_put_json : forall v n k, (fuel v <= n)%nat -> get_json n (put_json v k) = Some (v, k).
Proof.
  fix IH 1. intros v [|n] k; [destruct v; cbn; lia|]. destruct v as [|[]|z|s|s|l|l]; cbn [fuel put_json get_json];
    intros Hn; rewrite ?get_put_str, ?text_num_text; try done.
  - assert (Hl : forall m, (S (foldr (fun x n => S (fuel x + n)) O l) <= m <= n)%nat ->
      get_items (get_json n) m (foldr (fun x k => String "," (put_json x k)) (String "]" k) l) = Some (l, k)).
    { clear Hn. induction l as [|x l IHl]; intros [|m] Hm; cbn [foldr] in *; cbn [get_items]; [lia|done|lia|].
      rewrite IH by lia. by rewrite IHl by lia. }
    by rewrite Hl by lia.
  - assert (Hl : forall m, (S (foldr (fun '(_, x) n => S (fuel x + n)) O l) <= m <= n)%nat ->
      get_fields (get_json n) m
        (foldr (fun '(key, x) k => String "," (put_str key (put_json x k))) (String "}" k) l) = Some (l, k)).
    { clear Hn. induction l as [|[key x] l IHl]; intros [|m] Hm; cbn [foldr] in *; cbn [get_fields]; [lia|done|lia|].
      rewrite get_put_str, IH by lia. by rewrite IHl by lia. }
    by rewrite Hl by lia.
Qed.

#[export] Instance demo_json : SerdeJson := {|
  json_to_vec v := put_json v "";
  json_from_slice s :=
    match get_json (String.length s) s with Some (v, "") => Some v | _ => None end;
|}.

#[export] Instance demo_json_laws : SerdeJsonLaws.
Proof.
  split. intros v v'. cbn. rewrite get_put_json.
  - intros [= <-]. apply same_json_refl.
  - pose proof (fuel_enough v ""). cbn in *. lia.
Qed.

Definition json_same : forall v w : Json, {v = w} + {v <> w}.
Proof.
  fix IH 1. intros v w. destruct v as [|b|n|s|s|l|l], w as [|b'|n'|s'|s'|l'|l'];
    try (right; discriminate); [by left|..].
  - destruct (Bool.bool_dec b b'); [left|right]; congruence.
  - destruct (Z.eq_dec n n'); [left|right]; congruence.
  - destruct (String.string_dec s s'); [left|right]; congruence.
  - destruct (String.string_dec s s'); [left|right]; congruence.
  - assert (D : {l = l'} + {l <> l'}); [|destruct D; [left|right]; congruence].
    revert l'. induction l as [|x l IHl]; intros [|y l']; try (right; discriminate); [by left|].
    destruct (IH x y); [|right; congruence]. destruct (IHl l'); [left|right]; congruence.
  - assert (D : {l = l'} + {l <> l'}); [|destruct D; [left|right]; congruence].
    revert l'. induction l as [|[key x] l IHl]; intros [|[key' y] l']; try (right; discriminate); [by left|].
    destruct (String.string_dec key key'); [|right; congruence].
    destruct (IH x y); [|right; congruence]. destruct (IHl l'); [left|right]; congruence.
Defined.

#[export] Instance Json_eq_dec : EqDecision Json := json_same.

(** ** Digest *)

Fixpoint repeat_str (n : nat) (a : ascii) : string :=
  match n with O => "" | S n' => String a (repeat_str n' a) end.

(** The first 31 bytes and a checksum, padded to 32. *)
Fixpoint pad_to (n : nat) (s : string) : string :=
  match n, s with
  | O, _ => ""
  | S n', "" => repeat_str n "0"
  | S n', String a s' => String a (pad_to n' s')
  end.

#[export] Instance demo_sha : Sha2 := {|
  sha256_digest s := String (chr (fnv1a_from 14695981039346656037 s mod 256)) (pad_to 31 s);
|}.

Lemma length_repeat_str n a : String.length (repeat_str n a) = n.
Proof. induction n; simpl; congruence. Qed.

Lemma length_pad_to n s : String.length (pad_to n s) = n.
Proof.
  revert s. induction n as [|n IH]; intros [|a s]; cbn [pad_to repeat_str String.length];
    rewrite ?length_repeat_str, ?IH; done.
Qed.

#[export] Instance demo_sha_laws : Sha2Laws.
Proof. split. intros s. cbn [sha256_digest demo_sha String.length]. by rewrite length_pad_to. Qed.

(** ** Headers and methods *)

#[export] Instance demo_http : Http := {|
  hv_to_str v := if all_bytes visible_ascii v then Some v else None;
  hv_from_str s := if all_bytes no_ctl_byte s then Some s else None;
  hn_from_bytes s := Some (to_ascii_lowercase s);
  hv_from_bytes s := if all_bytes no_ctl_byte s then Some s else None;
  method_from_bytes s :=
    Some (if String.eqb s "GET" then GET else if String.eqb s "HEAD" then HEAD
          else if String.eqb s "OPTIONS" then OPTIONS else if String.eqb s "POST" then POST
          else if String.eqb s "PUT" then PUT else if String.eqb s "PATCH" then PATCH
          else if String.eqb s "DELETE" then DELETE else if String.eqb s "CONNECT" then CONNECT
          else if String.eqb s "TRACE" then TRACE else ExtensionMethod s);
  uri_parse s :=
    if starts_with "/" s then
      match split_once "?" s with
      | Some (p, q) => Some (mkUri None None p (Some q) (Some s))
      | None => Some (uri_of_path s)
      end
    else match strip_prefix "http://" s with
    | Some r =>
        match split_once "/" r with
        | Some (a, p) => Some (mkUri (Some "http") (Some a) ("/" +:+ p) None (Some ("/" +:+ p)))
        | None => Some (mkUri (Some "http") (Some r) "/" None (Some "/"))
        end
    | None => None
    end;
|}.

Lemma visible_no_ctl a : visible_ascii a = true -> no_ctl_byte a = true.
Proof.
  unfold visible_ascii, no_ctl_byte, in_range. intros H.
  apply orb_true_iff in H as [H|H]; breflect; apply orb_true_iff.
  - left. apply negb_true_iff, orb_false_iff. split; [apply Z.ltb_ge|apply Z.eqb_neq]; lia.
  - right. by apply Z.eqb_eq.
Qed.

Lemma demo_method_from_as_str m :
  (forall s, m <> ExtensionMethod s) -> method_from_bytes (method_as_str m) = Some m.
Proof. destruct m; intros H; try reflexivity. by destruct (H s). Qed.

#[export] Instance demo_http_laws : HttpLaws.
Proof.
  split; [.. |exact demo_method_from_as_str]; cbn; intros *; repeat case_match; intros;
    simplify_eq; try done.
  match goal with Hv : all_bytes visible_ascii _ = true |- _ =>
    apply (all_bytes_mono _ no_ctl_byte _ visible_no_ctl) in Hv end. congruence.
Qed.

(** ** URLs: the subset [http(s)://host[/path][?query]] *)

Definition demo_url (scheme rest : string) : option Url :=
  let (hp, q) := match split_once "?" rest with
                 | Some (a, q) => (a, Some q) | None => (rest, None) end in
  let (host, path) := match split_once "/" hp with
                      | Some (h, p) => (h, "/" +:+ p) | None => (hp, "/") end in
  if String.eqb host "" || contains_char "@" host || contains_char "#" rest
     || negb (all_bytes graphic rest) then None
  else Some (mkUrl (scheme +:+ "://" +:+ host +:+ path
                    +:+ match q with Some q => "?" +:+ q | None => "" end)
               scheme (Some host) "" None q None path).

#[export] Instance demo_url_crate : UrlCrate := {|
  url_parse s :=
    match strip_prefix "http://" s with
    | Some r => demo_url "http" r
    | None =>
        match strip_prefix "https://" s with
        | Some r => demo_url "https" r
        | None => None
        end
    end;
|}.

Lemma split_once_Some c s k v :
  split_once c s = Some (k, v) -> s = k +:+ String c v /\ contains_char c k = false.
Proof.
  revert k v. induction s as [|a s IH]; intros k v; simpl; [done|].
  destruct (Ascii.eqb_spec a c) as [->|Hne]; [by intros [= <- <-]|].
  destruct (split_once c s) as [[k' v']|]; [|done]. intros [= <- <-].
  destruct (IH k' v' eq_refl) as [-> Hk]. split; [done|]. simpl.
  rewrite Hk. by destruct (Ascii.eqb_spec a c).
Qed.

Lemma split_once_None c s : split_once c s = None <-> contains_char c s = false.
Proof.
  induction s as [|a s IH]; simpl; [done|].
  destruct (Ascii.eqb_spec a c); simpl; [done|].
  destruct (split_once c s) as [[]|]; naive_solver.
Qed.

Lemma trim_end_matches_snoc c s :
  trim_end_matches c (s +:+ String c "") = trim_end_matches c s.
Proof.
  induction s as [|a s IH]; cbn [String.append trim_end_matches].
  - by rewrite Ascii.eqb_refl.
  - by rewrite IH.
Qed.

Lemma trim_end_matches_id c s : contains_char c s = false -> trim_end_matches c s = s.
Proof.
  induction s as [|a s IH]; simpl; [done|]. intros H. breflect.
  rewrite IH by done. destruct s; [|done]. by destruct (Ascii.eqb_spec a c).
Qed.

Lemma trim_end_matches_app c s t :
  t <> "" -> contains_char c t = false -> trim_end_matches c (s +:+ t) = s +:+ t.
Proof.
  intros Hne Ht. induction s as [|a s IH]; cbn [String.append trim_end_matches].
  - by apply trim_end_matches_id.
  - rewrite IH. destruct (s +:+ t) eqn:E; [|done]. destruct s; simpl in E; congruence.
Qed.

(** An origin of the modelled subset: its text, and that the text reparses. *)
Lemma demo_origin scheme rest u :
  demo_url scheme rest = Some u -> is_http_origin u = true ->
  exists host, u = mkUrl (scheme +:+ "://" +:+ host +:+ "/") scheme (Some host) "" None None None "/"
    /\ demo_url scheme host = Some u /\ host <> "" /\ contains_char "/" host = false
    /\ all_bytes graphic host = true.
Proof.
  unfold demo_url. intros H Ho.
  destruct (match split_once "?" rest with Some (a, q) => (a, Some q) | None => (rest, None) end)
    as [hp q] eqn:Eq.
  destruct (match split_once "/" hp with Some (h, p) => (h, "/" +:+ p) | None => (hp, "/") end)
    as [host path] eqn:Ep.
  destruct (String.eqb host "" || _ || _ || _) eqn:Eb; [done|].
  injection H as <-. unfold is_http_origin in Ho. simpl in Ho. breflect. subst path.
  destruct q; [done|]. simpl. exists host.
  assert (hp = rest) as -> by (destruct (split_once "?" rest) as [[]|]; naive_solver).
  assert (Hq : contains_char "?" rest = false).
  { apply split_once_None. destruct (split_once "?" rest) as [[]|]; naive_solver. }
  assert (Hh : contains_char "/" host = false /\ exists r, rest = host +:+ r).
  { destruct (split_once "/" rest) as [[k v]|] eqn:E; simplify_eq.
    - apply split_once_Some in E as [-> Hk]. eauto.
    - apply split_once_None in E. split; [done|]. exists "". by rewrite app_nil_r_str. }
  destruct Hh as [Hh [r ->]].
  rewrite contains_char_app in *. rewrite all_bytes_app in *. breflect.
  assert (split_once "?" host = None) as -> by (apply split_once_None; done).
  assert (split_once "/" host = None) as -> by (apply split_once_None; done).
  repeat match goal with H : _ = false |- _ => rewrite H end.
  repeat match goal with H : all_bytes _ _ = true |- _ => rewrite H end. simpl.
  by destruct (String.eqb_spec host "").

Qed.

Lemma demo_url_parse_inv s u :
  url_parse s = Some u ->
  exists scheme rest, demo_url scheme rest = Some u
    /\ (scheme = "http" \/ scheme = "https")
    /\ forall r, url_parse (scheme +:+ "://" +:+ r) = demo_url scheme r.
Proof.
  cbn [url_parse demo_url_crate]. intros H.
  destruct (strip_prefix "http://" s) as [r|]; [|destruct (strip_prefix "https://" s) as [r|]; [|done]].
  - exists "http", r. auto.
  - exists "https", r. auto.
Qed.

Lemma demo_trim_origin scheme host :
  host <> "" -> contains_char "/" host = false ->
  trim_end_matches "/" (scheme +:+ "://" +:+ host +:+ "/") = scheme +:+ "://" +:+ host.
Proof.
  intros Hne Hh. rewrite <-!app_assoc_str, trim_end_matches_snoc.
  rewrite trim_end_matches_app by done. by rewrite !app_assoc_str.
Qed.

#[export] Instance demo_url_laws : UrlLaws.
Proof.
  split; intros s u Hs Ho; destruct (demo_url_parse_inv s u Hs) as (sch & rest & Hd & Hsch & Hre);
    destruct (demo_origin _ _ _ Hd Ho) as (host & Hu & Hd2 & Hne & Hh & Hg); rewrite Hu;
    cbn [url_as_str url_scheme]; rewrite demo_trim_origin by done.
  - by rewrite Hre, Hd2, Hu.
  - split.
    + apply trim_graphic. rewrite !all_bytes_app, Hg. by destruct Hsch as [-> | ->].
    + rewrite <-app_assoc_str. apply starts_with_refl_app.
Qed.

(** ** Requests *)

#[export] Instance demo_reqwest : Reqwest := {|
  request_url_ok s := negb (is_none (url_parse s));
  builder_error_is_connect := false;
|}.

#[export] Instance demo_reqwest_laws : ReqwestLaws.
Proof. by split. Qed.

(** ** Bodies *)

#[export] Instance demo_body : AxumBody := {|
  to_bytes b limit :=
    match b with
    | BodyFull s => if str_len s <=? limit then Some s else None
    | BodyStream chunks failed =>
        if failed then None
        else if str_len (concat_str chunks) <=? limit then Some (concat_str chunks) else None
    end;
|}.

#[export] Instance demo_body_laws : AxumBodyLaws.
Proof.
  split; [done|]. intros [s|chunks [|]] limit r; cbn; [|done|]; intros H;
    case_match; simplify_eq; by breflect.
Qed.

(** ** The payload contract *)

#[export] Instance demo_interfaces : FiduciaInterfaces := {|
  propose_error_from_value v :=
    match json_get v "reason" with
    | Some (JStr r) =>
        let leader := match json_get v "leader" with Some (JStr l) => Some l | _ => None end in
        if String.eqb r "not_leader" then Some (mkProposeError NotLeaderReason leader)
        else if String.eqb r "unavailable" then Some (mkProposeError UnavailableReason leader)
        else None
    | _ => None
    end;
  introspection_from_slice s :=
    match json_from_slice s with
    | Some v =>
        match json_get v "valid" with
        | Some (JBool b) =>
            let text k := match json_get v k with Some (JStr x) => Some x | _ => None end in
            Some (mkIntrospection b (text "org_id") (text "key_id")
              (match json_get v "scopes" with
               | Some (JArr l) => omap json_as_str l | _ => [] end)
              (match json_get v "require_idempotency" with
               | Some (JBool b) => Some b | _ => None end))
        | _ => None
        end
    | None => None
    end;
|}.

(** ** Iteration order *)

#[export] Instance demo_order : HashOrder := {| hash_order V m := map_to_list m |}.

#[export] Instance demo_order_laws : HashOrderLaws.
Proof. by split. Qed.
