(* ===== verification/Routing.v ===== *)
(** * Request to routing key ([src/routing.rs])

    [routing_key] and [routing_key_with_body] translate the functions of the same
    names; a slice pattern of the source's [match segs.as_slice()] is a test on the
    segments after a literal prefix ([segs_start]), in the order of the arms. The
    theorems: the percent decoders invert every encoding, the coordinator keys are
    never scoped, two organisations never share a key, a customer idempotency
    record is addressed by the same key at claim and completion, but not at
    abandonment. *)
From S2P Require Import Prelude RustStr Externals Instances.
Open Scope string_scope.
Open Scope list_scope.
Open Scope Z_scope.
Open Scope rust_scope.

(** ** Path segments *)

(** [uri.path().trim_matches('/').split('/').filter(|s| !s.is_empty()).collect()]. *)
Definition path_segments (path : string) : list string :=
  List.filter (fun s => negb (String.eqb s "")) (split_on "/" (trim_matches "/" path)).

(** What follows a literal prefix of the segments. *)
Fixpoint segs_start (p segs : list string) : option (list string) :=
  match p, segs with
  | [], _ => Some segs
  | a :: p', b :: segs' => if String.eqb a b then segs_start p' segs' else None
  | _ :: _, [] => None
  end.

(** The slice patterns [[p..]] and [[p.., ..]]. *)
Definition segs_exact (p segs : list string) : bool :=
  match segs_start p segs with Some [] => true | _ => false end.
Definition segs_under (p segs : list string) : bool :=
  match segs_start p segs with Some _ => true | None => false end.

(** The slice pattern [[p.., _op]]. *)
Definition segs_op (p segs : list string) : bool :=
  match segs_start p segs with Some [_] => true | _ => false end.

(** ** Decoding *)

Fixpoint percent_decode_bytes (plus_as_space : bool) (s : string) : string :=
  match s with
  | "" => ""
  | String b r =>
      if Ascii.eqb b "+" && plus_as_space then String " " (percent_decode_bytes plus_as_space r)
      else if Ascii.eqb b "%" then
        match r with
        | String b1 (String b2 r2) =>
            match to_digit16 b1, to_digit16 b2 with
            | Some h, Some l => String (chr ((h * 16 + l) mod 256)) (percent_decode_bytes plus_as_space r2)
            | _, _ => String b (percent_decode_bytes plus_as_space r)
            end
        | _ => String b (percent_decode_bytes plus_as_space r)
        end
      else String b (percent_decode_bytes plus_as_space r)
  end.

Definition percent_decode (s : string) (plus_as_space : bool) : string :=
  from_utf8_lossy (percent_decode_bytes plus_as_space s).

Definition percent_decode_query (s : string) : string := percent_decode s true.
Definition percent_decode_path (s : string) : string := percent_decode s false.

Definition query_param (uri : Uri) (name : string) : option string :=
  let! q := uri_query uri in
  find_map (fun pair =>
    let! (k, v) := split_once "=" pair in
    if String.eqb k name then Some (percent_decode_query v) else None) (split_on "&" q).

Section Keys.
Context `{FR : FiduciaRouting} `{SJ : SerdeJson}.

Definition json_body_field (body field : string) : option string :=
  let! value := json_from_slice body in
  let! v := json_get value field in
  json_as_str v.

(** The [scoped] closure. *)
Definition scoped (org_id : option string) (key : string) : string :=
  match org_id with Some org => org_scoped_key org key | None => key end.

(** The families routed by [?name=] / the body's [name]. *)
Definition name_families : list string :=
  ["barriers"; "tasks"; "effects"; "handoffs"; "decisions"; "budgets"; "claims"].

Definition routing_key (uri : Uri) (org_id : option string) : option string :=
  let segs := path_segments (uri_path uri) in
  if segs_exact ["v1"; "kv"] segs then scoped org_id <$> query_param uri "key"
  else if segs_under ["v1"; "locks"] segs || segs_under ["v1"; "semaphores"] segs
  then Some LOCK_COORDINATION_KEY
  else if segs_exact ["v1"; "idempotency"] segs then scoped org_id <$> query_param uri "key"
  else match segs_start ["v1"; "rate-limit"] segs, segs_start ["v1"; "ratelimit"] segs with
  | Some (_ :: key :: _), _ | _, Some (_ :: key :: _) =>
      Some (scoped org_id (percent_decode_path key))
  | _, _ =>
  match segs_start ["v1"; "cron"; "schedules"] segs with
  | Some (name :: _) => Some (scoped org_id (percent_decode_path name))
  | _ =>
  match segs_start ["v1"; "elections"] segs with
  | Some (name :: _) => Some (scoped org_id (percent_decode_path name))
  | _ =>
  if segs_under ["v1"; "services"] segs then Some SERVICE_DISCOVERY_KEY
  else if segs_exact ["v1"; "counters"] segs then scoped org_id <$> query_param uri "key"
  else if existsb (fun f => segs_exact ["v1"; f] segs) name_families
  then scoped org_id <$> query_param uri "name"
  else None
  end end end.

Definition routing_key_with_body (uri : Uri) (body : string) (org_id : option string)
  : option string :=
  match routing_key uri org_id with
  | Some key => Some key
  | None =>
      let segs := path_segments (uri_path uri) in
      if segs_exact ["v1"; "idempotency"; "claim"] segs
         || segs_exact ["v1"; "idempotency"; "complete"] segs
      then scoped org_id <$> json_body_field body "key"
      else if segs_op ["v1"; "counters"] segs
      then scoped org_id <$> json_body_field body "key"
      else if existsb (fun f => segs_op ["v1"; f] segs) name_families
      then scoped org_id <$> json_body_field body "name"
      else None
  end.

(** Whether a request is addressed to one of the cluster-reserved coordinators. *)
Definition coordinator_path (path : string) : bool :=
  let segs := path_segments path in
  segs_under ["v1"; "locks"] segs || segs_under ["v1"; "semaphores"] segs
  || segs_under ["v1"; "services"] segs.

End Keys.

(** ** Specification of the encoders *)

(** [encodes plus e r]: [e] is a percent encoding of the bytes [r], in form
    encoding ([plus]: a space may be written [+]) or in path encoding. *)
Inductive encodes (plus : bool) : string -> string -> Prop :=
| encodes_nil : encodes plus "" ""
| encodes_literal b e r :
    b <> "%"%char -> (b = "+"%char -> plus = false) ->
    encodes plus e r -> encodes plus (String b e) (String b r)
| encodes_space e r :
    plus = true -> encodes plus e r -> encodes plus (String "+" e) (String " " r)
| encodes_percent h l hi lo e r :
    to_digit16 h = Some hi -> to_digit16 l = Some lo -> encodes plus e r ->
    encodes plus (String "%" (String h (String l e))) (String (chr (hi * 16 + lo)) r).

#[export] Hint Constructors encodes : fiducia.

(** A canonical encoder: every byte as [%XX]. *)
Definition hex_digit (d : Z) : ascii := default "0"%char (from_digit16 d).

Fixpoint percent_encode (s : string) : string :=
  match s with
  | "" => ""
  | String b r =>
      String "%" (String (hex_digit (ord b / 16)) (String (hex_digit (ord b mod 16)) (percent_encode r)))
  end.

(** ** Lemmas: segments *)

Lemma segs_start_Some p segs r : segs_start p segs = Some r <-> segs = p ++ r.
Proof.
  revert segs. induction p as [|a p IH]; intros segs; simpl; [split; congruence|].
  destruct segs as [|b segs]; [done|].
  destruct (String.eqb_spec a b) as [->|Hne].
  - rewrite IH. split; congruence.
  - split; [done|]. intros [=]. congruence.
Qed.

Lemma segs_under_true p segs : segs_under p segs = true <-> exists r, segs = p ++ r.
Proof.
  unfold segs_under. destruct (segs_start p segs) as [r|] eqn:E.
  - apply segs_start_Some in E. split; eauto.
  - split; [done|]. intros [r Hr]. apply segs_start_Some in Hr. congruence.
Qed.

Lemma segs_exact_true p segs : segs_exact p segs = true <-> segs = p.
Proof.
  unfold segs_exact. destruct (segs_start p segs) as [r|] eqn:E.
  - apply segs_start_Some in E as ->.
    destruct r; (split; [|intros H]); try done; [by rewrite app_nil_r|].
    apply (f_equal length) in H. rewrite length_app in H. simpl in H. lia.
  - split; [done|]. intros ->.
    assert (H : segs_start p p = Some []) by (apply segs_start_Some; by rewrite app_nil_r).
    congruence.
Qed.

#[export] Hint Resolve segs_start_Some segs_under_true segs_exact_true : fiducia.

(** ** Lemmas: decoding *)

Lemma percent_decode_bytes_encodes plus e r :
  encodes plus e r -> percent_decode_bytes plus e = r.
Proof.
  induction 1 as [|b e r Hb Hp _ IH|e r Hp _ IH|h l hi lo e r Hh Hl _ IH];
    cbn [percent_decode_bytes]; [done|..].
  - destruct (Ascii.eqb_spec b "+") as [->|_].
    + rewrite Hp in * by done. simpl. by rewrite IH.
    + destruct (Ascii.eqb_spec b "%"); [done|]. simpl. by rewrite IH.
  - rewrite Hp in *. simpl. by rewrite IH.
  - rewrite Hh, Hl, IH. simpl.
    apply to_digit16_range in Hh, Hl. by rewrite Z.mod_small by lia.
Qed.

Lemma from_utf8_lossy_valid s : utf8_valid s = true -> from_utf8_lossy s = s.
Proof.
  intros H. rewrite <-(unpieces_pieces s) at 2. unfold from_utf8_lossy, unpieces.
  unfold utf8_valid in H. f_equal. rewrite forallb_forall in H.
  apply map_ext_in. intros p Hp. specialize (H p Hp). by destruct (fst p).
Qed.

Lemma hex_digit_spec d : 0 <= d <= 15 -> to_digit16 (hex_digit d) = Some d.
Proof.
  intros Hd. unfold hex_digit. destruct (from_digit16_total d Hd) as [a Ha].
  rewrite Ha. simpl. by apply to_digit16_from_digit16.
Qed.

Lemma hi_nibble_range b : 0 <= ord b / 16 <= 15.
Proof. pose proof (ord_range b). pose proof (Z.div_lt_upper_bound (ord b) 16 16). 
  pose proof (Z.div_pos (ord b) 16). lia. Qed.

Lemma lo_nibble_range b : 0 <= ord b mod 16 <= 15.
Proof. pose proof (Z.mod_pos_bound (ord b) 16). lia. Qed.

Lemma nibbles b : ord b / 16 * 16 + ord b mod 16 = ord b.
Proof. pose proof (Z.div_mod (ord b) 16). lia. Qed.

Lemma percent_encode_encodes plus s : encodes plus (percent_encode s) s.
Proof.
  induction s as [|b s IH]; cbn [percent_encode]; [constructor|].
  pose proof (encodes_percent plus _ _ _ _ _ _ (hex_digit_spec _ (hi_nibble_range b))
    (hex_digit_spec _ (lo_nibble_range b)) IH) as H.
  by rewrite nibbles, chr_ord in H.
Qed.

(** ** Properties: decoding *)

(** C40. Percent decoding inverts percent encoding: for every encoding of a string
    (any mix of literal bytes, [%XX] in either case and, in a query, [+] for a
    space) the decoder returns exactly that string, in both of its modes; so the
    balancer hashes the key the client meant. *)
Theorem percent_decode_correct (plus : bool) (e r : string) :
  encodes plus e r -> utf8_valid r = true -> percent_decode e plus = r.
Proof.
  intros He Hr. unfold percent_decode. rewrite (percent_decode_bytes_encodes _ _ _ He).
  by apply from_utf8_lossy_valid.
Qed.

Lemma percent_decode_correct_witness :
  percent_decode_query "a%2fb+c" = "a/b c" /\ percent_decode_path "a+b" = "a+b".
Proof.
  split; apply percent_decode_correct;
    [repeat first [apply encodes_space; [reflexivity|]
                  |eapply (encodes_percent _ "2" "f" 2 15); [reflexivity|reflexivity|]
                  |apply encodes_literal; [done|done|]|apply encodes_nil]
    |reflexivity
    |repeat first [apply encodes_literal; [done|done|]|apply encodes_nil]
    |reflexivity].
Defined.

(** ** Lemmas: scoping *)

Section KeyLemmas.
Context `{FR : FiduciaRouting} `{SJ : SerdeJson}.

Lemma fmap_scoped_None (o : option string) : scoped None <$> o = o.
Proof. by destruct o. Qed.

Lemma fmap_scoped org (o : option string) : scoped org <$> o = scoped org <$> (scoped None <$> o).
Proof. by rewrite fmap_scoped_None. Qed.

(** Off the coordinator paths, scoping is applied last: the routing key is the
    scoped form of the anonymous one. *)
Lemma routing_key_scoped uri org :
  coordinator_path (uri_path uri) = false ->
  routing_key uri org = scoped org <$> routing_key uri None.
Proof.
  unfold coordinator_path, routing_key. intros Hc.
  set (segs := path_segments (uri_path uri)) in *.
  apply orb_false_iff in Hc as [Hc Hs]. rewrite Hc, Hs.
  repeat match goal with
  | |- (if ?b then _ else _) = _ => destruct b
  | |- (match ?x with _ => _ end) = _ => destruct x
  end; rewrite ?fmap_scoped_None; done.
Qed.

Lemma routing_key_with_body_scoped uri body org :
  coordinator_path (uri_path uri) = false ->
  routing_key_with_body uri body org = scoped org <$> routing_key_with_body uri body None.
Proof.
  intros Hc. unfold routing_key_with_body. rewrite (routing_key_scoped uri org Hc).
  destruct (routing_key uri None); simpl; [done|].
  repeat case_match; rewrite ?fmap_scoped_None; done.
Qed.

Lemma app_contains_split c a1 b1 a2 b2 :
  contains_char c a1 = false -> contains_char c a2 = false ->
  a1 +:+ String c b1 = a2 +:+ String c b2 -> a1 = a2 /\ b1 = b2.
Proof.
  revert a2. induction a1 as [|x a1 IH]; intros [|y a2] H1 H2 H; simpl in *;
    breflect; simplify_eq; try done.
  destruct (IH a2) as [-> ->]; done.
Qed.

(** The scoped form determines the organisation and the key. *)
Lemma scoped_inj `{!FiduciaRoutingLaws} org1 org2 k1 k2 :
  contains_char (chr 1) org1 = false -> contains_char (chr 1) org2 = false ->
  scoped (Some org1) k1 = scoped (Some org2) k2 -> org1 = org2 /\ k1 = k2.
Proof.
  intros H1 H2. unfold scoped. rewrite !org_scoped_key_eq. unfold soh.
  cbn [String.append]. intros [= Heq]. exact (app_contains_split _ _ _ _ _ H1 H2 Heq).
Qed.

Lemma routing_key_coordinator uri org :
  coordinator_path (uri_path uri) = true ->
  routing_key uri org = Some LOCK_COORDINATION_KEY \/ routing_key uri org = Some SERVICE_DISCOVERY_KEY.
Proof.
  unfold coordinator_path. intros [[H|H]%orb_true_iff|H]%orb_true_iff;
    apply segs_under_true in H as [r Hr]; unfold routing_key; rewrite Hr; [left|left|right]; reflexivity.
Qed.

End KeyLemmas.

(** ** Properties: keys *)

Section KeyProperties.
Context `{FR : FiduciaRouting} `{SJ : SerdeJson}.

(** Lock, semaphore and service-discovery requests are never scoped: one
    cluster-wide coordinator key is used whatever the organisation, the query and
    the body, so a union lock and its members meet on one shard. *)
Theorem coordinator_keys_never_scoped (uri : Uri) :
  coordinator_path (uri_path uri) = true ->
  exists K, (K = LOCK_COORDINATION_KEY \/ K = SERVICE_DISCOVERY_KEY) /\
    forall uri' body org, uri_path uri' = uri_path uri ->
      routing_key_with_body uri' body org = Some K.
Proof.
  unfold coordinator_path. intros H.
  assert (Hpath : (segs_under ["v1"; "locks"] (path_segments (uri_path uri)) = true
      \/ segs_under ["v1"; "semaphores"] (path_segments (uri_path uri)) = true)
    \/ segs_under ["v1"; "services"] (path_segments (uri_path uri)) = true)
    by (by rewrite !orb_true_iff in H).
  destruct Hpath as [[Hp|Hp]|Hp]; apply segs_under_true in Hp as [r Hr];
    [exists LOCK_COORDINATION_KEY|exists LOCK_COORDINATION_KEY|exists SERVICE_DISCOVERY_KEY];
    (split; [auto|]); intros uri' body org Huri; unfold routing_key_with_body, routing_key;
    rewrite Huri, Hr; reflexivity.
Qed.

(** C32. Organisations do not share routing keys: off the coordinator paths, two
    requests of different organisations (whose identifiers hold no [\x01], which
    every identifier the auth layer accepts satisfies) never get the same key,
    whichever endpoints, queries and bodies they use; and a scoped key never
    equals the anonymous key of the same request. *)
Theorem org_keyspaces_disjoint `{!FiduciaRoutingLaws}
    (uri1 uri2 : Uri) (body1 body2 org1 org2 k1 k2 : string) :
  contains_char (chr 1) org1 = false -> contains_char (chr 1) org2 = false -> org1 <> org2 ->
  coordinator_path (uri_path uri1) = false -> coordinator_path (uri_path uri2) = false ->
  routing_key_with_body uri1 body1 (Some org1) = Some k1 ->
  routing_key_with_body uri2 body2 (Some org2) = Some k2 ->
  k1 <> k2 /\ routing_key_with_body uri1 body1 None <> Some k1.
Proof.
  intros Ho1 Ho2 Hne Hc1 Hc2 H1 H2.
  rewrite routing_key_with_body_scoped in H1, H2 by done.
  destruct (routing_key_with_body uri1 body1 None) as [r1|]; [|done].
  destruct (routing_key_with_body uri2 body2 None) as [r2|]; [|done].
  apply (inj Some) in H1 as <-, H2 as <-. split.
  - intros [? _]%scoped_inj; done.
  - intros [= Heq]. apply (f_equal String.length) in Heq. unfold scoped in Heq.
    rewrite org_scoped_key_eq in Heq. rewrite !length_app_str in Heq. unfold soh in Heq.
    simpl in Heq. lia.
Qed.

(** The internal claim and completion of a customer idempotency record are
    addressed by the same key — the record's key, scoped by the caller's
    organisation — and so go to the same shard; abandoning the record is not
    addressed at all: for every body and organisation it has no routing key. *)
Theorem idempotency_record_routing (record_key : string) (body_c body_d body_a : string)
    (org : option string) :
  json_body_field body_c "key" = Some record_key ->
  json_body_field body_d "key" = Some record_key ->
  routing_key_with_body (uri_of_path "/v1/idempotency/claim") body_c org
    = Some (scoped org record_key) /\
  routing_key_with_body (uri_of_path "/v1/idempotency/complete") body_d org
    = Some (scoped org record_key) /\
  routing_key_with_body (uri_of_path "/v1/idempotency/abandon") body_a org = None.
Proof.
  intros Hc Hd. unfold routing_key_with_body.
  assert (routing_key (uri_of_path "/v1/idempotency/claim") org = None) as -> by reflexivity.
  assert (routing_key (uri_of_path "/v1/idempotency/complete") org = None) as -> by reflexivity.
  assert (routing_key (uri_of_path "/v1/idempotency/abandon") org = None) as -> by reflexivity.
  split; [|split]; [by transitivity (scoped org <$> json_body_field body_c "key"); [|rewrite Hc]
                   |by transitivity (scoped org <$> json_body_field body_d "key"); [|rewrite Hd]
                   |reflexivity].
Qed.

End KeyProperties.

(** ** Witnesses *)

Lemma coordinator_keys_never_scoped_witness :
  routing_key_with_body (uri_of_path "/v1/locks/acquire") "" (Some "org_1") = Some "__locks__".
Proof.
  destruct (coordinator_keys_never_scoped (uri_of_path "/v1/locks/acquire") eq_refl)
    as (K & _ & H).
  rewrite (H (uri_of_path "/v1/locks/acquire") "" (Some "org_1") eq_refl).
  rewrite <-(H (uri_of_path "/v1/locks/acquire") "" None eq_refl). reflexivity.
Defined.

Definition kv_uri : Uri := mkUri None None "/v1/kv" (Some "key=orders") (Some "/v1/kv?key=orders").

Lemma org_keyspaces_disjoint_witness :
  routing_key_with_body kv_uri "" (Some "org_a") <> routing_key_with_body kv_uri "" (Some "org_b").
Proof.
  assert (H1 : exists k1, routing_key_with_body kv_uri "" (Some "org_a") = Some k1) by (eexists; reflexivity).
  assert (H2 : exists k2, routing_key_with_body kv_uri "" (Some "org_b") = Some k2) by (eexists; reflexivity).
  destruct H1 as [k1 H1], H2 as [k2 H2]. rewrite H1, H2.
  destruct (org_keyspaces_disjoint kv_uri kv_uri "" "" "org_a" "org_b" k1 k2) as [H _];
    [reflexivity|reflexivity|discriminate|reflexivity|reflexivity|exact H1|exact H2|].
  intros [= E]. exact (H E).
Defined.

Lemma idempotency_record_routing_witness :
  routing_key_with_body (uri_of_path "/v1/idempotency/complete")
    (json_to_vec (JObj [("key", JStr "customer/1/2")])) (Some "org")
  = Some (scoped (Some "org") "customer/1/2").
Proof.
  refine (proj1 (proj2 (idempotency_record_routing "customer/1/2"
    (json_to_vec (JObj [("key", JStr "customer/1/2")]))
    (json_to_vec (JObj [("key", JStr "customer/1/2")])) "" (Some "org") _ _)));
    vm_compute; reflexivity.
Defined.
