(* ===== verification/Table.v ===== *)
(** * Shard to leader routing table ([src/table.rs])

    [RouteTable] is the record of [RouteTable] and [Inner] together; every method
    is a function of the table that returns its result and, when it takes the write
    lock, the new table. Instants are integers, and the time of a call is a
    parameter. [HashMap]s are [gmap]s, the [HashSet] of excluded targets a [gset].
    [table_ok] is the representation invariant; [table_op]/[run_op] list the
    operations that other tasks may perform on the shared table. *)
From S2P Require Import Prelude RustStr Externals Instances.
Open Scope string_scope.
Open Scope list_scope.
Open Scope Z_scope.
Open Scope rust_scope.

Record NodeMetadata := mkNodeMetadata {
  cloud_provider : string;
  region : string;
  cluster_id : string;
}.

Record RouteTable := mkTable {
  shard_count : Z;
  nodes : list string;
  node_metadata : gmap string NodeMetadata;
  leaders : gmap Z string;
  leader_hints : gmap Z Z;
  region_requests : gmap string Z;
  cursor : Z;
}.

(** Deserialised brain snapshots. *)
Record BrainNode := mkBrainNode {
  bn_node_id : string;
  bn_address : string;
  bn_health : string;
  bn_cloud_provider : option string;
  bn_region : option string;
  bn_cluster_id : option string;
}.

Record BrainShard := mkBrainShard {
  bs_shard_id : Z;
  bs_replicas : list string;
  bs_preferred_leader : option string;
}.

Definition DEFAULT_BRAIN_REFRESH_TIMEOUT_SECS : Z := 2.

Definition duration_from_secs_value (value : option string) (default_secs : Z) : Z :=
  match (let! raw := value in parse_uint u64_max (trim raw)) with
  | Some secs => if 0 <? secs then secs else default_secs
  | None => default_secs
  end.

(** [.filter(|node| seen.insert(node.clone()))]. *)
Fixpoint filter_seen (seen : gset string) (l : list string) : list string :=
  match l with
  | [] => []
  | n :: l' =>
      if bool_decide (n ∈ seen) then filter_seen seen l' else n :: filter_seen ({[n]} ∪ seen) l'
  end.

(** The provisional assignment [nodes[shard % nodes.len()]] of shards [0..n]. *)
Fixpoint round_robin (nodes : list string) (n : nat) : gmap Z string :=
  match n with
  | O => ∅
  | S n' =>
      match nodes !! (n' mod length nodes)%nat with
      | Some node => <[Z.of_nat n' := node]> (round_robin nodes n')
      | None => round_robin nodes n'
      end
  end.

(** [sort_by_key] on the entries of a map. *)
Definition shard_le {V} (a b : Z * V) : Prop := fst a <= fst b.
Definition name_le {V} (a b : string * V) : Prop := String.le (fst a) (fst b).

#[export] Instance shard_le_dec {V} : RelDecision (@shard_le V).
Proof. intros a b. unfold shard_le. apply _. Defined.
#[export] Instance name_le_dec {V} : RelDecision (@name_le V).
Proof. intros a b. unfold name_le. apply _. Defined.

Section RouteTable.
Context `{UC : UrlCrate}.

Definition normalize_node_url (address : string) : option string :=
  let address := trim address in
  if String.eqb address "" then None else
  let candidate :=
    if starts_with "http://" address || starts_with "https://" address
    then address else "http://" +:+ address in
  let! parsed := url_parse candidate in
  if negb (String.eqb (url_scheme parsed) "http" || String.eqb (url_scheme parsed) "https")
     || is_none (url_host_str parsed)
     || negb (String.eqb (url_username parsed) "")
     || negb (is_none (url_password parsed))
     || negb (is_none (url_query parsed))
     || negb (is_none (url_fragment parsed))
     || negb (String.eqb (url_path parsed) "/")
  then None
  else Some (trim_end_matches "/" (url_as_str parsed)).

Definition new (shard_count : Z) (seeds : list string) : RouteTable :=
  let nodes := filter_seen ∅ (omap normalize_node_url seeds) in
  mkTable shard_count nodes ∅
    (match nodes with [] => ∅ | _ => round_robin nodes (Z.to_nat shard_count) end) ∅ ∅ 0.

Definition is_hydrated (t : RouteTable) : bool := negb (bool_decide (leaders t = ∅)).

Definition leader_for (t : RouteTable) (shard : Z) : option string := leaders t !! shard.

(** The member whose normalised URL is [normalized]. *)
Definition find_known (normalized : string) (nodes : list string) : option string :=
  find_map (fun node =>
    if bool_decide (normalize_node_url node = Some normalized) then Some node else None) nodes.

Definition accept_leader_hint (now shard : Z) (node_url : string) (t : RouteTable)
  : option string * RouteTable :=
  match normalize_node_url node_url with
  | None => (None, t)
  | Some normalized =>
      match find_known normalized (nodes t) with
      | None => (None, t)
      | Some known =>
          (Some known,
           mkTable (shard_count t) (nodes t) (node_metadata t) (<[shard := known]> (leaders t))
             (<[shard := now]> (leader_hints t)) (region_requests t) (cursor t))
      end
  end.

Definition validate_node_hint (node_url : string) (t : RouteTable) : option string :=
  let! normalized := normalize_node_url node_url in
  find_known normalized (nodes t).

Definition record_region_request (node_url : string) (t : RouteTable) : RouteTable :=
  let region :=
    match node_metadata t !! node_url with
    | Some m => if String.eqb (region m) "" then "unknown" else region m
    | None => "unknown"
    end in
  mkTable (shard_count t) (nodes t) (node_metadata t) (leaders t) (leader_hints t)
    (<[region := u64_wrapping_add (default 0 (region_requests t !! region)) 1]> (region_requests t))
    (cursor t).

(** The [for _ in 0..nodes.len()] loop; [n] iterations remain. *)
Fixpoint any_node_loop (n : nat) (nodes : list string) (excluded : gset string) (cursor : Z)
  : option string * Z :=
  match n with
  | O => (None, cursor)
  | S n' =>
      let i := Z.to_nat (cursor mod Z.of_nat (length nodes)) in
      let cursor' := u64_wrapping_add cursor 1 in
      match nodes !! i with
      | Some node =>
          if bool_decide (node ∈ excluded) then any_node_loop n' nodes excluded cursor'
          else (Some node, cursor')
      | None => (None, cursor')
      end
  end.

Definition any_node_excluding (excluded : gset string) (t : RouteTable)
  : option string * RouteTable :=
  match nodes t with
  | [] => (None, t)
  | _ =>
      let (r, c) := any_node_loop (length (nodes t)) (nodes t) excluded (cursor t) in
      (r, mkTable (shard_count t) (nodes t) (node_metadata t) (leaders t) (leader_hints t)
            (region_requests t) c)
  end.

Definition any_node (t : RouteTable) : option string * RouteTable := any_node_excluding ∅ t.

(** ** Brain snapshots *)

(** The loop over [nodes]: healthy nodes by trimmed identifier, and the metadata
    by URL; [None] when the snapshot is rejected ([return 0]). *)
Fixpoint collect_nodes (l : list BrainNode) (by_id : gmap string string)
    (metadata : gmap string NodeMetadata)
  : option (gmap string string * gmap string NodeMetadata) :=
  match l with
  | [] => Some (by_id, metadata)
  | node :: l' =>
      if negb (eq_ignore_ascii_case (bn_health node) "healthy") then collect_nodes l' by_id metadata
      else
        let node_id := trim (bn_node_id node) in
        if String.eqb node_id "" then None
        else match normalize_node_url (bn_address node) with
        | None => collect_nodes l' by_id metadata
        | Some url =>
            match by_id !! node_id with
            | Some _ => None
            | None =>
                match metadata !! url with
                | Some _ => None
                | None =>
                    collect_nodes l' (<[node_id := url]> by_id)
                      (<[url := mkNodeMetadata (default "" (bn_cloud_provider node))
                                  (default "" (bn_region node))
                                  (default "" (bn_cluster_id node))]> metadata)
                end
            end
        end
  end.

(** The URL placed for one shard: the preferred leader if it is healthy, else the
    first healthy replica. *)
Definition placement_target (by_id : gmap string string) (shard : BrainShard) : option string :=
  match (let! leader := bs_preferred_leader shard in by_id !! leader) with
  | Some url => Some url
  | None => find_map (fun replica => by_id !! replica) (bs_replicas shard)
  end.

(** The loop over [shards]. *)
Fixpoint collect_leaders (shard_count : Z) (by_id : gmap string string) (l : list BrainShard)
    (acc : gmap Z string) : option (gmap Z string) :=
  match l with
  | [] => Some acc
  | shard :: l' =>
      if shard_count <=? bs_shard_id shard then None
      else
        let! url := placement_target by_id shard in
        match acc !! bs_shard_id shard with
        | Some _ => None
        | None => collect_leaders shard_count by_id l' (<[bs_shard_id shard := url]> acc)
        end
  end.

(** Hints no older than the snapshot keep their (still healthy) leader. *)
Definition keep_hinted (nodes : list string) (old : gmap Z string) (hints : gmap Z Z)
    (fresh : gmap Z string) : gmap Z string :=
  map_fold (fun shard _ acc =>
    match old !! shard with
    | Some current => if bool_decide (current ∈ nodes) then <[shard := current]> acc else acc
    | None => acc
    end) fresh hints.

Definition sort_strings (l : list string) : list string := merge_sort String.le l.

Definition apply_brain_snapshot_at (ns : list BrainNode) (shards : list BrainShard)
    (fetched_at : Z) (t : RouteTable) : Z * RouteTable :=
  match collect_nodes ns ∅ ∅ with
  | None => (0, t)
  | Some (by_id, metadata) =>
      if bool_decide (by_id = ∅) then (0, t) else
      match collect_leaders (shard_count t) by_id shards ∅ with
      | None => (0, t)
      | Some fresh =>
          if negb (Z.of_nat (size fresh) =? shard_count t) then (0, t) else
          let nodes' := sort_strings (map snd (map_to_list by_id)) in
          let hints' := filter (fun p : Z * Z => fetched_at <= snd p) (leader_hints t) in
          (Z.of_nat (size fresh),
           mkTable (shard_count t) nodes' metadata
             (keep_hinted nodes' (leaders t) hints' fresh) hints'
             (region_requests t) (cursor t))
      end
  end.

(** ** Debug view *)

Definition snapshot (t : RouteTable) : Json :=
  JObj [("shard_count", JNum (shard_count t));
        ("nodes", JArr (map JStr (nodes t)));
        ("node_metadata",
          JArr (map (fun '(url, m) =>
            JObj [("url", JStr url); ("cloud_provider", JStr (cloud_provider m));
                  ("region", JStr (region m)); ("cluster_id", JStr (cluster_id m))])
            (merge_sort name_le (map_to_list (node_metadata t)))));
        ("leaders",
          JArr (map (fun '(s, n) => JObj [("shard", JNum s); ("leader", JStr n)])
            (merge_sort shard_le (map_to_list (leaders t)))));
        ("metrics",
          JObj [("region_requests",
            JArr (map (fun '(region, count) => JObj [("region", JStr region); ("requests", JNum count)])
              (merge_sort name_le (map_to_list (region_requests t)))))])].

(** ** Operations of concurrent tasks *)

Inductive table_op : Type :=
| OpAcceptHint (now shard : Z) (node_url : string)
| OpRecordRegion (node_url : string)
| OpAnyNode (excluded : gset string)
| OpRefresh (fetched_at : Z) (nodes : list BrainNode) (placement : list BrainShard).

Definition run_op (o : table_op) (t : RouteTable) : RouteTable :=
  match o with
  | OpAcceptHint now shard url => snd (accept_leader_hint now shard url t)
  | OpRecordRegion url => record_region_request url t
  | OpAnyNode excluded => snd (any_node_excluding excluded t)
  | OpRefresh fetched_at ns ps => snd (apply_brain_snapshot_at ns ps fetched_at t)
  end.

Definition run_ops (l : list table_op) (t : RouteTable) : RouteTable :=
  fold_left (fun t o => run_op o t) l t.

(** What the callers guarantee: hints are given for shards of the table (a shard
    comes from [shard_for]), shard identifiers are unsigned. *)
Definition op_ok (n : Z) (o : table_op) : Prop :=
  match o with
  | OpAcceptHint _ shard _ => 0 <= shard < n
  | OpRefresh _ _ shards => Forall (fun s => 0 <= bs_shard_id s) shards
  | _ => True
  end.

(** ** Invariant *)

Record table_ok (t : RouteTable) : Prop := {
  ok_shard_count : 0 <= shard_count t <= u32_max;
  ok_nodes_nodup : NoDup (nodes t);
  ok_nodes_normal : forall n, n ∈ nodes t -> normalize_node_url n = Some n;
  ok_leaders_member : forall s n, leaders t !! s = Some n -> n ∈ nodes t;
  ok_leaders_range : forall s n, leaders t !! s = Some n -> 0 <= s < shard_count t;
  ok_leaders_total : nodes t <> [] -> forall s, 0 <= s < shard_count t -> is_Some (leaders t !! s);
  ok_hints_range : forall s h, leader_hints t !! s = Some h -> 0 <= s < shard_count t;
  ok_metadata_member : forall u m, node_metadata t !! u = Some m -> u ∈ nodes t;
  ok_requests_u64 : forall r c, region_requests t !! r = Some c -> 0 <= c < 2 ^ 64;
  ok_cursor_u64 : 0 <= cursor t < 2 ^ 64;
}.

(** What the node loop of a snapshot maintains: the URLs by identifier are normal
    and distinct, and are exactly the URLs with metadata. *)
Record snapshot_nodes_ok (by_id : gmap string string) (metadata : gmap string NodeMetadata)
  : Prop := {
  sn_normal : forall id u, by_id !! id = Some u -> normalize_node_url u = Some u;
  sn_metadata : forall u, is_Some (metadata !! u) <-> exists id, by_id !! id = Some u;
  sn_inj : forall i j u, by_id !! i = Some u -> by_id !! j = Some u -> i = j;
}.

(** A healthy node of a snapshot, with the identifier and the URL it is known by. *)
Definition healthy_node (node : BrainNode) (id url : string) : Prop :=
  eq_ignore_ascii_case (bn_health node) "healthy" = true /\ trim (bn_node_id node) = id
  /\ normalize_node_url (bn_address node) = Some url.

(** Two nodes that share neither identifier nor URL, as far as they have them. *)
Definition apart (a b : BrainNode) : Prop :=
  forall ida ua idb ub, healthy_node a ida ua -> healthy_node b idb ub -> ida <> idb /\ ua <> ub.

(** A consistent listing: every healthy node has an identifier, no two healthy nodes
    with valid addresses share an identifier or a URL, and there is one at least. *)
Record consistent_nodes (ns : list BrainNode) : Prop := {
  cn_named : forall node, node ∈ ns -> eq_ignore_ascii_case (bn_health node) "healthy" = true ->
    trim (bn_node_id node) <> "";
  cn_apart : ForallOrdPairs apart ns;
  cn_some : exists node id u, node ∈ ns /\ healthy_node node id u;
}.

(** The URL of the healthy node with this identifier. *)
Definition routable (ns : list BrainNode) (id u : string) : Prop :=
  exists node, node ∈ ns /\ healthy_node node id u.

Definition unroutable (ns : list BrainNode) (id : string) : Prop := forall u, ~ routable ns id u.

(** Where the control plane places a shard: on its preferred leader, or where that
    is not routable, on the first replica that is. *)
Inductive placed (ns : list BrainNode) (sh : BrainShard) : string -> Prop :=
| placed_leader id u :
    bs_preferred_leader sh = Some id -> routable ns id u -> placed ns sh u
| placed_replica pre id post u :
    (forall leader, bs_preferred_leader sh = Some leader -> unroutable ns leader) ->
    bs_replicas sh = pre ++ id :: post -> Forall (unroutable ns) pre -> routable ns id u ->
    placed ns sh u.

(** A placement that names every shard exactly once, each with a place. *)
Definition complete_placement (n : Z) (ns : list BrainNode) (shards : list BrainShard) : Prop :=
  map bs_shard_id shards ≡ₚ seqZ 0 n /\ Forall (fun sh => exists u, placed ns sh u) shards.

Definition listed_metadata (node : BrainNode) : NodeMetadata :=
  mkNodeMetadata (default "" (bn_cloud_provider node)) (default "" (bn_region node))
    (default "" (bn_cluster_id node)).

(** [k] consecutive keyless picks. *)
Fixpoint any_nodes (k : nat) (t : RouteTable) : list (option string) * RouteTable :=
  match k with
  | O => ([], t)
  | S k' =>
      let (r, t1) := any_node t in
      let (rs, t2) := any_nodes k' t1 in (r :: rs, t2)
  end.

End RouteTable.

(** ** Lemmas: URLs and membership *)

Section Lemmas.
Context `{UC : UrlCrate}.

Lemma normalize_node_url_Some address n :
  normalize_node_url address = Some n ->
  exists s u, url_parse s = Some u /\ is_http_origin u = true
    /\ n = trim_end_matches "/" (url_as_str u).
Proof.
  unfold normalize_node_url. intros H.
  destruct (String.eqb (trim address) ""); [done|].
  destruct (url_parse _) as [u|] eqn:Eu; [|done]. eexists _, u. split; [exact Eu|].
  destruct (_ || _) eqn:E in H; [done|]. injection H as <-. split; [|done].
  rewrite !orb_false_iff, !negb_false_iff in E.
  unfold is_http_origin. rewrite !andb_true_iff, !negb_true_iff. tauto.
Qed.

Lemma normalize_idem `{!UrlLaws} address n :
  normalize_node_url address = Some n -> normalize_node_url n = Some n.
Proof.
  intros (s & u & Hs & Ho & ->)%normalize_node_url_Some.
  pose proof (url_origin_reparse s u Hs Ho) as Hre.
  destruct (url_origin_text s u Hs Ho) as [Htrim Hst].
  set (t := trim_end_matches "/" (url_as_str u)) in *.
  unfold normalize_node_url. rewrite Htrim. fold t.
  unfold is_http_origin in Ho. rewrite !andb_true_iff, !negb_true_iff in Ho.
  destruct Ho as ((((((Hsch & Hh) & Hu) & Hp) & Hq) & Hf) & Hpath).
  assert (Hne : String.eqb t "" = false).
  { apply String.eqb_neq. intros Ht. rewrite Ht in Hst. apply starts_with_true in Hst as [r Hr].
    apply (f_equal String.length) in Hr. rewrite !length_app_str in Hr. simpl in Hr. lia. }
  assert (Hc : starts_with "http://" t || starts_with "https://" t = true).
  { apply orb_true_iff in Hsch as [E|E]; breflect; rewrite E in Hst;
      apply orb_true_iff; [left|right]; exact Hst. }
  rewrite Hne, Hc, Hre, Hsch, Hh, Hu, Hp, Hq, Hf, Hpath. done.
Qed.

Lemma find_known_Some z ns k :
  find_known z ns = Some k -> k ∈ ns /\ normalize_node_url k = Some z.
Proof.
  intros (x & Hx & Hk)%find_map_Some. case_bool_decide; naive_solver.
Qed.

(** Among normalised members, a known node is its own normal form. *)
Lemma find_known_normal z ns k :
  (forall n, n ∈ ns -> normalize_node_url n = Some n) -> find_known z ns = Some k ->
  k = z /\ z ∈ ns.
Proof.
  intros Hn [Hk Hz]%find_known_Some. rewrite (Hn k Hk) in Hz. by simplify_eq.
Qed.

Lemma find_known_member z ns :
  (forall n, n ∈ ns -> normalize_node_url n = Some n) -> z ∈ ns -> find_known z ns = Some z.
Proof.
  intros Hn Hz. destruct (find_known z ns) as [k|] eqn:E.
  - apply (find_known_normal _ _ _ Hn) in E as [-> _]. done.
  - unfold find_known in E. rewrite find_map_None in E. specialize (E z Hz).
    case_bool_decide; [done|]. by rewrite (Hn z Hz) in *.
Qed.

Lemma filter_seen_spec seen l :
  NoDup (filter_seen seen l) /\
  forall n, n ∈ filter_seen seen l <-> n ∈ l /\ n ∉ seen.
Proof.
  revert seen. induction l as [|x l IH]; intros seen; simpl.
  - split; [constructor|]. set_solver.
  - case_bool_decide as Hx.
    + destruct (IH seen) as [H1 H2]. split; [done|]. intros n. rewrite H2. set_solver.
    + destruct (IH ({[x]} ∪ seen)) as [H1 H2]. split.
      * constructor; [rewrite H2; set_solver|done].
      * intros n. rewrite !elem_of_cons, H2, not_elem_of_union, not_elem_of_singleton.
        destruct (decide (n = x)) as [->|]; tauto.
Qed.

Lemma round_robin_lookup ns n s :
  ns <> [] ->
  round_robin ns n !! s =
    if bool_decide (0 <= s < Z.of_nat n) then ns !! Z.to_nat (s mod Z.of_nat (length ns)) else None.
Proof.
  intros Hne. induction n as [|n IH]; cbn [round_robin].
  - rewrite lookup_empty. case_bool_decide; [lia|done].
  - assert (Hlt : (n mod length ns < length ns)%nat) by (apply Nat.mod_upper_bound; by destruct ns).
    destruct (lookup_lt_is_Some_2 ns _ Hlt) as [x Hx]. rewrite Hx.
    destruct (decide (s = Z.of_nat n)) as [->|Hsn].
    + rewrite lookup_insert_eq. rewrite bool_decide_true by lia.
      by rewrite <-Nat2Z.inj_mod, Nat2Z.id.
    + rewrite lookup_insert_ne, IH by done.
      apply (f_equal (fun b : bool => if b then _ else _)). apply bool_decide_ext. lia.
Qed.

(** ** Lemmas: the round-robin loop *)

Lemma any_node_loop_Some n ns ex c r c' :
  any_node_loop n ns ex c = (Some r, c') -> r ∈ ns /\ r ∉ ex.
Proof.
  revert c. induction n as [|n IH]; intros c; cbn [any_node_loop]; [done|].
  destruct (ns !! _) as [x|] eqn:E; [|done].
  case_bool_decide; [apply IH|]. intros [= <- _]. split; [|done].
  by eapply list_elem_of_lookup_2.
Qed.

Lemma any_node_loop_cursor n ns ex c r c' :
  0 <= c < 2 ^ 64 -> any_node_loop n ns ex c = (r, c') -> 0 <= c' < 2 ^ 64.
Proof.
  revert c. induction n as [|n IH]; intros c Hc; cbn [any_node_loop]; [by intros [= _ <-]|].
  pose proof (u64_wrapping_add_range c 1).
  destruct (ns !! _) as [x|] eqn:E; [|by intros [= _ <-]].
  case_bool_decide; [by apply IH|]. by intros [= _ <-].
Qed.

(** Without wrap-around, [None] means that every index visited is excluded. *)
Lemma any_node_loop_None n ns ex c c' :
  ns <> [] -> 0 <= c -> c + Z.of_nat n <= 2 ^ 64 -> any_node_loop n ns ex c = (None, c') ->
  forall k, (k < n)%nat ->
    exists x, ns !! Z.to_nat ((c + Z.of_nat k) mod Z.of_nat (length ns)) = Some x /\ x ∈ ex.
Proof.
  intros Hne. revert c. induction n as [|n IH]; intros c Hc Hb; cbn [any_node_loop]; [lia|].
  assert (Hlen : 0 < Z.of_nat (length ns)) by (destruct ns; simpl; [done|lia]).
  assert (Hi : (Z.to_nat (c mod Z.of_nat (length ns)) < length ns)%nat).
  { pose proof (Z.mod_pos_bound c _ Hlen). lia. }
  destruct (lookup_lt_is_Some_2 ns _ Hi) as [x Hx]. rewrite Hx.
  case_bool_decide as Hex; [|done]. intros H k Hk.
  destruct k as [|k]; [rewrite Z.add_0_r; eauto|].
  destruct (decide (n = 0%nat)) as [->|Hn]; [lia|].
  assert (Hw : u64_wrapping_add c 1 = c + 1) by (apply Z.mod_small; lia).
  rewrite Hw in H. destruct (IH (c + 1) ltac:(lia) ltac:(lia) H k ltac:(lia)) as (y & Hy & ?).
  exists y. split; [|done]. by replace (c + Z.of_nat (S k)) with (c + 1 + Z.of_nat k) by lia.
Qed.

(** [n] consecutive indices cover all residues. *)
Lemma residues_cover c n i :
  0 < n -> 0 <= i < n -> exists k, 0 <= k < n /\ (c + k) mod n = i.
Proof.
  intros Hn Hi. exists ((i - c) mod n). split; [by apply Z.mod_pos_bound|].
  rewrite Zplus_mod_idemp_r. replace (c + (i - c)) with i by lia. by apply Z.mod_small.
Qed.

(** ** Lemmas: brain snapshots *)

Lemma collect_nodes_ok `{!UrlLaws} l by_id md by_id' md' :
  snapshot_nodes_ok by_id md -> collect_nodes l by_id md = Some (by_id', md') ->
  snapshot_nodes_ok by_id' md'.
Proof.
  revert by_id md. induction l as [|node l IH]; intros by_id md Hok; cbn [collect_nodes].
  { by intros [= <- <-]. }
  destruct (negb _); [by apply IH|]. destruct (String.eqb _ ""); [done|].
  destruct (normalize_node_url (bn_address node)) as [url|] eqn:Hurl; [|by apply IH].
  destruct (by_id !! _) eqn:Hid; [done|]. destruct (md !! url) eqn:Hmd; [done|].
  apply IH. clear IH. destruct Hok as [H1 H2 H3].
  assert (Hnew : forall i, by_id !! i <> Some url).
  { intros i Hi. assert (is_Some (md !! url)) as [? ?] by (apply H2; eauto). congruence. }
  split.
  - intros id u [[<- <-]|[_ ?]]%lookup_insert_Some; [by eapply normalize_idem|eauto].
  - intros u. rewrite lookup_insert_is_Some, H2. split.
    + intros [<-|[Hne [id Hi]]]; [eexists; apply lookup_insert_eq|].
      exists id. rewrite lookup_insert_ne; [done|]. congruence.
    + intros (id & [[? ->]|[? ?]]%lookup_insert_Some); [by left|].
      destruct (decide (url = u)); [by left|right; eauto].
  - intros i j u Hi Hj. apply lookup_insert_Some in Hi, Hj.
    destruct Hi as [[<- <-]|[? ?]], Hj as [[<- ?]|[? ?]]; try done; try (by subst; edestruct Hnew).
    by eapply H3.
Qed.

(** The identifiers collected are those of the healthy nodes with a valid address. *)
Lemma collect_nodes_members l by_id md by_id' md' :
  collect_nodes l by_id md = Some (by_id', md') ->
  forall id u, by_id' !! id = Some u <->
    by_id !! id = Some u \/ exists node, node ∈ l /\ healthy_node node id u.
Proof.
  revert by_id md. induction l as [|node l IH]; intros by_id md; cbn [collect_nodes].
  { intros [= <- _] id u. split; [auto|]. intros [?|(n & Hn & _)]; [done|].
    by apply not_elem_of_nil in Hn. }
  assert (Hskip : forall id u, ~ healthy_node node id u ->
    (exists n, n ∈ l /\ healthy_node n id u) <-> (exists n, n ∈ node :: l /\ healthy_node n id u)).
  { intros id u Hno. split; intros (n & Hn & ?); exists n; (split; [|done]).
    - by right.
    - apply elem_of_cons in Hn as [->|?]; done. }
  destruct (eq_ignore_ascii_case (bn_health node) "healthy") eqn:Hh; cbn [negb].
  2:{ intros H id u. rewrite (IH _ _ H), Hskip; [done|]. intros [? _]. congruence. }
  destruct (String.eqb _ ""); [done|].
  destruct (normalize_node_url (bn_address node)) as [url|] eqn:Hurl.
  2:{ intros H id u. rewrite (IH _ _ H), Hskip; [done|]. intros (_ & _ & ?). congruence. }
  destruct (by_id !! _) eqn:Hid; [done|]. destruct (md !! url) eqn:Hmd; [done|].
  intros H id u. rewrite (IH _ _ H), lookup_insert_Some. split.
  - intros [[[<- <-]|[_ ?]]|(n & Hn & ?)]; [right|by left|right].
    + exists node. split; [left|done].
    + exists n. split; [by right|done].
  - intros [Hb|(n & [->|Hn]%elem_of_cons & Hhn)].
    + left. right. split; [congruence|done].
    + destruct Hhn as (_ & <- & Hu). left. left. split; congruence.
    + right. eauto.
Qed.

Lemma FOP_cons_iff {X} (R : X -> X -> Prop) a l :
  ForallOrdPairs R (a :: l) <-> Forall (R a) l /\ ForallOrdPairs R l.
Proof. split; [by inversion 1|intros []; by constructor]. Qed.

(** What the node loop asks of the rest of the listing, given what it collected. *)
Definition collectable (l : list BrainNode) (by_id : gmap string string)
    (md : gmap string NodeMetadata) : Prop :=
  (forall node, node ∈ l -> eq_ignore_ascii_case (bn_health node) "healthy" = true ->
     trim (bn_node_id node) <> "") /\
  ForallOrdPairs apart l /\
  (forall node id u, node ∈ l -> healthy_node node id u -> by_id !! id = None /\ md !! u = None).

Lemma collectable_skip node l by_id md :
  (eq_ignore_ascii_case (bn_health node) "healthy" = true -> trim (bn_node_id node) <> "") ->
  (forall id u, ~ healthy_node node id u) ->
  collectable l by_id md <-> collectable (node :: l) by_id md.
Proof.
  intros Hn Hno. unfold collectable. rewrite FOP_cons_iff. setoid_rewrite elem_of_cons. split.
  - intros (H1 & H2 & H3). split_and!; [intros x [->|Hx]; auto| |exact H2|].
    + apply Forall_forall. intros x _ ida ua ? ? Hh. by destruct (Hno ida ua).
    + intros x id u [->|Hx] Hh; [by destruct (Hno id u)|eauto].
  - intros (H1 & [_ H2] & H3). split_and!; eauto.
Qed.

Lemma collectable_cons node id u l by_id md :
  healthy_node node id u -> id <> "" -> by_id !! id = None -> md !! u = None ->
  collectable l (<[id := u]> by_id) (<[u := listed_metadata node]> md) <-> collectable (node :: l) by_id md.
Proof.
  intros Hnode Hne Hid Hmd. unfold collectable. rewrite FOP_cons_iff. setoid_rewrite elem_of_cons.
  setoid_rewrite lookup_insert_None.
  assert (Hsame : forall i v, healthy_node node i v -> i = id /\ v = u)
    by (intros i v (_ & <- & Hv); destruct Hnode as (_ & <- & Hu); split; congruence).
  split.
  - intros (H1 & H2 & H3). split_and!; [| |exact H2|].
    + intros x [->|Hx]; [destruct Hnode as (_ & <- & _); auto|auto].
    + apply Forall_forall. intros x Hx ida ua idb ub Ha Hb. destruct (Hsame _ _ Ha) as [-> ->].
      destruct (H3 _ _ _ Hx Hb) as [[_ ?] [_ ?]]. auto.
    + intros x i v [->|Hx] Hh; [by destruct (Hsame _ _ Hh) as [-> ->]|]. destruct (H3 _ _ _ Hx Hh). naive_solver.
  - intros (H1 & [H2 H3] & H4). split_and!; [auto|exact H3|]. intros x i v Hx Hh.
    destruct (H4 x i v (or_intror Hx) Hh). rewrite Forall_forall in H2.
    destruct (H2 x Hx _ _ _ _ Hnode Hh). auto.
Qed.

(** The node loop succeeds exactly on listings that are consistent among themselves
    and with what was collected before. *)
Lemma collect_nodes_Some l by_id md :
  is_Some (collect_nodes l by_id md) <-> collectable l by_id md.
Proof.
  revert by_id md. induction l as [|node l IH]; intros by_id md; cbn [collect_nodes].
  { split; [intros _|eauto]. split_and!; [by intros ? ?%not_elem_of_nil|constructor|].
    by intros ? ? ? ?%not_elem_of_nil. }
  destruct (eq_ignore_ascii_case (bn_health node) "healthy") eqn:Hh; cbn [negb].
  2:{ rewrite IH. apply collectable_skip; [congruence|]. intros id u [? _]. congruence. }
  destruct (String.eqb_spec (trim (bn_node_id node)) "") as [He|He].
  { split; [by intros []|]. intros (H & _). by destruct (H node (list_elem_of_here _ _) Hh). }
  destruct (normalize_node_url (bn_address node)) as [url|] eqn:Hurl.
  2:{ rewrite IH. apply collectable_skip; [done|]. intros id u (_ & _ & ?). congruence. }
  assert (Hnode : healthy_node node (trim (bn_node_id node)) url) by done.
  destruct (by_id !! trim (bn_node_id node)) eqn:Hid.
  { split; [by intros []|]. intros (_ & _ & H).
    destruct (H _ _ _ (list_elem_of_here _ _) Hnode). congruence. }
  destruct (md !! url) eqn:Hmd.
  { split; [by intros []|]. intros (_ & _ & H).
    destruct (H _ _ _ (list_elem_of_here _ _) Hnode). congruence. }
  rewrite IH. by apply collectable_cons.
Qed.

Lemma collect_nodes_metadata l by_id md by_id' md' :
  collect_nodes l by_id md = Some (by_id', md') ->
  (forall u x, md !! u = Some x -> md' !! u = Some x) /\
  forall node id u, node ∈ l -> healthy_node node id u -> md' !! u = Some (listed_metadata node).
Proof.
  revert by_id md. induction l as [|node l IH]; intros by_id md; cbn [collect_nodes].
  { intros [= _ <-]. split; [done|]. by intros ? ? ? ?%not_elem_of_nil. }
  assert (Hskip : (forall id u, ~ healthy_node node id u) -> collect_nodes l by_id md = Some (by_id', md') ->
    (forall u x, md !! u = Some x -> md' !! u = Some x) /\
    forall other id u, other ∈ node :: l -> healthy_node other id u -> md' !! u = Some (listed_metadata other)).
  { intros Hno H. destruct (IH _ _ H) as [H1 H2]. split; [done|].
    intros other id u [->|Hin]%elem_of_cons Hb; [by destruct (Hno id u)|by eapply H2]. }
  destruct (eq_ignore_ascii_case (bn_health node) "healthy") eqn:Hh; cbn [negb].
  2:{ apply Hskip. intros id u [? _]. congruence. }
  destruct (String.eqb _ ""); [done|].
  destruct (normalize_node_url (bn_address node)) as [url|] eqn:Hurl.
  2:{ apply Hskip. intros id u (_ & _ & ?). congruence. }
  clear Hskip. destruct (by_id !! _); [done|]. destruct (md !! url) eqn:Hmd; [done|]. intros H.
  destruct (IH _ _ H) as [H1 H2]. split.
  - intros u x Hu. apply H1. rewrite lookup_insert_ne; [done|congruence].
  - intros other id u [->|Hin]%elem_of_cons Hb; [|by eapply H2].
    destruct Hb as (_ & _ & Hu). rewrite Hurl in Hu. injection Hu as <-. apply H1. by rewrite lookup_insert_eq.
Qed.

Lemma snapshot_nodes_ok_empty : snapshot_nodes_ok ∅ ∅.
Proof.
  split.
  - intros id u. by rewrite lookup_empty.
  - intros u. rewrite lookup_empty. split; [by intros []|].
    intros [id Hid]. by rewrite lookup_empty in Hid.
  - intros i j u. by rewrite lookup_empty.
Qed.

Lemma placement_target_member by_id shard u :
  placement_target by_id shard = Some u -> exists id, by_id !! id = Some u.
Proof.
  unfold placement_target.
  destruct (bs_preferred_leader shard) as [leader|]; [destruct (by_id !! leader) eqn:E|];
    try (by intros [= ->]; eauto); intros (r & _ & ?)%find_map_Some; eauto.
Qed.

(** The target of a shard is where it is placed. *)
Lemma placement_target_placed ns by_id sh u :
  (forall id u, by_id !! id = Some u <-> routable ns id u) ->
  placement_target by_id sh = Some u <-> placed ns sh u.
Proof.
  intros Hid. assert (Hun : forall id, by_id !! id = None <-> unroutable ns id).
  { intros id. unfold unroutable. setoid_rewrite <-Hid. destruct (by_id !! id); naive_solver. }
  assert (Hfirst : forall l, find_map (fun r => by_id !! r) l = Some u <->
    exists pre id post, l = pre ++ id :: post /\ Forall (unroutable ns) pre /\ routable ns id u).
  { induction l as [|r l IH]; cbn [find_map].
    { split; [done|]. by intros ([|] & ? & ? & ? & _). }
    destruct (by_id !! r) as [x|] eqn:E; [split|rewrite IH; split].
    - intros [= ->]. exists [], r, l. split; [done|]. split; [constructor|by apply Hid].
    - intros ([|y pre] & id & post & [= <- Hl] & Hpre & Hr).
      + apply Hid in Hr. congruence.
      + apply Forall_inv, Hun in Hpre. congruence.
    - intros (pre & id & post & -> & Hpre & Hr). exists (r :: pre), id, post.
      split; [done|]. split; [constructor; [by apply Hun|done]|done].
    - intros ([|y pre] & id & post & [= <- Hl] & Hpre & Hr).
      + apply Hid in Hr. congruence.
      + exists pre, id, post. split; [done|]. split; [by apply Forall_inv_tail in Hpre|done]. }
  unfold placement_target. destruct (bs_preferred_leader sh) as [leader|] eqn:El.
  2:{ rewrite Hfirst. split; [|inversion 1; [congruence|eauto 7]].
      intros (pre & id & post & Hl & Hpre & Hr). eapply placed_replica; [congruence|done..]. }
  destruct (by_id !! leader) as [x|] eqn:E; [split|rewrite Hfirst; split].
  - intros [= ->]. eapply placed_leader; [done|by apply Hid].
  - inversion 1 as [id v Hl Hr|pre id post v Hl Hp Hpre Hr]; subst.
    + rewrite El in Hl. injection Hl as <-. apply Hid in Hr. congruence.
    + apply Hl, Hun in El. congruence.
  - intros (pre & id & post & Hl & Hpre & Hr). eapply placed_replica; try done.
    intros l' Hl'. rewrite El in Hl'. injection Hl' as <-. by apply Hun.
  - inversion 1 as [id v Hl Hr|pre id post v Hl Hp Hpre Hr]; subst; [|eauto 6].
    rewrite El in Hl. injection Hl as <-. apply Hid in Hr. congruence.
Qed.

(** [n] distinct shards below [n] are all of them. *)
Lemma shards_complete (ids : list Z) n :
  Forall (fun s => 0 <= s) ids ->
  NoDup ids /\ Z.of_nat (length ids) = n /\ Forall (fun s => s < n) ids <->
  ids ≡ₚ seqZ 0 n /\ 0 <= n.
Proof.
  intros Hpos. rewrite Forall_forall in Hpos. split.
  - intros (Hnd & Hlen & Hlt). rewrite Forall_forall in Hlt. split; [|lia].
    apply submseteq_length_Permutation; [|rewrite length_seqZ; lia].
    apply NoDup_submseteq; [done|]. intros x Hx. apply elem_of_seqZ. specialize (Hpos x Hx).
    specialize (Hlt x Hx). lia.
  - intros [Hp Hn]. split; [rewrite Hp; apply NoDup_seqZ|]. split.
    + rewrite Hp, length_seqZ. lia.
    + apply Forall_forall. intros x. rewrite Hp, elem_of_seqZ. lia.
Qed.

(** The placed leaders are exactly the targets of the snapshot's shards. *)
Lemma collect_leaders_spec n by_id l acc res :
  collect_leaders n by_id l acc = Some res ->
  (forall s, res !! s = match find_map (fun sh => if bool_decide (bs_shard_id sh = s)
                                          then placement_target by_id sh else None) l with
                        | Some u => Some u | None => acc !! s end) /\
  Forall (fun sh => bs_shard_id sh < n /\ is_Some (placement_target by_id sh)) l.
Proof.
  revert acc. induction l as [|sh l IH]; intros acc; cbn [collect_leaders find_map].
  { intros [= <-]. done. }
  destruct (Z.leb_spec n (bs_shard_id sh)) as [|Hlt]; [done|].
  destruct (placement_target by_id sh) as [u|] eqn:Hu; [|done].
  destruct (acc !! _) eqn:Hacc; [done|]. intros H. destruct (IH _ H) as [H1 H2].
  split; [|constructor; eauto]. intros s. rewrite H1. case_bool_decide as Hs.
  - subst s. rewrite lookup_insert_eq.
    destruct (find_map _ l) as [u'|] eqn:Hf; [|done]. exfalso.
    clear IH H1 H2 Hu Hlt. assert (Hdup : is_Some (<[bs_shard_id sh:=u]> acc !! bs_shard_id sh))
      by (rewrite lookup_insert_eq; eauto).
    revert H Hf Hdup. generalize (<[bs_shard_id sh:=u]> acc) as acc'. clear Hacc.
    induction l as [|sh2 l IHl]; intros acc'; cbn [collect_leaders find_map]; [done|].
    destruct (n <=? _); [done|]. destruct (placement_target by_id sh2) as [u2|] eqn:Hu2; [|done].
    destruct (acc' !! bs_shard_id sh2) eqn:Hacc'; [done|]. intros Hres Hf [x Hx].
    case_bool_decide as Heq; [congruence|]. apply (IHl _ Hres Hf).
    rewrite lookup_insert_ne by done. eauto.
  - rewrite lookup_insert_ne by done. done.
Qed.

(** The shard loop succeeds exactly on placements without duplicates, out-of-range
    shards or unroutable shards. *)
Lemma collect_leaders_Some n by_id l acc :
  is_Some (collect_leaders n by_id l acc) <->
  NoDup (map bs_shard_id l) /\ Forall (fun sh => acc !! bs_shard_id sh = None) l
  /\ Forall (fun sh => bs_shard_id sh < n /\ is_Some (placement_target by_id sh)) l.
Proof.
  revert acc. induction l as [|sh l IH]; intros acc; cbn [collect_leaders map].
  { split; [intros _; split_and!; constructor|eauto]. }
  rewrite !Forall_cons, NoDup_cons.
  destruct (Z.leb_spec n (bs_shard_id sh)) as [|Hlt].
  { split; [by intros []|]. intros (_ & _ & [? _] & _). lia. }
  destruct (placement_target by_id sh) as [u|]; [|split; [by intros []|naive_solver]].
  destruct (acc !! bs_shard_id sh) eqn:Hacc; [split; [by intros []|naive_solver]|].
  rewrite IH. rewrite !Forall_forall. setoid_rewrite lookup_insert_None.
  rewrite list_elem_of_In, in_map_iff. setoid_rewrite <-list_elem_of_In. naive_solver.
Qed.

Lemma collect_leaders_size n by_id l acc res :
  collect_leaders n by_id l acc = Some res -> size res = (size acc + length l)%nat.
Proof.
  revert acc. induction l as [|sh l IH]; intros acc; cbn [collect_leaders length].
  { intros [= <-]. lia. }
  destruct (n <=? _); [done|]. destruct (placement_target by_id sh); [|done].
  destruct (acc !! _) eqn:Hacc; [done|]. intros ->%IH.
  rewrite map_size_insert_None by done. lia.
Qed.

Lemma collect_leaders_range n by_id l res s u :
  Forall (fun sh => 0 <= bs_shard_id sh) l ->
  collect_leaders n by_id l ∅ = Some res -> res !! s = Some u ->
  0 <= s < n /\ exists id, by_id !! id = Some u.
Proof.
  intros Hl (H1 & H2)%collect_leaders_spec Hs. rewrite H1, lookup_empty in Hs.
  destruct (find_map _ l) as [u'|] eqn:Hf; [|done]. injection Hs as ->.
  apply find_map_Some in Hf as (sh & Hsh & Hu). case_bool_decide as Hid; [|done]. subst s.
  rewrite Forall_forall in Hl, H2. specialize (Hl _ Hsh). destruct (H2 _ Hsh).
  split; [lia|]. by eapply placement_target_member.
Qed.

Lemma collected_routable ns by_id md :
  collect_nodes ns ∅ ∅ = Some (by_id, md) -> forall id u, by_id !! id = Some u <-> routable ns id u.
Proof.
  intros Hcn id u. rewrite (collect_nodes_members _ _ _ _ _ Hcn), lookup_empty. unfold routable. naive_solver.
Qed.

(** The collected leader of a placed shard. *)
Lemma collected_leader n by_id shards fresh sh u :
  collect_leaders n by_id shards ∅ = Some fresh -> sh ∈ shards ->
  placement_target by_id sh = Some u -> fresh !! bs_shard_id sh = Some u.
Proof.
  intros Hcl Hin Hu. destruct (proj1 (collect_leaders_Some _ _ _ _) (ex_intro _ fresh Hcl)) as (Hnd & _ & _).
  apply collect_leaders_spec in Hcl as [-> Htgt]. rewrite lookup_empty. rewrite <-Hu.
  clear Hu. induction shards as [|x l IH]; [by apply not_elem_of_nil in Hin|].
  cbn [find_map map] in *. apply NoDup_cons in Hnd as [Hx Hnd].
  apply Forall_cons in Htgt as [[_ [v Hv]] Htgt].
  apply elem_of_cons in Hin as [->|Hin]; [rewrite bool_decide_true, Hv by done; done|].
  rewrite bool_decide_false; [by apply IH|]. intros Heq. apply Hx. rewrite Heq.
  by apply list_elem_of_fmap_2.
Qed.

(** The loops succeed exactly on consistent listings with a complete placement. *)
Lemma snapshot_decided ns shards n :
  0 < n -> Forall (fun s => 0 <= bs_shard_id s) shards ->
  consistent_nodes ns /\ complete_placement n ns shards <->
  exists by_id md fresh, collect_nodes ns ∅ ∅ = Some (by_id, md) /\ by_id <> ∅ /\
    collect_leaders n by_id shards ∅ = Some fresh /\ Z.of_nat (size fresh) = n.
Proof.
  intros Hn Hpos. assert (Hids : Forall (fun s => 0 <= s) (map bs_shard_id shards)) by by apply Forall_map.
  pose proof (shards_complete _ n Hids) as Hs. rewrite length_map, Forall_map in Hs.
  assert (Hplaced : forall by_id, (forall id u, by_id !! id = Some u <-> routable ns id u) ->
    Forall (fun sh => is_Some (placement_target by_id sh)) shards <->
    Forall (fun sh => exists u, placed ns sh u) shards).
  { intros by_id Hby. apply Forall_iff. intros sh. unfold is_Some.
    by setoid_rewrite (placement_target_placed _ _ _ _ Hby). }
  split.
  - intros [[H1 H2 (node & id & u & Hin & Hh)] [Hp Hpl]].
    destruct (proj2 (collect_nodes_Some ns ∅ ∅)) as [[by_id md] Hcn];
      [split_and!; [done|done|]; intros; by rewrite !lookup_empty|].
    pose proof (collected_routable _ _ _ Hcn) as Hby.
    destruct (proj2 Hs) as (Hnd & Hlen & Hlt); [split; [done|lia]|].
    destruct (proj2 (collect_leaders_Some n by_id shards ∅)) as [fresh Hcl].
    { split_and!; [done|apply Forall_forall; intros; apply lookup_empty|].
      apply Forall_and. split; [exact Hlt|by apply Hplaced]. }
    exists by_id, md, fresh. split_and!; [done| |done|].
    + intros ->. assert (Hr : routable ns id u) by by exists node.
      apply Hby in Hr. by rewrite lookup_empty in Hr.
    + by rewrite (collect_leaders_size _ _ _ _ _ Hcl), map_size_empty.
  - intros (by_id & md & fresh & Hcn & Hne & Hcl & Hsz).
    pose proof (collected_routable _ _ _ Hcn) as Hby.
    destruct (proj1 (collect_nodes_Some ns ∅ ∅) (ex_intro _ _ Hcn)) as (H1 & H2 & _).
    destruct (proj1 (collect_leaders_Some _ _ _ _) (ex_intro _ _ Hcl)) as (Hnd & _ & [Hlt Ht]%Forall_and).
    rewrite (collect_leaders_size _ _ _ _ _ Hcl), map_size_empty in Hsz.
    split; [split; [done|done|]|split; [|by apply (Hplaced by_id)]].
    + destruct (map_choose by_id Hne) as (id & u & Hid). apply Hby in Hid as (node & ? & ?).
      by exists node, id, u.
    + apply Hs. split_and!; [done|lia|done].
Qed.

(** Pigeonhole: a map of [n] entries with keys below [n] has them all. *)
Lemma map_full {V} (m : gmap Z V) n :
  0 <= n -> (forall s v, m !! s = Some v -> 0 <= s < n) -> Z.of_nat (size m) = n ->
  forall s, 0 <= s < n -> is_Some (m !! s).
Proof.
  intros Hn Hr Hsz s Hs. rewrite <-elem_of_dom.
  assert (dom m = list_to_set (seqZ 0 n) :> gset Z) as ->.
  { apply set_subseteq_size_eq.
    - intros x [v Hx]%elem_of_dom. apply elem_of_list_to_set, elem_of_seqZ.
      apply Hr in Hx. lia.
    - rewrite size_dom, size_list_to_set by apply NoDup_seqZ. rewrite length_seqZ. lia. }
  apply elem_of_list_to_set, elem_of_seqZ. lia.
Qed.

Lemma keep_hinted_lookup ns old hints fresh s :
  keep_hinted ns old hints fresh !! s =
    match hints !! s, old !! s with
    | Some _, Some cur => if bool_decide (cur ∈ ns) then Some cur else fresh !! s
    | _, _ => fresh !! s
    end.
Proof.
  unfold keep_hinted.
  apply (map_fold_weak_ind (fun acc h => acc !! s =
    match h !! s, old !! s with
    | Some _, Some cur => if bool_decide (cur ∈ ns) then Some cur else fresh !! s
    | _, _ => fresh !! s
    end)).
  - by rewrite lookup_empty.
  - intros i x m r Hi IH. destruct (decide (i = s)) as [->|Hne].
    + rewrite lookup_insert_eq. rewrite Hi in IH.
      destruct (old !! s) as [cur|]; [|done]. case_bool_decide; [|done]. apply lookup_insert_eq.
    + rewrite (lookup_insert_ne m) by done. rewrite <-IH.
      destruct (old !! i) as [cur|]; [|done]. case_bool_decide; [|done].
      by apply lookup_insert_ne.
Qed.

Lemma sorted_urls_elem (by_id : gmap string string) u :
  u ∈ sort_strings (map snd (map_to_list by_id)) <-> exists id, by_id !! id = Some u.
Proof.
  unfold sort_strings. rewrite (merge_sort_Permutation String.le _).
  change (map snd) with (fmap (M := list) (@snd string string)).
  rewrite list_elem_of_fmap. split.
  - intros ([id u'] & -> & ?%elem_of_map_to_list). eauto.
  - intros [id Hid]. exists (id, u). split; [done|]. by apply elem_of_map_to_list.
Qed.

Lemma sorted_urls_nodup (by_id : gmap string string) :
  (forall i j u, by_id !! i = Some u -> by_id !! j = Some u -> i = j) ->
  NoDup (sort_strings (map snd (map_to_list by_id))).
Proof.
  intros Hinj. unfold sort_strings. rewrite (merge_sort_Permutation String.le _).
  apply (NoDup_fmap_2_strong snd); [|apply NoDup_map_to_list].
  intros [i u] [j v] Hi%elem_of_map_to_list Hj%elem_of_map_to_list [= ->].
  f_equal. by eapply Hinj.
Qed.

Lemma residues_inj c n x y :
  0 < n -> 0 <= x < n -> 0 <= y < n -> (c + x) mod n = (c + y) mod n -> x = y.
Proof.
  intros Hn Hx Hy H.
  assert (Hd : (x - y) mod n = 0).
  { replace (x - y) with (c + x - (c + y)) by lia. rewrite Zminus_mod, H, Z.sub_diag. apply Zmod_0_l. }
  apply Z.mod_divide in Hd as [k Hk]; [|lia]. assert (k = 0) by nia. subst k. lia.
Qed.

End Lemmas.

(** ** Lemmas: the invariant *)

Section Invariant.
Context `{UC : UrlCrate} `{!UrlLaws}.

Lemma new_members n seeds u :
  u ∈ nodes (new n seeds) <-> exists seed, seed ∈ seeds /\ normalize_node_url seed = Some u.
Proof.
  cbn. destruct (filter_seen_spec ∅ (omap normalize_node_url seeds)) as [_ Hel].
  rewrite Hel, list_elem_of_omap. set_solver.
Qed.

Lemma new_ok n seeds : 0 <= n <= u32_max -> table_ok (new n seeds).
Proof.
  intros Hn. unfold new. set (l := omap normalize_node_url seeds).
  destruct (filter_seen_spec ∅ l) as [Hnd Hel].
  set (ns := filter_seen ∅ l) in *.
  assert (Hl : forall s u, (match ns with [] => ∅ | _ => round_robin ns (Z.to_nat n) end) !! s = Some u ->
    ns <> [] /\ 0 <= s < n /\ u ∈ ns).
  { intros s u. destruct ns as [|x ns']; [by rewrite lookup_empty|].
    rewrite round_robin_lookup by done. case_bool_decide; [|done].
    intros Hu%list_elem_of_lookup_2. split; [done|]. split; [lia|done]. }
  split; cbn; try (intros *; rewrite lookup_empty; done); try lia; try done.
  - intros x [Hx _]%Hel. apply list_elem_of_omap in Hx as (a & _ & Ha). by eapply normalize_idem.
  - intros s u Hu. by apply Hl in Hu as (_ & _ & ?).
  - intros s u Hu. by apply Hl in Hu as (_ & ? & _).
  - intros Hne s Hs. destruct ns as [|x ns']; [done|]. rewrite round_robin_lookup by done.
    rewrite bool_decide_true by lia. apply lookup_lt_is_Some_2.
    pose proof (Z.mod_pos_bound s (Z.of_nat (length (x :: ns'))) ltac:(simpl; lia)). lia.
Qed.

Lemma accept_leader_hint_ok now shard url t :
  table_ok t -> 0 <= shard < shard_count t -> table_ok (snd (accept_leader_hint now shard url t)).
Proof.
  intros Hok Hs. unfold accept_leader_hint.
  destruct (normalize_node_url url) as [z|] eqn:Hz; [|done].
  destruct (find_known z (nodes t)) as [k|] eqn:Hk; [|done].
  apply find_known_Some in Hk as [Hk _].
  destruct Hok as [? ? ? H1 H2 H3 H4 ? ? ?]. split; cbn; try done.
  - intros s u [[_ <-]|[_ ?]]%lookup_insert_Some; eauto.
  - intros s u [[<- _]|[_ ?]]%lookup_insert_Some; eauto.
  - intros Hne s Hs'. rewrite lookup_insert_is_Some.
    destruct (decide (shard = s)); [by left|right; eauto].
  - intros s u [[<- _]|[_ ?]]%lookup_insert_Some; eauto.
Qed.

Lemma record_region_request_ok url t : table_ok t -> table_ok (record_region_request url t).
Proof.
  intros []. unfold record_region_request. split; cbn; try done.
  intros r c [[_ <-]|[_ ?]]%lookup_insert_Some; [apply u64_wrapping_add_range|eauto].
Qed.

Lemma accept_leader_hint_facts (now shard : Z) (node_url : string) (t : RouteTable) :
  table_ok t ->
  (forall target, fst (accept_leader_hint now shard node_url t) = Some target <->
     normalize_node_url node_url = Some target /\ target ∈ nodes t) /\
  match accept_leader_hint now shard node_url t with
  | (None, t') => t' = t
  | (Some target, t') =>
      leader_for t' shard = Some target /\ leader_hints t' !! shard = Some now
      /\ (forall s, s <> shard -> leader_for t' s = leader_for t s
                                  /\ leader_hints t' !! s = leader_hints t !! s)
      /\ nodes t' = nodes t /\ node_metadata t' = node_metadata t
      /\ region_requests t' = region_requests t /\ cursor t' = cursor t
      /\ shard_count t' = shard_count t
  end.
Proof.
  intros Hok. pose proof (ok_nodes_normal t Hok) as Hn. unfold accept_leader_hint.
  destruct (normalize_node_url node_url) as [z|]; [|naive_solver].
  destruct (find_known z (nodes t)) as [k|] eqn:E.
  - apply (find_known_normal _ _ _ Hn) in E as [-> Hz]. split; [naive_solver|].
    unfold leader_for. cbn. rewrite !lookup_insert_eq.
    split_and!; try done. intros s Hs. by rewrite !lookup_insert_ne.
  - split; [|done]. intros target. split; [done|]. intros [[= ->] Hz].
    by rewrite (find_known_member _ _ Hn Hz) in E.
Qed.

Lemma any_node_excluding_facts (excluded : gset string) (t : RouteTable) :
  table_ok t -> cursor t + Z.of_nat (length (nodes t)) <= 2 ^ 64 ->
  let (r, t') := any_node_excluding excluded t in
  nodes t' = nodes t /\ leaders t' = leaders t /\ leader_hints t' = leader_hints t /\
  match r with
  | Some node => node ∈ nodes t /\ node ∉ excluded
  | None => forall node, node ∈ nodes t -> node ∈ excluded
  end.
Proof.
  intros Hok Hc. unfold any_node_excluding. destruct (nodes t) as [|n0 ns0] eqn:Hns.
  { rewrite Hns. split_and!; try done. intros node Hn. by apply not_elem_of_nil in Hn. }
  rewrite <-Hns in *. destruct (any_node_loop _ _ _ _) as [r c] eqn:E. cbn.
  split_and!; try done. destruct r as [node|]; [by apply any_node_loop_Some in E|].
  intros node [i Hi]%list_elem_of_lookup.
  assert (Hne : nodes t <> []) by congruence.
  pose proof (lookup_lt_Some _ _ _ Hi) as Hlt.
  destruct (residues_cover (cursor t) (Z.of_nat (length (nodes t))) (Z.of_nat i)) as (k & Hk & Hki);
    [lia|lia|].
  destruct (any_node_loop_None _ _ _ _ _ Hne (proj1 (ok_cursor_u64 t Hok)) Hc E (Z.to_nat k))
    as (x & Hx & Hex); [lia|].
  rewrite Z2Nat.id, Hki, Nat2Z.id in Hx by lia. congruence.
Qed.

(** The members in the order a scan from the cursor visits them. *)
Definition visited (ns : list string) (c : Z) (k : nat) : list string :=
  omap (fun i => ns !! Z.to_nat ((c + Z.of_nat i) mod Z.of_nat (length ns))) (seq 0 k).

Lemma visited_S ns c k x :
  ns !! Z.to_nat (c mod Z.of_nat (length ns)) = Some x ->
  visited ns c (S k) = x :: visited ns (c + 1) k.
Proof.
  intros Hx. unfold visited. cbn [seq omap list_omap]. rewrite Z.add_0_r, Hx. f_equal.
  rewrite <-seq_shift. induction (seq 0 k) as [|j l IH]; [done|]. cbn [map omap list_omap].
  replace (c + Z.of_nat (S j)) with (c + 1 + Z.of_nat j) by lia. by rewrite IH.
Qed.

Lemma any_node_loop_visited k ns ex c :
  ns <> [] -> 0 <= c -> c + Z.of_nat k < 2 ^ 64 ->
  any_node_loop k ns ex c =
  match list_find (.∉ ex) (visited ns c k) with
  | Some (i, x) => (Some x, c + Z.of_nat i + 1)
  | None => (None, c + Z.of_nat k)
  end.
Proof.
  intros Hne. assert (Hlen : 0 < Z.of_nat (length ns)) by (destruct ns; [done|simpl; lia]).
  revert c. induction k as [|k IH]; intros c Hc Hb; [cbn; by rewrite Z.add_0_r|].
  cbn [any_node_loop]. assert (Hw : u64_wrapping_add c 1 = c + 1) by (apply Z.mod_small; lia).
  destruct (lookup_lt_is_Some_2 ns (Z.to_nat (c mod Z.of_nat (length ns)))) as [x Hx].
  { pose proof (Z.mod_pos_bound c _ Hlen). lia. }
  rewrite Hx, Hw, (visited_S _ _ _ _ Hx). cbn [list_find]. case_bool_decide as Hex.
  - rewrite decide_False by tauto. rewrite IH by lia.
    destruct (list_find _ _) as [[i y]|]; cbn; f_equal; lia.
  - rewrite decide_True by done. cbn. f_equal. lia.
Qed.

(** A whole scan visits the members rotated to the cursor. *)
Lemma visited_rotate ns c :
  ns <> [] -> visited ns c (length ns) = rotate (Z.to_nat (c mod Z.of_nat (length ns))) ns.
Proof.
  intros Hne. assert (Hlen : 0 < Z.of_nat (length ns)) by (destruct ns; [done|simpl; lia]).
  set (s := Z.to_nat (c mod Z.of_nat (length ns))).
  assert (Hs : (s < length ns)%nat) by (pose proof (Z.mod_pos_bound c _ Hlen); unfold s; lia).
  assert (Hall : forall k j, (forall i, (j <= i < j + k)%nat -> (i < length ns)%nat) ->
    omap (fun i => ns !! Z.to_nat ((c + Z.of_nat i) mod Z.of_nat (length ns))) (seq j k)
    = take k (drop j (rotate s ns))).
  { induction k as [|k IH]; intros j Hj; [by rewrite take_0|]. cbn [seq omap list_omap].
    specialize (Hj j ltac:(lia)) as Hjl.
    assert (Hx : ns !! Z.to_nat ((c + Z.of_nat j) mod Z.of_nat (length ns)) = rotate s ns !! j).
    { rewrite lookup_rotate_r by done. f_equal. unfold rotate_nat_add, s.
      rewrite Z2Nat.id by (apply Z.mod_pos_bound; lia).
      by rewrite Z.add_mod_idemp_l by lia. }
    rewrite Hx. destruct (lookup_lt_is_Some_2 (rotate s ns) j) as [x Hxj]; [by rewrite length_rotate|].
    rewrite Hxj, (drop_S _ _ _ Hxj). cbn [take]. f_equal. apply IH. intros i Hi. apply Hj. lia. }
  unfold visited. rewrite Hall by (intros; lia). rewrite drop_0.
  apply take_ge. by rewrite length_rotate.
Qed.

Lemma any_node_excluding_ok ex t : table_ok t -> table_ok (snd (any_node_excluding ex t)).
Proof.
  intros Hok. unfold any_node_excluding. destruct (nodes t) eqn:Hns; [done|].
  destruct (any_node_loop _ _ _ _) as [r c] eqn:E. apply any_node_loop_cursor in E; [|apply Hok].
  rewrite <-Hns. destruct Hok. by split.
Qed.

Lemma apply_brain_snapshot_ok ns shards at_ t :
  table_ok t -> Forall (fun s => 0 <= bs_shard_id s) shards ->
  table_ok (snd (apply_brain_snapshot_at ns shards at_ t)).
Proof.
  intros Hok Hsh. unfold apply_brain_snapshot_at.
  destruct (collect_nodes ns ∅ ∅) as [[by_id md]|] eqn:Hcn; [|done].
  apply (collect_nodes_ok _ _ _ _ _ snapshot_nodes_ok_empty) in Hcn as [Hnorm Hmd Hinj].
  case_bool_decide as Hemp; [done|].
  destruct (collect_leaders _ by_id shards ∅) as [fresh|] eqn:Hcl; [|done].
  destruct (Z.eqb_spec (Z.of_nat (size fresh)) (shard_count t)) as [Hsz|]; [|done].
  assert (Hf : forall s u, fresh !! s = Some u ->
    0 <= s < shard_count t /\ u ∈ sort_strings (map snd (map_to_list by_id))).
  { intros s u Hu. destruct (collect_leaders_range _ _ _ _ _ _ Hsh Hcl Hu) as [? ?].
    by rewrite sorted_urls_elem. }
  assert (Hkeep : forall s u,
    keep_hinted (sort_strings (map snd (map_to_list by_id))) (leaders t)
      (filter (fun p : Z * Z => at_ <= snd p) (leader_hints t)) fresh !! s = Some u ->
    0 <= s < shard_count t /\ u ∈ sort_strings (map snd (map_to_list by_id))).
  { intros s u. rewrite keep_hinted_lookup.
    repeat case_match; try case_bool_decide; intros Hu; simplify_eq; eauto.
    split; [|done]. by eapply (ok_leaders_range t). }
  destruct Hok as [? ? ? ? ? ? H4 ? ? ?]. cbn [negb snd].
  split; cbn; try done.
  - by apply sorted_urls_nodup.
  - intros n [id Hid]%sorted_urls_elem. eauto.
  - intros s u Hu. by apply Hkeep in Hu as [_ ?].
  - intros s u Hu. by apply Hkeep in Hu as [? _].
  - intros _ s Hs. rewrite keep_hinted_lookup.
    destruct (map_full fresh (shard_count t) ltac:(lia) (fun s v H => proj1 (Hf s v H)) Hsz s Hs)
      as [u Hu]. repeat case_match; try case_bool_decide; eauto.
  - intros s h [? _]%map_lookup_filter_Some. eauto.
  - intros u m Hu. apply sorted_urls_elem, Hmd. eauto.
Qed.

Lemma run_op_ok o t : table_ok t -> op_ok (shard_count t) o -> table_ok (run_op o t).
Proof.
  intros Hok Ho. destruct o as [now sh url|url|ex|at_ ns ps]; cbn [run_op].
  - by apply accept_leader_hint_ok.
  - by apply record_region_request_ok.
  - by apply any_node_excluding_ok.
  - by apply apply_brain_snapshot_ok.
Qed.

Lemma run_op_shard_count o t : shard_count (run_op o t) = shard_count t.
Proof.
  destruct o as [now sh url|url|ex|fetched_at ns ps]; cbn [run_op]; try done.
  - unfold accept_leader_hint. by repeat case_match.
  - unfold any_node_excluding. by repeat case_match.
  - unfold apply_brain_snapshot_at. repeat case_match; done.
Qed.

(** ** Properties *)

(** C16. The table invariant holds in every reachable table: starting from any
    seed list and under any sequence of operations by any tasks — hints, keyless
    picks, request counting, brain refreshes with any snapshot — the members are
    distinct normalised origins, every leader is a member, every shard has a
    leader as soon as one member is known, hints and leaders stay within the shard
    range, and the counters stay within 64 bits. *)
Theorem reachable_table_ok (n : Z) (seeds : list string) (ops : list table_op) :
  0 <= n <= u32_max -> Forall (op_ok n) ops -> table_ok (run_ops ops (new n seeds)).
Proof.
  intros Hn. assert (H0 : shard_count (new n seeds) = n) by done.
  pose proof (new_ok n seeds Hn) as Hok. revert H0 Hok. generalize (new n seeds) as t.
  induction ops as [|o ops IH]; intros t Hsc Hok Hops; [done|].
  inversion_clear Hops. unfold run_ops. cbn [fold_left].
  apply IH; [by rewrite run_op_shard_count| |done]. apply run_op_ok; [done|]. by rewrite Hsc.
Qed.

(** C29. Leader hints are bound to the membership: a hint is accepted exactly when
    its normalised URL is a known member, that member becomes the leader of that
    shard and nothing else changes but the hint's time; a hint that names anything
    else leaves the whole table as it was. *)
Theorem accept_leader_hint_spec (now shard : Z) (node_url : string) (t : RouteTable) :
  table_ok t ->
  (forall target, fst (accept_leader_hint now shard node_url t) = Some target <->
     normalize_node_url node_url = Some target /\ target ∈ nodes t) /\
  match accept_leader_hint now shard node_url t with
  | (None, t') => t' = t
  | (Some target, t') =>
      leader_for t' shard = Some target /\ leader_hints t' !! shard = Some now
      /\ (forall s, s <> shard -> leader_for t' s = leader_for t s
                                  /\ leader_hints t' !! s = leader_hints t !! s)
      /\ nodes t' = nodes t /\ node_metadata t' = node_metadata t
      /\ region_requests t' = region_requests t /\ cursor t' = cursor t
      /\ shard_count t' = shard_count t
  end.
Proof. exact (accept_leader_hint_facts now shard node_url t). Qed.

(** The round-robin pick is sound and, while the cursor does not wrap, complete:
    it returns a member that was not excluded, and returns nothing only when every
    member is excluded; leaders, members and hints are untouched. *)
Theorem any_node_excluding_spec (excluded : gset string) (t : RouteTable) :
  table_ok t -> cursor t + Z.of_nat (length (nodes t)) <= 2 ^ 64 ->
  let (r, t') := any_node_excluding excluded t in
  nodes t' = nodes t /\ leaders t' = leaders t /\ leader_hints t' = leader_hints t /\
  match r with
  | Some node => node ∈ nodes t /\ node ∉ excluded
  | None => forall node, node ∈ nodes t -> node ∈ excluded
  end.
Proof. exact (any_node_excluding_facts excluded t). Qed.

(** C30. The round-robin scan is the first member not excluded in the rotation that
    starts at the cursor, and the cursor moves to just behind the member returned
    (behind all members when there is none), as long as it does not wrap. *)
Theorem any_node_excluding_reference (excluded : gset string) (t : RouteTable) :
  table_ok t -> nodes t <> [] -> cursor t + Z.of_nat (length (nodes t)) < 2 ^ 64 ->
  let start := Z.to_nat (cursor t mod Z.of_nat (length (nodes t))) in
  let (r, t') := any_node_excluding excluded t in
  match list_find (.∉ excluded) (rotate start (nodes t)) with
  | Some (i, node) => r = Some node /\ cursor t' = cursor t + Z.of_nat i + 1
  | None => r = None /\ cursor t' = cursor t + Z.of_nat (length (nodes t))
  end.
Proof.
  intros Hok Hne Hb start. unfold any_node_excluding, start. rewrite <-visited_rotate by done.
  destruct (nodes t) as [|n0 ns] eqn:E; [done|]. rewrite <-E in *.
  rewrite any_node_loop_visited; [|done|apply Hok|done].
  by destruct (list_find _ _) as [[i x]|].
Qed.

(** C17. A brain snapshot is applied whole or not at all. It is applied exactly when
    its healthy nodes are consistent (identifiers present, no identifier and no URL
    twice, one node at least; a node with an invalid address does not count) and its
    placement names every shard of the table exactly once, each with a routable
    preferred leader or, failing that, a routable replica. Then the members are the
    healthy nodes with a valid address, with their metadata, and each shard's leader
    is where the control plane placed it (the preferred leader before any replica,
    the first routable replica before the others), unless a hint not older than the
    snapshot names a leader that is still a member. In every other case the table is
    untouched. *)
Theorem apply_brain_snapshot_spec (ns : list BrainNode) (shards : list BrainShard)
    (fetched_at : Z) (t : RouteTable) :
  table_ok t -> 0 < shard_count t -> Forall (fun s => 0 <= bs_shard_id s) shards ->
  let (applied, t') := apply_brain_snapshot_at ns shards fetched_at t in
  (applied = 0 /\ t' = t /\
   ~ (consistent_nodes ns /\ complete_placement (shard_count t) ns shards)) \/
  (applied = shard_count t /\ shard_count t' = shard_count t /\
   consistent_nodes ns /\ complete_placement (shard_count t) ns shards /\
   (forall u, u ∈ nodes t' <-> exists node id, node ∈ ns /\ healthy_node node id u) /\
   (forall node id u, node ∈ ns -> healthy_node node id u -> node_metadata t' !! u = Some (listed_metadata node)) /\
   (forall s h, leader_hints t' !! s = Some h <-> leader_hints t !! s = Some h /\ fetched_at <= h) /\
   region_requests t' = region_requests t /\ cursor t' = cursor t /\
   forall sh u, sh ∈ shards -> placed ns sh u ->
     leader_for t' (bs_shard_id sh) =
       match leader_hints t' !! bs_shard_id sh, leader_for t (bs_shard_id sh) with
       | Some _, Some current => if bool_decide (current ∈ nodes t') then Some current else Some u
       | _, _ => Some u
       end).
Proof.
  intros Hok Hpos Hsh. pose proof (snapshot_decided ns shards (shard_count t) Hpos Hsh) as Hdec.
  unfold apply_brain_snapshot_at.
  destruct (collect_nodes ns ∅ ∅) as [[by_id md]|] eqn:Hcn;
    [|left; split_and!; [done..|]; intros (? & ? & ? & [=] & _)%Hdec].
  case_bool_decide as Hemp;
    [left; split_and!; [done..|]; intros (? & ? & ? & [= <- <-] & ? & _)%Hdec; done|].
  destruct (collect_leaders _ by_id shards ∅) as [fresh|] eqn:Hcl;
    [|left; split_and!; [done..|]; intros (? & ? & ? & [= <- <-] & _ & E & _)%Hdec; congruence].
  destruct (Z.eqb_spec (Z.of_nat (size fresh)) (shard_count t)) as [Hsz|Hsz]; cbn [negb];
    [|left; split_and!; [done..|]; intros (? & ? & ? & [= <- <-] & _ & E & ?)%Hdec; congruence].
  destruct (proj2 Hdec) as [Hcons Hcomp]; [by exists by_id, md, fresh|].
  pose proof (collected_routable _ _ _ Hcn) as Hby.
  right. cbn. split_and!; try done.
  - intros u. rewrite sorted_urls_elem. setoid_rewrite Hby. unfold routable. naive_solver.
  - intros node id u. by apply (collect_nodes_metadata _ _ _ _ _ Hcn).
  - intros s h. by rewrite map_lookup_filter_Some.
  - intros sh u Hin Hu. unfold leader_for. cbn. rewrite keep_hinted_lookup.
    by rewrite (collected_leader _ _ _ _ _ _ Hcl Hin (proj2 (placement_target_placed _ _ _ _ Hby) Hu)).
Qed.

(** A hint no older than the snapshot keeps its leader, if that is still a member. *)
Lemma snapshot_keeps_hint ns ps fetched_at t s h u :
  let t' := snd (apply_brain_snapshot_at ns ps fetched_at t) in
  leader_hints t !! s = Some h -> fetched_at <= h -> leader_for t s = Some u -> u ∈ nodes t' ->
  leader_for t' s = Some u /\ leader_hints t' !! s = Some h.
Proof.
  intros t' Hh Hle Hu Hin. unfold t', apply_brain_snapshot_at in *.
  destruct (collect_nodes ns ∅ ∅) as [[by_id md]|]; [|done].
  case_bool_decide; [done|]. destruct (collect_leaders _ by_id ps ∅) as [fresh|]; [|done].
  destruct (negb _); [done|]. cbn in *.
  assert (Hf : filter (fun p : Z * Z => fetched_at <= snd p) (leader_hints t) !! s = Some h)
    by (by apply map_lookup_filter_Some).
  split; [|done]. unfold leader_for in *. cbn. by rewrite keep_hinted_lookup, Hf, Hu, bool_decide_true.
Qed.

Lemma any_node_eq t :
  nodes t <> [] ->
  fst (any_node t) = nodes t !! Z.to_nat (cursor t mod Z.of_nat (length (nodes t))) /\
  nodes (snd (any_node t)) = nodes t /\ cursor (snd (any_node t)) = u64_wrapping_add (cursor t) 1.
Proof.
  intros Hne. unfold any_node, any_node_excluding.
  destruct (nodes t) as [|n0 ns] eqn:Hns; [done|]. rewrite <-Hns.
  cbn [any_node_loop length]. rewrite Hns. cbn [any_node_loop length]. rewrite <-Hns.
  destruct (nodes t !! _) eqn:E; cbn; [|done]. rewrite bool_decide_false by set_solver. done.
Qed.

Lemma any_nodes_eq k t :
  nodes t <> [] -> 0 <= cursor t -> cursor t + Z.of_nat k <= 2 ^ 64 ->
  fst (any_nodes k t)
  = map (fun i => nodes t !! Z.to_nat ((cursor t + Z.of_nat i) mod Z.of_nat (length (nodes t)))) (seq 0 k).
Proof.
  intros Hne. revert t Hne. induction k as [|k IH]; intros t Hne Hc Hb; [done|].
  cbn [any_nodes seq map]. destruct (any_node_eq t Hne) as (H1 & H2 & H3).
  destruct (any_node t) as [r t1] eqn:E. cbn [fst snd] in *.
  destruct (any_nodes k t1) as [rs t2] eqn:E2. cbn [fst]. f_equal.
  - by rewrite H1, Z.add_0_r.
  - destruct (decide (k = 0%nat)) as [->|Hk]; [cbn in *; by simplify_eq|].
    assert (Hw : u64_wrapping_add (cursor t) 1 = cursor t + 1) by (apply Z.mod_small; lia).
    assert (rs = fst (any_nodes k t1)) as -> by (by rewrite E2).
    rewrite IH by (rewrite ?H2, ?H3, ?Hw; (done || lia)). rewrite H2, H3, Hw.
    rewrite <-seq_shift, map_map. apply map_ext. intros i. by replace (cursor t + 1 + Z.of_nat i) with (cursor t + Z.of_nat (S i)) by lia.
Qed.

(** Keyless requests are spread evenly: as long as the cursor does not wrap,
    as many consecutive picks as there are members return every member exactly
    once. *)
Theorem any_node_round_robin (t : RouteTable) :
  table_ok t -> nodes t <> [] -> cursor t + Z.of_nat (length (nodes t)) <= 2 ^ 64 ->
  fst (any_nodes (length (nodes t)) t) ≡ₚ map Some (nodes t).
Proof.
  intros Hok Hne Hb. pose proof (ok_cursor_u64 t Hok).
  rewrite any_nodes_eq by (done || lia).
  set (ns := nodes t) in *. set (c := cursor t) in *.
  assert (Hlen : 0 < Z.of_nat (length ns)) by (destruct ns; [done|simpl; lia]).
  set (f := fun i => ns !! Z.to_nat ((c + Z.of_nat i) mod Z.of_nat (length ns))).
  apply NoDup_Permutation.
  - apply (NoDup_fmap_2_strong f); [|apply NoDup_seq].
    intros x y Hx%elem_of_seq Hy%elem_of_seq Hf. unfold f in Hf.
    assert (Hin : forall i, is_Some (ns !! Z.to_nat ((c + i) mod Z.of_nat (length ns)))).
    { intros i. apply lookup_lt_is_Some_2. pose proof (Z.mod_pos_bound (c + i) _ Hlen). lia. }
    destruct (Hin (Z.of_nat x)) as [v Hv]. rewrite Hv in Hf. symmetry in Hf.
    pose proof (NoDup_lookup _ _ _ _ (ok_nodes_nodup t Hok) Hv Hf) as Heq.
    pose proof (Z.mod_pos_bound (c + Z.of_nat x) _ Hlen). pose proof (Z.mod_pos_bound (c + Z.of_nat y) _ Hlen).
    assert (Hm : (c + Z.of_nat x) mod Z.of_nat (length ns) = (c + Z.of_nat y) mod Z.of_nat (length ns)) by lia.
    apply (residues_inj c (Z.of_nat (length ns))) in Hm; lia.
  - apply (NoDup_fmap_2 Some). apply Hok.
  - intros o. rewrite !list_elem_of_In, !in_map_iff. setoid_rewrite <-list_elem_of_In. split.
    + intros (i & Hi & _). unfold f in Hi.
      destruct (lookup_lt_is_Some_2 ns (Z.to_nat ((c + Z.of_nat i) mod Z.of_nat (length ns)))) as [v Hv].
      { pose proof (Z.mod_pos_bound (c + Z.of_nat i) _ Hlen). lia. }
      exists v. split; [congruence|]. by eapply list_elem_of_lookup_2.
    + intros (v & <- & [i Hi]%list_elem_of_lookup). pose proof (lookup_lt_Some _ _ _ Hi).
      destruct (residues_cover c (Z.of_nat (length ns)) (Z.of_nat i)) as (k & Hk & Hki); [lia|lia|].
      exists (Z.to_nat k). split; [|apply elem_of_seq; lia].
      unfold f. rewrite Z2Nat.id, Hki, Nat2Z.id by lia. done.
Qed.

End Invariant.

(** The 64-bit cursor wraps ([wrapping_add]) in the middle of a scan without
    visiting all members when their number does not divide 2^64: a valid table of
    three members with the cursor at its maximum has an untried member that the
    scan does not find, so the retry loop gives up one member early. *)
Theorem any_node_wrap_misses_member :
  exists (t : RouteTable) (excluded : gset string) (node : string),
    table_ok t /\ node ∈ nodes t /\ node ∉ excluded
    /\ fst (any_node_excluding excluded t) = None.
Proof.
  set (t0 := new 3 ["http://a:1"; "http://b:1"; "http://c:1"]).
  assert (Hok : table_ok t0) by (apply new_ok; unfold u32_max; lia).
  exists (mkTable (shard_count t0) (nodes t0) (node_metadata t0) (leaders t0) (leader_hints t0)
            (region_requests t0) (2 ^ 64 - 1)), {["http://a:1"; "http://b:1"]}, "http://c:1".
  split; [|split; [|split]].
  - destruct Hok. by split.
  - apply list_elem_of_In. vm_compute. tauto.
  - set_solver.
  - vm_compute. reflexivity.
Qed.

(** ** Witnesses *)

Definition three_nodes : list string := ["http://a:8090"; "b:8090/"; "http://c:8090"].
Definition table3 : RouteTable := new 4 three_nodes.

Lemma table3_ok : table_ok table3.
Proof. apply new_ok. unfold u32_max. lia. Qed.

Lemma reachable_table_ok_witness :
  table_ok (run_ops [OpAcceptHint 5 3 "http://b:8090"; OpAnyNode ∅; OpRecordRegion "http://b:8090";
                     OpRefresh 4 [] []] table3).
Proof.
  apply (reachable_table_ok 4 three_nodes); [vm_compute; split; discriminate|].
  repeat constructor; vm_compute; discriminate || reflexivity.
Defined.

Lemma accept_leader_hint_spec_witness :
  fst (accept_leader_hint 7 3 "http://b:8090/" table3) = Some "http://b:8090".
Proof.
  apply (proj1 (accept_leader_hint_spec 7 3 "http://b:8090/" table3 table3_ok)).
  split; [vm_compute; reflexivity|]. apply list_elem_of_In. vm_compute. tauto.
Defined.

Lemma any_node_excluding_spec_witness :
  match any_node_excluding {["http://a:8090"]} table3 with
  | (Some n, _) => n ∈ nodes table3 /\ n ∉ ({["http://a:8090"]} : gset string)
  | (None, _) => False
  end.
Proof.
  pose proof (any_node_excluding_spec {["http://a:8090"]} table3 table3_ok ltac:(vm_compute; discriminate)) as H.
  assert (E : fst (any_node_excluding {["http://a:8090"]} table3) = Some "http://b:8090")
    by (vm_compute; reflexivity).
  destruct (any_node_excluding _ _) as [r t']. cbn [fst] in E. rewrite E in H |- *. apply H.
Defined.

Lemma any_node_excluding_reference_witness :
  fst (any_node_excluding {["http://a:8090"]} table3) = Some "http://b:8090".
Proof.
  pose proof (any_node_excluding_reference {["http://a:8090"]} table3 table3_ok
    ltac:(vm_compute; discriminate) ltac:(vm_compute; reflexivity)) as H.
  cbn zeta in H. destruct (any_node_excluding _ _) as [r t'].
  assert (E : list_find (.∉ ({["http://a:8090"]} : gset string))
    (rotate (Z.to_nat (cursor table3 mod Z.of_nat (length (nodes table3)))) (nodes table3))
    = Some (1%nat, "http://b:8090")) by (vm_compute; reflexivity).
  rewrite E in H. exact (proj1 H).
Defined.

Lemma any_node_round_robin_witness :
  fst (any_nodes 3 table3) ≡ₚ [Some "http://a:8090"; Some "http://b:8090"; Some "http://c:8090"].
Proof.
  apply (any_node_round_robin table3 table3_ok); vm_compute; discriminate.
Defined.

Definition snapshot_nodes : list BrainNode :=
  [mkBrainNode "n1" "http://b:8090" "Healthy" None (Some "eu") None;
   mkBrainNode "n2" "http://d:8090" "healthy" None None None;
   mkBrainNode "n3" "" "healthy" None None None].
Definition snapshot_shards : list BrainShard :=
  map (fun i => mkBrainShard i ["n3"; "n2"] (Some "n1")) [0; 1; 2; 3].

Lemma apply_brain_snapshot_spec_witness :
  fst (apply_brain_snapshot_at snapshot_nodes snapshot_shards 4 table3) = 4 /\
  consistent_nodes snapshot_nodes /\ complete_placement 4 snapshot_nodes snapshot_shards.
Proof.
  pose proof (apply_brain_snapshot_spec snapshot_nodes snapshot_shards 4 table3 table3_ok
    ltac:(reflexivity) ltac:(repeat constructor; vm_compute; discriminate)) as H.
  assert (E : fst (apply_brain_snapshot_at snapshot_nodes snapshot_shards 4 table3) = 4)
    by (vm_compute; reflexivity).
  destruct (apply_brain_snapshot_at _ _ _ _) as [r t']. cbn [fst] in *. subst r.
  destruct H as [(H & _)|(_ & _ & H1 & H2 & _)]; [discriminate|].
  split; [reflexivity|]. split; [exact H1|exact H2].
Defined.
