(* ===== verification/Identity.v ===== *)
(** * Verified identities and credentials ([src/auth.rs], the pure part)

    The identity the balancer attaches to a request and the checks that produce
    one: trusted edge headers, claims of a verified token, an introspection answer;
    recognising credentials; validating identifiers and scopes. The theorems: the
    secret comparison decides equality, edge identities need the exact secret and
    unique well-formed headers, the claim contract accepts exactly the documented
    claims, and every accepted organisation is free of the key separator. *)
From S2P Require Import Prelude RustStr Externals Instances.
Open Scope string_scope.
Open Scope list_scope.
Open Scope Z_scope.
Open Scope rust_scope.

(** ** Data *)

Inductive AuthKind : Type := ApiKey | Jwt.

Record VerifiedIdentity := mkIdentity {
  kind : AuthKind;
  org_id : string;
  key_id : option string;
  scopes : list string;
  require_idempotency : bool;
}.

(** The claims of a token ([revocation.rs]). *)
Record Claims := mkClaims {
  cl_sub : string;
  cl_org_id : string;
  cl_scopes : list string;
  cl_iss : string;
  cl_aud : string;
  cl_iat : Z;
  cl_exp : Z;
  cl_jti : string;
}.

#[export] Instance claims_eq_dec : EqDecision Claims.
Proof. solve_decision. Defined.

Inductive Algorithm : Type :=
| HS256 | HS384 | HS512
| ES256 | ES384 | RS256 | RS384 | RS512 | PS256 | PS384 | PS512 | EdDSA.

(** [AuthError]; the payloads of foreign error types are dropped. *)
Inductive AuthError : Type :=
| EmptyJwks
| HttpError
| InvalidClaims (reason : string)
| InvalidResponse (what : string)
| JwtError
| MissingJwk (kid : string)
| MissingKid
| OversizedResponse (what : string)
| SymmetricJwk
| UnsupportedAlgorithm (a : Algorithm).

Definition MAX_ACCESS_TOKEN_TTL_SECS : Z := 15 * 60.
Definition JWT_CLOCK_SKEW_SECS : Z := 30.
Definition MIN_READER_SECRET_BYTES : Z := 32.
Definition EDGE_AUTH_HEADER : string := "x-fiducia-edge-auth".

(** ** Identities *)

Definition kind_header (i : VerifiedIdentity) : string :=
  match kind i with ApiKey => "api_key" | Jwt => "jwt" end.

Definition scopes_header (i : VerifiedIdentity) : string := join " " (scopes i).

Definition should_strip_client_auth_header (name : string) : bool :=
  bool_decide (to_ascii_lowercase name ∈
    ["authorization"; "x-api-key"; "cookie"; "x-fiducia-auth-kind"; "x-fiducia-org-id";
     "x-fiducia-key-id"; "x-fiducia-scopes"; EDGE_AUTH_HEADER; "x-fiducia-internal-auth"]).

Definition no_control_or_space (s : string) : bool :=
  negb (any_char (fun c => is_control c || is_whitespace c) s).

Definition valid_identifier (value : string) : bool :=
  let value := trim value in
  negb (String.eqb value "") && (str_len value <=? 256) && no_control_or_space value.

Definition valid_scope (scope : string) : bool :=
  negb (String.eqb scope "") && (str_len scope <=? 128) && no_control_or_space scope.

Definition valid_scopes (scopes : list string) : bool :=
  (Z.of_nat (length scopes) <=? 64) && forallb valid_scope scopes.

Definition valid_reader_secret (secret : string) : bool :=
  (MIN_READER_SECRET_BYTES <=? str_len secret) && no_control_or_space secret.

(** [difference |= left ^ right] over the zipped bytes. *)
Fixpoint byte_difference (left right : string) (difference : Z) : Z :=
  match left, right with
  | String a l, String b r => byte_difference l r (Z.lor difference (Z.lxor (ord a) (ord b)))
  | _, _ => difference
  end.

Definition constant_time_eq (left right : string) : bool :=
  if negb (str_len left =? str_len right) then false
  else byte_difference left right 0 =? 0.

Section Headers.
Context `{HT : Http}.

(** [Some None]: absent; [Some (Some v)]: exactly one readable value. *)
Definition unique_header_str (headers : HeaderMap) (name : string) : option (option string) :=
  match hm_get_all headers name with
  | [] => Some None
  | [value] => match hv_to_str value with Some s => Some (Some s) | None => None end
  | _ :: _ :: _ => None
  end.

Definition trusted_edge_identity (headers : HeaderMap) (expected_secret : option string)
  : option VerifiedIdentity :=
  let! expected := expected_secret in
  let! provided := mjoin (unique_header_str headers EDGE_AUTH_HEADER) in
  if negb (constant_time_eq provided expected) then None else
  let! org := mjoin (unique_header_str headers "x-fiducia-org-id") in
  let org := trim org in
  if negb (valid_identifier org) then None else
  let! kind_value := unique_header_str headers "x-fiducia-auth-kind" in
  let! kind :=
    match kind_value with
    | None => Some ApiKey
    | Some k => if String.eqb k "api_key" then Some ApiKey
                else if String.eqb k "jwt" then Some Jwt else None
    end in
  let! scopes_value := unique_header_str headers "x-fiducia-scopes" in
  let scopes := match scopes_value with Some v => split_whitespace v | None => [] end in
  if negb (valid_scopes scopes) then None else
  let! key_value := unique_header_str headers "x-fiducia-key-id" in
  let key_id :=
    match key_value with
    | Some v => if String.eqb (trim v) "" then None else Some (trim v)
    | None => None
    end in
  if (match key_id with Some v => negb (valid_identifier v) | None => false end) then None else
  Some (mkIdentity kind org key_id scopes false).

Definition bearer_token (value : string) : option string :=
  let (scheme, rest) := splitn2_ws (trim value) in
  let! token := rest in
  let token := trim token in
  if eq_ignore_ascii_case scheme "bearer" && negb (String.eqb token "") then Some token else None.

Definition header_str (headers : HeaderMap) (name : string) : option string :=
  let! value := hm_get headers name in hv_to_str value.

Definition extract_credential (headers : HeaderMap) : option string :=
  match (let! value := header_str headers "authorization" in bearer_token value) with
  | Some token => Some token
  | None =>
      let! value := header_str headers "x-api-key" in
      if String.eqb (trim value) "" then None else Some (trim value)
  end.

End Headers.

Definition is_api_key (value : string) : bool := starts_with "fdc_" value && contains_char "." value.

Definition looks_like_jwt (value : string) : bool :=
  Z.of_nat (length (split_on "." value)) =? 3.

Definition identity_from_introspection (introspection : Introspection) : option VerifiedIdentity :=
  let! org := in_org_id introspection in
  if negb (in_valid introspection) || negb (valid_identifier org)
     || negb (valid_scopes (in_scopes introspection)) then None
  else Some (mkIdentity ApiKey org
               (match in_key_id introspection with
                | Some v => if valid_identifier v then Some v else None
                | None => None
                end)
               (in_scopes introspection)
               (default false (in_require_idempotency introspection))).

Definition identity_from_claims (claims : Claims) : result VerifiedIdentity AuthError :=
  Ok (mkIdentity Jwt (cl_org_id claims) None (cl_scopes claims) false).

Definition validate_claim_contract (claims : Claims) (expected_issuer expected_audience : string)
    (now : Z) : result unit AuthError :=
  if negb (String.eqb (cl_iss claims) expected_issuer)
     || negb (String.eqb (cl_aud claims) expected_audience)
  then Err (InvalidClaims "issuer or audience")
  else if negb (valid_identifier (cl_sub claims)) || negb (valid_identifier (cl_org_id claims))
     || negb (valid_identifier (cl_jti claims))
  then Err (InvalidClaims "identity")
  else if negb (String.eqb (cl_sub claims) (cl_org_id claims))
  then Err (InvalidClaims "subject/tenant mismatch")
  else if (cl_exp claims <=? cl_iat claims)
     || (MAX_ACCESS_TOKEN_TTL_SECS <? cl_exp claims - cl_iat claims)
  then Err (InvalidClaims "lifetime")
  else if u64_saturating_add now JWT_CLOCK_SKEW_SECS <? cl_iat claims
  then Err (InvalidClaims "issued in the future")
  else if negb (valid_scopes (cl_scopes claims))
  then Err (InvalidClaims "scopes")
  else Ok tt.

Definition is_asymmetric_algorithm (algorithm : Algorithm) : bool :=
  match algorithm with
  | ES256 | ES384 | RS256 | RS384 | RS512 | PS256 | PS384 | PS512 | EdDSA => true
  | HS256 | HS384 | HS512 => false
  end.

(** [format!("{byte:02x}")] over the bytes. *)
Fixpoint to_hex (bytes : string) : string :=
  match bytes with
  | "" => ""
  | String b r =>
      String (default "?"%char (from_digit16 (Z.shiftr (ord b) 4)))
        (String (default "?"%char (from_digit16 (Z.land (ord b) 15))) (to_hex r))
  end.

Section Responses.
Context `{SJ : SerdeJson} `{SH : Sha2}.

Definition auth_response (status : Z) (error detail : string) : Response :=
  json_response_with status [("cache-control", "no-store"); ("pragma", "no-cache")]
    (JObj [("error", JStr error); ("detail", JStr detail)]).

Definition credential_cache_key (kind credential : string) : string :=
  kind +:+ ":" +:+ to_hex (sha256_digest credential).

End Responses.

(** What every identity satisfies, wherever it comes from. *)
Record identity_ok (i : VerifiedIdentity) : Prop := {
  io_org : valid_identifier (org_id i) = true;
  io_scopes : valid_scopes (scopes i) = true;
  io_key : forall k, key_id i = Some k -> valid_identifier k = true;
}.

(** The header carries exactly one value, and it is readable. *)
Definition one_value `{Http} (headers : HeaderMap) (name value : string) : Prop :=
  exists raw, hm_get_all headers name = [raw] /\ hv_to_str raw = Some value.

(** ** Lemmas *)

Lemma byte_difference_zero l r d :
  String.length l = String.length r -> (byte_difference l r d = 0 <-> d = 0 /\ l = r).
Proof.
  revert r d. induction l as [|a l IH]; intros [|b r] d Hlen; simpl in *; try done.
  { naive_solver. }
  rewrite IH by lia. rewrite Z.lor_eq_0_iff, Z.lxor_eq_0_iff. split.
  - intros [[-> Hab%ord_inj] ->]. by subst.
  - intros [-> [= -> ->]]. done.
Qed.

Lemma constant_time_eq_spec l r : constant_time_eq l r = true <-> l = r.
Proof.
  unfold constant_time_eq. destruct (Z.eqb_spec (str_len l) (str_len r)) as [H|H]; cbn [negb].
  - unfold str_len in H. rewrite Z.eqb_eq, byte_difference_zero by lia. tauto.
  - split; [done|]. by intros ->.
Qed.

Lemma no_control_or_space_elem s p :
  no_control_or_space s = true -> p ∈ pieces s ->
  is_control (piece_code p) = false /\ is_whitespace (piece_code p) = false.
Proof.
  unfold no_control_or_space, any_char. rewrite negb_true_iff, existsb_false, Forall_forall.
  intros H Hp. specialize (H p Hp). cbn in H. by apply orb_false_iff in H.
Qed.

(** The only ASCII control bytes of an accepted identifier are whitespace at its
    ends (which the check trims away before looking). *)
Lemma valid_identifier_control s a :
  valid_identifier s = true -> contains_char a s = true -> ord a < 128 ->
  is_control (ord a) = true -> is_whitespace (ord a) = true.
Proof.
  unfold valid_identifier. intros H Hc Ha Hctl. breflect.
  apply ascii_char_elem in Hc; [|done].
  destruct (trim_split s) as (l1 & l2 & l3 & Hp & Ht & Hl1 & Hl3).
  rewrite Hp, !elem_of_app in Hc. rewrite Forall_forall in Hl1, Hl3.
  destruct Hc as [Hc|[Hc|Hc]]; [by apply (Hl1 _ Hc)| |by apply (Hl3 _ Hc)].
  assert (Hp2 : pieces (trim s) = l2) by (rewrite Ht; by eapply pieces_infix).
  rewrite <-Hp2 in Hc.
  match goal with H : no_control_or_space _ = true |- _ =>
    destruct (no_control_or_space_elem _ _ H Hc) as [Hn _] end.
  cbn in Hn. congruence.
Qed.

Lemma valid_identifier_no_soh s : valid_identifier s = true -> contains_char (chr 1) s = false.
Proof.
  intros H. destruct (contains_char (chr 1) s) eqn:E; [|done].
  by pose proof (valid_identifier_control s (chr 1) H E eq_refl eq_refl).
Qed.

#[export] Hint Resolve valid_identifier_no_soh : fiducia.

Lemma identity_hex_inj s t : to_hex s = to_hex t -> s = t.
Proof.
  revert t. induction s as [|a s IH]; intros [|b t]; cbn [to_hex]; try done.
  intros [= H1 H2 H3]. destruct (hex_byte a) as (h1 & l1 & Ha1 & Ha2 & <-).
  destruct (hex_byte b) as (h2 & l2 & Hb1 & Hb2 & <-). rewrite H1 in Ha1. rewrite H2 in Ha2.
  rewrite Ha1 in Hb1. rewrite Ha2 in Hb2. simplify_eq. f_equal. auto.
Qed.

Lemma unique_header_str_Some `{Http} h name v :
  unique_header_str h name = Some (Some v) <-> one_value h name v.
Proof.
  unfold unique_header_str, one_value. destruct (hm_get_all h name) as [|x [|y l]].
  - split; [done|]. by intros (? & ? & _).
  - destruct (hv_to_str x) as [s|] eqn:E; split; try done.
    + intros [= <-]. eauto.
    + intros (raw & [= <-] & Hr). congruence.
    + intros (raw & [= <-] & Hr). congruence.
  - split; [done|]. by intros (? & ? & _).
Qed.

Lemma unique_header_str_length `{Http} h name o :
  unique_header_str h name = Some o -> (length (hm_get_all h name) <= 1)%nat.
Proof. unfold unique_header_str. destruct (hm_get_all h name) as [|x [|y l]]; simpl; (done || lia). Qed.

Lemma mjoin_Some {A} (o : option (option A)) a : mjoin o = Some a <-> o = Some (Some a).
Proof. destruct o as [[]|]; naive_solver. Qed.

(** ** Properties *)

(** C23. Edge identities cannot be spoofed: the forwarded [x-fiducia-*] headers are
    believed only when a shared secret is configured and the request carries it
    exactly once and byte for byte; then every identity header occurs at most once
    and the identity is well formed. *)
Theorem trusted_edge_identity_sound `{Http} (headers : HeaderMap) (expected : option string)
    (id : VerifiedIdentity) :
  trusted_edge_identity headers expected = Some id ->
  (exists secret, expected = Some secret /\ one_value headers EDGE_AUTH_HEADER secret) /\
  (exists org, one_value headers "x-fiducia-org-id" org /\ org_id id = trim org) /\
  identity_ok id /\ require_idempotency id = false /\
  Forall (fun name => (length (hm_get_all headers name) <= 1)%nat)
    [EDGE_AUTH_HEADER; "x-fiducia-org-id"; "x-fiducia-auth-kind"; "x-fiducia-scopes";
     "x-fiducia-key-id"].
Proof.
  unfold trusted_edge_identity. destruct expected as [secret|]; [|done].
  destruct (mjoin _) as [provided|] eqn:Hs; [|done]. apply mjoin_Some in Hs.
  destruct (constant_time_eq provided secret) eqn:Heq; [|done]. cbn [negb].
  apply constant_time_eq_spec in Heq as ->.
  destruct (mjoin (unique_header_str headers "x-fiducia-org-id")) as [org|] eqn:Ho; [|done].
  apply mjoin_Some in Ho. destruct (valid_identifier (trim org)) eqn:Hvo; [|done]. cbn [negb].
  destruct (unique_header_str headers "x-fiducia-auth-kind") as [kv|] eqn:Hk; [|done].
  destruct (match kv with Some _ => _ | None => _ end) as [k|]; [|done].
  destruct (unique_header_str headers "x-fiducia-scopes") as [sv|] eqn:Hsc; [|done].
  destruct (valid_scopes _) eqn:Hvs; [|done]. cbn [negb].
  destruct (unique_header_str headers "x-fiducia-key-id") as [idv|] eqn:Hid; [|done].
  set (key := match idv with Some v => _ | None => _ end).
  destruct (match key with Some _ => _ | None => _ end) eqn:Hkey; [done|]. intros [= <-].
  split_and!.
  - exists secret. by rewrite <-unique_header_str_Some.
  - exists org. by rewrite <-unique_header_str_Some.
  - split; cbn; [done|done|]. intros v Hv. rewrite Hv in Hkey. by apply negb_false_iff in Hkey.
  - done.
  - rewrite !Forall_cons. split_and!; [..|done]; by eapply unique_header_str_length.
Qed.

(** C39. The claim contract: a verified token is accepted exactly when issuer and
    audience match, subject, organisation and token id are identifiers, subject and
    organisation agree, the lifetime is positive and at most fifteen minutes, it
    was not issued more than the clock skew in the future, and its scopes are
    well formed. *)
Theorem validate_claim_contract_spec (c : Claims) (iss aud : string) (now : Z) :
  0 <= now <= u64_max - JWT_CLOCK_SKEW_SECS ->
  validate_claim_contract c iss aud now = Ok tt <->
  cl_iss c = iss /\ cl_aud c = aud
  /\ valid_identifier (cl_sub c) = true /\ valid_identifier (cl_org_id c) = true
  /\ valid_identifier (cl_jti c) = true /\ cl_sub c = cl_org_id c
  /\ 0 < cl_exp c - cl_iat c <= 15 * 60 /\ cl_iat c <= now + 30
  /\ valid_scopes (cl_scopes c) = true.
Proof.
  intros Hnow. unfold validate_claim_contract, u64_saturating_add.
  rewrite Z.min_l by (unfold JWT_CLOCK_SKEW_SECS in *; lia).
  unfold MAX_ACCESS_TOKEN_TTL_SECS, JWT_CLOCK_SKEW_SECS.
  destruct (String.eqb_spec (cl_iss c) iss); cbn [negb orb]; [|naive_solver].
  destruct (String.eqb_spec (cl_aud c) aud); cbn [negb orb]; [|naive_solver].
  destruct (valid_identifier (cl_sub c)); cbn [negb orb]; [|naive_solver].
  destruct (valid_identifier (cl_org_id c)); cbn [negb orb]; [|naive_solver].
  destruct (valid_identifier (cl_jti c)); cbn [negb orb]; [|naive_solver].
  destruct (String.eqb_spec (cl_sub c) (cl_org_id c)); cbn [negb]; [|naive_solver].
  destruct (Z.leb_spec (cl_exp c) (cl_iat c)); cbn [orb]; [naive_solver lia|].
  destruct (Z.ltb_spec (15 * 60) (cl_exp c - cl_iat c)); [naive_solver lia|].
  destruct (Z.ltb_spec (now + 30) (cl_iat c)); [naive_solver lia|].
  destruct (valid_scopes (cl_scopes c)); cbn [negb]; naive_solver lia.
Qed.

Lemma identity_from_introspection_ok i id :
  identity_from_introspection i = Some id -> in_valid i = true /\ identity_ok id.
Proof.
  unfold identity_from_introspection. destruct (in_org_id i) as [org|]; [|done].
  destruct (in_valid i); cbn [negb orb]; [|done].
  destruct (valid_identifier org) eqn:Ho; cbn [negb orb]; [|done].
  destruct (valid_scopes (in_scopes i)) eqn:Hs; cbn [negb]; [|done]. intros [= <-].
  split; [done|]. split; cbn; [done|done|]. intros k Hk.
  destruct (in_key_id i) as [v|]; [|done]. destruct (valid_identifier v) eqn:Hv; naive_solver.
Qed.

Lemma identity_from_claims_ok c iss aud now id :
  validate_claim_contract c iss aud now = Ok tt -> identity_from_claims c = Ok id -> identity_ok id.
Proof.
  unfold validate_claim_contract. intros H [= <-]. repeat case_match; try done. breflect.
  repeat match goal with H : (_ || _) = false |- _ => apply orb_false_iff in H as [? ?] end.
  breflect. by split.
Qed.

Lemma auth_response_headers `{SerdeJson} status error detail :
  rs_status (auth_response status error detail) = status /\
  hm_get (rs_headers (auth_response status error detail)) "cache-control" = Some "no-store".
Proof. done. Qed.

(** [valid_identifier] looks at the trimmed text but the callers keep the raw
    one: an introspected organisation that ends in a line feed is accepted as the
    tenant, and it is not a legal header value, so the request that carries it can
    never be built. *)
Theorem padded_org_id_accepted `{!Http} `{!HttpLaws} :
  exists (i : Introspection) (id : VerifiedIdentity),
    identity_from_introspection i = Some id /\ identity_ok id /\
    trim (org_id id) <> org_id id /\ hv_from_str (org_id id) = None.
Proof.
  set (org := "org-a" +:+ String (chr 10) "").
  exists (mkIntrospection true (Some org) None ["kv:read"] None), (mkIdentity ApiKey org None ["kv:read"] false).
  assert (E : identity_from_introspection (mkIntrospection true (Some org) None ["kv:read"] None)
              = Some (mkIdentity ApiKey org None ["kv:read"] false)) by (vm_compute; reflexivity).
  split; [done|]. split; [by apply identity_from_introspection_ok in E as [_ ?]|].
  split; [by vm_compute|]. by apply hv_from_str_ctl.
Qed.

(** ** Witnesses *)

Definition edge_headers : HeaderMap :=
  [(EDGE_AUTH_HEADER, "edge-secret"); ("x-fiducia-auth-kind", "jwt"); ("x-fiducia-org-id", "org-a");
   ("x-fiducia-scopes", "kv:read kv:write"); ("x-fiducia-key-id", "key-a")].
Definition edge_identity : VerifiedIdentity :=
  mkIdentity Jwt "org-a" (Some "key-a") ["kv:read"; "kv:write"] false.

Lemma trusted_edge_identity_sound_witness :
  trusted_edge_identity edge_headers (Some "edge-secret") = Some edge_identity
  /\ trusted_edge_identity edge_headers (Some "edge-secreu") = None
  /\ trusted_edge_identity (("x-fiducia-org-id", "org-a") :: edge_headers) (Some "edge-secret") = None
  /\ identity_ok edge_identity.
Proof.
  split; [vm_compute; reflexivity|]. split; [vm_compute; reflexivity|].
  split; [vm_compute; reflexivity|].
  apply (trusted_edge_identity_sound edge_headers (Some "edge-secret") edge_identity).
  vm_compute. reflexivity.
Defined.

Definition demo_claims : Claims :=
  mkClaims "org-a" "org-a" ["kv:read"] "fiducia-auth" "fiducia-api" 100 200 "token-a".

Lemma validate_claim_contract_spec_witness :
  validate_claim_contract demo_claims "fiducia-auth" "fiducia-api" 100 = Ok tt.
Proof.
  apply (validate_claim_contract_spec demo_claims "fiducia-auth" "fiducia-api" 100);
    [unfold u64_max, JWT_CLOCK_SKEW_SECS; lia|].
  vm_compute. repeat split; discriminate || reflexivity.
Defined.

Lemma padded_org_id_accepted_witness :
  exists (i : Introspection) (id : VerifiedIdentity),
    identity_from_introspection i = Some id /\ hv_from_str (org_id id) = None.
Proof.
  destruct padded_org_id_accepted as (i & id & H & _ & _ & H'). exists i, id. split; [exact H|exact H'].
Defined.
