(* ===== verification/Scopes.v ===== *)
(** * Route authorization ([src/proxy.rs], the scope gate)

    The scopes a route requires ([required_scopes_for_route], one test per arm of
    the source's match, in order), the scope test and the dot-segment guard. The
    theorems: authorization fails closed, wildcards grant exactly their family,
    mutations need a write scope, and authorization and routing read the same
    segments of a path. *)
From S2P Require Import Prelude RustStr Externals Instances Routing Identity.
Open Scope string_scope.
Open Scope list_scope.
Open Scope Z_scope.
Open Scope rust_scope.

Definition PUBLIC_SCOPES : list string := [].
Definition ADMIN_READ_SCOPES : list string := ["admin:read"; "admin:write"].
Definition ADMIN_WRITE_SCOPES : list string := ["admin:write"].
Definition KV_READ_SCOPES : list string := ["kv:read"; "kv:write"; "admin:read"; "admin:write"].
Definition KV_WRITE_SCOPES : list string := ["kv:write"; "admin:write"].
Definition LOCKS_READ_SCOPES : list string :=
  ["locks:read"; "locks:write"; "admin:read"; "admin:write"].
Definition LOCKS_WRITE_SCOPES : list string := ["locks:write"; "admin:write"].
Definition REQUESTS_READ_SCOPES : list string :=
  ["requests:read"; "requests:write"; "admin:read"; "admin:write"].
Definition REQUESTS_WRITE_SCOPES : list string := ["requests:write"; "admin:write"].
Definition RATE_LIMIT_READ_SCOPES : list string :=
  ["rate-limit:read"; "rate-limit:write"; "requests:read"; "requests:write"; "admin:read";
   "admin:write"].
Definition RATE_LIMIT_WRITE_SCOPES : list string :=
  ["rate-limit:write"; "requests:write"; "admin:write"].
Definition CRON_READ_SCOPES : list string :=
  ["cron:read"; "cron:write"; "requests:read"; "requests:write"; "admin:read"; "admin:write"].
Definition CRON_WRITE_SCOPES : list string := ["cron:write"; "requests:write"; "admin:write"].
Definition ELECTIONS_READ_SCOPES : list string :=
  ["elections:read"; "elections:write"; "locks:read"; "locks:write"; "admin:read"; "admin:write"].
Definition ELECTIONS_WRITE_SCOPES : list string :=
  ["elections:write"; "locks:write"; "admin:write"].
Definition SERVICES_READ_SCOPES : list string :=
  ["services:read"; "services:write"; "admin:read"; "admin:write"].
Definition SERVICES_WRITE_SCOPES : list string := ["services:write"; "admin:write"].

(** [matches!(segment.to_ascii_lowercase().as_str(), ..)]. *)
Definition dot_segments : list string := ["."; "%2e"; ".."; ".%2e"; "%2e."; "%2e%2e"].

Definition path_has_dot_segment (path : string) : bool :=
  existsb (fun segment => bool_decide (to_ascii_lowercase segment ∈ dot_segments))
    (split_on "/" path).

Definition is_read_method (m : Method) : bool :=
  bool_decide (m = GET) || bool_decide (m = HEAD) || bool_decide (m = OPTIONS).

(** [uri.path().split('/').filter(|s| !s.is_empty())]. *)
Definition route_segments (path : string) : list string :=
  List.filter (fun s => negb (String.eqb s "")) (split_on "/" path).

Definition required_scopes_for_route (m : Method) (uri : Uri) : list string :=
  let read := is_read_method m in
  let segs := route_segments (uri_path uri) in
  let under f := segs_under ["v1"; f] segs in
  if segs_exact ["healthz"] segs || segs_exact ["readyz"] segs then PUBLIC_SCOPES
  else if segs_exact ["v1"; "status"] segs then ADMIN_READ_SCOPES
  else if under "observe" then ADMIN_READ_SCOPES
  else if segs_exact ["v1"; "kv"] segs && read then KV_READ_SCOPES
  else if segs_exact ["v1"; "kv"] segs then KV_WRITE_SCOPES
  else if (under "locks" || under "semaphores" || under "rw") && read then LOCKS_READ_SCOPES
  else if under "locks" || under "semaphores" || under "rw" then LOCKS_WRITE_SCOPES
  else if segs_exact ["v1"; "idempotency"] segs && read then REQUESTS_READ_SCOPES
  else if segs_exact ["v1"; "idempotency"] segs || under "idempotency" then REQUESTS_WRITE_SCOPES
  else if (under "rate-limit" || under "ratelimit") && read then RATE_LIMIT_READ_SCOPES
  else if under "rate-limit" || under "ratelimit" then RATE_LIMIT_WRITE_SCOPES
  else if under "cron" && read then CRON_READ_SCOPES
  else if under "cron" then CRON_WRITE_SCOPES
  else if under "elections" && read then ELECTIONS_READ_SCOPES
  else if under "elections" then ELECTIONS_WRITE_SCOPES
  else if under "services" && read then SERVICES_READ_SCOPES
  else if under "services" then SERVICES_WRITE_SCOPES
  else if under "counters" && read then KV_READ_SCOPES
  else if under "counters" then KV_WRITE_SCOPES
  else if (under "barriers" || under "handoffs" || under "claims") && read then LOCKS_READ_SCOPES
  else if under "barriers" || under "handoffs" || under "claims" then LOCKS_WRITE_SCOPES
  else if (under "tasks" || under "effects" || under "decisions") && read then REQUESTS_READ_SCOPES
  else if under "tasks" || under "effects" || under "decisions" then REQUESTS_WRITE_SCOPES
  else if under "budgets" && read then RATE_LIMIT_READ_SCOPES
  else if under "budgets" then RATE_LIMIT_WRITE_SCOPES
  else if read then ADMIN_READ_SCOPES
  else ADMIN_WRITE_SCOPES.

Definition scope_matches (granted required : string) : bool :=
  if String.eqb granted required then true
  else match strip_suffix ":*" granted with
  | None => false
  | Some prefix =>
      match strip_prefix prefix required with
      | Some suffix => starts_with ":" suffix
      | None => false
      end
  end.

Definition has_any_scope (identity : VerifiedIdentity) (required : list string) : bool :=
  existsb (fun granted =>
    let granted := trim granted in
    String.eqb granted "*" || existsb (scope_matches granted) required) (scopes identity).

(** The error carries the scopes that would have been needed ([ScopeFailure]). *)
Definition authorize_route (identity : option VerifiedIdentity) (m : Method) (uri : Uri)
  : result unit (list string) :=
  let required := required_scopes_for_route m uri in
  match required with
  | [] => Ok tt
  | _ =>
      match identity with
      | None => Err required
      | Some i => if has_any_scope i required then Ok tt else Err required
      end
  end.

Section Responses.
Context `{SJ : SerdeJson}.

Definition dot_segment_response (uri : Uri) : Response :=
  json_response 400 (JObj [
    ("error", JStr "invalid_path");
    ("detail", JStr "path may not contain a '.' or '..' segment");
    ("path", JStr (uri_path uri))]).

Definition insufficient_scope_response (m : Method) (uri : Uri) (required : list string) : Response :=
  json_response 403 (JObj [
    ("error", JStr "insufficient_scope");
    ("detail", JStr "credential scope does not permit this route");
    ("method", JStr (method_as_str m));
    ("path", JStr (uri_path uri));
    ("required_scopes", JArr (map JStr required))]).

End Responses.

(** What granting a scope means: equality, the global wildcard, or the wildcard
    of the scope's family. *)
Inductive grants : string -> string -> Prop :=
| grants_same s : grants s s
| grants_all s : grants "*" s
| grants_family prefix rest : grants (prefix +:+ ":*") (prefix +:+ ":" +:+ rest).

#[export] Hint Constructors grants : fiducia.

(** A read-only scope: no suffix [:write] and no wildcard. *)
Definition read_only_scope (s : string) : Prop :=
  s <> "*" /\ (forall p, s <> p +:+ ":*") /\ (forall p, s <> p +:+ ":write").

(** The operator routes that every method may call with [admin:read]. *)
Definition operator_path (path : string) : bool :=
  segs_exact ["v1"; "status"] (route_segments path)
  || segs_under ["v1"; "observe"] (route_segments path).

Definition public_path (path : string) : bool :=
  segs_exact ["healthz"] (route_segments path) || segs_exact ["readyz"] (route_segments path).

(** ** Lemmas *)

Lemma split_on_cons c s : exists h t, split_on c s = h :: t.
Proof.
  destruct s as [|a s]; simpl; [eauto|]. destruct (Ascii.eqb a c); [eauto|].
  destruct (split_on c s); eauto.
Qed.

Lemma split_on_trim_start c s :
  List.filter (fun s => negb (String.eqb s "")) (split_on c (trim_start_matches c s))
  = List.filter (fun s => negb (String.eqb s "")) (split_on c s).
Proof.
  induction s as [|a s IH]; simpl; [done|].
  destruct (Ascii.eqb a c) eqn:E; simpl; [done|]. by rewrite E.
Qed.

(** Cutting trailing separators only removes empty pieces. *)
Lemma split_on_trim_end c s :
  List.filter (fun s => negb (String.eqb s "")) (split_on c (trim_end_matches c s))
  = List.filter (fun s => negb (String.eqb s "")) (split_on c s).
Proof.
  assert (H : forall s, exists h t t',
    split_on c s = h :: t /\ split_on c (trim_end_matches c s) = h :: t'
    /\ List.filter (fun s => negb (String.eqb s "")) t
       = List.filter (fun s => negb (String.eqb s "")) t').
  { clear s. induction s as [|a s (h & t & t' & H1 & H2 & H3)]; [by exists "", [], []|].
    cbn [trim_end_matches split_on]. rewrite H1.
    destruct (trim_end_matches c s) as [|b u] eqn:Et.
    - cbn [split_on] in H2. injection H2 as <- <-. cbn [List.filter] in H3.
      destruct (Ascii.eqb a c) eqn:E.
      + exists "", ("" :: t), []. split_and!; [done|done|]. cbn [List.filter]. by rewrite H3.
      + exists (String a ""), t, []. split_and!; [done| |by rewrite H3].
        cbn [split_on]. by rewrite E.
    - cbn [split_on] in H2 |- *. rewrite H2. destruct (Ascii.eqb a c) eqn:E.
      + exists "", (h :: t), (h :: t'). split_and!; [done|done|]. cbn [List.filter]. by rewrite H3.
      + exists (String a h), t, t'. done. }
  destruct (H s) as (h & t & t' & -> & -> & H3). cbn [List.filter]. by rewrite H3.
Qed.

Lemma scope_matches_true granted required :
  scope_matches granted required = true <->
  granted = required \/ exists prefix rest, granted = prefix +:+ ":*" /\ required = prefix +:+ ":" +:+ rest.
Proof.
  unfold scope_matches. destruct (String.eqb_spec granted required) as [->|Hne]; [naive_solver|].
  destruct (strip_suffix ":*" granted) as [prefix|] eqn:Es.
  - apply strip_suffix_Some in Es.
    destruct (strip_prefix prefix required) as [suffix|] eqn:Ep.
    + apply strip_prefix_Some in Ep as ->. rewrite starts_with_true. split.
      * intros [r ->]. right. eauto.
      * intros [?|(p & r & Hg & Hr)]; [done|]. subst granted.
        apply app_inj_r_str in Hg as <-. apply app_inj_l_str in Hr. eauto.
    + split; [done|]. intros [?|(p & r & Hg & Hr)]; [done|]. subst granted.
      apply app_inj_r_str in Hg as <-.
      assert (Hs : strip_prefix prefix required = Some (":" +:+ r)) by (by apply strip_prefix_Some).
      congruence.
  - split; [done|]. intros [?|(p & r & Hg & Hr)]; [done|].
    apply strip_suffix_Some in Hg. congruence.
Qed.

Lemma has_any_scope_true i required :
  required <> [] ->
  has_any_scope i required = true <->
  exists g r, g ∈ scopes i /\ r ∈ required /\ grants (trim g) r.
Proof.
  intros Hne. unfold has_any_scope. rewrite existsb_elem_of. split.
  - intros (g & Hg & H). apply orb_true_iff in H as [H|H].
    + breflect. destruct required as [|r l]; [done|]. exists g, r.
      rewrite H. split_and!; [done|left|constructor].
    + apply existsb_elem_of in H as (r & Hr & H). exists g, r. split_and!; [done|done|].
      apply scope_matches_true in H as [->|(p & x & -> & ->)]; constructor.
  - intros (g & r & Hg & Hr & H). exists g. split; [done|]. apply orb_true_iff.
    inversion H as [s E1 E2|s E1 E2|p x E1 E2].
    + right. apply existsb_elem_of. exists r. split; [done|]. apply scope_matches_true. by left.
    + left. done.
    + right. apply existsb_elem_of. exists r. split; [done|]. apply scope_matches_true.
      right. rewrite <-E2. eauto.
Qed.

(** Off the public and operator routes, what a mutation requires is a write scope. *)
Lemma required_write m uri r :
  is_read_method m = false -> operator_path (uri_path uri) = false ->
  r ∈ required_scopes_for_route m uri -> exists p, r = p +:+ ":write".
Proof.
  unfold operator_path. intros Hm [Ho1 Ho2]%orb_false_iff. unfold required_scopes_for_route.
  rewrite Hm, Ho1, Ho2, !andb_false_r.
  assert (Hw : forall l, forallb (fun s => match strip_suffix ":write" s with
      Some _ => true | None => false end) l = true -> r ∈ l -> exists p, r = p +:+ ":write").
  { intros l Hl Hr. rewrite forallb_forall in Hl. specialize (Hl r). rewrite <-list_elem_of_In in Hl.
    specialize (Hl Hr). destruct (strip_suffix ":write" r) as [p|] eqn:E; [|done].
    apply strip_suffix_Some in E. eauto. }
  intros Hr. repeat match type of Hr with context [if ?b then _ else _] => destruct b end;
    revert Hr; apply Hw; reflexivity.
Qed.

Lemma required_nonempty m uri :
  public_path (uri_path uri) = false -> "admin:write" ∈ required_scopes_for_route m uri.
Proof.
  unfold public_path, required_scopes_for_route. intros ->.
  assert (Hin : forall l, existsb (String.eqb "admin:write") l = true -> "admin:write" ∈ l).
  { intros l (x & Hx & E)%existsb_elem_of. by apply String.eqb_eq in E as ->. }
  repeat match goal with |- context [if ?b then _ else _] => destruct b end;
    apply Hin; reflexivity.
Qed.

Lemma authorize_route_granted (identity : option VerifiedIdentity) (m : Method) (uri : Uri) :
  authorize_route identity m uri = Ok tt <->
  public_path (uri_path uri) = true \/
  exists i g r, identity = Some i /\ g ∈ scopes i
    /\ r ∈ required_scopes_for_route m uri /\ grants (trim g) r.
Proof.
  destruct (public_path (uri_path uri)) eqn:Hp.
  { split; [by left|]. intros _. unfold authorize_route, required_scopes_for_route.
    unfold public_path in Hp. by rewrite Hp. }
  pose proof (required_nonempty m uri Hp) as Hr. unfold authorize_route.
  destruct (required_scopes_for_route m uri) as [|r0 l] eqn:E; [by apply not_elem_of_nil in Hr|].
  destruct identity as [i|]; [|split; [done|naive_solver]].
  destruct (has_any_scope i (r0 :: l)) eqn:Eh.
  - apply has_any_scope_true in Eh as (g & r & ? & ? & ?); [|done]. split; [|done].
    intros _. right. by exists i, g, r.
  - split; [done|]. intros [?|(i' & g & r & [= <-] & ? & ? & ?)]; [done|].
    assert (has_any_scope i (r0 :: l) = true); [|congruence].
    apply has_any_scope_true; [done|]. by exists g, r.
Qed.

(** ** Properties *)

(** C22. Authorization fails closed and decides exactly the granted scopes: a request
    is let through precisely when its path is one of the two public probes, or a
    verified identity holds a scope that grants one of the required ones (the same
    scope, the wildcard [*], or the wildcard of its family); an anonymous caller
    passes on the public probes only. *)
Theorem authorize_route_spec (identity : option VerifiedIdentity) (m : Method) (uri : Uri) :
  authorize_route identity m uri = Ok tt <->
  public_path (uri_path uri) = true \/
  exists i g r, identity = Some i /\ g ∈ scopes i
    /\ r ∈ required_scopes_for_route m uri /\ grants (trim g) r.
Proof. exact (authorize_route_granted identity m uri). Qed.

(** C36. Read credentials cannot mutate: outside the operator routes, a request with
    a non-read method is refused for every identity all of whose scopes are
    read-only — whatever the path. *)
Theorem read_only_identity_cannot_mutate (i : VerifiedIdentity) (m : Method) (uri : Uri) :
  is_read_method m = false -> public_path (uri_path uri) = false ->
  operator_path (uri_path uri) = false ->
  (forall g, g ∈ scopes i -> read_only_scope (trim g)) ->
  authorize_route (Some i) m uri = Err (required_scopes_for_route m uri).
Proof.
  intros Hm Hp Ho Hs.
  destruct (authorize_route (Some i) m uri) as [[]|e] eqn:E.
  - exfalso. apply authorize_route_granted in E as [?|(i' & g & r & [= <-] & Hg & Hr & H)]; [congruence|].
    destruct (required_write m uri r Hm Ho Hr) as [p Hw].
    destruct (Hs g Hg) as (H1 & H2 & H3). inversion H as [s E1 E2|s E1 E2|q x E1 E2].
    + rewrite E2 in H3. by apply (H3 p).
    + by rewrite <-E1 in H1.
    + rewrite <-E1 in H2. by apply (H2 q).
  - unfold authorize_route in E. by repeat case_match; simplify_eq.
Qed.

(** Authorization and routing agree on what the path is: the two different
    ways the source splits a path (with and without trimming slashes) give the
    same segments. *)
Theorem segments_agree (path : string) : route_segments path = path_segments path.
Proof.
  unfold route_segments, path_segments, trim_matches.
  by rewrite split_on_trim_end, split_on_trim_start.
Qed.

(** ** Witnesses *)

Definition kv_reader : VerifiedIdentity := mkIdentity ApiKey "org" None ["kv:read"] false.

Lemma read_only_identity_cannot_mutate_witness :
  authorize_route (Some kv_reader) PUT (uri_of_path "/v1/kv") = Err KV_WRITE_SCOPES
  /\ authorize_route (Some kv_reader) GET (uri_of_path "/v1/kv") = Ok tt.
Proof.
  split; [|vm_compute; reflexivity].
  apply (read_only_identity_cannot_mutate kv_reader PUT (uri_of_path "/v1/kv"));
    [reflexivity|reflexivity|reflexivity|].
  intros g Hg. apply list_elem_of_In in Hg as [<-|[]].
  assert (trim "kv:read" = "kv:read") as -> by (vm_compute; reflexivity).
  split; [discriminate|split; intros p Hp; apply strip_suffix_Some in Hp; discriminate Hp].
Defined.
