(* ===== verification/Conc.v ===== *)
(** * Programs that run among others

    The asynchronous code shares its state with other tasks. A program [M A] is a
    tree: it returns, takes a step on the shared state ([atomically]: one
    acquisition of a lock, or a question to the outside, whose answer is a function
    of the step), or reports an event. Two readings of a program are given:

    - [run env m w] runs it alone in a world, where before every step the other
      tasks change the state as [env] says; a theorem for every [env] holds for
      every interleaving at lock granularity;
    - the steps of many programs can be interleaved one by one ([Pool]).

    [runs I m Q] is the proof obligation of a program, read off the tree: every step
    keeps the invariant [I], and the result and the events satisfy [Q]. [timed] is
    the obligation that also speaks of the numbers of the program's own steps and of
    the states there were at them. Both are sound for both readings. [within m n]
    bounds the steps of a program. *)
From S2P Require Import Prelude.

Section Programs.
Context {St Ev : Type}.

Inductive M (A : Type) : Type :=
| Ret (a : A)
| Atom {X : Type} (f : nat -> St -> X * St) (k : X -> M A)
| Emit (e : Ev) (m : M A).

End Programs.
Arguments M St Ev A : clear implicits.
Arguments Ret {St Ev A} a.
Arguments Atom {St Ev A X} f k.
Arguments Emit {St Ev A} e m.

Definition mreturn {St Ev A} (a : A) : M St Ev A := Ret a.

Fixpoint mthen {St Ev A B} (m : M St Ev A) (k : A -> M St Ev B) : M St Ev B :=
  match m with
  | Ret a => k a
  | Atom f c => Atom f (fun x => mthen (c x) k)
  | Emit e c => Emit e (mthen c k)
  end.

Declare Scope conc_scope.
Delimit Scope conc_scope with conc.
Notation "x <- m ;; k" := (mthen m (fun x => k))
  (at level 100, m at next level, right associativity) : conc_scope.
Notation "m ;;; k" := (mthen m (fun _ => k))
  (at level 100, right associativity) : conc_scope.

(** One step on the shared state, given its number. *)
Definition atomically {St Ev A} (f : nat -> St -> A * St) : M St Ev A := Atom f Ret.

(** A question to the outside. *)
Definition ask {St Ev A} (oracle : nat -> A) : M St Ev A := Atom (fun n s => (oracle n, s)) Ret.

Definition emit {St Ev} (e : Ev) : M St Ev unit := Emit e (Ret tt).

(** ** Running alone among other tasks *)

Record World (St Ev : Type) := mkWorld {
  w_step : nat;
  w_state : St;
  w_log : list Ev;
}.
Arguments mkWorld {St Ev} _ _ _.
Arguments w_step {St Ev} _.
Arguments w_state {St Ev} _.
Arguments w_log {St Ev} _.

Fixpoint run {St Ev A} (env : nat -> St -> St) (m : M St Ev A) (w : World St Ev) : A * World St Ev :=
  match m with
  | Ret a => (a, w)
  | Atom f k =>
      let (x, s) := f (w_step w) (env (w_step w) (w_state w)) in
      run env (k x) (mkWorld (S (w_step w)) s (w_log w))
  | Emit e k => run env k (mkWorld (w_step w) (w_state w) (w_log w ++ [e]))
  end.

(** The states its steps start from, with their numbers. *)
Fixpoint trace {St Ev A} (env : nat -> St -> St) (m : M St Ev A) (w : World St Ev) : list (nat * St) :=
  match m with
  | Ret _ => []
  | Atom f k =>
      let s := env (w_step w) (w_state w) in
      let (x, s') := f (w_step w) s in
      (w_step w, s) :: trace env (k x) (mkWorld (S (w_step w)) s' (w_log w))
  | Emit e k => trace env k (mkWorld (w_step w) (w_state w) (w_log w ++ [e]))
  end.

Definition seen {St Ev A} (env : nat -> St -> St) (m : M St Ev A) (w : World St Ev) : list St :=
  map snd (trace env m w).

(** The run had state [s] at step [n]. *)
Definition passed {St Ev A} (env : nat -> St -> St) (m : M St Ev A) (w : World St Ev) (n : nat) (s : St)
  : Prop := (n, s) ∈ trace env m w.

(** No other task interferes. *)
Definition quiet {St} (n : nat) (s : St) : St := s.

(** The other tasks keep an invariant. *)
Definition rely {St} (I : St -> Prop) (env : nat -> St -> St) : Prop :=
  forall n s, I s -> I (env n s).

(** ** Proof obligations *)

(** Every step starts where [J] holds and ends where [I] does; with the events [l]
    reported before, the result and all events satisfy [Q]. *)
Fixpoint safe {St Ev A} (J I : St -> Prop) (m : M St Ev A) (Q : A -> list Ev -> Prop) (l : list Ev) : Prop :=
  match m with
  | Ret a => Q a l
  | Atom f k => forall n s, J s -> I (snd (f n s)) /\ safe J I (k (fst (f n s))) Q l
  | Emit e k => safe J I k Q (l ++ [e])
  end.

Definition guaranteed {St Ev A} (J I : St -> Prop) (m : M St Ev A) (Q : A -> list Ev -> Prop) : Prop :=
  safe J I m Q [].

Notation runs I m Q := (guaranteed I I m Q).

Section Rules.
Context {St Ev : Type} (J I : St -> Prop).

Lemma safe_weaken {A} (m : M St Ev A) (Q R : A -> list Ev -> Prop) l :
  safe J I m Q l -> (forall a l', Q a l' -> R a l') -> safe J I m R l.
Proof.
  revert l. induction m as [a|X f k IH|e m IH]; intros l H HQ; cbn in *; [by apply HQ| |by apply IH].
  intros n s Hs. destruct (H n s Hs). auto.
Qed.

Lemma safe_app {A} (m : M St Ev A) (Q : A -> list Ev -> Prop) l1 l2 :
  safe J I m Q (l1 ++ l2) <-> safe J I m (fun a l => Q a (l1 ++ l)) l2.
Proof.
  revert l2. induction m as [a|X f k IH|e m IH]; intros l2; cbn; [done| |by rewrite <-app_assoc, IH].
  split; intros H n s Hs; destruct (H n s Hs); (split; [done|]); by apply IH.
Qed.

Lemma safe_then {A B} (m : M St Ev A) (k : A -> M St Ev B) R l :
  safe J I m (fun a l' => safe J I (k a) R l') l -> safe J I (mthen m k) R l.
Proof.
  revert l. induction m as [a|X f c IH|e m IH]; intros l H; cbn in *; [done| |by apply IH].
  intros n s Hs. destruct (H n s Hs). auto.
Qed.

Lemma runs_return {A} (a : A) (Q : A -> list Ev -> Prop) :
  Q a [] -> guaranteed J I (mreturn a) Q.
Proof. done. Qed.

Lemma runs_weaken {A} (m : M St Ev A) (Q R : A -> list Ev -> Prop) :
  guaranteed J I m Q -> (forall a l, Q a l -> R a l) -> guaranteed J I m R.
Proof. apply safe_weaken. Qed.

Lemma runs_then {A B} (m : M St Ev A) (k : A -> M St Ev B) Q R :
  guaranteed J I m Q ->
  (forall a l, Q a l -> guaranteed J I (k a) (fun b l' => R b (l ++ l'))) ->
  guaranteed J I (mthen m k) R.
Proof.
  intros Hm Hk. apply safe_then. eapply safe_weaken; [exact Hm|]. intros a l Hq. cbn.
  rewrite <-(app_nil_r l). apply safe_app. by apply Hk.
Qed.

Lemma runs_atomically {A} (f : nat -> St -> A * St) (Q : A -> list Ev -> Prop) :
  (forall n s, J s -> I (snd (f n s)) /\ Q (fst (f n s)) []) ->
  guaranteed J I (atomically f) Q.
Proof. done. Qed.

Lemma runs_ask {A} (oracle : nat -> A) (Q : A -> list Ev -> Prop) :
  (forall s, J s -> I s) -> (forall n, Q (oracle n) []) -> guaranteed J I (ask oracle) Q.
Proof. intros HI H n s Hs. cbn. auto. Qed.

Lemma runs_emit (e : Ev) (Q : unit -> list Ev -> Prop) :
  Q tt [e] -> guaranteed J I (emit e) Q.
Proof. done. Qed.

(** ** Soundness for a program that runs alone *)

Lemma run_safe {A} env (m : M St Ev A) Q l w :
  (forall n s, I s -> J (env n s)) -> safe J I m Q l -> I (w_state w) ->
  exists l', w_log (snd (run env m w)) = w_log w ++ l' /\ I (w_state (snd (run env m w)))
             /\ Q (fst (run env m w)) (l ++ l').
Proof.
  intros Henv. revert l w. induction m as [a|X f k IH|e m IH]; intros l w Hm Hw; cbn in *.
  - exists []. by rewrite !app_nil_r.
  - destruct (Hm (w_step w) _ (Henv (w_step w) _ Hw)) as [Hi Hk].
    destruct (f _ _) as [x s]. cbn in *. by apply (IH x l (mkWorld (S (w_step w)) s (w_log w))).
  - destruct (IH _ (mkWorld (w_step w) (w_state w) (w_log w ++ [e])) Hm Hw) as (l' & Hl & Hi & Hq).
    exists (e :: l'). cbn in *. by rewrite Hl, <-!app_assoc in *.
Qed.

Lemma run_guaranteed {A} env (m : M St Ev A) Q w :
  (forall n s, I s -> J (env n s)) -> guaranteed J I m Q -> I (w_state w) ->
  exists l, w_log (snd (run env m w)) = w_log w ++ l /\ I (w_state (snd (run env m w)))
            /\ Q (fst (run env m w)) l.
Proof. intros Henv Hm Hw. exact (run_safe env m Q [] w Henv Hm Hw). Qed.

(** What has been reported so far extends to the report of a complete run. *)
Lemma safe_completes {A} (m : M St Ev A) Q l s :
  (forall s, I s -> J s) -> safe J I m Q l -> I s -> exists a l', Q a (l ++ l').
Proof.
  intros HJ Hm Hs. destruct (run_safe quiet m Q l (mkWorld 0 s []) (fun _ => HJ) Hm Hs)
    as (l' & _ & _ & Hq). eauto.
Qed.

End Rules.

(** An obligation whose steps start from [R] states holds in a run that meets no
    others. *)
Lemma run_seen {St Ev A} (I R : St -> Prop) env (m : M St Ev A) (P : A -> Prop) l w :
  rely I env -> safe (fun s => I s /\ R s) I m (fun a _ => P a) l -> I (w_state w) ->
  Forall R (seen env m w) -> P (fst (run env m w)).
Proof.
  intros Henv. unfold seen. revert l w.
  induction m as [a|X f k IH|e m IH]; intros l w Hm Hw HR; cbn in *; [done| |by eapply IH].
  pose proof (Hm (w_step w) (env (w_step w) (w_state w))) as Hn. pose proof (Henv (w_step w) _ Hw) as Hi.
  destruct (f (w_step w) (env (w_step w) (w_state w))) as [x s] eqn:E.
  apply Forall_cons in HR as [HR1 HR2].
  destruct (Hn (conj Hi HR1)) as [Hs Hk]. by eapply IH.
Qed.

Lemma run_then {St Ev A B} env (m : M St Ev A) (k : A -> M St Ev B) w :
  run env (mthen m k) w = let (a, w') := run env m w in run env (k a) w'.
Proof.
  revert w. induction m as [a|X f c IH|e m IH]; intros w; cbn; [done| |apply IH].
  by destruct (f _ _).
Qed.

(** ** Timed obligations

    The same with the numbers of the steps: the invariant may depend on the step,
    [J] may say which state there was at it, every event reported after a step
    satisfies [E], and the result satisfies [Q] with the number that follows the
    last step. The program starts at step [n0]. *)
Fixpoint tsafe {St Ev A} (J I : nat -> St -> Prop) (E : nat -> Ev -> Prop) (n0 : nat) (m : M St Ev A)
    (Q : nat -> A -> list Ev -> Prop) (l : list Ev) : Prop :=
  match m with
  | Ret a => Q n0 a l
  | Atom f k => forall n s, (n0 <= n)%nat -> J n s ->
      I (S n) (snd (f n s)) /\ tsafe J I E (S n) (k (fst (f n s))) Q l
  | Emit e k => E n0 e /\ tsafe J I E n0 k Q (l ++ [e])
  end.

Definition timed {St Ev A} (J I : nat -> St -> Prop) (E : nat -> Ev -> Prop) (n0 : nat) (m : M St Ev A)
    (Q : nat -> A -> list Ev -> Prop) : Prop := tsafe J I E n0 m Q [].

(** The invariant, and what was the case. *)
Definition both {St} (I Was : nat -> St -> Prop) (n : nat) (s : St) : Prop := I n s /\ Was n s.

(** The other tasks keep a timed invariant. *)
Definition trely {St} (I : nat -> St -> Prop) (env : nat -> St -> St) : Prop :=
  forall n s, I n s -> I n (env n s).

Section TimedRules.
Context {St Ev : Type} (J I : nat -> St -> Prop).

Lemma tsafe_weaken {A} (E F : nat -> Ev -> Prop) n0 (m : M St Ev A) (Q R : nat -> A -> list Ev -> Prop) l :
  tsafe J I E n0 m Q l ->
  (forall n e, (n0 <= n)%nat -> E n e -> F n e) ->
  (forall n a l', (n0 <= n)%nat -> Q n a l' -> R n a l') -> tsafe J I F n0 m R l.
Proof.
  revert n0 l. induction m as [a|X f k IH|e m IH]; intros n0 l H HE HQ; cbn in *.
  - by apply HQ.
  - intros n s Hn Hs. destruct (H n s Hn Hs) as [H1 H2]. split; [done|].
    apply (IH _ _ _ H2); intros n' x; [intros ?; apply HE; lia|intros l' ?; apply HQ; lia].
  - destruct H. auto.
Qed.

Lemma tsafe_app {A} (E : nat -> Ev -> Prop) n0 (m : M St Ev A) (Q : nat -> A -> list Ev -> Prop) l1 l2 :
  tsafe J I E n0 m Q (l1 ++ l2) <-> tsafe J I E n0 m (fun n a l => Q n a (l1 ++ l)) l2.
Proof.
  revert n0 l2. induction m as [a|X f k IH|e m IH]; intros n0 l2; cbn; [done| |by rewrite <-app_assoc, IH].
  split; intros H n s Hn Hs; destruct (H n s Hn Hs); (split; [done|]); by apply IH.
Qed.

Lemma tsafe_then {A B} (E : nat -> Ev -> Prop) n0 (m : M St Ev A) (k : A -> M St Ev B) R l :
  tsafe J I E n0 m (fun n a l' => tsafe J I E n (k a) R l') l -> tsafe J I E n0 (mthen m k) R l.
Proof.
  revert n0 l. induction m as [a|X f c IH|e m IH]; intros n0 l H; cbn in *; [done| |].
  - intros n s Hn Hs. destruct (H n s Hn Hs). auto.
  - destruct H. auto.
Qed.

Context (E : nat -> Ev -> Prop) (n0 : nat).

Lemma timed_return {A} (a : A) (Q : nat -> A -> list Ev -> Prop) :
  Q n0 a [] -> timed J I E n0 (mreturn a) Q.
Proof. done. Qed.

Lemma timed_weaken {A} (m : M St Ev A) (Q R : nat -> A -> list Ev -> Prop) :
  timed J I E n0 m Q -> (forall n a l, (n0 <= n)%nat -> Q n a l -> R n a l) -> timed J I E n0 m R.
Proof. intros H HQ. by eapply tsafe_weaken. Qed.

Lemma timed_then {A B} (m : M St Ev A) (k : A -> M St Ev B) Q R :
  timed J I E n0 m Q ->
  (forall n1 a l, (n0 <= n1)%nat -> Q n1 a l -> timed J I E n1 (k a) (fun n b l' => R n b (l ++ l'))) ->
  timed J I E n0 (mthen m k) R.
Proof.
  intros Hm Hk. apply tsafe_then. eapply tsafe_weaken; [exact Hm|done|]. intros n a l Hn Hq. cbn.
  rewrite <-(app_nil_r l). apply tsafe_app. by apply Hk.
Qed.

Lemma timed_atomically {A} (f : nat -> St -> A * St) (Q : nat -> A -> list Ev -> Prop) :
  (forall n s, (n0 <= n)%nat -> J n s -> I (S n) (snd (f n s)) /\ Q (S n) (fst (f n s)) []) ->
  timed J I E n0 (atomically f) Q.
Proof. done. Qed.

Lemma timed_ask {A} (oracle : nat -> A) (Q : nat -> A -> list Ev -> Prop) :
  (forall n s, J n s -> I (S n) s) -> (forall n, (n0 <= n)%nat -> Q (S n) (oracle n) []) ->
  timed J I E n0 (ask oracle) Q.
Proof. intros HI H n s Hn Hs. cbn. auto. Qed.

End TimedRules.

(** A program that runs alone keeps its timed obligation, with what the run passed
    through for what was the case. *)
Lemma run_tsafe {St Ev A} (I Was : nat -> St -> Prop) E env (m : M St Ev A) Q l w :
  trely I env -> tsafe (both I Was) I E (w_step w) m Q l ->
  (forall n s, passed env m w n s -> Was n s) -> I (w_step w) (w_state w) ->
  let (a, w') := run env m w in
  exists l', w_log w' = w_log w ++ l' /\ I (w_step w') (w_state w') /\ Q (w_step w') a (l ++ l').
Proof.
  intros Henv. revert l w. unfold passed. induction m as [a|X f k IH|e m IH]; intros l w Hm Hp Hw; cbn in *.
  - exists []. by rewrite !app_nil_r.
  - assert (Hwas : Was (w_step w) (env (w_step w) (w_state w)))
      by (apply Hp; destruct (f _ _); by left).
    destruct (Hm (w_step w) _ (Nat.le_refl _) (conj (Henv _ _ Hw) Hwas)) as [Hi Hk].
    destruct (f _ _) as [x s]. cbn in *.
    apply (IH x l (mkWorld (S (w_step w)) s (w_log w))); [done|intros n s' Hin; apply Hp; by right|done].
  - destruct Hm as [_ Hm].
    specialize (IH _ (mkWorld (w_step w) (w_state w) (w_log w ++ [e])) Hm Hp Hw). cbn in IH.
    destruct (run _ _ _) as [a w']. destruct IH as (l' & Hl & Hi & Hq). exists (e :: l').
    by rewrite Hl, <-!app_assoc in *.
Qed.

(** An obligation without numbers holds with any; of every event reported, what
    holds of all events of a complete run holds. *)
Lemma tsafe_lift {St Ev A} (I : St -> Prop) (E : Ev -> Prop) n0 (m : M St Ev A) Q l s :
  safe I I m Q l -> I s -> (forall a l', Q a l' -> Forall E l') ->
  tsafe (fun _ => I) (fun _ => I) (fun _ => E) n0 m (fun _ => Q) l.
Proof.
  intros Hm Hs HE. revert n0 l Hm. induction m as [a|X f k IH|e m IH]; intros n0 l Hm; cbn in *; [done| |].
  - intros n s' _ Hs'. destruct (Hm n s' Hs'). auto.
  - split; [|auto]. destruct (safe_completes I I m Q (l ++ [e]) s (fun _ H => H) Hm Hs) as (a & l' & Hq).
    specialize (HE _ _ Hq). rewrite !Forall_app in HE. destruct HE as [[_ HE] _]. by apply Forall_inv in HE.
Qed.

(** ** Step bounds *)

Fixpoint within {St Ev A} (m : M St Ev A) (n : nat) : Prop :=
  match m with
  | Ret _ => True
  | Atom _ k => match n with O => False | S n' => forall x, within (k x) n' end
  | Emit _ k => within k n
  end.

Lemma within_mono {St Ev A} (m : M St Ev A) n n' : within m n -> (n <= n')%nat -> within m n'.
Proof.
  revert n n'. induction m as [a|X f k IH|e m IH]; intros n n' H Hn; cbn in *; [done| |by eapply IH].
  destruct n as [|n]; [done|]. destruct n' as [|n']; [lia|]. intros x. eapply IH; [apply H|lia].
Qed.

Lemma within_then {St Ev A B} (m : M St Ev A) (k : A -> M St Ev B) a b :
  within m a -> (forall x, within (k x) b) -> within (mthen m k) (a + b).
Proof.
  intros Hm Hk. revert a Hm. induction m as [r|X f c IH|e m IH]; intros a Hm; cbn in *; [|
    destruct a as [|a]; [done|]; intros x; by apply IH|by apply IH].
  eapply within_mono; [apply Hk|lia].
Qed.

Lemma within_bind {St Ev A B} (m : M St Ev A) (k : A -> M St Ev B) a b n :
  within m a -> (a + b <= n)%nat -> (forall x, within (k x) b) -> within (mthen m k) n.
Proof. intros Hm Hn Hk. by eapply within_mono; [apply within_then|]. Qed.

Lemma within_return {St Ev A} (a : A) n : within (St := St) (Ev := Ev) (mreturn a) n.
Proof. done. Qed.

Lemma within_step {St Ev A} (f : nat -> St -> A * St) n :
  within (Ev := Ev) (atomically f) (S n).
Proof. done. Qed.

Lemma within_ask {St Ev A} (oracle : nat -> A) n : within (St := St) (Ev := Ev) (ask oracle) (S n).
Proof. done. Qed.

Lemma within_emit {St Ev} (e : Ev) n : within (St := St) (emit e) n.
Proof. done. Qed.

#[export] Hint Resolve within_return within_step within_ask within_emit : fiducia.

#[global] Arguments mthen : simpl never.
#[global] Arguments guaranteed : simpl never.
#[global] Arguments timed : simpl never.

(** ** Programs on a part of the state *)

(** [zoom get put m] runs a program of a component on the whole state; its events
    are kept when they are events of the whole ([up]). *)
Fixpoint zoom {St St' Ev Ev' A} (get : St -> St') (put : St' -> St -> St) (up : Ev' -> Ev)
    (m : M St' Ev' A) : M St Ev A :=
  match m with
  | Ret a => Ret a
  | Atom f k =>
      Atom (fun n s => let (x, s') := f n (get s) in (x, put s' s)) (fun x => zoom get put up (k x))
  | Emit e k => Emit (up e) (zoom get put up k)
  end.

Section Zoom.
Context {St St' Ev Ev' A : Type} (get : St -> St') (put : St' -> St -> St) (up : Ev' -> Ev).
Context (I : St -> Prop) (I' : St' -> Prop).
Context (Hget : forall s, I s -> I' (get s)) (Hput : forall s' s, I s -> I' s' -> I (put s' s)).

Lemma zoom_safe (m : M St' Ev' A) Q R l :
  safe I' I' m Q l -> (forall a l', Q a l' -> R a (map up l')) ->
  safe I I (zoom get put up m) R (map up l).
Proof.
  revert l. induction m as [a|X f k IH|e m IH]; intros l H HQ; cbn in *; [by apply HQ| |].
  - intros n s Hs. destruct (H n (get s) (Hget s Hs)) as [H1 H2].
    destruct (f n (get s)) as [x s']. cbn in *. split; [by apply Hput|by apply IH].
  - specialize (IH (l ++ [e]) H HQ). by rewrite map_app in IH.
Qed.

Lemma zoom_runs (m : M St' Ev' A) Q R :
  runs I' m Q -> (forall a l, Q a l -> R a (map up l)) -> runs I (zoom get put up m) R.
Proof. intros H HQ. exact (zoom_safe m Q R [] H HQ). Qed.

Lemma zoom_within (m : M St' Ev' A) n : within m n -> within (zoom get put up m) n.
Proof.
  revert n. induction m as [a|X f k IH|e m IH]; intros n H; cbn in *; [done| |by apply IH].
  destruct n as [|n]; [done|]. intros x. by apply IH.
Qed.

Lemma zoom_tsafe (J K : nat -> St -> Prop) (J' K' : nat -> St' -> Prop) (E : nat -> Ev -> Prop)
    (E' : nat -> Ev' -> Prop) n0 (m : M St' Ev' A) Q R l :
  (forall n s, J n s -> J' n (get s)) ->
  (forall n s' s, J n s -> K' (S n) s' -> K (S n) (put s' s)) ->
  (forall n e, (n0 <= n)%nat -> E' n e -> E n (up e)) ->
  tsafe J' K' E' n0 m Q l ->
  (forall n a l', (n0 <= n)%nat -> Q n a l' -> R n a (map up l')) ->
  tsafe J K E n0 (zoom get put up m) R (map up l).
Proof.
  intros Hg Hp. revert n0 l. induction m as [a|X f k IH|e m IH]; intros n0 l HE H HQ; cbn in *.
  - by apply HQ.
  - intros n s Hn Hs. destruct (H n (get s) Hn (Hg n s Hs)) as [H1 H2].
    destruct (f n (get s)) as [x s']. cbn in *. split; [by eapply Hp|].
    apply IH; [intros n' e ?; apply HE; lia|done|intros n' a l' ?; apply HQ; lia].
  - destruct H as [H1 H2]. split; [by apply HE|]. specialize (IH n0 (l ++ [e]) HE H2 HQ).
    by rewrite map_app in IH.
Qed.

End Zoom.
