(* ===== verification/Pool.v ===== *)
(** * Interleaving programs

    Any number of programs ([Conc]) on one shared state. A move starts the program of
    a job, lets one running program take its next step, or drops a program where it
    waits (the client is gone: an asynchronous handler is a future that may be
    dropped at any await). [exec] is executable, so schedules can be evaluated.

    Proof obligations of the single programs ([timed], [within]) carry over to every
    pool ([pool_ok], [pool_task_steps], [pool_steps]), with the states the schedule
    passed through ([history]) for what was the case at a step; no assumption about
    the other programs remains. *)
From S2P Require Import Prelude Conc.

Section Pool.
Context {St Ev Job A : Type} (prog : Job -> M St Ev A).

Record Task := mkTask {
  tk_job : Job;
  tk_start : nat;
  tk_rest : M St Ev A;
  tk_events : list Ev;
  tk_gone : bool;
}.

Record Pool := mkPool {
  pl_step : nat;
  pl_state : St;
  pl_tasks : list Task;
}.

Inductive Move : Type :=
| Arrive (j : Job)
| Advance (i : nat)
| Disconnect (i : nat).

(** Reporting takes no step of its own. *)
Fixpoint flush (m : M St Ev A) (l : list Ev) : M St Ev A * list Ev :=
  match m with Emit e k => flush k (l ++ [e]) | _ => (m, l) end.

Definition start (j : Job) (n : nat) : Task :=
  let (m, l) := flush (prog j) [] in mkTask j n m l false.

Definition advance_task (n : nat) (s : St) (t : Task) : option (St * Task) :=
  if tk_gone t then None
  else match tk_rest t with
  | Atom f k =>
      let (x, s') := f n s in
      let (m, l) := flush (k x) (tk_events t) in
      Some (s', mkTask (tk_job t) (tk_start t) m l false)
  | _ => None
  end.

Definition exec (mv : Move) (p : Pool) : option Pool :=
  match mv with
  | Arrive j => Some (mkPool (pl_step p) (pl_state p) (pl_tasks p ++ [start j (pl_step p)]))
  | Advance i =>
      match pl_tasks p !! i with
      | None => None
      | Some t =>
          match advance_task (pl_step p) (pl_state p) t with
          | None => None
          | Some (s, t') => Some (mkPool (S (pl_step p)) s (<[i := t']> (pl_tasks p)))
          end
      end
  | Disconnect i =>
      match pl_tasks p !! i with
      | None => None
      | Some t =>
          Some (mkPool (pl_step p) (pl_state p)
                  (<[i := mkTask (tk_job t) (tk_start t) (tk_rest t) (tk_events t) true]> (pl_tasks p)))
      end
  end.

Fixpoint exec_all (l : list Move) (p : Pool) : option Pool :=
  match l with
  | [] => Some p
  | mv :: l => match exec mv p with Some p' => exec_all l p' | None => None end
  end.

Definition empty_pool (s : St) : Pool := mkPool 0 s [].

(** The answer of a program that ran to its end. *)
Definition answer (t : Task) : option A := match tk_rest t with Ret a => Some a | _ => None end.

Definition arrivals (l : list Move) : nat :=
  length (List.filter (fun mv => match mv with Arrive _ => true | _ => false end) l).

Definition advances (l : list Move) : nat :=
  length (List.filter (fun mv => match mv with Advance _ => true | _ => false end) l).

(** How often task [i] has moved. *)
Definition steps_of (i : nat) (l : list Move) : nat :=
  length (List.filter (fun mv => match mv with Advance k => (k =? i)%nat | _ => false end) l).

(** Some prefix of the moves ends in state [s], after [n] steps. *)
Definition history (moves : list Move) (s0 : St) (n : nat) (s : St) : Prop :=
  exists l1 l2 q, moves = l1 ++ l2 /\ exec_all l1 (empty_pool s0) = Some q /\
    pl_step q = n /\ pl_state q = s.

Lemma exec_all_snoc l mv p p' :
  exec_all (l ++ [mv]) p = Some p' <-> exists q, exec_all l p = Some q /\ exec mv q = Some p'.
Proof.
  revert p. induction l as [|a l IH]; intros p; cbn.
  - split; [|intros (q & [= <-] & ->); done]. destruct (exec mv p) eqn:E; [|done].
    intros [= <-]. eauto.
  - destruct (exec a p); [apply IH|]. split; [done|]. by intros (? & ? & _).
Qed.

Lemma exec_all_app l1 l2 p :
  exec_all (l1 ++ l2) p = match exec_all l1 p with Some q => exec_all l2 q | None => None end.
Proof. revert p. induction l1 as [|mv l IH]; intros p; cbn; [done|]. by destruct (exec mv p). Qed.

(** ** Invariants

    A job that starts at step [n0] promises, for each event reported by step [n],
    [E j n0 n], and for its answer [Q j n0 n], where [n] is at most the number of
    steps taken when it has answered. *)

Section Invariants.
Context (I Was : nat -> St -> Prop) (E : Job -> nat -> nat -> Ev -> Prop).
Context (Q : Job -> nat -> nat -> A -> list Ev -> Prop).
Context (Hprog : forall j n, timed (both I Was) I (E j n) n (prog j) (Q j n)).

Definition task_ok (now : nat) (t : Task) : Prop :=
  exists n, (tk_start t <= n <= now)%nat /\
    tsafe (both I Was) I (E (tk_job t) (tk_start t)) n (tk_rest t) (Q (tk_job t) (tk_start t)) (tk_events t) /\
    Forall (fun ev => exists k, (k <= n)%nat /\ E (tk_job t) (tk_start t) k ev) (tk_events t).

Lemma flush_tsafe (F : nat -> Ev -> Prop) n m R l :
  tsafe (both I Was) I F n m R l ->
  tsafe (both I Was) I F n (fst (flush m l)) R (snd (flush m l)) /\
  exists l', snd (flush m l) = l ++ l' /\ Forall (F n) l'.
Proof.
  revert l. induction m as [a|X f k IH|e m IH]; intros l H; cbn in *;
    [split; [done|]; exists []; by rewrite app_nil_r..|].
  destruct H as [H1 H2]. destruct (IH _ H2) as (H3 & l' & H4 & H5). split; [done|].
  exists (e :: l'). split; [by rewrite H4, <-app_assoc|by constructor].
Qed.

Lemma start_ok j n : task_ok n (start j n).
Proof.
  destruct (flush_tsafe _ _ _ _ _ (Hprog j n)) as (H & l' & Hl & HF). unfold start.
  destruct (flush (prog j) []) as [m l]. cbn in *. exists n. cbn. split; [lia|]. split; [done|].
  rewrite Hl. eapply Forall_impl; [exact HF|]. eauto.
Qed.

Lemma task_ok_mono now now' t : task_ok now t -> (now <= now')%nat -> task_ok now' t.
Proof. intros (n & Hn & H) Hle. exists n. split; [lia|done]. Qed.

Lemma pool_advance_ok n s t s' t' :
  I n s -> Was n s -> task_ok n t -> advance_task n s t = Some (s', t') -> I (S n) s' /\ task_ok (S n) t'.
Proof.
  intros Hs Hw (n1 & Hn & Ht & HF) H. unfold advance_task in H. destruct (tk_gone t); [done|].
  destruct (tk_rest t) as [a|X f k|e m]; [done| |done].
  destruct (Ht n s (proj2 Hn) (conj Hs Hw)) as [H1 H2].
  destruct (f n s) as [x s1]. cbn in *. apply flush_tsafe in H2 as (H2 & l' & Hl & HF').
  destruct (flush _ _) as [m l]. cbn in *. injection H as <- <-. split; [done|].
  exists (S n). cbn. split; [lia|]. split; [done|]. rewrite Hl. apply Forall_app_2.
  - eapply Forall_impl; [exact HF|]. intros ev (i & ? & ?). exists i. split; [lia|done].
  - eapply Forall_impl; [exact HF'|]. eauto.
Qed.

Lemma pool_exec_ok mv p p' :
  I (pl_step p) (pl_state p) -> Was (pl_step p) (pl_state p) ->
  Forall (task_ok (pl_step p)) (pl_tasks p) -> exec mv p = Some p' ->
  I (pl_step p') (pl_state p') /\ Forall (task_ok (pl_step p')) (pl_tasks p').
Proof.
  intros Hs Hw Ht H. destruct mv as [j|i|i]; cbn in H.
  - injection H as <-. cbn. split; [done|]. apply Forall_app_2; [done|].
    constructor; [by apply start_ok|constructor].
  - destruct (pl_tasks p !! i) as [t|] eqn:Hi; [|done].
    destruct (advance_task _ _ t) as [[s t']|] eqn:Ea; [|done]. injection H as <-. cbn.
    destruct (pool_advance_ok _ _ _ _ _ Hs Hw (Forall_lookup_1 _ _ _ _ Ht Hi) Ea) as [H1 H2].
    split; [done|]. apply Forall_insert; [|done]. eapply Forall_impl; [exact Ht|].
    intros u Hu. eapply task_ok_mono; [exact Hu|lia].
  - destruct (pl_tasks p !! i) as [t|] eqn:Hi; [|done]. injection H as <-. cbn.
    split; [done|]. apply Forall_insert; [done|]. exact (Forall_lookup_1 _ _ _ _ Ht Hi).
Qed.

Lemma pool_ok moves s p :
  I 0 s -> (forall n s', history moves s n s' -> Was n s') -> exec_all moves (empty_pool s) = Some p ->
  I (pl_step p) (pl_state p) /\ Forall (task_ok (pl_step p)) (pl_tasks p).
Proof.
  intros Hs Hw. rewrite <-(app_nil_r moves) in Hw. revert p Hw. generalize (@nil Move).
  induction moves as [|mv l IH] using rev_ind; intros rest p Hw H.
  - injection H as <-. by split.
  - apply exec_all_snoc in H as (q & Hq & H).
    destruct (IH ([mv] ++ rest) q) as [H1 H2]; [by rewrite app_assoc|done|].
    apply (pool_exec_ok _ _ _ H1) in H; [done| |done]. apply Hw.
    exists l, ([mv] ++ rest), q. by rewrite app_assoc.
Qed.

(** What a task has answered, and what it has reported so far. *)
Lemma task_ok_answer now t a :
  task_ok now t -> answer t = Some a ->
  exists n, (tk_start t <= n <= now)%nat /\ Q (tk_job t) (tk_start t) n a (tk_events t).
Proof.
  intros (n & Hn & Ht & _). unfold answer. destruct (tk_rest t); [|done|done]. intros [= <-]. eauto.
Qed.

Lemma task_ok_events now t ev :
  task_ok now t -> ev ∈ tk_events t ->
  exists n, (n <= now)%nat /\ E (tk_job t) (tk_start t) n ev.
Proof.
  intros (n & Hn & _ & HF) Hin. rewrite Forall_forall in HF. destruct (HF _ Hin) as (k & ? & ?).
  exists k. split; [lia|done].
Qed.

End Invariants.

(** ** Progress and termination *)

Definition flushed (m : M St Ev A) : Prop := match m with Emit _ _ => False | _ => True end.

Lemma flush_flushed m l : flushed (fst (flush m l)).
Proof. revert l. induction m; intros l; cbn; auto. Qed.

Lemma flush_within m l n : within m n -> within (fst (flush m l)) n.
Proof. revert l. induction m as [a|X f k IH|e m IH]; intros l Hw; cbn in *; auto. Qed.

Lemma exec_flushed mv p p' :
  Forall (fun t => flushed (tk_rest t)) (pl_tasks p) -> exec mv p = Some p' ->
  Forall (fun t => flushed (tk_rest t)) (pl_tasks p').
Proof.
  intros Ht E. destruct mv as [j|i|i]; cbn in E.
  - injection E as <-. apply Forall_app_2; [done|]. constructor; [|constructor]. unfold start.
    pose proof (flush_flushed (prog j) []). by destruct (flush (prog j) []).
  - destruct (pl_tasks p !! i) as [t|] eqn:Hi; [|done]. unfold advance_task in E.
    destruct (tk_gone t); [done|]. destruct (tk_rest t); [done| |done].
    destruct (f _ _) as [x s]. pose proof (flush_flushed (k x) (tk_events t)).
    destruct (flush _ _). injection E as <-. by apply Forall_insert.
  - destruct (pl_tasks p !! i) as [t|] eqn:Hi; [|done]. injection E as <-.
    apply Forall_insert; [done|]. exact (Forall_lookup_1 _ _ _ _ Ht Hi).
Qed.

Lemma exec_all_flushed l s p :
  exec_all l (empty_pool s) = Some p -> Forall (fun t => flushed (tk_rest t)) (pl_tasks p).
Proof.
  revert p. induction l as [|mv l IH] using rev_ind; intros p E.
  - injection E as <-. constructor.
  - apply exec_all_snoc in E as (q & Hq & E). eapply exec_flushed; eauto.
Qed.

(** A task that has neither answered nor gone can take its next step. *)
Lemma pool_progress l s p i t :
  exec_all l (empty_pool s) = Some p -> pl_tasks p !! i = Some t -> tk_gone t = false ->
  answer t = None -> is_Some (exec (Advance i) p).
Proof.
  intros E Hi Hg Ha. cbn. rewrite Hi. unfold advance_task. rewrite Hg.
  pose proof (Forall_lookup_1 _ _ _ _ (exec_all_flushed l s p E) Hi) as Hf. cbn in Hf.
  unfold answer in Ha. destruct (tk_rest t) as [a|X f k|e m]; [done| |done].
  destruct (f _ _) as [x s']. destruct (flush _ _). eauto.
Qed.

Section Steps.
Context (bound : nat) (Hbound : forall j, within (prog j) bound).

(** The budget left to each task, and the steps taken. *)
Definition budgeted (l : list Move) (p : Pool) : Prop :=
  exists budgets, Forall2 (fun t n => within (tk_rest t) n) (pl_tasks p) budgets /\
    (sum_list budgets + advances l = bound * arrivals l)%nat /\
    forall i, (default bound (budgets !! i) + steps_of i l = bound)%nat.

Lemma count_snoc {X} (f : X -> bool) l x :
  length (List.filter f (l ++ [x])) = (length (List.filter f l) + (if f x then 1 else 0))%nat.
Proof. rewrite List.filter_app, length_app. cbn. by destruct (f x). Qed.

Lemma sum_list_insert (l : list nat) i (n m : nat) :
  l !! i = Some n -> (m <= n)%nat -> (sum_list (<[i := m]> l) = sum_list l - (n - m))%nat
    /\ (n <= sum_list l)%nat.
Proof.
  revert i. induction l as [|a l IH]; intros [|i] Hi Hm; [done|done| |].
  - injection Hi as ->. cbn. lia.
  - destruct (IH i Hi Hm) as [H ?].
    change (sum_list (<[S i := m]> (a :: l))) with (a + sum_list (<[i := m]> l))%nat.
    rewrite H. cbn. lia.
Qed.

Lemma budgeted_exec l mv p p' : budgeted l p -> exec mv p = Some p' -> budgeted (l ++ [mv]) p'.
Proof.
  intros (bs & Hbs & Hsum & Hper) H. unfold budgeted, advances, arrivals, steps_of in *.
  setoid_rewrite count_snoc. destruct mv as [j|i|i]; cbn in H |- *.
  - injection H as <-. exists (bs ++ [bound]). split_and!.
    + apply Forall2_app; [done|]. constructor; [|constructor]. unfold start.
      pose proof (flush_within (prog j) [] bound (Hbound j)). by destruct (flush (prog j) []).
    + rewrite sum_list_with_app. cbn. lia.
    + intros k. specialize (Hper k). destruct (decide (k < length bs)%nat) as [Hk|Hk].
      { rewrite lookup_app_l by done. lia. }
      rewrite lookup_app_r by lia. rewrite lookup_ge_None_2 in Hper by lia. cbn in Hper.
      destruct (k - length bs)%nat as [|[|d]]; cbn; lia.
  - destruct (pl_tasks p !! i) as [t|] eqn:Hi; [|done]. unfold advance_task in H.
    destruct (Forall2_lookup_l _ _ _ _ _ Hbs Hi) as (n & Hn & Hw).
    destruct (tk_gone t); [done|]. destruct (tk_rest t) as [a|X f k|e m]; [done| |done].
    destruct n as [|n]; [done|]. destruct (f _ _) as [x s].
    pose proof (flush_within (k x) (tk_events t) n (Hw x)) as Hw'.
    destruct (flush _ _) as [m' l']. injection H as <-. cbn.
    exists (<[i := n]> bs). split_and!; [by apply Forall2_insert| |].
    + destruct (sum_list_insert bs i (S n) n Hn ltac:(lia)) as [-> ?]. lia.
    + intros j. specialize (Hper j). destruct (Nat.eqb_spec i j) as [<-|Hne].
      * rewrite list_lookup_insert_eq by (by eapply lookup_lt_Some). rewrite Hn in Hper. cbn in *. lia.
      * rewrite list_lookup_insert_ne by done. lia.
  - destruct (pl_tasks p !! i) as [t|] eqn:Hi; [|done]. injection H as <-. exists bs.
    destruct (Forall2_lookup_l _ _ _ _ _ Hbs Hi) as (n & Hn & Hw).
    split_and!; [|lia|intros k; specialize (Hper k); lia].
    rewrite <-(list_insert_id bs i n Hn). by apply Forall2_insert.
Qed.

Lemma pool_budgeted l s p : exec_all l (empty_pool s) = Some p -> budgeted l p.
Proof.
  revert p. induction l as [|mv l IH] using rev_ind; intros q H.
  - injection H as <-. exists []. split; [constructor|]. unfold advances, arrivals, steps_of. cbn.
    split; [lia|]. intros i. rewrite lookup_nil. cbn. lia.
  - apply exec_all_snoc in H as (q' & Hq & H). eapply budgeted_exec; [by apply IH|done].
Qed.

(** In any schedule a task takes at most [bound] steps, and all of them together
    [bound] per task. *)
Lemma pool_task_steps l s p i : exec_all l (empty_pool s) = Some p -> (steps_of i l <= bound)%nat.
Proof. intros H. destruct (pool_budgeted l s p H) as (bs & _ & _ & Hper). specialize (Hper i). lia. Qed.

Lemma pool_steps l s p :
  exec_all l (empty_pool s) = Some p -> (advances l <= bound * arrivals l)%nat.
Proof. intros H. destruct (pool_budgeted l s p H) as (bs & _ & Hsum & _). lia. Qed.

(** A task with nothing left to do. *)
Definition settled (t : Task) : Prop := tk_gone t = true \/ is_Some (answer t).

#[local] Instance settled_dec t : Decision (settled t).
Proof. unfold settled. apply _. Defined.

(** Whatever happened, letting the tasks run settles all of them, within the bound. *)
Lemma pool_drains l s p :
  exec_all l (empty_pool s) = Some p ->
  exists turns p', exec_all (map Advance turns) p = Some p' /\ Forall settled (pl_tasks p') /\
    (length turns + advances l <= bound * arrivals l)%nat.
Proof.
  remember (bound * arrivals l - advances l)%nat as left eqn:Hleft. revert l p Hleft.
  induction left as [left IH] using lt_wf_ind. intros l p Hleft E.
  pose proof (pool_steps l s p E) as Hsteps.
  destruct (decide (Forall settled (pl_tasks p))) as [|Hn].
  { exists [], p. split; [done|]. split; [done|]. cbn. lia. }
  apply not_Forall_Exists in Hn; [|intros t; unfold Decision; destruct (decide (settled t)); auto].
  apply Exists_exists in Hn as (t & Hin & Ht). apply list_elem_of_lookup in Hin as [i Hi].
  destruct (pool_progress l s p i t E Hi) as [p1 E1].
  { apply not_true_is_false. intros Hg. apply Ht. by left. }
  { destruct (answer t) eqn:Ea; [|done]. destruct Ht. right. by eexists. }
  assert (E2 : exec_all (l ++ [Advance i]) (empty_pool s) = Some p1) by (apply exec_all_snoc; eauto).
  pose proof (pool_steps _ s p1 E2) as Hsteps'. unfold advances, arrivals in *.
  rewrite !count_snoc in *. destruct (IH (left - 1)%nat ltac:(lia) (l ++ [Advance i]) p1) as (turns & p' & H1 & H2 & H3).
  - unfold advances, arrivals. rewrite !count_snoc. lia.
  - done.
  - exists (i :: turns), p'. unfold advances, arrivals in H3. rewrite !count_snoc in H3.
    split; [|split; [done|cbn; lia]]. cbn [map exec_all]. by rewrite E1.
Qed.

End Steps.

End Pool.

Arguments Task St Ev Job A : clear implicits.
Arguments Pool St Ev Job A : clear implicits.
Arguments Move Job : clear implicits.
Arguments Arrive {Job} j.
Arguments Advance {Job} i.
Arguments Disconnect {Job} i.
