(* ===== verification/Directory.v ===== *)
(** * What the proxy needs to know about shard leaders

    The interface between the routing table and the forwarding loop: the
    operations of [LeaderDirectory], and the laws the loop's correctness rests on,
    for a representation invariant [Inv]. The routing table implements it. *)
From S2P Require Import Prelude RustStr Externals Instances Table.
Open Scope Z_scope.

Class LeaderDirectory (T : Type) := {
  dir_shard_count : T -> Z;
  dir_members : T -> list string;
  dir_leader_for : T -> Z -> option string;
  dir_accept_leader_hint : Z -> Z -> string -> T -> option string * T;
  dir_validate_node_hint : string -> T -> option string;
  dir_any_node_excluding : gset string -> T -> option string * T;
  dir_record_region_request : string -> T -> T;
  (** How far the round-robin cursor is from wrapping around. *)
  dir_room : T -> Z;
}.

(** Two directories that agree on everything but counters and learned leaders. *)
Definition same_members {T} `{LeaderDirectory T} (t t' : T) : Prop :=
  dir_members t' = dir_members t /\ dir_shard_count t' = dir_shard_count t.

Class LeaderDirectoryLaws (T : Type) `{LeaderDirectory T} (Inv : T -> Prop) : Prop := {
  dir_leader_member : forall t s x,
    Inv t -> dir_leader_for t s = Some x -> x ∈ dir_members t;
  dir_leader_total : forall t s,
    Inv t -> dir_members t <> [] -> 0 <= s < dir_shard_count t -> is_Some (dir_leader_for t s);
  dir_accept_law : forall t now s url,
    Inv t -> 0 <= s < dir_shard_count t ->
    let (r, t') := dir_accept_leader_hint now s url t in
    Inv t' /\ same_members t t' /\ dir_room t' = dir_room t
    /\ forall x, r = Some x -> x ∈ dir_members t;
  dir_validate_member : forall t url x,
    Inv t -> dir_validate_node_hint url t = Some x -> x ∈ dir_members t;
  dir_any_law : forall t ex,
    Inv t ->
    let (r, t') := dir_any_node_excluding ex t in
    Inv t' /\ same_members t t'
    /\ forall x, r = Some x -> x ∈ dir_members t /\ x ∉ ex;
  dir_any_complete : forall t ex,
    Inv t -> Z.of_nat (length (dir_members t)) <= dir_room t ->
    let (r, t') := dir_any_node_excluding ex t in
    dir_room t - Z.of_nat (length (dir_members t)) <= dir_room t'
    /\ (r = None -> forall x, x ∈ dir_members t -> x ∈ ex);
  dir_record_law : forall t url,
    Inv t -> let t' := dir_record_region_request url t in
    Inv t' /\ same_members t t' /\ dir_room t' = dir_room t;
}.

(** ** The routing table implements the interface *)

#[export] Instance table_directory `{UrlCrate} : LeaderDirectory RouteTable := {|
  dir_shard_count := shard_count;
  dir_members := nodes;
  dir_leader_for := leader_for;
  dir_accept_leader_hint := accept_leader_hint;
  dir_validate_node_hint := validate_node_hint;
  dir_any_node_excluding := any_node_excluding;
  dir_record_region_request := record_region_request;
  dir_room t := 2 ^ 64 - cursor t;
|}.

Lemma any_node_loop_room `{UrlCrate} n ns ex c r c' :
  0 <= c -> c + Z.of_nat n <= 2 ^ 64 -> any_node_loop n ns ex c = (r, c') ->
  c' <= c + Z.of_nat n.
Proof.
  revert c. induction n as [|n IH]; intros c Hc Hb; cbn [any_node_loop]; [intros [= _ <-]; lia|].
  assert (Hw : u64_wrapping_add c 1 <= c + 1)
    by (unfold u64_wrapping_add; pose proof (Z.mod_le (c + 1) (2 ^ 64)); lia).
  pose proof (u64_wrapping_add_range c 1) as Hr.
  destruct (ns !! _); [|intros [= _ <-]; lia]. case_bool_decide; [|intros [= _ <-]; lia].
  intros E. apply IH in E; lia.
Qed.

(** A table's members may only come from a set of trusted URLs ([Trusted]) — the
    configured seeds and what the control plane lists. *)
Definition trusted_table `{UrlCrate} (Trusted : string -> Prop) (t : RouteTable) : Prop :=
  table_ok t /\ forall n, n ∈ nodes t -> Trusted n.

#[export] Instance table_directory_laws `{UrlCrate} `{!UrlLaws} (Trusted : string -> Prop) :
  LeaderDirectoryLaws RouteTable (trusted_table Trusted).
Proof.
  split; cbn.
  - intros t s x [Hok _] Hx. by eapply ok_leaders_member.
  - intros t s [Hok _] Hne Hs. by apply ok_leaders_total.
  - intros t now s url [Hok Ht] Hs.
    pose proof (accept_leader_hint_ok now s url t Hok Hs) as Hok'.
    pose proof (accept_leader_hint_facts now s url t Hok) as [Hm Hrest].
    destruct (accept_leader_hint now s url t) as [[x|] t']; cbn in *.
    + destruct Hrest as (_ & _ & _ & Hn & _ & _ & Hc & Hsc).
      unfold same_members; cbn. rewrite Hn, Hsc, Hc. split_and!; try done.
      * split; [done|]. by rewrite Hn.
      * intros y [= <-]. by apply Hm.
    + subst t'. split_and!; try done.
  - intros t url x [Hok _] Hx. unfold validate_node_hint in Hx.
    destruct (normalize_node_url url) as [z|]; [|done]. by apply find_known_Some in Hx as [? _].
  - intros t ex [Hok Ht]. pose proof (any_node_excluding_ok ex t Hok) as Hok'.
    unfold any_node_excluding in *. destruct (nodes t) as [|n0 ns] eqn:Hns.
    { split; [by split; [|rewrite Hns]|]. split; [by split|done]. }
    rewrite <-Hns in *. destruct (any_node_loop _ _ _ _) as [r c] eqn:E. cbn in *.
    split; [done|]. split; [done|]. intros x ->. by eapply any_node_loop_Some.
  - intros t ex [Hok Ht] Hroom.
    pose proof (any_node_excluding_facts ex t Hok ltac:(lia)) as Hspec.
    unfold any_node_excluding in *. destruct (nodes t) as [|n0 ns] eqn:Hns.
    + split; [simpl; lia|]. intros _ x Hx. by apply not_elem_of_nil in Hx.
    + rewrite <-Hns in *. destruct (any_node_loop _ _ _ _) as [r c] eqn:E. cbn in *.
      apply any_node_loop_room in E; [|apply Hok|lia]. split; [lia|].
      intros -> x Hx. destruct Hspec as (_ & _ & _ & Hall). by apply Hall.
  - intros t url [Hok Ht]. split; [|split; [split; reflexivity|reflexivity]].
    split; [by apply record_region_request_ok|exact Ht].
Qed.

Lemma any_node_excluding_nodes `{UrlCrate} ex t : nodes (snd (any_node_excluding ex t)) = nodes t.
Proof. unfold any_node_excluding. destruct (nodes t) eqn:E; [exact E|]. by destruct (any_node_loop _ _ _ _). Qed.

(** The URLs an operation may add: those its snapshot lists as healthy. *)
Definition op_lists `{UrlCrate} (o : table_op) (u : string) : Prop :=
  match o with
  | OpRefresh _ ns _ => exists node id, node ∈ ns /\ healthy_node node id u
  | _ => False
  end.

(** Tasks that run table operations keep the trusted members, as long as every
    snapshot they apply lists trusted URLs only. *)
Definition op_trusted `{UrlCrate} (Trusted : string -> Prop) (o : table_op) : Prop :=
  forall u, op_lists o u -> Trusted u.

Lemma run_op_trusted `{UrlCrate} `{!UrlLaws} Trusted o t :
  trusted_table Trusted t -> op_ok (shard_count t) o -> op_trusted Trusted o ->
  trusted_table Trusted (run_op o t).
Proof.
  intros [Hok Ht] Ho Htr. split; [by apply run_op_ok|]. intros n.
  destruct o as [now sh url|url|ex|fetched_at ns ps]; cbn [run_op]; try apply Ht.
  - unfold accept_leader_hint. repeat case_match; cbn; apply Ht.
  - rewrite any_node_excluding_nodes. apply Ht.
  - unfold apply_brain_snapshot_at.
    destruct (collect_nodes ns ∅ ∅) as [[by_id md]|] eqn:Hcn; [|apply Ht].
    repeat case_match; cbn; try apply Ht.
    intros [id Hid]%sorted_urls_elem.
    apply (collect_nodes_members _ _ _ _ _ Hcn) in Hid as [Hid|(node & Hn & Hh)].
    + by rewrite lookup_empty in Hid.
    + apply Htr. cbn. eauto.
Qed.

Lemma run_ops_trusted `{UrlCrate} `{!UrlLaws} Trusted l t :
  trusted_table Trusted t -> Forall (op_ok (shard_count t)) l -> Forall (op_trusted Trusted) l ->
  trusted_table Trusted (run_ops l t) /\ shard_count (run_ops l t) = shard_count t.
Proof.
  revert t. induction l as [|o l IH]; intros t Ht Hok Htr; [done|].
  apply Forall_cons in Hok as [Ho Hok]. apply Forall_cons in Htr as [Hto Htr].
  destruct (IH (run_op o t)) as [H1 H2].
  - by apply run_op_trusted.
  - by rewrite run_op_shard_count.
  - done.
  - split; [exact H1|]. change (run_ops (o :: l) t) with (run_ops l (run_op o t)).
    by rewrite H2, run_op_shard_count.
Qed.
