(* ===== verification/Forward.v ===== *)
(** * Forwarding with NotLeader redirects ([src/proxy.rs])

    One attempt ([forward_once]) and the loop around it ([forward_with_redirect]),
    against any [LeaderDirectory]. The directory is shared with other tasks
    ([env]); the answers of the nodes are an arbitrary function of the step and the
    request ([net]). Every attempt is logged with the request put on the wire and
    its outcome. Time is in milliseconds.

    The theorems: an attempt's request carries exactly the balancer's own identity
    and secret headers; what an attempt buffers and how long it waits is bounded;
    the loop makes at most [MAX_HOPS] attempts, each on a fresh trusted node, never
    repeats a mutation whose outcome is unknown, and finds a healthy node. *)
From S2P Require Import Prelude RustStr Externals Instances Table Identity Conc Directory.
Open Scope string_scope.
Open Scope list_scope.
Open Scope Z_scope.
Open Scope rust_scope.

Definition MAX_HOPS : nat := 4.
Definition MAX_UPSTREAM_RESPONSE_BYTES : Z := 8 * 1024 * 1024.
Definition STREAM_NON_BODY_TIMEOUT : Z := 5000.
Definition IDEMPOTENCY_KEY_HEADER : string := "idempotency-key".
Definition INTERNAL_AUTH_HEADER : string := "x-fiducia-internal-auth".

(** [internal_secret], a function of the environment variable. *)
Definition internal_secret (var : option string) : option string :=
  let! s := var in if String.eqb (trim s) "" then None else Some (trim s).

Inductive Upstream : Type :=
| Served (r : Response)
| NotLeader (leader : option string)
| NotSent
| AmbiguousTransport
| ResponseTooLarge.

#[export] Instance Upstream_eq_dec : EqDecision Upstream.
Proof. solve_decision. Defined.

(** A request handed to a client; [sr_streaming]: the one without total timeout. *)
Record SentRequest := mkSentRequest {
  sr_streaming : bool;
  sr_method : Method;
  sr_url : string;
  sr_headers : HeaderMap;
  sr_body : string;
}.

#[export] Instance SentRequest_eq_dec : EqDecision SentRequest.
Proof. solve_decision. Defined.

(** How a response body arrives: chunks, each after a delay, then the end. *)
Record Arrival := mkArrival {
  ar_chunks : list (Z * string);
  ar_end : Z;
  ar_failed : bool;
}.

(** The result of [send()] and how long it took. *)
Inductive Sent : Type :=
| SendError (is_connect : bool)
| SendOk (status : Z) (headers : HeaderMap) (body : Arrival).

Record Reply := mkReply { rp_delay : Z; rp_sent : Sent }.

(** [tokio::time::timeout] on a computation that took some time. *)
Definition timeout {A} (budget : Z) (r : Z * A) : Z * option A :=
  if fst r <=? budget then (fst r, Some (snd r)) else (budget, None).

(** ** Classifying *)

Definition is_hop_by_hop (name : string) : bool :=
  bool_decide (to_ascii_lowercase name ∈
    ["connection"; "keep-alive"; "proxy-authenticate"; "proxy-authorization"; "te"; "trailer";
     "transfer-encoding"; "upgrade"; "host"]).

Definition method_is_replay_safe (m : Method) : bool :=
  bool_decide (m = GET) || bool_decide (m = HEAD) || bool_decide (m = OPTIONS).

Section Once.
Context `{HT : Http} `{SJ : SerdeJson} `{FI : FiduciaInterfaces} `{UC : UrlCrate} `{RQ : Reqwest}.

Definition header_value (headers : HeaderMap) (name : string) : option string :=
  let! v := hm_get headers name in
  let! s := hv_to_str v in
  if String.eqb s "" then None else Some s.

Definition leader_base_url (location : string) : option string :=
  let! uri := uri_parse location in
  let! scheme := uri_scheme uri in
  let! authority := uri_authority uri in
  Some (scheme +:+ "://" +:+ authority).

Definition json_not_leader (body : string) : option (option string) :=
  let! value := json_from_slice body in
  let error := default value (json_get value "error") in
  let! parsed := propose_error_from_value error in
  match pe_reason parsed with
  | NotLeaderReason => Some (pe_leader parsed)
  | UnavailableReason => None
  end.

Definition upstream_url (node_url : string) (uri : Uri) : option string :=
  if negb (starts_with "http://" node_url || starts_with "https://" node_url) then None
  else
    let path := default "/" (uri_path_and_query uri) in
    let url := trim_end_matches "/" node_url +:+ path in
    let! parsed := url_parse url in
    if negb (String.eqb (url_path parsed) (uri_path uri)) then None else Some url.

Definition is_streaming_request (m : Method) (uri : Uri) (headers : HeaderMap) : bool :=
  if negb (bool_decide (m = GET)) then false
  else
    let accepts_events :=
      match (let! v := hm_get headers "accept" in hv_to_str v) with
      | Some value =>
          existsb (fun part => eq_ignore_ascii_case (trim part) "text/event-stream")
            (split_on "," value)
      | None => false
      end in
    let watch_query :=
      match uri_query uri with
      | Some query =>
          existsb (fun pair =>
            match split_once "=" pair with
            | Some (k, v) => String.eqb k "watch" && String.eqb v "true"
            | None => false
            end) (split_on "&" query)
      | None => false
      end in
    accepts_events || watch_query.

Definition is_event_stream_response (status : Z) (headers : HeaderMap) : bool :=
  status_is_success status &&
  match (let! v := hm_get headers "content-type" in
         let! value := hv_to_str v in
         head (split_on ";" value)) with
  | Some value => eq_ignore_ascii_case (trim value) "text/event-stream"
  | None => false
  end.

(** [for (name, value) in headers]: only the first value of a name comes with it. *)
Definition copy_headers (headers : HeaderMap) : HeaderMap :=
  fold_left (fun acc '(name, value) =>
    match hm_get acc name with Some _ => acc | None => hm_insert acc name value end) headers [].

Definition classify_upstream_response (status : Z) (headers : HeaderMap) (body : string) : Upstream :=
  let marked_not_leader :=
    match header_value headers "x-fiducia-not-leader" with
    | Some value => eq_ignore_ascii_case value "true"
    | None => false
    end in
  if (status =? 307) || (status =? 421) || ((status =? 503) && marked_not_leader) then
    NotLeader (match header_value headers "x-fiducia-leader" with
               | Some leader => Some leader
               | None => let! v := header_value headers "location" in leader_base_url v
               end)
  else match json_not_leader body with
  | Some leader => NotLeader leader
  | None => Served (mkResponse status (copy_headers headers) (BodyFull body))
  end.

(** ** One attempt *)

Definition skip_request_header (name : string) : bool :=
  is_hop_by_hop name || should_strip_client_auth_header name
  || eq_ignore_ascii_case name IDEMPOTENCY_KEY_HEADER.

Definition forwarded_headers (headers : HeaderMap) : HeaderMap :=
  fold_left (fun acc '(name, value) =>
    if skip_request_header name then acc
    else match hn_from_bytes name, hv_from_bytes value with
         | Some name, Some value => hm_append acc name value
         | _, _ => acc
         end) headers [].

(** [RequestBuilder::header] with a text value. *)
Definition rb_header (name value : string) (rb : option HeaderMap) : option HeaderMap :=
  let! headers := rb in
  let! v := hv_from_str value in
  Some (hm_append headers name v).

Definition rb_identity (identity : option VerifiedIdentity) (rb : option HeaderMap) : option HeaderMap :=
  match identity with
  | None => rb
  | Some i =>
      let rb := rb_header "x-fiducia-auth-kind" (kind_header i) rb in
      let rb := rb_header "x-fiducia-org-id" (org_id i) rb in
      let rb := rb_header "x-fiducia-scopes" (scopes_header i) rb in
      match key_id i with
      | Some key => rb_header "x-fiducia-key-id" key rb
      | None => rb
      end
  end.

Definition rb_secret (secret : option string) (rb : option HeaderMap) : option HeaderMap :=
  match secret with Some s => rb_header INTERNAL_AUTH_HEADER s rb | None => rb end.

(** The built request, or the builder's error. *)
Definition build_request (secret : option string) (streaming : bool) (m : Method) (url : string)
    (identity : option VerifiedIdentity) (headers : HeaderMap) (body : string)
  : option SentRequest :=
  let rb := if request_url_ok url then Some (forwarded_headers headers) else None in
  let! hs := rb_secret secret (rb_identity identity rb) in
  Some (mkSentRequest streaming m url hs body).

(** The upstream's headers, less the hop-by-hop ones; [insert] keeps the last
    value of a name. *)
Definition response_headers (headers : HeaderMap) : HeaderMap :=
  fold_left (fun acc '(name, value) =>
    if is_hop_by_hop name then acc
    else match hn_from_bytes name, hv_from_bytes value with
         | Some name, Some value => hm_insert acc name value
         | _, _ => acc
         end) headers [].

Fixpoint drain_chunks (chunks : list (Z * string)) (body : string) (elapsed : Z)
  : Z * result string Upstream :=
  match chunks with
  | [] => (elapsed, Ok body)
  | (delay, chunk) :: chunks =>
      if u64_saturating_add (str_len body) (str_len chunk) <=? MAX_UPSTREAM_RESPONSE_BYTES
      then drain_chunks chunks (body +:+ chunk) (elapsed + delay)
      else (elapsed + delay, Err ResponseTooLarge)
  end.

Definition drain_upstream_body (a : Arrival) : Z * result string Upstream :=
  match drain_chunks (ar_chunks a) "" 0 with
  | (elapsed, Ok body) =>
      (elapsed + ar_end a, if ar_failed a then Err AmbiguousTransport else Ok body)
  | r => r
  end.

(** What follows [send()], with the time it takes. *)
Definition receive (streaming : bool) (stream_budget : Z) (reply : Reply) : Z * Upstream :=
  let sent := (rp_delay reply, rp_sent reply) in
  match (if streaming then timeout stream_budget sent else (fst sent, Some (snd sent))) with
  | (waited, None) => (waited, AmbiguousTransport)
  | (waited, Some (SendError is_connect)) =>
      (waited, if is_connect then NotSent else AmbiguousTransport)
  | (waited, Some (SendOk raw_status raw_headers arrival)) =>
      let status := default 500 (status_from_u16 raw_status) in
      let headers := response_headers raw_headers in
      if is_event_stream_response status headers then
        (waited, Served (mkResponse status headers
                   (BodyStream (map snd (ar_chunks arrival)) (ar_failed arrival))))
      else
        let drained := drain_upstream_body arrival in
        match (if streaming then timeout stream_budget drained
               else (fst drained, Some (snd drained))) with
        | (t, None) => (waited + t, AmbiguousTransport)
        | (t, Some (Err upstream)) => (waited + t, upstream)
        | (t, Some (Ok body)) => (waited + t, classify_upstream_response status headers body)
        end
  end.

End Once.

(** ** The loop *)

(** One logged attempt. *)
Record Attempt := mkAttempt {
  at_target : string;
  at_method : Method;
  at_wire : option SentRequest;
  at_outcome : Upstream;
}.

Record ForwardRequest := mkForwardRequest {
  fr_identity : option VerifiedIdentity;
  fr_target : string;
  fr_shard : option Z;
  fr_method : Method;
  fr_uri : Uri;
  fr_headers : HeaderMap;
  fr_body : string;
}.

(** What surrounds the balancer: the secret it shares with the nodes, the clock of
    leader hints, the nodes. *)
Record Surroundings := mkSurroundings {
  internal : option string;
  clock : nat -> Z;
  net : nat -> SentRequest -> Reply;
}.

Section Loop.
Context `{HT : Http} `{SJ : SerdeJson} `{FI : FiduciaInterfaces} `{UC : UrlCrate} `{RQ : Reqwest}.
Context {T : Type} `{LD : LeaderDirectory T} (S : Surroundings).
Open Scope conc_scope.

(** [request.send()]: a builder error comes back without touching the network. *)
Definition send (rq : option SentRequest) : M T Attempt Reply :=
  match rq with
  | None => mreturn (mkReply 0 (SendError builder_error_is_connect))
  | Some r => ask (fun n => net S n r)
  end.

Definition forward_once_with_stream_budget (node_url : string) (identity : option VerifiedIdentity)
    (m : Method) (uri : Uri) (headers : HeaderMap) (body : string) (stream_budget : Z)
  : M T Attempt Upstream :=
  let finish wire out := emit (mkAttempt node_url m wire out) ;;; mreturn out in
  match upstream_url node_url uri with
  | None => finish None NotSent
  | Some url =>
      let streaming := is_streaming_request m uri headers in
      match method_from_bytes (method_as_str m) with
      | None => finish None NotSent
      | Some m' =>
          let rq := build_request (internal S) streaming m' url identity headers body in
          reply <- send rq ;;
          finish rq (snd (receive streaming stream_budget reply))
      end
  end.

Definition forward_once (node_url : string) (identity : option VerifiedIdentity)
    (m : Method) (uri : Uri) (headers : HeaderMap) (body : string) : M T Attempt Upstream :=
  forward_once_with_stream_budget node_url identity m uri headers body STREAM_NON_BODY_TIMEOUT.

Definition redirected_leader_target (shard : option Z) (leader : string) : M T Attempt (option string) :=
  match shard with
  | Some s => atomically (fun n t => dir_accept_leader_hint (clock S n) s leader t)
  | None => atomically (fun _ t => (dir_validate_node_hint leader t, t))
  end.

Definition no_leader_response : Response :=
  json_response 502 (JObj [("error", JStr "no_leader");
                           ("detail", JStr "exhausted redirects/retries")]).

Definition ambiguous_response : Response :=
  json_response 502 (JObj [("error", JStr "ambiguous_upstream_result");
    ("detail", JStr "the mutation may have committed; retry only with the same Idempotency-Key")]).

Definition too_large_response : Response :=
  json_response 502 (JObj [("error", JStr "upstream_response_too_large");
    ("detail", JStr "the node response exceeded the load balancer limit")]).

(** [for hop in 0..MAX_HOPS], with the hops left. *)
Fixpoint forward_hops (hops : nat) (attempted_targets : gset string) (target : string)
    (request : ForwardRequest) : M T Attempt Response :=
  match hops with
  | O => mreturn no_leader_response
  | Datatypes.S hops =>
      let attempted_targets := {[target]} ∪ attempted_targets in
      let try_untried :=
        next <- atomically (fun _ t => dir_any_node_excluding attempted_targets t) ;;
        match next with
        | Some next => forward_hops hops attempted_targets next request
        | None => mreturn no_leader_response
        end in
      atomically (fun _ t => (tt, dir_record_region_request target t)) ;;;
      (outcome <- forward_once target (fr_identity request) (fr_method request) (fr_uri request)
                    (fr_headers request) (fr_body request) ;;
       match outcome with
       | Served resp => mreturn resp
       | NotLeader (Some leader) =>
           hinted <- redirected_leader_target (fr_shard request) leader ;;
           match hinted with
           | Some next =>
               if bool_decide (next ∈ attempted_targets) then try_untried
               else forward_hops hops attempted_targets next request
           | None => try_untried
           end
       | NotLeader None => try_untried
       | NotSent => try_untried
       | AmbiguousTransport =>
           if method_is_replay_safe (fr_method request) then try_untried
           else mreturn ambiguous_response
       | ResponseTooLarge => mreturn too_large_response
       end)
  end.

Definition forward_with_redirect (request : ForwardRequest) : M T Attempt Response :=
  forward_hops MAX_HOPS ∅ (fr_target request) request.

End Loop.

(** ** Specification *)

(** Outcomes after which the loop goes on. *)
Definition outcome_retryable (m : Method) (out : Upstream) : bool :=
  match out with
  | NotLeader _ | NotSent => true
  | AmbiguousTransport => method_is_replay_safe m
  | Served _ | ResponseTooLarge => false
  end.

(** Outcomes that guarantee the node did not apply the request. *)
Definition not_applied (out : Upstream) : bool :=
  match out with NotLeader _ | NotSent => true | _ => false end.

(** The response when an attempt is the last one. *)
Definition final_answer `{SerdeJson} (m : Method) (out : Upstream) : Response :=
  match out with
  | Served r => r
  | ResponseTooLarge => too_large_response
  | AmbiguousTransport =>
      if method_is_replay_safe m then no_leader_response else ambiguous_response
  | NotLeader _ | NotSent => no_leader_response
  end.

(** The values a forwarded request must carry for a header name that belongs to
    the balancer. *)
Definition own_values (secret : option string) (identity : option VerifiedIdentity) (name : string)
  : list string :=
  let of_identity f := match identity with Some i => f i | None => [] end in
  if String.eqb name "x-fiducia-auth-kind" then of_identity (fun i => [kind_header i])
  else if String.eqb name "x-fiducia-org-id" then of_identity (fun i => [org_id i])
  else if String.eqb name "x-fiducia-scopes" then of_identity (fun i => [scopes_header i])
  else if String.eqb name "x-fiducia-key-id" then of_identity (fun i => option_list (key_id i))
  else if String.eqb name INTERNAL_AUTH_HEADER then option_list secret
  else [].

(** The values of the client's own header after conversion. *)
Definition client_values `{Http} (headers : HeaderMap) (name : string) : list string :=
  omap (fun p => if String.eqb (to_ascii_lowercase (fst p)) name && negb (is_none (hn_from_bytes (fst p)))
                 then hv_from_bytes (snd p) else None) headers.

(** A response the client can be sent as it is: it has a status code, every header
    has one value, and none is about the connection to the node. *)
Definition well_formed (r : Response) : Prop :=
  in_range 100 999 (rs_status r) = true /\
  forall name, (length (hm_get_all (rs_headers r) name) <= 1)%nat /\
    (is_hop_by_hop name = true -> hm_get_all (rs_headers r) name = []).

Section Trace.
Context `{HT : Http} `{SJ : SerdeJson} `{FI : FiduciaInterfaces} `{UC : UrlCrate} `{RQ : Reqwest}.
Context (secret : option string) (Trusted : string -> Prop) (request : ForwardRequest).

(** What holds of a single attempt. *)
Record attempt_ok (a : Attempt) : Prop := {
  ao_method : at_method a = fr_method request;
  ao_trusted : Trusted (at_target a);
  ao_wire : forall rq, at_wire a = Some rq ->
    upstream_url (at_target a) (fr_uri request) = Some (sr_url rq) /\
    exists m streaming, method_from_bytes (method_as_str (fr_method request)) = Some m /\
      build_request secret streaming m (sr_url rq) (fr_identity request) (fr_headers request)
        (fr_body request) = Some rq;
  ao_nowire : at_wire a = None -> at_outcome a = NotSent \/ at_outcome a = AmbiguousTransport
              \/ builder_error_is_connect = true;
  ao_bounded : forall r b, at_outcome a = Served r -> rs_body r = BodyFull b ->
    str_len b <= MAX_UPSTREAM_RESPONSE_BYTES;
  ao_response : forall r, at_outcome a = Served r -> well_formed r;
}.

(** The runs of the loop: hops left, targets already attempted, next target,
    response, attempts made. *)
Inductive trace : nat -> gset string -> string -> Response -> list Attempt -> Prop :=
| trace_exhausted att target : trace 0 att target no_leader_response []
| trace_last k att a :
    attempt_ok a ->
    trace (S k) att (at_target a) (final_answer (fr_method request) (at_outcome a)) [a]
| trace_next k att a next resp l :
    attempt_ok a -> outcome_retryable (fr_method request) (at_outcome a) = true ->
    next ∉ {[at_target a]} ∪ att ->
    trace k ({[at_target a]} ∪ att) next resp l ->
    trace (S k) att (at_target a) resp (a :: l).

#[local] Hint Constructors trace : fiducia.

Lemma trace_length k att target resp l : trace k att target resp l -> (length l <= k)%nat.
Proof. induction 1; simpl; lia. Qed.

Lemma trace_nonempty k att target resp l :
  trace (S k) att target resp l -> exists a l', l = a :: l' /\ at_target a = target.
Proof. inversion 1; subst; eauto. Qed.

Lemma trace_forall k att target resp l : trace k att target resp l -> Forall attempt_ok l.
Proof. induction 1; auto. Qed.

Lemma trace_fresh k att target resp l :
  trace k att target resp l -> target ∉ att ->
  NoDup (map at_target l) /\ Forall (fun a => at_target a ∉ att) l.
Proof.
  induction 1 as [|k att a Ha|k att a next resp l Ha Hr Hn Ht IH]; intros Hf; cbn.
  - repeat constructor.
  - split; [apply NoDup_singleton|by constructor].
  - destruct (IH Hn) as [Hnd Hfr]. rewrite Forall_forall in Hfr. split.
    + constructor; [|done]. rewrite list_elem_of_fmap. intros (b & Hb & Hin).
      apply (Hfr b Hin). rewrite <-Hb. set_solver.
    + constructor; [done|]. rewrite Forall_forall. intros b Hb Hin. apply (Hfr b Hb). set_solver.
Qed.

Lemma trace_answer k att target resp l :
  trace (S k) att target resp l ->
  exists pre a, l = pre ++ [a] /\ resp = final_answer (fr_method request) (at_outcome a)
    /\ Forall (fun b => outcome_retryable (fr_method request) (at_outcome b) = true) pre.
Proof.
  remember (S k) as n eqn:Hk. intros Ht. revert k Hk.
  induction Ht as [|k att a Ha|k att a next resp l Ha Hr Hn Ht IH]; intros k' Hk; [done| |].
  - by exists [], a.
  - destruct k as [|k].
    + inversion Ht; subst. exists [], a. split_and!; [done| |done].
      unfold final_answer. destruct (at_outcome a); cbn in Hr; try done. by rewrite Hr.
    + destruct (IH k eq_refl) as (pre & b & -> & Hb & Hpre).
      exists (a :: pre), b. split_and!; [done|done|by constructor].
Qed.

End Trace.

(** ** Lemmas: building and classifying *)

Section OnceLemmas.
Context `{HT : Http} `{HL : !HttpLaws} `{SJ : SerdeJson} `{FI : FiduciaInterfaces}.
Context `{UC : UrlCrate} `{RQ : Reqwest}.

Lemma hm_get_all_append h n v m :
  hm_get_all (hm_append h n v) m = hm_get_all h m ++ (if String.eqb n m then [v] else []).
Proof.
  unfold hm_get_all, hm_append. rewrite List.filter_app, map_app. simpl.
  by destruct (String.eqb n m).
Qed.

Lemma skip_request_header_lower n :
  skip_request_header (to_ascii_lowercase n) = skip_request_header n.
Proof.
  unfold skip_request_header, is_hop_by_hop, should_strip_client_auth_header, eq_ignore_ascii_case.
  by rewrite !to_ascii_lowercase_idem.
Qed.

Lemma forwarded_headers_get_all headers name :
  hm_get_all (forwarded_headers headers) name =
    if skip_request_header name then [] else client_values headers name.
Proof.
  unfold forwarded_headers.
  assert (G : forall acc, hm_get_all (fold_left (fun acc '(name, value) =>
      if skip_request_header name then acc
      else match hn_from_bytes name, hv_from_bytes value with
           | Some name, Some value => hm_append acc name value
           | _, _ => acc end) headers acc) name
    = hm_get_all acc name ++ if skip_request_header name then [] else client_values headers name).
  { induction headers as [|[n v] hs IH]; intros acc; cbn [fold_left].
    { destruct (skip_request_header name); by rewrite app_nil_r. }
    rewrite IH. unfold client_values. cbn [omap list_omap fst snd].
    destruct (String.eqb_spec (to_ascii_lowercase n) name) as [<-|Hne]; cbn [andb].
    - rewrite skip_request_header_lower. destruct (skip_request_header n); [done|].
      destruct (hn_from_bytes n) as [n'|] eqn:En; cbn [is_none negb]; [|done].
      apply hn_from_bytes_Some in En as ->. destruct (hv_from_bytes v); [|done].
      by rewrite hm_get_all_append, String.eqb_refl, <-app_assoc.
    - destruct (skip_request_header n); [done|].
      destruct (hn_from_bytes n) as [n'|] eqn:En; [|done].
      apply hn_from_bytes_Some in En as ->. destruct (hv_from_bytes v); [|done].
      rewrite hm_get_all_append. destruct (String.eqb_spec (to_ascii_lowercase n) name); [done|].
      by rewrite app_nil_r. }
  apply G.
Qed.

Lemma rb_header_Some name value rb hs' :
  rb_header name value rb = Some hs' -> exists hs, rb = Some hs /\ hs' = hm_append hs name value.
Proof.
  unfold rb_header. destruct rb as [hs|]; [|done].
  destruct (hv_from_str value) as [v|] eqn:E; [|done]. apply hv_from_str_Some in E as ->.
  intros [= <-]. eauto.
Qed.

Lemma rb_identity_get_all identity rb hs' name :
  rb_identity identity rb = Some hs' ->
  exists hs, rb = Some hs /\
    hm_get_all hs' name = hm_get_all hs name
      ++ (if String.eqb name INTERNAL_AUTH_HEADER then [] else own_values None identity name).
Proof.
  destruct identity as [i|]; cbn [rb_identity].
  2:{ intros ->. exists hs'. split; [done|]. unfold own_values. repeat case_match; by rewrite app_nil_r. }
  intros H.
  assert (exists hs1, rb_header "x-fiducia-scopes" (scopes_header i)
      (rb_header "x-fiducia-org-id" (org_id i) (rb_header "x-fiducia-auth-kind" (kind_header i) rb)) = Some hs1
    /\ hm_get_all hs' name = hm_get_all hs1 name ++ (if String.eqb "x-fiducia-key-id" name
                               then option_list (key_id i) else [])) as (hs1 & H1 & ->).
  { destruct (key_id i) as [k|].
    - apply rb_header_Some in H as (hs1 & H & ->). exists hs1. split; [done|].
      by rewrite hm_get_all_append.
    - exists hs'. split; [done|]. case_match; by rewrite app_nil_r. }
  apply rb_header_Some in H1 as (hs2 & H2 & ->). apply rb_header_Some in H2 as (hs3 & H3 & ->).
  apply rb_header_Some in H3 as (hs & -> & ->). exists hs. split; [done|].
  rewrite !hm_get_all_append, <-!app_assoc. f_equal. unfold own_values, INTERNAL_AUTH_HEADER.
  rewrite !(String.eqb_sym _ name).
  repeat match goal with
  | |- context [String.eqb name ?x] => destruct (String.eqb_spec name x) as [->|?]; [done|]
  end. done.
Qed.

Lemma build_request_Some secret streaming m url identity headers body rq :
  build_request secret streaming m url identity headers body = Some rq ->
  request_url_ok url = true /\ sr_streaming rq = streaming /\ sr_method rq = m /\ sr_url rq = url
  /\ sr_body rq = body /\
  forall name, hm_get_all (sr_headers rq) name =
    hm_get_all (forwarded_headers headers) name ++ own_values secret identity name.
Proof.
  unfold build_request. destruct (rb_secret _ _) as [hs|] eqn:E; [|done]. intros [= <-]. cbn.
  assert (exists hs1, rb_identity identity (if request_url_ok url then Some (forwarded_headers headers)
                                            else None) = Some hs1
    /\ forall name, hm_get_all hs name = hm_get_all hs1 name
         ++ (if String.eqb name INTERNAL_AUTH_HEADER then option_list secret else []))
    as (hs1 & H1 & Hhs).
  { destruct secret as [s|]; cbn [rb_secret] in E.
    - apply rb_header_Some in E as (hs1 & E & ->). exists hs1. split; [done|]. intros name.
      rewrite hm_get_all_append. by rewrite (String.eqb_sym name).
    - exists hs. split; [done|]. intros name. destruct (String.eqb name INTERNAL_AUTH_HEADER); cbn; by rewrite app_nil_r. }
  destruct (request_url_ok url).
  2:{ destruct (rb_identity_get_all _ _ _ "" H1) as (? & ? & _). done. }
  split_and!; try done. intros name.
  destruct (rb_identity_get_all _ _ _ name H1) as (hs2 & [= <-] & Hhs1).
  change (hm_get_all hs name = hm_get_all (forwarded_headers headers) name ++ own_values secret identity name). rewrite Hhs, Hhs1, <-app_assoc. f_equal. unfold own_values.
  destruct (String.eqb_spec name INTERNAL_AUTH_HEADER) as [E1|Hne]; [rewrite E1; reflexivity|].
  by rewrite app_nil_r.
Qed.

Lemma own_values_skipped secret identity name :
  skip_request_header name = false -> own_values secret identity name = [].
Proof.
  unfold own_values, INTERNAL_AUTH_HEADER. intros H.
  repeat match goal with
  | |- context [String.eqb name ?x] =>
      destruct (String.eqb_spec name x) as [->|?]; [vm_compute in H; discriminate|]
  end. done.
Qed.

Lemma drain_chunks_bound chunks body t t' r :
  str_len body <= MAX_UPSTREAM_RESPONSE_BYTES ->
  drain_chunks chunks body t = (t', Ok r) ->
  str_len r <= MAX_UPSTREAM_RESPONSE_BYTES /\ r = body +:+ concat_str (map snd chunks).
Proof.
  revert body t. induction chunks as [|[d c] chunks IH]; intros body t Hb; cbn [drain_chunks].
  { intros [= _ <-]. cbn. by rewrite app_nil_r_str. }
  unfold u64_saturating_add. destruct (Z.leb_spec (Z.min (str_len body + str_len c) u64_max)
    MAX_UPSTREAM_RESPONSE_BYTES) as [Hle|]; [|done].
  intros H. apply IH in H as [H ->].
  - split; [done|]. cbn. by rewrite app_assoc_str.
  - rewrite str_len_app. unfold MAX_UPSTREAM_RESPONSE_BYTES, u64_max in *. lia.
Qed.

Lemma drain_upstream_body_Ok a t r :
  drain_upstream_body a = (t, Ok r) ->
  str_len r <= MAX_UPSTREAM_RESPONSE_BYTES /\ r = concat_str (map snd (ar_chunks a))
  /\ ar_failed a = false.
Proof.
  unfold drain_upstream_body. destruct (drain_chunks _ _ _) as [t0 [b|e]] eqn:E; [|done].
  destruct (ar_failed a); [done|]. intros [= _ <-].
  apply drain_chunks_bound in E as [? ?]; [done|unfold str_len, MAX_UPSTREAM_RESPONSE_BYTES; simpl; lia].
Qed.

Lemma classify_Served status headers body r :
  classify_upstream_response status headers body = Served r ->
  rs_status r = status /\ rs_headers r = copy_headers headers /\ rs_body r = BodyFull body.
Proof. unfold classify_upstream_response. repeat case_match; by intros [= <-]. Qed.

End OnceLemmas.

(** ** Lemmas: response headers *)

Section ResponseHeaders.
Context `{HT : Http} `{HL : !HttpLaws}.

Lemma hm_get_all_insert h n v m :
  hm_get_all (hm_insert h n v) m = if String.eqb n m then [v] else hm_get_all h m.
Proof.
  unfold hm_get_all, hm_insert. rewrite List.filter_app, map_app. simpl.
  destruct (String.eqb_spec n m) as [->|Hne].
  - induction h as [|[k x] h IH]; simpl; [done|].
    destruct (String.eqb k m) eqn:E; simpl; [exact IH|]. rewrite E. exact IH.
  - rewrite app_nil_r. induction h as [|[k x] h IH]; simpl; [done|].
    destruct (String.eqb_spec k n) as [->|]; simpl.
    + destruct (String.eqb_spec n m); [done|exact IH].
    + destruct (String.eqb k m); simpl; [by f_equal|exact IH].
Qed.

Lemma response_headers_get_all headers name :
  hm_get_all (response_headers headers) name =
    if is_hop_by_hop name then [] else option_list (last (client_values headers name)).
Proof.
  unfold response_headers.
  assert (G : forall acc, hm_get_all (fold_left (fun acc '(name, value) =>
      if is_hop_by_hop name then acc
      else match hn_from_bytes name, hv_from_bytes value with
           | Some name, Some value => hm_insert acc name value
           | _, _ => acc end) headers acc) name
    = if is_hop_by_hop name then hm_get_all acc name
      else match last (client_values headers name) with
           | Some v => [v] | None => hm_get_all acc name end).
  { induction headers as [|[n v] hs IH] using rev_ind; intros acc.
    { by destruct (is_hop_by_hop name). }
    rewrite fold_left_app. cbn [fold_left]. unfold client_values in *. rewrite omap_app.
    cbn [omap list_omap fst snd].
    assert (Hl : is_hop_by_hop (to_ascii_lowercase n) = is_hop_by_hop n)
      by (unfold is_hop_by_hop; by rewrite to_ascii_lowercase_idem).
    destruct (String.eqb_spec (to_ascii_lowercase n) name) as [<-|Hne]; cbn [andb].
    - rewrite Hl in *. destruct (is_hop_by_hop n) eqn:Hh; [by rewrite IH|].
      destruct (hn_from_bytes n) as [n'|] eqn:En; cbn [is_none negb].
      2:{ by rewrite app_nil_r, IH. }
      apply hn_from_bytes_Some in En as ->. destruct (hv_from_bytes v).
      + by rewrite hm_get_all_insert, String.eqb_refl, last_snoc.
      + by rewrite app_nil_r, IH.
    - rewrite app_nil_r. destruct (is_hop_by_hop n); [by rewrite IH|].
      destruct (hn_from_bytes n) as [n'|] eqn:En; [|by rewrite IH].
      apply hn_from_bytes_Some in En as ->. destruct (hv_from_bytes v); [|by rewrite IH].
      rewrite hm_get_all_insert. by destruct (String.eqb_spec (to_ascii_lowercase n) name). }
  rewrite G. destruct (is_hop_by_hop name); [done|]. by destruct (last _).
Qed.

Lemma hm_get_head h n : hm_get h n = head (hm_get_all h n).
Proof.
  unfold hm_get, hm_get_all. induction h as [|[k v] h IH]; simpl; [done|].
  by destruct (String.eqb k n).
Qed.

Lemma hm_get_all_cons n v h m :
  hm_get_all ((n, v) :: h) m = (if String.eqb n m then [v] else []) ++ hm_get_all h m.
Proof. unfold hm_get_all. simpl. by destruct (String.eqb n m). Qed.

Lemma copy_headers_get_all headers name :
  hm_get_all (copy_headers headers) name = option_list (head (hm_get_all headers name)).
Proof.
  unfold copy_headers.
  assert (G : forall acc, hm_get_all (fold_left (fun acc '(name, value) =>
      match hm_get acc name with Some _ => acc | None => hm_insert acc name value end) headers acc) name
    = match hm_get_all acc name with
      | [] => option_list (head (hm_get_all headers name)) | l => l end).
  { induction headers as [|[n v] hs IH]; intros acc; cbn [fold_left].
    { by destruct (hm_get_all acc name). }
    rewrite IH, hm_get_head, hm_get_all_cons.
    destruct (String.eqb_spec n name) as [->|Hne].
    - destruct (hm_get_all acc name) eqn:E; cbn [head app].
      + by rewrite hm_get_all_insert, String.eqb_refl.
      + by rewrite E.
    - destruct (head (hm_get_all acc n)); [done|]. rewrite hm_get_all_insert.
      by destruct (String.eqb_spec n name). }
  by rewrite G.
Qed.

Lemma copied_response_headers headers name :
  hm_get_all (copy_headers (response_headers headers)) name
  = hm_get_all (response_headers headers) name.
Proof.
  rewrite copy_headers_get_all, !response_headers_get_all.
  destruct (is_hop_by_hop name); [done|]. by destruct (last _).
Qed.

End ResponseHeaders.

(** ** Lemmas: one answer *)

Section Answers.
Context `{HT : Http} `{HL : !HttpLaws} `{SJ : SerdeJson} `{FI : FiduciaInterfaces}.
Context (streaming : bool) (budget status : Z) (headers : HeaderMap) (arrival : Arrival).

(** What a served response is made of. *)
Definition served_from (r : Response) : Prop :=
  (forall name, hm_get_all (rs_headers r) name =
     if is_hop_by_hop name then [] else option_list (last (client_values headers name))) /\
  match rs_body r with
  | BodyFull b => b = concat_str (map snd (ar_chunks arrival)) /\ ar_failed arrival = false
                  /\ str_len b <= MAX_UPSTREAM_RESPONSE_BYTES
  | BodyStream chunks failed =>
      is_event_stream_response (rs_status r) (rs_headers r) = true
      /\ chunks = map snd (ar_chunks arrival) /\ failed = ar_failed arrival
  end.

Lemma classified_served_from st t body r :
  drain_upstream_body arrival = (t, Ok body) ->
  classify_upstream_response st (response_headers headers) body = Served r -> served_from r.
Proof.
  intros Hd (_ & Hh & Hbody)%classify_Served. split.
  - intros name. by rewrite Hh, copied_response_headers, response_headers_get_all.
  - rewrite Hbody. apply drain_upstream_body_Ok in Hd as (? & ? & ?). auto.
Qed.

Lemma drain_not_served t e r : drain_upstream_body arrival = (t, Err e) -> e <> Served r.
Proof.
  unfold drain_upstream_body. destruct (drain_chunks _ _ _) as [t0 [b0|e0]] eqn:E.
  - by destruct (ar_failed arrival); intros [= _ <-].
  - intros [= _ <-]. revert E. generalize "" 0.
    induction (ar_chunks arrival) as [|[d c] l IH]; intros s z; cbn [drain_chunks]; [done|].
    case_match; [apply IH|by intros [= _ <-]].
Qed.

Lemma receive_served delay t r :
  receive streaming budget (mkReply delay (SendOk status headers arrival)) = (t, Served r) ->
  served_from r.
Proof.
  unfold receive, timeout. cbn [fst snd rp_delay rp_sent].
  destruct (if streaming then _ else _) as [w o] eqn:Ew.
  assert (Ho : o = None \/ o = Some (SendOk status headers arrival))
    by (destruct streaming; [destruct (delay <=? budget)|]; injection Ew; auto).
  destruct Ho as [-> | ->]; [done|].
  destruct (is_event_stream_response _ _) eqn:Eev.
  { intros [= _ <-]. split; [intros; apply response_headers_get_all|by split]. }
  destruct (drain_upstream_body arrival) as [td [body|e]] eqn:Ed; cbn [fst snd].
  - destruct streaming; [destruct (td <=? budget)|]; intros [= _ Hr]; try done;
      by eapply classified_served_from.
  - pose proof (drain_not_served _ _ r Ed).
    destruct streaming; [destruct (td <=? budget)|]; intros [= _ Hr]; contradiction.
Qed.

Lemma receive_status delay t r :
  receive streaming budget (mkReply delay (SendOk status headers arrival)) = (t, Served r) ->
  rs_status r = default 500 (status_from_u16 status).
Proof.
  unfold receive, timeout. cbn [fst snd rp_delay rp_sent].
  destruct (if streaming then _ else _) as [w o] eqn:Ew.
  assert (Ho : o = None \/ o = Some (SendOk status headers arrival))
    by (destruct streaming; [destruct (delay <=? budget)|]; injection Ew; auto).
  destruct Ho as [-> | ->]; [done|].
  destruct (is_event_stream_response _ _) eqn:Eev; [by intros [= _ <-]|].
  destruct (drain_upstream_body arrival) as [td [body|e]] eqn:Ed; cbn [fst snd].
  - destruct streaming; [destruct (td <=? budget)|]; intros [= _ Hr]; try done;
      by apply classify_Served in Hr as (-> & _).
  - pose proof (drain_not_served _ _ r Ed).
    destruct streaming; [destruct (td <=? budget)|]; intros [= _ Hr]; contradiction.
Qed.

Lemma receive_time delay :
  0 <= budget ->
  fst (receive true budget (mkReply delay (SendOk status headers arrival))) <= 2 * budget.
Proof.
  intros Hb. unfold receive, timeout. cbn [fst snd rp_delay rp_sent].
  destruct (Z.leb_spec delay budget); cbn [fst]; [|lia].
  destruct (is_event_stream_response _ _); cbn [fst]; [lia|].
  destruct (drain_upstream_body arrival) as [td [body|e]]; cbn [fst snd];
    destruct (Z.leb_spec td budget); cbn [fst]; lia.
Qed.

End Answers.

(** A served response has a status code. *)
Lemma receive_status_valid `{!Http} `{!HttpLaws} `{!SerdeJson} `{!FiduciaInterfaces}
    streaming budget reply t r :
  receive streaming budget reply = (t, Served r) -> in_range 100 999 (rs_status r) = true.
Proof.
  destruct reply as [delay [c|st hs a]].
  - unfold receive, timeout. cbn. destruct streaming; [destruct (_ <=? _)|]; by destruct c.
  - intros ->%receive_status. unfold status_from_u16. by destruct (in_range 100 999 st) eqn:E.
Qed.

Lemma receive_bounded `{!Http} `{!HttpLaws} `{!SerdeJson} `{!FiduciaInterfaces}
    streaming budget reply t r b :
  receive streaming budget reply = (t, Served r) -> rs_body r = BodyFull b ->
  str_len b <= MAX_UPSTREAM_RESPONSE_BYTES.
Proof.
  destruct reply as [delay [c|st hs a]].
  - unfold receive, timeout. cbn. destruct streaming; [destruct (_ <=? _)|]; by destruct c.
  - intros [_ Hsf]%receive_served Hb. rewrite Hb in Hsf. apply Hsf.
Qed.


Lemma receive_well_formed `{!Http} `{!HttpLaws} `{!SerdeJson} `{!FiduciaInterfaces}
    streaming budget reply t r :
  receive streaming budget reply = (t, Served r) -> well_formed r.
Proof.
  intros Hr. split; [by eapply receive_status_valid|]. intros name.
  destruct reply as [delay [c|st hs a]].
  - revert Hr. unfold receive, timeout. cbn. destruct streaming; [destruct (_ <=? _)|]; by destruct c.
  - apply receive_served in Hr as [Hh _]. rewrite Hh. split.
    + destruct (is_hop_by_hop name); [cbn; lia|]. destruct (last _); cbn; lia.
    + by intros ->.
Qed.

Lemma json_well_formed `{SerdeJson} status v :
  in_range 100 999 status = true -> well_formed (json_response status v).
Proof.
  intros Hs. split; [done|]. intros name. cbn [rs_headers json_response]. unfold hm_get_all. cbn.
  destruct (String.eqb_spec "content-type" name) as [<-|]; cbn; (split; [lia|]); [done|by intros].
Qed.

Lemma insert_well_formed status h n v b b' :
  well_formed (mkResponse status h b) -> is_hop_by_hop n = false ->
  well_formed (mkResponse status (hm_insert h n v) b').
Proof.
  intros [Hs Hh] Hn. split; [done|]. intros name. cbn [rs_headers] in *. rewrite hm_get_all_insert.
  destruct (String.eqb_spec n name) as [->|]; [|apply Hh]. cbn. split; [lia|]. by rewrite Hn.
Qed.

(** ** Lemmas: the loop follows its specification *)

Section LoopLemmas.
Context `{HT : Http} `{HL : !HttpLaws} `{SJ : SerdeJson} `{FI : FiduciaInterfaces} `{UC : UrlCrate} `{RQ : Reqwest}.
Context {T : Type} `{LD : LeaderDirectory T} {Inv : T -> Prop} `{LL : !LeaderDirectoryLaws T Inv}.
Context (S : Surroundings) (Trusted : string -> Prop) (n : Z).

(** A directory in a good state, with [n] shards and trusted members only. *)
Definition good (t : T) : Prop :=
  Inv t /\ dir_shard_count t = n /\ forall x, x ∈ dir_members t -> Trusted x.

Lemma forward_once_runs request target :
  Trusted target ->
  runs good (forward_once S target (fr_identity request) (fr_method request) (fr_uri request)
               (fr_headers request) (fr_body request))
    (fun out l => exists a, l = [a] /\ at_target a = target /\ at_outcome a = out
                            /\ attempt_ok (internal S) Trusted request a).
Proof.
  intros Ht. unfold forward_once, forward_once_with_stream_budget.
  assert (Hfin : forall wire out,
    attempt_ok (internal S) Trusted request (mkAttempt target (fr_method request) wire out) ->
    runs good (emit (mkAttempt target (fr_method request) wire out) ;;; mreturn out)%conc
      (fun out l => exists a, l = [a] /\ at_target a = target /\ at_outcome a = out
                              /\ attempt_ok (internal S) Trusted request a)).
  { intros wire out Ha. set (a := mkAttempt _ _ _ _) in *.
    eapply runs_then; [by apply (runs_emit good good a (fun _ l => l = [a]))|].
    intros _ l ->. apply runs_return. by exists a. }
  destruct (upstream_url _ _) as [url|] eqn:Hurl; [|by apply Hfin; split; auto].
  destruct (method_from_bytes _) as [m|] eqn:Hm; [|by apply Hfin; split; auto].
  set (rq := build_request _ _ _ _ _ _ _).
  eapply runs_then with (Q := fun reply l => l = [] /\
    (rq = None -> reply = mkReply 0 (SendError builder_error_is_connect))).
  { destruct rq as [r|]; cbn [send]; [apply runs_ask; [done|]|apply runs_return]; by split. }
  intros reply l [-> Hnone]. apply Hfin. split; cbn; auto.
  - intros r Hr. destruct (build_request_Some _ _ _ _ _ _ _ _ Hr) as (_ & _ & _ & Hu & _).
    rewrite Hu. split; [done|]. eauto.
  - intros Hr. rewrite (Hnone Hr). unfold receive, timeout. cbn [rp_delay rp_sent fst snd].
    destruct builder_error_is_connect; [auto|].
    destruct (is_streaming_request _ _ _); cbn; auto.
  - intros r b Hr. destruct (receive _ _ reply) as [t out] eqn:E. cbn in Hr. subst out.
    by eapply receive_bounded.
  - intros r Hr. destruct (receive _ _ reply) as [t out] eqn:E. cbn in Hr. subst out.
    by eapply receive_well_formed.
Qed.

(** The shard of a request is in range. *)
Definition shard_in_range (shard : option Z) : Prop := forall s, shard = Some s -> 0 <= s < n.

Lemma redirected_runs shard leader :
  shard_in_range shard ->
  runs good (redirected_leader_target S shard leader)
    (fun hinted l => l = [] /\ forall x, hinted = Some x -> Trusted x).
Proof.
  intros Hs. destruct shard as [s|]; cbn [redirected_leader_target]; apply runs_atomically.
  - intros k t (Hi & Hn & Ht).
    pose proof (dir_accept_law t (clock S k) s leader Hi ltac:(rewrite Hn; by apply Hs)) as H.
    destruct (dir_accept_leader_hint _ _ _ _) as [r t']. cbn.
    destruct H as (Hi' & [Hm Hc] & _ & Hr).
    split; [split; [done|split; [congruence|by rewrite Hm]]|]. split; [done|]. eauto.
  - intros k t (Hi & Hn & Ht). cbn. split; [by split|]. split; [done|].
    intros x Hx. by eapply Ht, dir_validate_member.
Qed.

Lemma any_untried_runs attempted :
  runs good (atomically (fun _ t => dir_any_node_excluding attempted t))
    (fun next l => l = ([] : list Attempt) /\ forall x, next = Some x -> Trusted x /\ x ∉ attempted).
Proof.
  apply runs_atomically. intros k t (Hi & Hn & Ht).
  pose proof (dir_any_law t attempted Hi) as H.
  destruct (dir_any_node_excluding attempted t) as [r t']. cbn.
  destruct H as (Hi' & [Hm Hc] & Hr).
  split; [split; [done|split; [congruence|by rewrite Hm]]|]. split; [done|].
  intros x Hx. destruct (Hr x Hx). auto.
Qed.

Lemma forward_hops_runs request k attempted target :
  shard_in_range (fr_shard request) -> Trusted target -> target ∉ attempted ->
  runs good (forward_hops S k attempted target request)
    (trace (internal S) Trusted request k attempted target).
Proof.
  intros Hs. revert attempted target. induction k as [|k IH]; intros attempted target Ht Hf.
  { apply runs_return. constructor. }
  cbn [forward_hops]. set (att' := {[target]} ∪ attempted).
  eapply runs_then with (Q := fun _ l => l = []).
  { apply runs_atomically. intros j t (Hi & Hn & Htr).
    destruct (dir_record_law t target Hi) as (Hi' & [Hm Hc] & _). cbn.
    split; [|done]. split; [done|]. split; [congruence|by rewrite Hm]. }
  intros _ ? ->. cbn [app].
  eapply runs_then; [by apply forward_once_runs|]. intros out l (a & -> & <- & <- & Ha).
  (* once an untried member is sought, or another hop is made *)
  assert (Hnext : forall next, Trusted next -> next ∉ att' ->
    outcome_retryable (fr_method request) (at_outcome a) = true ->
    runs good (forward_hops S k att' next request)
      (fun b l' => trace (internal S) Trusted request (Datatypes.S k) attempted (at_target a) b ([a] ++ l'))).
  { intros next Hn1 Hn2 Hr. eapply runs_weaken; [by apply IH|]. intros resp l Hl.
    by eapply trace_next. }
  assert (Hstop : forall resp, resp = final_answer (fr_method request) (at_outcome a) ->
    runs good (mreturn resp)
      (fun b l' => trace (internal S) Trusted request (Datatypes.S k) attempted (at_target a) b ([a] ++ l'))).
  { intros resp ->. apply runs_return. by constructor. }
  assert (Htry : final_answer (fr_method request) (at_outcome a) = no_leader_response ->
    outcome_retryable (fr_method request) (at_outcome a) = true ->
    runs good (next <- atomically (fun _ t => dir_any_node_excluding att' t) ;;
       match next with
       | Some next => forward_hops S k att' next request
       | None => mreturn no_leader_response
       end)%conc
      (fun b l' => trace (internal S) Trusted request (Datatypes.S k) attempted (at_target a) b ([a] ++ l'))).
  { intros Hfa Hr. eapply runs_then; [apply any_untried_runs|].
    intros [next|] ? [-> Hx]; cbn [app]; [|by apply Hstop].
    destruct (Hx next eq_refl). by apply Hnext. }
  destruct (at_outcome a) as [r|[leader|]| | |] eqn:Ho; rewrite ?Ho in *.
  - by apply Hstop.
  - eapply runs_then; [by apply redirected_runs|].
    intros [next|] ? [-> Hx]; cbn [app]; [|by apply Htry].
    case_bool_decide; [by apply Htry|]. apply Hnext; [by apply Hx|done|done].
  - by apply Htry.
  - by apply Htry.
  - cbn in *. destruct (method_is_replay_safe (fr_method request)); [by apply Htry|by apply Hstop].
  - by apply Hstop.
Qed.

(** The attempts and the answer of a run among other tasks. *)
Lemma forward_trace request env w :
  rely good env -> good (w_state w) -> shard_in_range (fr_shard request) -> Trusted (fr_target request) ->
  exists l, w_log (snd (run env (forward_with_redirect S request) w)) = w_log w ++ l /\
    good (w_state (snd (run env (forward_with_redirect S request) w))) /\
    trace (internal S) Trusted request MAX_HOPS ∅ (fr_target request)
      (fst (run env (forward_with_redirect S request) w)) l.
Proof.
  intros Hr Hw Hs Ht. apply (run_guaranteed good good); [done| |done].
  by apply forward_hops_runs; [..|apply not_elem_of_empty].
Qed.

Lemma forward_once_within node_url i m u h b : within (forward_once (T := T) S node_url i m u h b) 1.
Proof.
  unfold forward_once, forward_once_with_stream_budget.
  destruct (upstream_url _ _); [|done]. destruct (method_from_bytes _); [|done].
  unfold send. by destruct (build_request _ _ _ _ _ _ _).
Qed.

(** A hop: the counter, the attempt, a hint, a pick. *)
Lemma forward_hops_within hops attempted target request :
  within (forward_hops (T := T) S hops attempted target request) (4 * hops).
Proof.
  revert attempted target. induction hops as [|hops IH]; intros attempted target; [done|].
  cbn [forward_hops].
  set (try_untried := mthen (atomically (fun _ t => dir_any_node_excluding _ t)) _).
  assert (Htry : within try_untried (1 + 4 * hops)).
  { apply within_then; [apply within_step|]. intros [next|]; [apply IH|done]. }
  apply (within_bind _ _ 1 (3 + 4 * hops)); [done|lia|]. intros _.
  apply (within_bind _ _ 1 (2 + 4 * hops)); [apply forward_once_within|lia|].
  
  assert (Htry' : within try_untried (2 + 4 * hops)) by (eapply within_mono; [exact Htry|lia]).
  intros [resp|[leader|]| | |]; try done; [|by destruct (method_is_replay_safe _)].
  apply (within_bind _ _ 1 (1 + 4 * hops)); [by destruct (fr_shard request)|lia|].
  intros [next|]; [|done]. case_bool_decide; [done|]. eapply within_mono; [apply IH|lia].
Qed.

Lemma forward_within request : within (forward_with_redirect (T := T) S request) 16.
Proof. apply (forward_hops_within MAX_HOPS). Qed.

End LoopLemmas.

(** ** Lemmas: failover reaches a healthy node *)

(** The members still to try. *)
Definition untried (members : list string) (att : gset string) : nat := length (filter (fun x => x ∉ att) members).

Lemma untried_pos members target att : target ∈ members -> target ∉ att -> (0 < untried members att)%nat.
Proof.
  intros Ht Ha. unfold untried.
  destruct (filter (fun x => x ∉ att) members) eqn:E; simpl; [|lia].
  assert (H : target ∈ filter (fun x => x ∉ att) members) by by apply list_elem_of_filter.
  rewrite E in H. by apply not_elem_of_nil in H.
Qed.

Lemma untried_decr members target att :
  target ∈ members -> target ∉ att -> (untried members ({[target]} ∪ att) < untried members att)%nat.
Proof.
  unfold untried. intros Ht Ha.
  assert (Hle : forall l, (length (filter (fun x => x ∉ {[target]} ∪ att) l)
                           <= length (filter (fun x => x ∉ att) l))%nat).
  { induction l as [|y l IHl]; [done|]. rewrite !filter_cons.
    repeat case_decide; simpl; try lia. set_solver. }
  induction members as [|y l IHl]; [by apply not_elem_of_nil in Ht|].
  rewrite !filter_cons. specialize (Hle l). apply elem_of_cons in Ht as [<-|Ht].
  - rewrite (decide_False (P := target ∉ {[target]} ∪ att)) by set_solver.
    rewrite decide_True by done. simpl. lia.
  - specialize (IHl Ht). repeat case_decide; simpl; try lia. set_solver.
Qed.

Section Failover.
Context `{HT : Http} `{SJ : SerdeJson} `{FI : FiduciaInterfaces} `{UC : UrlCrate} `{RQ : Reqwest}.
Context {T : Type} `{LD : LeaderDirectory T} {Inv : T -> Prop} `{LL : !LeaderDirectoryLaws T Inv}.
Context (S : Surroundings) (n : Z) (members : list string) (request : ForwardRequest).

(** The outcome of an attempt on a node whose question to the network is the [k]th
    step. *)
Definition outcome_at (target : string) (k : nat) : Upstream :=
  match upstream_url target (fr_uri request), method_from_bytes (method_as_str (fr_method request)) with
  | Some url, Some m' =>
      let streaming := is_streaming_request (fr_method request) (fr_uri request) (fr_headers request) in
      snd (receive streaming STREAM_NON_BODY_TIMEOUT
             match build_request (internal S) streaming m' url (fr_identity request)
                     (fr_headers request) (fr_body request) with
             | Some rq => net S k rq
             | None => mkReply 0 (SendError builder_error_is_connect)
             end)
  | _, _ => NotSent
  end.

(** A response that one of the members gave. *)
Definition from_a_node (resp : Response) : Prop :=
  exists k x, x ∈ members /\ outcome_at x k = Served resp.

Context (healthy : string).

(** The directory may change, but within the given members, and it always holds the
    healthy one. *)
Definition holds_healthy (t : T) : Prop :=
  Inv t /\ dir_shard_count t = n /\ (forall x, x ∈ dir_members t -> x ∈ members)
  /\ healthy ∈ dir_members t.

(** The round-robin cursor does not wrap within a round. *)
Definition cursor_clear (t : T) : Prop := Z.of_nat (length (dir_members t)) <= dir_room t.

#[export] Instance cursor_clear_decision t : Decision (cursor_clear t).
Proof. apply Z_le_dec. Defined.

Definition roomy (t : T) : Prop := holds_healthy t /\ cursor_clear t.

Context (Hhealthy : forall k, exists r, outcome_at healthy k = Served r).
Context (Hothers : forall k x, x ∈ members ->
  (exists r, outcome_at x k = Served r)
  \/ outcome_retryable (fr_method request) (outcome_at x k) = true).

Lemma roomy_holds t : roomy t -> holds_healthy t.
Proof. by intros []. Qed.

Lemma holds_same t t' : holds_healthy t -> Inv t' -> same_members t t' -> holds_healthy t'.
Proof. intros (_ & Hn & Hm & Hh) Hi [Hm' Hn']. split_and!; [done|congruence|by rewrite Hm'..]. Qed.

Lemma attempt_outcome target :
  guaranteed roomy holds_healthy
    (forward_once S target (fr_identity request) (fr_method request) (fr_uri request)
       (fr_headers request) (fr_body request))
    (fun out _ => exists k, out = outcome_at target k).
Proof.
  unfold forward_once, forward_once_with_stream_budget, outcome_at, send.
  destruct (upstream_url _ _) as [url|]; [|by exists O].
  destruct (method_from_bytes _) as [m|]; [|by exists O].
  destruct (build_request _ _ _ _ _ _ _) as [rq|]; [|by exists O].
  intros k t Ht. split; [by apply roomy_holds|]. by exists k.
Qed.

Lemma untried_found att :
  healthy ∉ att ->
  guaranteed roomy holds_healthy
    (atomically (Ev := Attempt) (fun _ t => dir_any_node_excluding att t))
    (fun next _ => exists x, next = Some x /\ x ∈ members /\ x ∉ att).
Proof.
  intros Hatt. apply runs_atomically. intros _ t [Ht Hr]. pose proof Ht as (Hi & _ & Hm & Hh).
  pose proof (dir_any_law t att Hi) as H1. pose proof (dir_any_complete t att Hi Hr) as H2.
  destruct (dir_any_node_excluding att t) as [[x|] t']; cbn.
  - destruct H1 as (Hi' & Hs & Hx). split; [by eapply holds_same|]. exists x.
    destruct (Hx x eq_refl). auto.
  - destruct H2 as [_ H2]. by destruct Hatt; apply H2.
Qed.

(** What a redirect leaves behind. *)
Lemma redirected_holds leader :
  (forall s, fr_shard request = Some s -> 0 <= s < n) ->
  guaranteed roomy holds_healthy (redirected_leader_target S (fr_shard request) leader)
    (fun hinted _ => forall x, hinted = Some x -> x ∈ members).
Proof.
  intros Hs. unfold redirected_leader_target.
  destruct (fr_shard request) as [s|]; apply runs_atomically; intros k t [Ht _];
    pose proof Ht as (Hi & Hn & Hm & Hh).
  - pose proof (dir_accept_law t (clock S k) s leader Hi ltac:(rewrite Hn; by apply Hs)) as H.
    destruct (dir_accept_leader_hint _ _ _ _) as [r t']. cbn. destruct H as (Hi' & Hsm & _ & Hx).
    split; [by eapply holds_same|]. intros x ->. by apply Hm, Hx.
  - cbn. split; [done|]. intros x Hx. by eapply Hm, dir_validate_member.
Qed.

Lemma failover k : forall att target,
  (forall s, fr_shard request = Some s -> 0 <= s < n) ->
  target ∈ members -> target ∉ att -> healthy ∉ att -> (untried members att <= k)%nat ->
  guaranteed roomy holds_healthy (forward_hops S k att target request) (fun resp _ => from_a_node resp).
Proof.
  induction k as [|k IH]; intros att target Hs Ht Hta Hha Hsz.
  { pose proof (untried_pos members target att Ht Hta). lia. }
  pose proof (untried_decr members target att Ht Hta) as Hdec.
  cbn [forward_hops]. set (att' := {[target]} ∪ att).
  eapply runs_then with (Q := fun _ _ => True).
  { apply runs_atomically. intros j t [Hi _]. split; [|done].
    destruct (dir_record_law t target (proj1 Hi)) as (Hi' & Hsm & _). by eapply holds_same. }
  intros _ _ _. eapply runs_then; [apply attempt_outcome|]. intros out _ [j Hout]. cbn beta.
  destruct (Hothers j target Ht) as [[r Hx]|Hx]; rewrite <-Hout in Hx.
  { subst out. rewrite Hx. apply runs_return. by exists j, target. }
  assert (Hne : healthy ∉ att').
  { destruct (Hhealthy j) as [r Hh']. intros [Heq|]%elem_of_union; [|done].
    apply elem_of_singleton in Heq. rewrite Heq, <-Hout in Hh'. by rewrite Hh' in Hx. }
  assert (Hmore : forall next, next ∈ members -> next ∉ att' ->
    guaranteed roomy holds_healthy (forward_hops S k att' next request) (fun resp _ => from_a_node resp))
    by (intros; apply IH; try done; unfold att'; lia).
  assert (Htry : guaranteed roomy holds_healthy
    (next <- atomically (fun _ t => dir_any_node_excluding att' t) ;;
     match next with
     | Some next => forward_hops S k att' next request
     | None => mreturn no_leader_response
     end)%conc (fun resp _ => from_a_node resp)).
  { eapply runs_then; [by apply untried_found|]. intros next _ (x & -> & Hx1 & Hx2). by apply Hmore. }
  destruct out as [r|[leader|]| | |]; try done; cbn in Hx.
  - eapply runs_then; [by apply redirected_holds|]. intros [next|] _ Hnext; cbn beta; [|done].
    case_bool_decide; [done|]. apply Hmore; [by apply Hnext|done].
  - by rewrite Hx.
Qed.

End Failover.

(** ** Properties *)

Section Properties.
Context `{HT : Http} `{HL : !HttpLaws} `{SJ : SerdeJson} `{FI : FiduciaInterfaces}.
Context `{UC : UrlCrate} `{RQ : Reqwest}.
Context {T : Type} `{LD : LeaderDirectory T} {Inv : T -> Prop} `{LL : !LeaderDirectoryLaws T Inv}.

(** C6. Whatever the other tasks and the nodes do, forwarding makes between one and
    four attempts, the first on the given target, no two on the same node, and all
    on trusted members only (a node's leader hint cannot send the request, with the
    secret and the identity it carries, anywhere else). *)
Theorem forward_attempts_safe (S : Surroundings) (Trusted : string -> Prop) (n : Z)
    (request : ForwardRequest) (env : nat -> T -> T) (w : World T Attempt) :
  rely (good (Inv := Inv) Trusted n) env -> good (Inv := Inv) Trusted n (w_state w) ->
  shard_in_range n (fr_shard request) -> Trusted (fr_target request) ->
  exists l, w_log (snd (run env (forward_with_redirect S request) w)) = w_log w ++ l /\
    (1 <= length l <= MAX_HOPS)%nat /\
    option_map at_target (head l) = Some (fr_target request) /\
    NoDup (map at_target l) /\ Forall (fun a => Trusted (at_target a)) l.
Proof.
  intros Hr Hw Hs Ht.
  destruct (forward_trace S Trusted n request env w Hr Hw Hs Ht) as (l & Hl & _ & Htr).
  exists l. split; [done|]. pose proof (trace_length _ _ _ _ _ _ _ _ Htr).
  destruct (trace_fresh _ _ _ _ _ _ _ _ Htr (not_elem_of_empty _)) as [Hnd _].
  destruct (trace_nonempty _ _ _ _ _ _ _ _ Htr) as (a & l' & -> & Ha).
  split; [simpl in *; lia|]. split; [simpl; by rewrite Ha|]. split; [done|].
  eapply Forall_impl; [by eapply trace_forall|]. intros x Hx. apply Hx.
Qed.

(** C2. A mutation is never replayed after an outcome that may have committed it:
    every attempt but the last ended in [NotLeader] or before the request was sent.
    The client's answer is the one of the last attempt: the node's own response, or
    the error that goes with the outcome. *)
Theorem forward_never_replays (S : Surroundings) (Trusted : string -> Prop) (n : Z)
    (request : ForwardRequest) (env : nat -> T -> T) (w : World T Attempt) :
  rely (good (Inv := Inv) Trusted n) env -> good (Inv := Inv) Trusted n (w_state w) ->
  shard_in_range n (fr_shard request) -> Trusted (fr_target request) ->
  let (resp, w') := run env (forward_with_redirect S request) w in
  exists pre a, w_log w' = w_log w ++ pre ++ [a] /\
    resp = final_answer (fr_method request) (at_outcome a) /\
    Forall (fun b => outcome_retryable (fr_method request) (at_outcome b) = true) pre /\
    (method_is_replay_safe (fr_method request) = false ->
     Forall (fun b => not_applied (at_outcome b) = true) pre).
Proof.
  intros Hr Hw Hs Ht.
  destruct (forward_trace S Trusted n request env w Hr Hw Hs Ht) as (l & Hl & _ & Htr).
  destruct (run env _ w) as [resp w']. cbn [fst snd] in *.
  destruct (trace_answer _ _ _ _ _ _ _ _ Htr) as (pre & a & -> & -> & Hpre).
  exists pre, a. split; [done|]. split; [done|]. split; [done|]. intros Hm.
  eapply Forall_impl; [exact Hpre|]. intros b. unfold outcome_retryable.
  destruct (at_outcome b); cbn; congruence.
Qed.

(** C7. Every request put on the wire goes to the attempt's node, on a URL whose
    path, after parsing, is exactly the authorized one; it has the client's body
    and method; the headers the client may not set (identity, secret, credentials,
    idempotency key, hop-by-hop) have the balancer's own values and nothing else,
    and every other header has the client's values. *)
Theorem forward_wire_requests (S : Surroundings) (Trusted : string -> Prop) (n : Z)
    (request : ForwardRequest) (env : nat -> T -> T) (w : World T Attempt) (a : Attempt) (rq : SentRequest) :
  rely (good (Inv := Inv) Trusted n) env -> good (Inv := Inv) Trusted n (w_state w) ->
  shard_in_range n (fr_shard request) -> Trusted (fr_target request) ->
  a ∈ drop (length (w_log w)) (w_log (snd (run env (forward_with_redirect S request) w))) ->
  at_wire a = Some rq ->
  (exists u, sr_url rq = trim_end_matches "/" (at_target a)
                         +:+ default "/" (uri_path_and_query (fr_uri request))
             /\ url_parse (sr_url rq) = Some u /\ url_path u = uri_path (fr_uri request)) /\
  method_from_bytes (method_as_str (fr_method request)) = Some (sr_method rq) /\
  sr_body rq = fr_body request /\
  forall name, hm_get_all (sr_headers rq) name =
    if skip_request_header name then own_values (internal S) (fr_identity request) name
    else client_values (fr_headers request) name.
Proof.
  intros Hr Hw Hs Ht Hin Hrq.
  destruct (forward_trace S Trusted n request env w Hr Hw Hs Ht) as (l & Hl & _ & Htr). rewrite Hl, drop_app_length in Hin.
  pose proof (trace_forall _ _ _ _ _ _ _ _ Htr) as Hall. rewrite Forall_forall in Hall.
  destruct (ao_wire _ _ _ _ (Hall a Hin) rq Hrq) as (Hurl & m & streaming & Hm & Hb).
  destruct (build_request_Some _ _ _ _ _ _ _ _ Hb) as (_ & _ & Hm' & _ & Hbody & Hh).
  split_and!; [|congruence|done|].
  - unfold upstream_url in Hurl. destruct (negb _); [done|].
    destruct (url_parse _) as [u|] eqn:Hu; [|done].
    destruct (String.eqb_spec (url_path u) (uri_path (fr_uri request))) as [Hp|]; [|done].
    cbn [negb] in Hurl. exists u. injection Hurl as Hurl. by rewrite <-Hurl.
  - intros name. rewrite Hh, forwarded_headers_get_all.
    destruct (skip_request_header name) eqn:E; [done|].
    by rewrite own_values_skipped, app_nil_r.
Qed.

(** Failover is complete: with at most four members ever, one of which stays known
    and serves the request while no other answers with more than a redirect or a
    retryable failure, the client gets a node's own response, not the balancer's
    error, whatever the redirects say and however the table changes meanwhile (as
    long as the round-robin cursor does not wrap at one of the request's steps). *)
Theorem forward_finds_healthy_node (S : Surroundings) (n : Z) (members : list string)
    (request : ForwardRequest) (healthy : string) (env : nat -> T -> T) (w : World T Attempt) :
  let known := holds_healthy (Inv := Inv) n members healthy in
  rely known env -> known (w_state w) ->
  Forall cursor_clear (seen env (forward_with_redirect S request) w) ->
  (forall k, exists r, outcome_at S request healthy k = Served r) ->
  (forall k x, x ∈ members -> (exists r, outcome_at S request x k = Served r)
     \/ outcome_retryable (fr_method request) (outcome_at S request x k) = true) ->
  (length members <= MAX_HOPS)%nat -> fr_target request ∈ members ->
  shard_in_range n (fr_shard request) ->
  from_a_node S members request (fst (run env (forward_with_redirect S request) w)).
Proof.
  intros known Henv Hw Hc Hh Ho Hl Ht Hs.
  eapply (run_seen known cursor_clear env); [exact Henv| |exact Hw|exact Hc].
  apply (failover S n members request healthy Hh Ho); try done; [apply not_elem_of_empty..|].
  etrans; [apply length_filter|done].
Qed.

End Properties.

(** C28. What one answer can cost: a buffered response is the whole body the node
    sent and at most 8 MiB, an unbounded body is a confirmed event stream, either
    keeps only the last value of each of the node's headers; and when the client
    asked for a stream, the attempt returns within twice the budget. *)
Theorem receive_bounds `{!Http} `{!HttpLaws} `{!SerdeJson} `{!FiduciaInterfaces}
    (budget : Z) (status : Z) (headers : HeaderMap) (arrival : Arrival) (delay : Z) :
  0 <= budget ->
  (forall streaming t r,
     receive streaming budget (mkReply delay (SendOk status headers arrival)) = (t, Served r) ->
     served_from headers arrival r) /\
  fst (receive true budget (mkReply delay (SendOk status headers arrival))) <= 2 * budget.
Proof.
  intros Hb. split; [|by apply receive_time]. intros streaming t r. apply receive_served.
Qed.

(** ** Witnesses: three nodes — one down, one follower with a foreign hint, one
    leader *)

Definition demo_net (_ : nat) (rq : SentRequest) : Reply :=
  if starts_with "http://a:8090/" (sr_url rq) then mkReply 3 (SendError true)
  else if starts_with "http://b:8090/" (sr_url rq) then
    mkReply 3 (SendOk 503 [("x-fiducia-not-leader", "true"); ("x-fiducia-leader", "http://evil:1")]
                 (mkArrival [] 0 false))
  else mkReply 3 (SendOk 200 [("content-type", "text/plain"); ("connection", "close")]
                    (mkArrival [(1, "do"); (1, "ne")] 1 false)).

Definition demo_surroundings : Surroundings :=
  mkSurroundings (Some "internal") (fun n => Z.of_nat n) demo_net.

Definition demo_request (m : Method) : ForwardRequest :=
  mkForwardRequest (Some edge_identity) "http://a:8090" (Some 1) m
    (mkUri None None "/v1/kv" (Some "key=k") (Some "/v1/kv?key=k"))
    [("x-fiducia-org-id", "victim"); ("x-request-id", "r1"); ("cookie", "c")] "v".

Definition demo_world : World RouteTable Attempt := mkWorld 0 table3 [].

Definition demo_trusted (x : string) : Prop := x ∈ nodes table3.

Lemma demo_good : good (Inv := trusted_table demo_trusted) demo_trusted 4 (w_state demo_world).
Proof. split; [split; [exact table3_ok|by intros]|split; [reflexivity|by intros]]. Qed.

Lemma demo_rely : rely (good (Inv := trusted_table demo_trusted) demo_trusted 4) quiet.
Proof. by intros k t. Qed.

Lemma demo_shard m : shard_in_range 4 (fr_shard (demo_request m)).
Proof. intros s [= <-]. lia. Qed.

Lemma demo_target m : demo_trusted (fr_target (demo_request m)).
Proof. unfold demo_trusted. apply list_elem_of_In. vm_compute. tauto. Qed.

Definition demo_response : Response := mkResponse 200 [("content-type", "text/plain")] (BodyFull "done").

Lemma forward_attempts_safe_witness :
  exists l, w_log (snd (run quiet (forward_with_redirect demo_surroundings (demo_request POST)) demo_world)) = l /\
    (1 <= length l <= 4)%nat /\ Forall (fun a => demo_trusted (at_target a)) l.
Proof.
  destruct (forward_attempts_safe demo_surroundings demo_trusted 4 (demo_request POST) quiet demo_world
    demo_rely demo_good (demo_shard POST) (demo_target POST)) as (l & H1 & H2 & _ & _ & H5).
  exists l. split; [exact H1|]. split; [exact H2|exact H5].
Defined.

Lemma forward_never_replays_witness :
  fst (run quiet (forward_with_redirect demo_surroundings (demo_request POST)) demo_world) = demo_response /\
  exists pre a, w_log (snd (run quiet (forward_with_redirect demo_surroundings (demo_request POST)) demo_world))
    = pre ++ [a] /\ Forall (fun b => not_applied (at_outcome b) = true) pre.
Proof.
  split; [vm_compute; reflexivity|].
  pose proof (forward_never_replays demo_surroundings demo_trusted 4 (demo_request POST) quiet demo_world
    demo_rely demo_good (demo_shard POST) (demo_target POST)) as H.
  destruct (run _ _ _) as [resp w']. destruct H as (pre & a & H1 & _ & _ & H4).
  exists pre, a. split; [exact H1|apply H4; reflexivity].
Defined.

Definition first_attempt : Attempt :=
  default (mkAttempt "" GET None NotSent)
    (head (w_log (snd (run quiet (forward_with_redirect demo_surroundings (demo_request POST)) demo_world)))).

Definition first_wire : SentRequest :=
  default (mkSentRequest false GET "" [] "") (at_wire first_attempt).

Lemma forward_wire_requests_witness :
  sr_url first_wire = "http://a:8090/v1/kv?key=k" /\
  hm_get_all (sr_headers first_wire) "x-fiducia-org-id" = ["org-a"] /\
  hm_get_all (sr_headers first_wire) "x-fiducia-internal-auth" = ["internal"] /\
  hm_get_all (sr_headers first_wire) "cookie" = [] /\
  hm_get_all (sr_headers first_wire) "x-request-id" = ["r1"].
Proof.
  assert (Hin : first_attempt ∈ drop (length (w_log demo_world))
    (w_log (snd (run quiet (forward_with_redirect demo_surroundings (demo_request POST)) demo_world))))
    by (apply list_elem_of_In; vm_compute; tauto).
  pose proof (forward_wire_requests demo_surroundings demo_trusted 4 (demo_request POST) quiet demo_world
    first_attempt first_wire demo_rely demo_good (demo_shard POST) (demo_target POST) Hin
    ltac:(vm_compute; reflexivity)) as (_ & _ & _ & H).
  split; [vm_compute; reflexivity|]. rewrite !H. repeat split; vm_compute; reflexivity.
Defined.

Lemma forward_finds_healthy_node_witness :
  from_a_node demo_surroundings (nodes table3) (demo_request GET)
    (fst (run quiet (forward_with_redirect demo_surroundings (demo_request GET)) demo_world)).
Proof.
  apply (forward_finds_healthy_node (Inv := trusted_table demo_trusted) demo_surroundings 4
           (nodes table3) (demo_request GET) "http://c:8090" quiet demo_world).
  - by intros k t.
  - split_and!; [apply demo_good|reflexivity|done|]. apply list_elem_of_In. vm_compute. tauto.
  - apply (bool_decide_unpack _). vm_compute. exact I.
  - intros k. exists demo_response. vm_compute. reflexivity.
  - intros k x Hx. assert (Hx' : x = "http://a:8090" \/ x = "http://b:8090" \/ x = "http://c:8090").
    { apply list_elem_of_In in Hx. vm_compute in Hx. destruct Hx as [<-|[<-|[<-|[]]]]; tauto. }
    destruct Hx' as [-> | [-> | ->]]; [right|right|left; exists demo_response]; vm_compute; reflexivity.
  - vm_compute. lia.
  - apply list_elem_of_In. vm_compute. tauto.
  - apply demo_shard.
Defined.

Lemma receive_bounds_witness :
  fst (receive true 5000 (mkReply 9000 (SendOk 200 [] (mkArrival [] 0 false)))) <= 10000 /\
  receive false 5000 (mkReply 9 (SendOk 200 [("set-cookie", "a"); ("set-cookie", "b")]
                                  (mkArrival [(1, "x")] 1 false)))
    = (11, Served (mkResponse 200 [("set-cookie", "b")] (BodyFull "x"))).
Proof.
  split; [|vm_compute; reflexivity].
  apply (receive_bounds 5000 200 [] (mkArrival [] 0 false) 9000). lia.
Defined.
