(* ===== verification/Brain.v ===== *)
(** * Refreshing the table from the control plane ([src/table.rs], [refresh_from_brain])

    The two reads of the control plane (membership, then placement) and the snapshot
    they lead to, as a program among the others: hints learned from redirects arrive
    while the reads are in flight.

    The theorems: a refresh applies the snapshot or leaves the table alone, in every
    failure of either read; a redirect learned while a snapshot was in flight wins
    over it; refreshes keep the table good in every interleaving. *)
From S2P Require Import Prelude RustStr Externals Instances Table Conc Directory Forward.
Open Scope string_scope.
Open Scope list_scope.
Open Scope Z_scope.
Open Scope rust_scope.

(** [duration_from_env], in seconds. *)
Definition duration_from_env (env : Environment) (name : string) (default_secs : Z) : Z :=
  duration_from_secs_value (env name) default_secs.

(** The timeout of [brain_client]. *)
Definition brain_client_timeout (env : Environment) : Z :=
  duration_from_env env "FIDUCIA_BRAIN_REFRESH_TIMEOUT_SECS" DEFAULT_BRAIN_REFRESH_TIMEOUT_SECS.

(** The derived deserialisers of [BrainNodes] and [BrainPlacement]; a shard
    identifier is a [u32]. *)
Class BrainSerde := {
  brain_nodes_from_slice : string -> option (list BrainNode);
  brain_placement_from_slice : string -> option (list BrainShard);
}.

Class BrainSerdeLaws `{BrainSerde} : Prop := {
  brain_shard_id_u32 : forall s shards shard, brain_placement_from_slice s = Some shards ->
    shard ∈ shards -> 0 <= bs_shard_id shard <= u32_max;
}.

Section Refresh.
Context `{HT : Http} `{UC : UrlCrate} `{RQ : Reqwest} `{BS : BrainSerde}.

(** [auth(client.get(url))]: the request, or the builder's error. *)
Definition brain_request (secret : option string) (url : string) : option ClientRequest :=
  if negb (request_url_ok url) then None
  else match secret with
  | Some secret =>
      let! value := hv_from_str secret in
      Some (mkClientRequest url [(INTERNAL_AUTH_HEADER, value)] "")
  | None => Some (mkClientRequest url [] "")
  end.

(** [send().and_then(error_for_status)] and [json()]. *)
Definition brain_answer {A} (parse : string -> option A) (reply : ClientReply) : option A :=
  match reply with
  | NoReply => None
  | Replied status body =>
      if in_range 400 599 status then None else let! body := body in parse body
  end.

Context {Ev : Type} (secret : option string) (clock : nat -> Z)
  (brain : nat -> ClientRequest -> ClientReply).
Open Scope conc_scope.

Definition brain_read {A} (parse : string -> option A) (url : string)
  : M RouteTable Ev (option A) :=
  match brain_request secret url with
  | None => mreturn None
  | Some rq => reply <- ask (fun n => brain n rq) ;; mreturn (brain_answer parse reply)
  end.

Definition refresh_from_brain (brain_url : string) : M RouteTable Ev unit :=
  fetched_at <- ask clock ;;
  (let base := trim_end_matches "/" brain_url in
   nodes <- brain_read brain_nodes_from_slice (base +:+ "/v1/nodes") ;;
   match nodes with
   | None => mreturn tt
   | Some nodes =>
       placement <- brain_read brain_placement_from_slice (base +:+ "/v1/placement") ;;
       match placement with
       | None => mreturn tt
       | Some shards =>
           atomically (fun _ t => (tt, snd (apply_brain_snapshot_at nodes shards fetched_at t)))
       end
   end).

End Refresh.

(** ** Lemmas *)

Section Lemmas.
Context `{HT : Http} `{UC : UrlCrate} `{UL : !UrlLaws} `{RQ : Reqwest} `{BS : BrainSerde}
  `{BL : !BrainSerdeLaws}.
Context {Ev : Type} (secret : option string) (clock : nat -> Z)
  (brain : nat -> ClientRequest -> ClientReply).

(** The answer to a read that is the [n]th step. *)
Definition brain_read_at {A} (n : nat) (parse : string -> option A) (url : string) : option A :=
  match brain_request secret url with
  | Some rq => brain_answer parse (brain n rq)
  | None => None
  end.

(** A URL the control plane listed for a healthy node in one of its answers. *)
Definition brain_listed (brain_url u : string) : Prop :=
  exists n ns node id,
    brain_read_at n brain_nodes_from_slice (trim_end_matches "/" brain_url +:+ "/v1/nodes") = Some ns /\
    node ∈ ns /\ healthy_node node id u.

(** The request of a read: a GET of the URL without a body, with the internal secret
    in its header where one is configured. *)
Inductive asks (url : string) : ClientRequest -> Prop :=
| asks_plain : request_url_ok url = true -> secret = None -> asks url (mkClientRequest url [] "")
| asks_secret s v :
    request_url_ok url = true -> secret = Some s -> hv_from_str s = Some v ->
    asks url (mkClientRequest url [(INTERNAL_AUTH_HEADER, v)] "").

(** A read at step [n] succeeds: the request can be built, and the control plane
    answers it with a status that is no error and a whole body that parses. *)
Definition reads {A} (n : nat) (parse : string -> option A) (url : string) (x : A) : Prop :=
  exists rq status body, asks url rq /\ brain n rq = Replied status (Some body) /\
    ~ 400 <= status <= 599 /\ parse body = Some x.

Lemma brain_read_at_Some {A} n (parse : string -> option A) url x :
  brain_read_at n parse url = Some x <-> reads n parse url x.
Proof.
  assert (Hrq : forall rq, brain_request secret url = Some rq <-> asks url rq).
  { intros rq. unfold brain_request. destruct (request_url_ok url) eqn:Eu; cbn [negb].
    2:{ split; [done|]. inversion 1; congruence. }
    destruct secret as [s|] eqn:Es; [destruct (hv_from_str s) as [v|] eqn:Eh|]; cbn; split.
    - intros [= <-]. by eapply asks_secret.
    - inversion 1; congruence.
    - done.
    - inversion 1; congruence.
    - intros [= <-]. by apply asks_plain.
    - inversion 1; congruence. }
  unfold brain_read_at, reads, brain_answer. split.
  - destruct (brain_request secret url) as [rq|] eqn:E; [|done].
    destruct (brain n rq) as [|status [body|]] eqn:Eb; [done| |by destruct (in_range _ _ _)].
    destruct (in_range 400 599 status) eqn:Er; [done|]. intros Hp. exists rq, status, body.
    split; [by apply Hrq|]. split; [done|]. split; [|done]. unfold in_range in Er. breflect. lia.
  - intros (rq & status & body & Ha & Hb & Hs & Hp). apply Hrq in Ha. rewrite Ha, Hb.
    destruct (in_range 400 599 status) eqn:Er; [|done]. unfold in_range in Er. breflect. lia.
Qed.

Lemma brain_read_runs {A} (I : RouteTable -> Prop) (parse : string -> option A) url :
  runs I (brain_read (Ev := Ev) secret brain parse url) (fun r l => l = [] /\
    forall x, r = Some x -> exists n, brain_read_at n parse url = Some x).
Proof.
  unfold brain_read, brain_read_at. destruct (brain_request secret url) as [rq|]; [|by apply runs_return].
  eapply runs_then with (Q := fun reply l => l = [] /\ exists n, reply = brain n rq);
    [apply runs_ask; [done|by eauto]|].
  intros reply l [-> [n ->]]. apply runs_return. split; [done|]. eauto.
Qed.

Lemma refresh_runs (Trusted : string -> Prop) n brain_url :
  (forall u, brain_listed brain_url u -> Trusted u) ->
  runs (good (Inv := trusted_table Trusted) Trusted n)
    (refresh_from_brain (Ev := Ev) secret clock brain brain_url) (fun _ l => l = []).
Proof.
  intros Htr. unfold refresh_from_brain.
  eapply runs_then with (Q := fun _ l => l = []); [by apply runs_ask|]. intros fetched_at l ->.
  eapply runs_then; [apply brain_read_runs|]. intros [ns|] l [-> Hns]; [|by apply runs_return].
  eapply runs_then; [apply brain_read_runs|]. intros [ps|] l [-> Hps]; [|by apply runs_return].
  apply runs_atomically. intros k t (Ht & Hn & _). split; [|done]. cbn in Hn |- *.
  change (snd (apply_brain_snapshot_at ns ps fetched_at t)) with (run_op (OpRefresh fetched_at ns ps) t).
  assert (H : trusted_table Trusted (run_op (OpRefresh fetched_at ns ps) t)).
  { apply run_op_trusted; [done| |].
    - destruct (Hps ps eq_refl) as (k' & Ha). apply Forall_forall. intros sh Hsh.
      unfold brain_read_at, brain_answer in Ha. destruct (brain_request _ _); [|done].
      destruct (brain k' _) as [|status [body|]]; [done| |];
        destruct (in_range 400 599 status); try done. by eapply brain_shard_id_u32 in Ha as [? _].
    - intros u (node & id & Hn1 & Hn2). destruct (Hns ns eq_refl) as (k' & Ha). apply Htr.
      by exists k', ns, node, id. }
  split; [done|]. split; [by rewrite run_op_shard_count|apply H].
Qed.

Lemma refresh_within brain_url : within (refresh_from_brain (Ev := Ev) secret clock brain brain_url) 4.
Proof.
  assert (H : forall A (parse : string -> option A) url, within (brain_read (Ev := Ev) secret brain parse url) 1).
  { intros A parse url. unfold brain_read. by destruct (brain_request secret url). }
  unfold refresh_from_brain. apply (within_then _ _ 1 3); [done|]. intros fetched_at.
  apply (within_then _ _ 1 2); [apply H|]. intros [ns|]; [|done].
  apply (within_then _ _ 1 1); [apply H|]. by intros [ps|].
Qed.

(** What the other tasks make of the table in [k] steps from the [n]th. *)
Fixpoint others (env : nat -> RouteTable -> RouteTable) (n k : nat) (t : RouteTable) : RouteTable :=
  match k with O => t | S k => others env (S n) k (env n t) end.

Lemma run_read {A B} (parse : string -> option A) url (k : option A -> M RouteTable Ev B) env w :
  run env (r <- brain_read (Ev := Ev) secret brain parse url ;; k r)%conc w =
  match brain_request secret url with
  | None => run env (k None) w
  | Some rq => run env (k (brain_answer parse (brain (w_step w) rq)))
                 (mkWorld (S (w_step w)) (env (w_step w) (w_state w)) (w_log w))
  end.
Proof. unfold brain_read. by destruct (brain_request secret url). Qed.

Lemma run_refresh env brain_url (w : World RouteTable Ev) :
  let n := w_step w in
  let base := trim_end_matches "/" brain_url in
  let w' := snd (run env (refresh_from_brain secret clock brain brain_url) w) in
  match brain_read_at (S n) brain_nodes_from_slice (base +:+ "/v1/nodes"),
        brain_read_at (S (S n)) brain_placement_from_slice (base +:+ "/v1/placement") with
  | Some ns, Some ps =>
      w_state w' = snd (apply_brain_snapshot_at ns ps (clock n) (others env n 4 (w_state w)))
  | _, _ => exists k, (k <= 3)%nat /\ w_state w' = others env n k (w_state w)
  end.
Proof.
  intros n base w'. unfold w', refresh_from_brain. rewrite run_then. cbn [run ask fst snd]. fold base.
  rewrite run_read. unfold brain_read_at. cbn [w_step w_state w_log].
  destruct (brain_request secret (base +:+ "/v1/nodes")) as [rq|]; [|exists 1%nat; by split; [lia|]].
  fold n. destruct (brain_answer brain_nodes_from_slice (brain (S n) rq)) as [ns|];
    [|exists 2%nat; by split; [lia|]].
  rewrite run_read. cbn [w_step w_state w_log].
  destruct (brain_request secret (base +:+ "/v1/placement")) as [rq'|]; [|exists 2%nat; by split; [lia|]].
  destruct (brain_answer brain_placement_from_slice (brain (S (S n)) rq')) as [ps|];
    [done|exists 3%nat; by split; [lia|]].
Qed.

End Lemmas.

(** ** Properties *)

Section Properties.
Context `{HT : Http} `{UC : UrlCrate} `{UL : !UrlLaws} `{RQ : Reqwest} `{BS : BrainSerde}.
Context {Ev : Type} (secret : option string) (clock : nat -> Z)
  (brain : nat -> ClientRequest -> ClientReply).

(** C18. A refresh is all or nothing: if both reads succeed, each a GET with the
    internal secret answered with a status that is no error and a body that arrives
    whole and parses, the snapshot, stamped with the time before the first read, is
    applied to the table as the other tasks left it; if either read does not (no
    answer, an error status, a body that does not arrive or parse, a request that
    cannot be built), the refresh changes nothing. *)
Theorem refresh_all_or_nothing (env : nat -> RouteTable -> RouteTable) (brain_url : string)
    (w : World RouteTable Ev) :
  let n := w_step w in
  let base := trim_end_matches "/" brain_url in
  let w' := snd (run env (refresh_from_brain secret clock brain brain_url) w) in
  let listing := reads secret brain (S n) brain_nodes_from_slice (base +:+ "/v1/nodes") in
  let placement := reads secret brain (S (S n)) brain_placement_from_slice (base +:+ "/v1/placement") in
  (exists ns ps, listing ns /\ placement ps /\
     w_state w' = snd (apply_brain_snapshot_at ns ps (clock n) (others env n 4 (w_state w)))) \/
  (((forall ns, ~ listing ns) \/ (forall ps, ~ placement ps)) /\
   exists k, (k <= 3)%nat /\ w_state w' = others env n k (w_state w)).
Proof.
  intros n base w' listing placement. pose proof (run_refresh secret clock brain env brain_url w) as H.
  cbn zeta in H. fold n base w' in H. unfold listing, placement.
  setoid_rewrite <-brain_read_at_Some.
  destruct (brain_read_at _ _ (S n) _ _) as [ns|]; [|right; split; [by left|exact H]].
  destruct (brain_read_at _ _ (S (S n)) _ _) as [ps|]; [left; by exists ns, ps|].
  right. split; [by right|exact H].
Qed.

(** C19. A redirect wins over the snapshot that was in flight: whatever leader another
    task learned for a shard after the refresh began keeps the shard, as long as it
    is still a member; the control plane's older opinion does not undo it. *)
Theorem inflight_hint_wins (env : nat -> RouteTable -> RouteTable) (brain_url : string)
    (w : World RouteTable Ev) (s h : Z) (u : string) :
  let n := w_step w in
  let base := trim_end_matches "/" brain_url in
  let t := others env n 4 (w_state w) in
  let t' := w_state (snd (run env (refresh_from_brain secret clock brain brain_url) w)) in
  brain_read_at secret brain (S n) brain_nodes_from_slice (base +:+ "/v1/nodes") <> None ->
  brain_read_at secret brain (S (S n)) brain_placement_from_slice (base +:+ "/v1/placement") <> None ->
  leader_hints t !! s = Some h -> clock n <= h -> leader_for t s = Some u -> u ∈ nodes t' ->
  leader_for t' s = Some u.
Proof.
  intros n base t t'. pose proof (run_refresh secret clock brain env brain_url w) as H.
  fold n base in H. cbn zeta in H. intros H1 H2 Hh Hc Hu Hin. unfold t' in *.
  destruct (brain_read_at _ _ (S n) _ _) as [ns|]; [|done].
  destruct (brain_read_at _ _ (S (S n)) _ _) as [ps|]; [|done].
  rewrite H in *. by eapply snapshot_keeps_hint.
Qed.

End Properties.

(** ** Witnesses: a refresh during which a redirect teaches another task that the
    second member leads shard 2 *)

Definition placed_on_d : list BrainShard :=
  map (fun i => mkBrainShard i ["n3"; "n2"] (Some "n2")) [0; 1; 2; 3].

#[export] Instance demo_brain_serde : BrainSerde := {|
  brain_nodes_from_slice s := if String.eqb s "nodes" then Some snapshot_nodes else None;
  brain_placement_from_slice s := if String.eqb s "placement" then Some placed_on_d else None;
|}.

#[export] Instance demo_brain_laws : BrainSerdeLaws.
Proof.
  split. cbn. intros s shards shard. case_match; [|done]. intros [= <-] Hin.
  assert (Hall : Forall (fun sh => 0 <= bs_shard_id sh <= u32_max) placed_on_d)
    by (unfold placed_on_d, u32_max; repeat constructor; cbn; lia).
  by apply (proj1 (Forall_forall _ _) Hall).
Qed.

Definition demo_brain (_ : nat) (rq : ClientRequest) : ClientReply :=
  if String.eqb (cq_url rq) "http://brain:1/v1/nodes" then Replied 200 (Some "nodes")
  else if String.eqb (cq_url rq) "http://brain:1/v1/placement" then Replied 200 (Some "placement")
  else Replied 404 (Some "").

Definition redirected_meanwhile (k : nat) (t : RouteTable) : RouteTable :=
  if (k =? 1)%nat then run_op (OpAcceptHint 6 2 "http://b:8090") t else t.

Lemma inflight_hint_wins_witness :
  let t' := w_state (snd (run redirected_meanwhile
              (refresh_from_brain (Ev := Empty_set) (Some "s") (fun n => Z.of_nat n + 5) demo_brain "http://brain:1/")
              (mkWorld 0 table3 []))) in
  leader_for t' 2 = Some "http://b:8090" /\ leader_for t' 1 = Some "http://d:8090".
Proof.
  split; [|vm_compute; reflexivity].
  apply (inflight_hint_wins (Ev := Empty_set) (Some "s") (fun n => Z.of_nat n + 5) demo_brain
           redirected_meanwhile "http://brain:1/" (mkWorld 0 table3 []) 2 6 "http://b:8090");
    [vm_compute; discriminate|vm_compute; discriminate|vm_compute; reflexivity|vm_compute; discriminate
    |vm_compute; reflexivity|]. apply list_elem_of_In. vm_compute. tauto.
Defined.
