(* ===== verification/Idempotency.v ===== *)
(** * Customer idempotency: keys, fingerprints, stored responses ([src/proxy.rs])

    The data of the idempotency layer and everything of it that does not talk to a
    node. The theorems: keys of different tenants never meet, a fingerprint pins the
    request, a stored response replays as it was captured (or is refused), and a
    duplicate is answered from the record only when its fingerprint matches. *)
From S2P Require Import Prelude RustStr Externals Instances Identity.
Open Scope string_scope.
Open Scope list_scope.
Open Scope Z_scope.
Open Scope rust_scope.

Definition IDEMPOTENCY_REPLAYED_HEADER : string := "idempotent-replayed".
Definition FIDUCIA_IDEMPOTENCY_HEADER : string := "x-fiducia-idempotency".
Definition CUSTOMER_IDEMPOTENCY_TTL_MS : Z := 24 * 60 * 60 * 1000.
Definition CUSTOMER_INFLIGHT_LEASE_MS : Z := 120 * 1000.
Definition MAX_IDEMPOTENCY_KEY_BYTES : Z := 255.
Definition MAX_REPLAY_BODY_BYTES : Z := 32 * 1024.
Definition MAX_CAPTURE_BYTES : Z := 8 * 1024 * 1024.

(** ** Data *)

Record CustomerIdempotency := mkCustomerIdempotency {
  ci_key_hash : string;
  ci_internal_key : string;
  ci_owner : string;
  ci_fingerprint : string;
  ci_method : string;
  ci_target : string;
  ci_org_hash : string;
}.

Record IdempotencyClaim := mkIdempotencyClaim {
  ic_claimed : bool;
  ic_duplicate : bool;
  ic_fencing_token : option Z;
  ic_record : option Json;
}.

Record StoredIdempotencyResponse := mkStored {
  st_fingerprint : string;
  st_status : Z;
  st_content_type : option string;
  st_body_hex : string;
  st_truncated : bool;
}.

Record CapturedResponse := mkCaptured {
  cr_status : Z;
  cr_headers : HeaderMap;
  cr_body : string;
}.

(** The serialiser [serde] derives for the stored response. *)
Class StoredSerde := {
  stored_to_value : StoredIdempotencyResponse -> option Json;
  stored_from_value : Json -> option StoredIdempotencyResponse;
}.

(** What is stored comes back from any value that carries the same fields. *)
Class StoredSerdeLaws `{StoredSerde} : Prop := {
  stored_round_trip : forall s, in_range 0 u16_max (st_status s) = true ->
    exists v, stored_to_value s = Some v /\ forall v', same_json v v' -> stored_from_value v' = Some s;
}.

(** ** Hexadecimal *)

(** [out.push(from_digit(byte >> 4)); out.push(from_digit(byte & 0x0f))]; the
    digits are below 16, so [unwrap] never sees [None]. *)
Fixpoint to_hex (bytes : string) : string :=
  match bytes with
  | "" => ""
  | String byte rest =>
      String (default "?"%char (from_digit16 (Z.shiftr (ord byte) 4)))
        (String (default "?"%char (from_digit16 (Z.land (ord byte) 15))) (to_hex rest))
  end.

(** The loop over pairs; an odd rest is excluded by the length test. *)
Fixpoint hex_pairs (bytes : string) : option string :=
  match bytes with
  | String a (String b rest) =>
      let! hi := to_digit16 a in
      let! lo := to_digit16 b in
      let! out := hex_pairs rest in
      Some (String (chr (hi * 16 + lo)) out)
  | _ => Some ""
  end.

Definition hex_to_bytes (value : string) : option string :=
  if negb (str_len value mod 2 =? 0) then None else hex_pairs value.

Definition sha256_hex `{Sha2} (value : string) : string := to_hex (sha256_digest value).

(** ** Requests *)

Definition method_supports_customer_idempotency (m : Method) : bool :=
  bool_decide (m = POST) || bool_decide (m = PUT) || bool_decide (m = PATCH)
  || bool_decide (m = DELETE).

Definition is_idempotency_primitive (uri : Uri) : bool :=
  starts_with "/v1/idempotency" (uri_path uri).

Definition nul : string := String (chr 0) "".

Definition is_ascii_control (a : ascii) : bool := (ord a <? 32) || (ord a =? 127).

Section Requests.
Context `{HT : Http} `{SJ : SerdeJson} `{SH : Sha2}.

Definition content_type_of (headers : HeaderMap) : option string :=
  let! value := hm_get headers "content-type" in hv_to_str value.

(** What [request_fingerprint] feeds to the digest. *)
Definition fingerprint_preimage (m : Method) (target : string) (headers : HeaderMap) (body : string)
  : string :=
  method_as_str m +:+ nul +:+ target +:+ nul
  +:+ default "" (content_type_of headers) +:+ nul +:+ body.

Definition request_fingerprint (m : Method) (target : string) (headers : HeaderMap) (body : string)
  : string :=
  to_hex (sha256_digest (fingerprint_preimage m target headers body)).

Definition bad_idempotency_key (reason : string) : Response :=
  json_response 400 (JObj [("error", JStr "bad_idempotency_key"); ("detail", JStr reason)]).

Definition idempotency_key_required (m : Method) (uri : Uri) : Response :=
  json_response 400 (JObj [
    ("error", JStr "idempotency_key_required");
    ("detail", JStr "this API key requires an Idempotency-Key header on mutating requests");
    ("method", JStr (method_as_str m)); ("path", JStr (uri_path uri))]).

Definition idempotency_conflict (detail : string) : Response :=
  json_response 409 (JObj [("error", JStr "idempotency_key_conflict"); ("detail", JStr detail)]).

Definition idempotency_unavailable (detail : string) : Response :=
  json_response 503 (JObj [("error", JStr "idempotency_unavailable"); ("detail", JStr detail)]).

Definition org_scope (identity : option VerifiedIdentity) : string :=
  match identity with Some i => "org:" +:+ org_id i | None => "anonymous" end.

(** [CustomerIdempotency::from_request]. *)
Definition from_request (identity : option VerifiedIdentity) (m : Method) (uri : Uri)
    (headers : HeaderMap) (body : string) : result (option CustomerIdempotency) Response :=
  if negb (method_supports_customer_idempotency m) || is_idempotency_primitive uri then Ok None
  else match hm_get headers "idempotency-key" with
  | None => Ok None
  | Some raw_key =>
      let? raw_key := ok_or (hv_to_str raw_key)
                        (bad_idempotency_key "idempotency key must be visible ASCII") in
      let trimmed := trim raw_key in
      if String.eqb trimmed "" then Err (bad_idempotency_key "idempotency key must not be empty")
      else if MAX_IDEMPOTENCY_KEY_BYTES <? str_len trimmed
      then Err (bad_idempotency_key "idempotency key is too long")
      else if negb (all_bytes (fun a => negb (is_ascii_control a)) trimmed)
      then Err (bad_idempotency_key "idempotency key must not contain control characters")
      else
        let org_hash := sha256_hex (org_scope identity) in
        let key_hash := sha256_hex trimmed in
        let target := default (uri_path uri) (uri_path_and_query uri) in
        Ok (Some (mkCustomerIdempotency
          key_hash
          ("customer/" +:+ org_hash +:+ "/" +:+ key_hash)
          ("customer/" +:+ org_hash)
          (request_fingerprint m target headers body)
          (method_as_str m) target org_hash))
  end.

(** [CustomerIdempotency::metadata], as the JSON object it is serialised to. *)
Definition metadata (c : CustomerIdempotency) : Json :=
  JObj [("scope", JStr "customer"); ("org_hash", JStr (ci_org_hash c));
        ("key_hash", JStr (ci_key_hash c)); ("fingerprint", JStr (ci_fingerprint c));
        ("method", JStr (ci_method c)); ("target", JStr (ci_target c))].

End Requests.

(** ** Responses *)

Definition is_cacheable_idempotent_response (status : Z) : bool :=
  if status_is_server_error status then false
  else negb ((status =? 408) || (status =? 429)).

(** [&body[..n]]. *)
Fixpoint str_take (n : nat) (s : string) : string :=
  match n, s with
  | O, _ => ""
  | _, "" => ""
  | Datatypes.S n, String a s => String a (str_take n s)
  end.

Section Responses.
Context `{HT : Http} `{SJ : SerdeJson} `{AB : AxumBody} `{SS : StoredSerde}.

(** [StoredIdempotencyResponse::from_captured]. *)
Definition from_captured (c : CustomerIdempotency) (captured : CapturedResponse)
  : StoredIdempotencyResponse :=
  let body := if str_len (cr_body captured) <=? MAX_REPLAY_BODY_BYTES then cr_body captured
              else str_take (Z.to_nat MAX_REPLAY_BODY_BYTES) (cr_body captured) in
  mkStored (ci_fingerprint c) (cr_status captured) (content_type_of (cr_headers captured))
    (to_hex body) (MAX_REPLAY_BODY_BYTES <? str_len (cr_body captured)).

Definition replay_unavailable (detail : string) : Response :=
  json_response 409 (JObj [("error", JStr "idempotency_replay_unavailable");
                           ("detail", JStr detail)]).

(** [StoredIdempotencyResponse::into_replay_response]. *)
Definition into_replay_response (s : StoredIdempotencyResponse) : Response :=
  if st_truncated s then replay_unavailable "stored response exceeded the replay body limit"
  else
    let status := default 200 (status_from_u16 (st_status s)) in
    match hex_to_bytes (st_body_hex s) with
    | None => replay_unavailable "stored response body failed to decode"
    | Some body =>
        let headers :=
          match (let! ct := st_content_type s in hv_from_str ct) with
          | Some value => hm_insert [] "content-type" value
          | None => []
          end in
        let headers := hm_insert headers IDEMPOTENCY_REPLAYED_HEADER "true" in
        let headers := hm_insert headers FIDUCIA_IDEMPOTENCY_HEADER "replayed" in
        mkResponse status headers (BodyFull body)
    end.

(** [CapturedResponse::from_response] and [into_response]. *)
Definition capture_response (r : Response) : result CapturedResponse Response :=
  match to_bytes (rs_body r) MAX_CAPTURE_BYTES with
  | Some body => Ok (mkCaptured (rs_status r) (rs_headers r) body)
  | None => Err (json_response 502 (JObj [
      ("error", JStr "upstream_response_too_large");
      ("detail", JStr "upstream response exceeded the proxy capture limit and cannot be made idempotent")]))
  end.

Definition captured_into_response (c : CapturedResponse) : Response :=
  mkResponse (cr_status c) (cr_headers c) (BodyFull (cr_body c)).

Definition in_progress_response : Response :=
  json_response_with 409 [("retry-after", "1")] (JObj [
    ("error", JStr "idempotency_key_in_progress");
    ("detail", JStr "a matching request is still in progress")]).

Definition recorded_fingerprint (record : Json) : option string :=
  let! m := json_get record "metadata" in
  let! _ := json_as_object m in
  let! f := json_get m "fingerprint" in
  json_as_str f.

Definition response_for_duplicate_claim (c : CustomerIdempotency) (claim : IdempotencyClaim)
  : option Response :=
  if ic_claimed claim then None
  else if negb (ic_duplicate claim) then Some (idempotency_unavailable "claim was rejected")
  else match ic_record claim with
  | None => Some (idempotency_unavailable "duplicate claim omitted record")
  | Some record =>
      if negb (bool_decide (recorded_fingerprint record = Some (ci_fingerprint c)))
      then Some (idempotency_conflict "idempotency key was already used with a different request")
      else if bool_decide ((let! s := json_get record "status" in json_as_str s) = Some "completed")
      then
        match json_get record "result" with
        | None => Some (idempotency_unavailable "completed record omitted result")
        | Some result =>
            match stored_from_value result with
            | Some stored =>
                if String.eqb (st_fingerprint stored) (ci_fingerprint c)
                then Some (into_replay_response stored)
                else Some (idempotency_unavailable "stored response was not replayable")
            | None => Some (idempotency_unavailable "stored response was not replayable")
            end
        end
      else Some in_progress_response
  end.

End Responses.

(** ** Lemmas *)

Lemma split_once_app c k v : contains_char c k = false -> split_once c (k +:+ String c v) = Some (k, v).
Proof.
  induction k as [|a k IH]; simpl; intros Hk.
  - by rewrite Ascii.eqb_refl.
  - breflect. destruct (Ascii.eqb_spec a c); [done|]. by rewrite IH.
Qed.

(** A separator that neither left part contains splits both texts alike. *)
Lemma separated_inj c a b x y :
  contains_char c a = false -> contains_char c b = false ->
  a +:+ String c x = b +:+ String c y -> a = b /\ x = y.
Proof.
  intros Ha Hb H. pose proof (split_once_app c a x Ha) as Hx.
  rewrite H, (split_once_app c b y Hb) in Hx. by injection Hx.
Qed.

Lemma hex_pairs_to_hex s : hex_pairs (to_hex s) = Some s.
Proof.
  induction s as [|a s IH]; [done|]. destruct (hex_byte a) as (hi & lo & H1 & H2 & H3).
  cbn [to_hex hex_pairs]. by rewrite H1, H2, IH, H3.
Qed.

Lemma str_len_to_hex s : str_len (to_hex s) = 2 * str_len s.
Proof. induction s as [|a s IH]; [done|]. unfold str_len in *. cbn [to_hex String.length]. lia. Qed.

Lemma hex_to_bytes_to_hex s : hex_to_bytes (to_hex s) = Some s.
Proof.
  unfold hex_to_bytes. rewrite str_len_to_hex, Z.mul_comm, Z_mod_mult. apply hex_pairs_to_hex.
Qed.

Lemma to_hex_inj s t : to_hex s = to_hex t -> s = t.
Proof. intros H. pose proof (hex_pairs_to_hex s) as Hs. rewrite H, hex_pairs_to_hex in Hs. congruence. Qed.

(** The proxy's encoder and the authenticator's agree. *)
Lemma to_hex_eq s : to_hex s = Identity.to_hex s.
Proof. induction s; simpl; congruence. Qed.

Lemma length_sha256_hex `{Sha2} `{!Sha2Laws} s : String.length (sha256_hex s) = 64%nat.
Proof.
  pose proof (str_len_to_hex (sha256_digest s)) as Hl. unfold str_len in Hl.
  rewrite sha256_length in Hl. unfold sha256_hex. lia.
Qed.

Lemma org_scope_inj i j : org_scope i = org_scope j -> option_map org_id i = option_map org_id j.
Proof.
  destruct i as [i|], j as [j|]; cbn; try done. intros H. f_equal.
  by apply (app_inj_l_str "org:").
Qed.

Lemma from_request_Some `{Http} `{SerdeJson} `{Sha2} identity m uri headers body c :
  from_request identity m uri headers body = Ok (Some c) ->
  method_supports_customer_idempotency m = true /\ is_idempotency_primitive uri = false /\
  exists raw key, hm_get headers "idempotency-key" = Some raw /\ hv_to_str raw = Some key /\
    1 <= str_len (trim key) <= 255 /\
    all_bytes (fun a => negb (is_ascii_control a)) (trim key) = true /\
    ci_key_hash c = sha256_hex (trim key) /\ ci_org_hash c = sha256_hex (org_scope identity) /\
    ci_internal_key c = "customer/" +:+ sha256_hex (org_scope identity) +:+ "/" +:+ sha256_hex (trim key) /\
    ci_owner c = "customer/" +:+ sha256_hex (org_scope identity) /\
    ci_target c = default (uri_path uri) (uri_path_and_query uri) /\
    ci_fingerprint c = request_fingerprint m (ci_target c) headers body.
Proof.
  unfold from_request. destruct (method_supports_customer_idempotency m); [|done].
  destruct (is_idempotency_primitive uri); [done|]. cbn [negb orb].
  destruct (hm_get headers "idempotency-key") as [raw|]; [|done].
  destruct (hv_to_str raw) as [key|] eqn:Ek; [|done]. cbn [ok_or result_bind].
  destruct (String.eqb_spec (trim key) "") as [|Hne]; [done|].
  destruct (Z.ltb_spec MAX_IDEMPOTENCY_KEY_BYTES (str_len (trim key))) as [|Hlen]; [done|].
  destruct (all_bytes _ (trim key)) eqn:Hctl; [|done]. cbn [negb]. intros [= <-].
  split; [done|]. split; [done|]. exists raw, key. split_and!; try done.
  destruct (trim key); [done|]. unfold str_len. cbn [String.length]. lia.
Qed.

Lemma content_type_no_nul `{Http} `{!HttpLaws} headers :
  contains_char (chr 0) (default "" (content_type_of headers)) = false.
Proof.
  unfold content_type_of. destruct (hm_get headers "content-type") as [v|]; [|done].
  destruct (hv_to_str v) as [t|] eqn:E; [|done]. apply hv_to_str_Some in E as [-> Hv]. cbn.
  destruct (contains_char (chr 0) v) eqn:Hc; [|done].
  by pose proof (all_bytes_contains _ _ _ Hv Hc).
Qed.

(** The fingerprint's preimage determines the request's parts. *)
Lemma fingerprint_preimage_inj `{Http} `{!HttpLaws} m1 t1 h1 b1 m2 t2 h2 b2 :
  Forall (fun s => contains_char (chr 0) s = false) [method_as_str m1; t1; method_as_str m2; t2] ->
  fingerprint_preimage m1 t1 h1 b1 = fingerprint_preimage m2 t2 h2 b2 ->
  method_as_str m1 = method_as_str m2 /\ t1 = t2
  /\ default "" (content_type_of h1) = default "" (content_type_of h2) /\ b1 = b2.
Proof.
  rewrite !Forall_cons. intros (Hm1 & Ht1 & Hm2 & Ht2 & _) E. unfold fingerprint_preimage in E.
  apply separated_inj in E as [Em E]; [|done..].
  apply separated_inj in E as [Et E]; [|done..].
  apply separated_inj in E as [Ec E]; [done|apply content_type_no_nul..].
Qed.

Lemma str_take_all n s : (String.length s <= n)%nat -> str_take n s = s.
Proof.
  revert s. induction n as [|n IH]; intros [|a s] Hl; cbn in *; try done; [lia|].
  by rewrite IH by lia.
Qed.

Lemma length_str_take n s : (String.length (str_take n s) <= n)%nat.
Proof. revert s. induction n as [|n IH]; intros [|a s]; cbn; try lia. specialize (IH s). lia. Qed.

Section StoredLemmas.
Context `{HT : Http} `{HL : !HttpLaws} `{SJ : SerdeJson} `{AB : AxumBody} `{SS : StoredSerde}.

(** What a replayed response looks like. *)
Definition replays (r : Response) (captured : CapturedResponse) : Prop :=
  rs_status r = cr_status captured /\ rs_body r = BodyFull (cr_body captured) /\
  hm_get (rs_headers r) "content-type" = content_type_of (cr_headers captured) /\
  hm_get (rs_headers r) IDEMPOTENCY_REPLAYED_HEADER = Some "true" /\
  hm_get (rs_headers r) FIDUCIA_IDEMPOTENCY_HEADER = Some "replayed".

Lemma into_replay_from_captured c captured :
  in_range 100 999 (cr_status captured) = true ->
  str_len (cr_body captured) <= MAX_REPLAY_BODY_BYTES ->
  replays (into_replay_response (from_captured c captured)) captured.
Proof.
  intros Hs Hl. unfold into_replay_response, from_captured. cbn.
  destruct (Z.ltb_spec MAX_REPLAY_BODY_BYTES (str_len (cr_body captured))); [lia|].
  destruct (Z.leb_spec (str_len (cr_body captured)) MAX_REPLAY_BODY_BYTES); [|lia].
  rewrite hex_to_bytes_to_hex. unfold status_from_u16. rewrite Hs. cbn.
  split; [done|]. split; [done|]. cbn [rs_headers].
  unfold content_type_of. destruct (hm_get (cr_headers captured) "content-type") as [v|]; [|done].
  destruct (hv_to_str v) as [t|] eqn:E; [|done]. cbn.
  apply hv_to_str_Some in E as [-> Hv]. by rewrite hv_from_str_visible.
Qed.

Lemma into_replay_oversized c captured :
  MAX_REPLAY_BODY_BYTES < str_len (cr_body captured) ->
  into_replay_response (from_captured c captured)
  = replay_unavailable "stored response exceeded the replay body limit".
Proof.
  intros Hl. unfold into_replay_response, from_captured. cbn.
  by destruct (Z.ltb_spec MAX_REPLAY_BODY_BYTES (str_len (cr_body captured))); [|lia].
Qed.

Lemma replay_marked s r :
  into_replay_response s = r -> hm_get (rs_headers r) IDEMPOTENCY_REPLAYED_HEADER = Some "true" ->
  st_truncated s = false /\ exists body, hex_to_bytes (st_body_hex s) = Some body
    /\ rs_body r = BodyFull body /\ rs_status r = default 200 (status_from_u16 (st_status s)).
Proof.
  unfold into_replay_response. intros <-. destruct (st_truncated s); [done|].
  destruct (hex_to_bytes (st_body_hex s)) as [b|]; [|done]. intros _. split; [done|]. by exists b.
Qed.

End StoredLemmas.

(** ** Properties *)

(** C33. Idempotency keys of different tenants never meet: if two requests map to
    the same internal record (or the same owner), they come from the same verified
    organisation and, for the record, carry the same trimmed key — as long as the
    digest does not collide on those very texts. *)
Theorem idempotency_keys_isolated `{!Http} `{!SerdeJson} `{!Sha2} `{!Sha2Laws}
    (id1 id2 : option VerifiedIdentity) (m1 m2 : Method) (uri1 uri2 : Uri) (h1 h2 : HeaderMap)
    (b1 b2 : string) (c1 c2 : CustomerIdempotency) :
  (forall x y, x ∈ [org_scope id1; org_scope id2] -> y ∈ [org_scope id1; org_scope id2] ->
     sha256_digest x = sha256_digest y -> x = y) ->
  from_request id1 m1 uri1 h1 b1 = Ok (Some c1) -> from_request id2 m2 uri2 h2 b2 = Ok (Some c2) ->
  (ci_owner c1 = ci_owner c2 -> option_map org_id id1 = option_map org_id id2) /\
  (ci_internal_key c1 = ci_internal_key c2 ->
     option_map org_id id1 = option_map org_id id2 /\ ci_key_hash c1 = ci_key_hash c2).
Proof.
  intros Hcol (_ & _ & r1 & k1 & _ & _ & _ & _ & Hk1 & _ & Hi1 & Ho1 & _)%from_request_Some
    (_ & _ & r2 & k2 & _ & _ & _ & _ & Hk2 & _ & Hi2 & Ho2 & _)%from_request_Some.
  assert (Horg : sha256_hex (org_scope id1) = sha256_hex (org_scope id2) ->
                 option_map org_id id1 = option_map org_id id2).
  { intros Hx%to_hex_inj. apply org_scope_inj, Hcol; [left|right; left|done]. }
  split.
  - rewrite Ho1, Ho2. intros Hx%app_inj_l_str. auto.
  - rewrite Hi1, Hi2, Hk1, Hk2. intros Hx%app_inj_l_str.
    apply app_inj_length in Hx as [Hx1 Hx2]; [|by rewrite !length_sha256_hex].
    split; [auto|]. by apply (app_inj_l_str "/").
Qed.

(** C34. A fingerprint pins the request: two requests with the same fingerprint
    have the same method, target, content type and body, as long as the digest does
    not collide on their two preimages (in particular, no shifting of bytes between
    target, content type and body keeps the fingerprint). *)
Theorem fingerprint_pins_request `{!Http} `{!HttpLaws} `{!Sha2}
    (m1 m2 : Method) (t1 t2 : string) (h1 h2 : HeaderMap) (b1 b2 : string) :
  Forall (fun s => contains_char (chr 0) s = false) [method_as_str m1; t1; method_as_str m2; t2] ->
  (sha256_digest (fingerprint_preimage m1 t1 h1 b1) = sha256_digest (fingerprint_preimage m2 t2 h2 b2) ->
   fingerprint_preimage m1 t1 h1 b1 = fingerprint_preimage m2 t2 h2 b2) ->
  request_fingerprint m1 t1 h1 b1 = request_fingerprint m2 t2 h2 b2 <->
  method_as_str m1 = method_as_str m2 /\ t1 = t2
  /\ default "" (content_type_of h1) = default "" (content_type_of h2) /\ b1 = b2.
Proof.
  intros Hnul Hcol. unfold request_fingerprint. split.
  - intros Hx%to_hex_inj%Hcol. by apply fingerprint_preimage_inj in Hx.
  - intros (Hx1 & -> & Hx2 & ->). unfold fingerprint_preimage. by rewrite Hx1, Hx2.
Qed.

(** C24. A stored response comes back: once a captured response is stored, a
    duplicate of the same request is answered with the captured status, body and
    content type, marked as a replay; if the body exceeded 32 KiB it is refused
    with 409, never shortened; a request with another fingerprint gets the conflict
    answer; and the stored body never takes more than 64 KiB. *)
Theorem stored_response_replays `{!Http} `{!HttpLaws} `{!SerdeJson} `{!StoredSerde}
    `{!StoredSerdeLaws} (c c' : CustomerIdempotency) (captured : CapturedResponse) (token : option Z) :
  in_range 100 999 (cr_status captured) = true ->
  exists v, stored_to_value (from_captured c captured) = Some v /\
    let record := JObj [("metadata", metadata c); ("status", JStr "completed"); ("result", v)] in
    let claim := mkIdempotencyClaim false true token (Some record) in
    str_len (st_body_hex (from_captured c captured)) <= 2 * MAX_REPLAY_BODY_BYTES /\
    (ci_fingerprint c' = ci_fingerprint c -> exists r,
       response_for_duplicate_claim c' claim = Some r /\
       if str_len (cr_body captured) <=? MAX_REPLAY_BODY_BYTES then replays r captured
       else r = replay_unavailable "stored response exceeded the replay body limit") /\
    (ci_fingerprint c' <> ci_fingerprint c ->
       response_for_duplicate_claim c' claim
       = Some (idempotency_conflict "idempotency key was already used with a different request")).
Proof.
  intros Hs. destruct (stored_round_trip (from_captured c captured)) as (v & Hv & Hback).
  { cbn. unfold in_range, u16_max in *. breflect. apply andb_true_iff. rewrite !Z.leb_le. lia. }
  specialize (Hback v (same_json_refl v)). exists v. split; [done|]. cbn zeta. split_and!.
  - unfold from_captured. cbn. rewrite str_len_to_hex.
    destruct (Z.leb_spec (str_len (cr_body captured)) MAX_REPLAY_BODY_BYTES); [lia|].
    pose proof (length_str_take (Z.to_nat MAX_REPLAY_BODY_BYTES) (cr_body captured)).
    unfold str_len, MAX_REPLAY_BODY_BYTES in *. lia.
  - intros Hf. unfold response_for_duplicate_claim. cbn [ic_claimed ic_duplicate ic_record negb].
    rewrite bool_decide_eq_true_2 by (rewrite Hf; reflexivity). cbn [negb].
    rewrite bool_decide_eq_true_2 by reflexivity.
    change (json_get _ "result") with (Some v). cbv beta iota. rewrite Hback. cbn [st_fingerprint from_captured].
    rewrite Hf, String.eqb_refl. eexists. split; [done|].
    destruct (Z.leb_spec (str_len (cr_body captured)) MAX_REPLAY_BODY_BYTES).
    + by apply into_replay_from_captured.
    + by apply into_replay_oversized.
  - intros Hf. unfold response_for_duplicate_claim. cbn [ic_claimed ic_duplicate ic_record negb].
    rewrite bool_decide_eq_false_2; [done|]. change (Some (ci_fingerprint c) <> Some (ci_fingerprint c')).
    congruence.
Qed.

(** C25. A duplicate is never answered with someone else's response: the answer is
    a replay only of a completed record whose metadata and stored response both
    carry the request's fingerprint and whose body decodes; every other answer is a
    409 or a 503, and the request itself goes on only when the claim was granted. *)
Theorem duplicate_answer_spec `{!Http} `{!SerdeJson} `{!StoredSerde}
    (c : CustomerIdempotency) (claim : IdempotencyClaim) :
  match response_for_duplicate_claim c claim with
  | None => ic_claimed claim = true
  | Some r =>
      ic_claimed claim = false /\
      (hm_get (rs_headers r) IDEMPOTENCY_REPLAYED_HEADER <> Some "true" ->
         rs_status r = 409 \/ rs_status r = 503) /\
      (hm_get (rs_headers r) IDEMPOTENCY_REPLAYED_HEADER = Some "true" ->
         exists record result stored body,
           ic_duplicate claim = true /\ ic_record claim = Some record /\
           recorded_fingerprint record = Some (ci_fingerprint c) /\
           json_get record "status" = Some (JStr "completed") /\
           json_get record "result" = Some result /\ stored_from_value result = Some stored /\
           st_fingerprint stored = ci_fingerprint c /\ st_truncated stored = false /\
           hex_to_bytes (st_body_hex stored) = Some body /\ rs_body r = BodyFull body)
  end.
Proof.
  unfold response_for_duplicate_claim. destruct (ic_claimed claim); [done|].
  destruct (ic_duplicate claim); cbn [negb]; [|by split_and!; auto].
  destruct (ic_record claim) as [record|]; [|by split_and!; auto].
  case_bool_decide as Hf; cbn [negb]; [|by split_and!; auto].
  case_bool_decide as Hst; [|by split_and!; auto].
  destruct (json_get record "result") as [result|] eqn:Hr; [|by split_and!; auto].
  destruct (stored_from_value result) as [stored|] eqn:Hs; [|by split_and!; auto].
  destruct (String.eqb_spec (st_fingerprint stored) (ci_fingerprint c)) as [Hfp|];
    [|by split_and!; auto].
  split; [done|]. split.
  - unfold into_replay_response. destruct (st_truncated stored); [auto|].
    destruct (hex_to_bytes _); [|auto]. intros Hn. destruct Hn. cbn [rs_headers].
    rewrite hm_get_insert_ne by done. apply hm_get_insert_eq.
  - intros Hmark. destruct (replay_marked stored _ eq_refl Hmark) as (Ht & body & Hb & Hbody & _).
    exists record, result, stored, body. split_and!; try done.
    destruct (json_get record "status") as [[]|]; cbn in Hst; congruence.
Qed.

(** ** Witnesses *)

(** The derived serialiser, field by field. *)
#[export] Instance demo_stored_serde : StoredSerde := {|
  stored_to_value s := Some (JObj [
    ("fingerprint", JStr (st_fingerprint s)); ("status", JNum (st_status s));
    ("content_type", json_opt JStr (st_content_type s)); ("body_hex", JStr (st_body_hex s));
    ("truncated", JBool (st_truncated s))]);
  stored_from_value v :=
    match json_get v "fingerprint", json_get v "status", json_get v "body_hex",
          json_get v "truncated" with
    | Some (JStr f), Some (JNum st), Some (JStr b), Some (JBool t) =>
        if in_range 0 u16_max st then
          match json_get v "content_type" with
          | Some (JStr ct) => Some (mkStored f st (Some ct) b t)
          | Some JNull | None => Some (mkStored f st None b t)
          | _ => None
          end
        else None
    | _, _, _, _ => None
    end;
|}.

#[export] Instance demo_stored_serde_laws : StoredSerdeLaws.
Proof.
  split. intros [f st ct b t] Hs. eexists. split; [reflexivity|]. intros v Hv.
  change (in_range 0 u16_max st = true) in Hs. cbn [st_fingerprint st_status st_content_type st_body_hex
    st_truncated] in Hv. cbn [stored_from_value demo_stored_serde].
  rewrite (same_get_str _ _ "fingerprint" f Hv), (same_get_str _ _ "body_hex" b Hv),
    (same_get_bool _ _ "truncated" t Hv) by reflexivity.
  destruct (same_get _ _ "status" (JNum st) Hv) as (x & -> & Hx); [reflexivity..|].
  destruct (same_get _ _ "content_type" (json_opt JStr ct) Hv) as (y & -> & Hy); [reflexivity..|].
  inversion Hx as [| |?|? ? Hwide| | | |]; subst.
  - rewrite Hs. destruct ct; inversion Hy; subst; reflexivity.
  - destruct Hwide. unfold in_range, u16_max, u64_max in *. breflect. lia.
Qed.

Definition kv_uri : Uri := mkUri None None "/v1/kv" (Some "key=k") (Some "/v1/kv?key=k").
Definition key_headers : HeaderMap := [("idempotency-key", " pay-1 "); ("content-type", "text/plain")].

Definition customer (org body : string) : CustomerIdempotency :=
  match from_request (Some (mkIdentity ApiKey org None [] false)) POST kv_uri key_headers body with
  | Ok (Some c) => c
  | _ => mkCustomerIdempotency "" "" "" "" "" "" ""
  end.

Lemma idempotency_keys_isolated_witness :
  ci_internal_key (customer "org-a" "v") <> ci_internal_key (customer "org-b" "v").
Proof.
  intros E.
  destruct (idempotency_keys_isolated (Some (mkIdentity ApiKey "org-a" None [] false))
    (Some (mkIdentity ApiKey "org-b" None [] false)) POST POST kv_uri kv_uri key_headers key_headers
    "v" "v" (customer "org-a" "v") (customer "org-b" "v")) as [_ H].
  - intros x y Hx Hy. apply list_elem_of_In in Hx, Hy. cbn [In] in Hx, Hy.
    destruct Hx as [<-|[<-|[]]], Hy as [<-|[<-|[]]]; intros E'; try reflexivity;
      vm_compute in E'; discriminate E'.
  - vm_compute. reflexivity.
  - vm_compute. reflexivity.
  - destruct (H E) as [H' _]. discriminate H'.
Defined.

Lemma fingerprint_pins_request_witness :
  request_fingerprint POST "/v1/kv?key=k" [] "v" <> request_fingerprint PUT "/v1/kv?key=k" [] "v".
Proof.
  intros E. apply (fingerprint_pins_request POST PUT "/v1/kv?key=k" "/v1/kv?key=k" [] [] "v" "v") in E.
  - destruct E as (E & _). discriminate E.
  - repeat constructor.
  - intros Hc. vm_compute in Hc. discriminate Hc.
Defined.

Definition small_capture : CapturedResponse :=
  mkCaptured 201 [("content-type", "application/json")] "{}".

Lemma stored_response_replays_witness :
  exists v r, stored_to_value (from_captured (customer "org-a" "v") small_capture) = Some v /\
    response_for_duplicate_claim (customer "org-a" "v")
      (mkIdempotencyClaim false true None (Some (JObj [("metadata", metadata (customer "org-a" "v"));
         ("status", JStr "completed"); ("result", v)]))) = Some r /\
    replays r small_capture.
Proof.
  destruct (stored_response_replays (customer "org-a" "v") (customer "org-a" "v") small_capture None
    ltac:(reflexivity)) as (v & Hv & _ & Hr & _).
  destruct (Hr ltac:(reflexivity)) as (r & H1 & H2). exists v, r.
  split; [exact Hv|]. split; [exact H1|exact H2].
Defined.
