(* ===== verification/Proxy.v ===== *)
(** * The request pipeline ([src/proxy.rs]: [route])

    The entry point: dot segments, authorization, the idempotency policy, then the
    forwarding of the request, alone or between the claim and the completion (or
    release) of its idempotency record. The claim, the completion and the release
    are requests of their own, routed like a client's.

    [forwarded] and [idem_run] specify what the two routes may do — which attempts
    they make and what they answer; the definitions are proved to refine them. *)
From S2P Require Import Prelude RustStr Externals Instances Routing Table Identity Scopes.
From S2P Require Import Conc Directory Forward Idempotency.
Open Scope string_scope.
Open Scope list_scope.
Open Scope Z_scope.
Open Scope rust_scope.

Definition json_headers : HeaderMap := [("content-type", "application/json")].

Section Pure.
Context `{SJ : SerdeJson} `{AB : AxumBody} `{SS : StoredSerde}.

Definition no_route_response (shard : option Z) : Response :=
  json_response 503 (JObj [("error", JStr "no_route");
    ("detail", JStr "no known node for this request"); ("shard", json_opt JNum shard)]).

(** [json!] body of the internal claim. *)
Definition claim_body (c : CustomerIdempotency) : Json :=
  JObj [("key", JStr (ci_internal_key c)); ("owner", JStr (ci_owner c));
        ("ttl_ms", JNum CUSTOMER_INFLIGHT_LEASE_MS); ("retention_ms", JNum CUSTOMER_IDEMPOTENCY_TTL_MS);
        ("metadata", metadata c)].

(** The part of [claim_customer_idempotency] after the response arrived. *)
Definition parse_claim (response : Response) : result IdempotencyClaim Response :=
  match capture_response response with
  | Err _ => Err (idempotency_unavailable "claim response was too large")
  | Ok captured =>
      if negb (status_is_success (cr_status captured))
      then Err (idempotency_unavailable "claim request failed")
      else
        let? value := ok_or (json_from_slice (cr_body captured))
                        (idempotency_unavailable "claim response was not valid json") in
        let? output := ok_or (let! r := json_get value "result" in json_get r "output")
                         (idempotency_unavailable "claim response omitted output") in
        let flag k := default false (let! b := json_get output k in json_as_bool b) in
        Ok (mkIdempotencyClaim (flag "claimed") (flag "duplicate")
              (let! t := json_get output "fencing_token" in json_as_u64 t)
              (json_get output "record"))
  end.

Definition complete_body (c : CustomerIdempotency) (fencing_token : Z) (result : Json) : Json :=
  JObj [("key", JStr (ci_internal_key c)); ("owner", JStr (ci_owner c));
        ("fencing_token", JNum fencing_token); ("result", result)].

Definition parse_complete (response : Response) : result unit string :=
  match capture_response response with
  | Err _ => Err "complete response was too large"
  | Ok captured =>
      if negb (status_is_success (cr_status captured)) then Err "complete request failed"
      else
        let? value := ok_or (json_from_slice (cr_body captured)) "invalid json" in
        let completed :=
          default false (let! r := json_get value "result" in
                         let! o := json_get r "output" in
                         let! b := json_get o "completed" in json_as_bool b) in
        if completed then Ok tt else Err "complete was rejected"
  end.

Definition abandon_body (c : CustomerIdempotency) (fencing_token : Z) : Json :=
  JObj [("key", JStr (ci_internal_key c)); ("owner", JStr (ci_owner c));
        ("fencing_token", JNum fencing_token)].

Definition mark_response (state : string) (r : Response) : Response :=
  mkResponse (rs_status r) (hm_insert (rs_headers r) FIDUCIA_IDEMPOTENCY_HEADER state) (rs_body r).

End Pure.

Section Route.
Context `{HT : Http} `{SJ : SerdeJson} `{FI : FiduciaInterfaces} `{UC : UrlCrate} `{RQ : Reqwest}.
Context `{FR : FiduciaRouting} `{SH : Sha2} `{AB : AxumBody} `{SS : StoredSerde}.
Context {T : Type} `{LD : LeaderDirectory T} (S : Surroundings).
Open Scope conc_scope.

Definition route_without_customer_idempotency (identity : option VerifiedIdentity) (m : Method)
    (uri : Uri) (headers : HeaderMap) (body : string) : M T Attempt Response :=
  let org := option_map org_id identity in
  resolved <-
    match routing_key_with_body uri body org with
    | Some key =>
        atomically (fun _ t =>
          let shard := shard_for key (dir_shard_count t) in
          ((Some shard, dir_leader_for t shard), t))
    | None =>
        atomically (fun _ t =>
          let (node, t) := dir_any_node_excluding ∅ t in ((None, node), t))
    end ;;
  match snd resolved with
  | None => mreturn (no_route_response (fst resolved))
  | Some target =>
      forward_with_redirect S (mkForwardRequest identity target (fst resolved) m uri headers body)
  end.

Definition claim_customer_idempotency (identity : option VerifiedIdentity) (c : CustomerIdempotency)
  : M T Attempt (result IdempotencyClaim Response) :=
  response <- route_without_customer_idempotency identity POST (uri_of_path "/v1/idempotency/claim")
                json_headers (json_to_vec (claim_body c)) ;;
  mreturn (parse_claim response).

Definition complete_customer_idempotency (identity : option VerifiedIdentity)
    (c : CustomerIdempotency) (fencing_token : Z) (stored : StoredIdempotencyResponse)
  : M T Attempt (result unit string) :=
  match stored_to_value stored with
  | None => mreturn (Err "could not encode stored response")
  | Some result =>
      response <- route_without_customer_idempotency identity POST
                    (uri_of_path "/v1/idempotency/complete") json_headers
                    (json_to_vec (complete_body c fencing_token result)) ;;
      mreturn (parse_complete response)
  end.

(** Best effort: the answer only decides whether a warning is logged. *)
Definition abandon_customer_idempotency (identity : option VerifiedIdentity)
    (c : CustomerIdempotency) (fencing_token : Z) : M T Attempt unit :=
  route_without_customer_idempotency identity POST (uri_of_path "/v1/idempotency/abandon")
    json_headers (json_to_vec (abandon_body c fencing_token)) ;;;
  mreturn tt.

Definition route_with_customer_idempotency (identity : option VerifiedIdentity) (m : Method)
    (uri : Uri) (headers : HeaderMap) (body : string) (c : CustomerIdempotency)
  : M T Attempt Response :=
  claim <- claim_customer_idempotency identity c ;;
  match claim with
  | Err response => mreturn response
  | Ok claim =>
      match response_for_duplicate_claim c claim with
      | Some response => mreturn response
      | None =>
          match ic_fencing_token claim with
          | None => mreturn (idempotency_unavailable "claim did not return a fencing token")
          | Some fencing_token =>
              response <- route_without_customer_idempotency identity m uri headers body ;;
              match capture_response response with
              | Err response =>
                  abandon_customer_idempotency identity c fencing_token ;;;
                  mreturn response
              | Ok captured =>
                  if negb (is_cacheable_idempotent_response (cr_status captured)) then
                    abandon_customer_idempotency identity c fencing_token ;;;
                    mreturn (mark_response "not_stored" (captured_into_response captured))
                  else
                    completed <- complete_customer_idempotency identity c fencing_token
                                   (from_captured c captured) ;;
                    mreturn (mark_response (if is_ok completed then "stored" else "store_failed")
                               (captured_into_response captured))
              end
          end
      end
  end.

Definition route (identity : option VerifiedIdentity) (m : Method) (uri : Uri)
    (headers : HeaderMap) (body : string) : M T Attempt Response :=
  if path_has_dot_segment (uri_path uri) then mreturn (dot_segment_response uri)
  else match authorize_route identity m uri with
  | Err required => mreturn (insufficient_scope_response m uri required)
  | Ok _ =>
      match from_request identity m uri headers body with
      | Err response => mreturn response
      | Ok customer_idempotency =>
          if is_none customer_idempotency
             && match identity with Some id => require_idempotency id | None => false end
             && method_supports_customer_idempotency m
             && negb (is_idempotency_primitive uri)
          then mreturn (idempotency_key_required m uri)
          else match customer_idempotency with
          | Some c => route_with_customer_idempotency identity m uri headers body c
          | None => route_without_customer_idempotency identity m uri headers body
          end
      end
  end.

End Route.

(** ** Specification *)

Section Spec.
Context `{HT : Http} `{SJ : SerdeJson} `{FI : FiduciaInterfaces} `{UC : UrlCrate} `{RQ : Reqwest}.
Context `{SH : Sha2} `{AB : AxumBody} `{SS : StoredSerde}.
Context (secret : option string) (Trusted : string -> Prop).

(** A request as it is to be forwarded, wherever it is routed. *)
Definition to_forward (identity : option VerifiedIdentity) (m : Method) (uri : Uri)
    (headers : HeaderMap) (body : string) : ForwardRequest :=
  mkForwardRequest identity "" None m uri headers body.

Definition claim_request (identity : option VerifiedIdentity) (c : CustomerIdempotency) :=
  to_forward identity POST (uri_of_path "/v1/idempotency/claim") json_headers
    (json_to_vec (claim_body c)).
Definition complete_request (identity : option VerifiedIdentity) (c : CustomerIdempotency)
    (token : Z) (result : Json) :=
  to_forward identity POST (uri_of_path "/v1/idempotency/complete") json_headers
    (json_to_vec (complete_body c token result)).
Definition abandon_request (identity : option VerifiedIdentity) (c : CustomerIdempotency) (token : Z) :=
  to_forward identity POST (uri_of_path "/v1/idempotency/abandon") json_headers
    (json_to_vec (abandon_body c token)).

(** The attempts one forwarded request may make, and its answer. *)
Inductive forwarded (request : ForwardRequest) : Response -> list Attempt -> Prop :=
| forwarded_nowhere shard : forwarded request (no_route_response shard) []
| forwarded_sent pre a :
    Forall (attempt_ok secret Trusted request) (pre ++ [a]) ->
    Forall (fun b => outcome_retryable (fr_method request) (at_outcome b) = true) pre ->
    (length (pre ++ [a]) <= MAX_HOPS)%nat -> NoDup (map at_target (pre ++ [a])) ->
    forwarded request (final_answer (fr_method request) (at_outcome a)) (pre ++ [a]).

(** The idempotent route: a claim; nothing more unless it is granted with a token;
    then the request, and the completion of the record with the whole final
    response or its release. *)
Inductive idem_run (identity : option VerifiedIdentity) (c : CustomerIdempotency)
    (request : ForwardRequest) : Response -> list Attempt -> Prop :=
| idem_refused resp_c lc e :
    forwarded (claim_request identity c) resp_c lc -> parse_claim resp_c = Err e ->
    idem_run identity c request e lc
| idem_duplicate resp_c lc claim r :
    forwarded (claim_request identity c) resp_c lc -> parse_claim resp_c = Ok claim ->
    response_for_duplicate_claim c claim = Some r ->
    idem_run identity c request r lc
| idem_no_token resp_c lc claim :
    forwarded (claim_request identity c) resp_c lc -> parse_claim resp_c = Ok claim ->
    ic_claimed claim = true -> ic_fencing_token claim = None ->
    idem_run identity c request (idempotency_unavailable "claim did not return a fencing token") lc
| idem_too_large resp_c lc claim token resp lm e resp_a la :
    forwarded (claim_request identity c) resp_c lc -> parse_claim resp_c = Ok claim ->
    ic_claimed claim = true -> ic_fencing_token claim = Some token ->
    forwarded request resp lm -> capture_response resp = Err e ->
    forwarded (abandon_request identity c token) resp_a la ->
    idem_run identity c request e (lc ++ lm ++ la)
| idem_transient resp_c lc claim token resp lm captured resp_a la :
    forwarded (claim_request identity c) resp_c lc -> parse_claim resp_c = Ok claim ->
    ic_claimed claim = true -> ic_fencing_token claim = Some token ->
    forwarded request resp lm -> capture_response resp = Ok captured ->
    is_cacheable_idempotent_response (cr_status captured) = false ->
    forwarded (abandon_request identity c token) resp_a la ->
    idem_run identity c request (mark_response "not_stored" (captured_into_response captured))
      (lc ++ lm ++ la)
| idem_completed resp_c lc claim token resp lm captured result resp_f lf :
    forwarded (claim_request identity c) resp_c lc -> parse_claim resp_c = Ok claim ->
    ic_claimed claim = true -> ic_fencing_token claim = Some token ->
    forwarded request resp lm -> capture_response resp = Ok captured ->
    is_cacheable_idempotent_response (cr_status captured) = true ->
    stored_to_value (from_captured c captured) = Some result ->
    forwarded (complete_request identity c token result) resp_f lf ->
    idem_run identity c request
      (mark_response (if is_ok (parse_complete resp_f) then "stored" else "store_failed")
         (captured_into_response captured)) (lc ++ lm ++ lf)
| idem_unencodable resp_c lc claim token resp lm captured :
    forwarded (claim_request identity c) resp_c lc -> parse_claim resp_c = Ok claim ->
    ic_claimed claim = true -> ic_fencing_token claim = Some token ->
    forwarded request resp lm -> capture_response resp = Ok captured ->
    is_cacheable_idempotent_response (cr_status captured) = true ->
    stored_to_value (from_captured c captured) = None ->
    idem_run identity c request (mark_response "store_failed" (captured_into_response captured))
      (lc ++ lm).

(** The fencing token of a granted claim. *)
Definition granted (resp_c : Response) : option Z :=
  match parse_claim resp_c with
  | Ok claim => if ic_claimed claim then ic_fencing_token claim else None
  | Err _ => None
  end.

(** What is stored for a response: nothing unless it is final and fits; the inner
    [None] is a response that does not serialise. *)
Definition storable (c : CustomerIdempotency) (resp : Response) : option (option Json) :=
  match capture_response resp with
  | Ok captured =>
      if is_cacheable_idempotent_response (cr_status captured)
      then Some (stored_to_value (from_captured c captured)) else None
  | Err _ => None
  end.

(** What [route] may do. *)
Inductive route_run (identity : option VerifiedIdentity) (m : Method) (uri : Uri)
    (headers : HeaderMap) (body : string) : Response -> list Attempt -> Prop :=
| route_dots :
    path_has_dot_segment (uri_path uri) = true ->
    route_run identity m uri headers body (dot_segment_response uri) []
| route_unauthorized required :
    path_has_dot_segment (uri_path uri) = false -> authorize_route identity m uri = Err required ->
    route_run identity m uri headers body (insufficient_scope_response m uri required) []
| route_bad_key r :
    path_has_dot_segment (uri_path uri) = false -> authorize_route identity m uri = Ok tt ->
    from_request identity m uri headers body = Err r ->
    route_run identity m uri headers body r []
| route_key_required id :
    path_has_dot_segment (uri_path uri) = false -> authorize_route identity m uri = Ok tt ->
    from_request identity m uri headers body = Ok None -> identity = Some id ->
    require_idempotency id = true -> method_supports_customer_idempotency m = true ->
    is_idempotency_primitive uri = false ->
    route_run identity m uri headers body (idempotency_key_required m uri) []
| route_plain resp l :
    path_has_dot_segment (uri_path uri) = false -> authorize_route identity m uri = Ok tt ->
    from_request identity m uri headers body = Ok None ->
    ((exists id, identity = Some id /\ require_idempotency id = true) ->
       method_supports_customer_idempotency m = false \/ is_idempotency_primitive uri = true) ->
    forwarded (to_forward identity m uri headers body) resp l ->
    route_run identity m uri headers body resp l
| route_idempotent c resp l :
    path_has_dot_segment (uri_path uri) = false -> authorize_route identity m uri = Ok tt ->
    from_request identity m uri headers body = Ok (Some c) ->
    idem_run identity c (to_forward identity m uri headers body) resp l ->
    route_run identity m uri headers body resp l.

End Spec.

(** ** Lemmas: the routes refine the specification *)

Section Refinement.
Context `{HT : Http} `{HL : !HttpLaws} `{SJ : SerdeJson} `{FI : FiduciaInterfaces}.
Context `{UC : UrlCrate} `{RQ : Reqwest} `{FR : FiduciaRouting} `{FL : !FiduciaRoutingLaws}.
Context `{SH : Sha2} `{AB : AxumBody} `{SS : StoredSerde}.
Context {T : Type} `{LD : LeaderDirectory T} {Inv : T -> Prop} `{LL : !LeaderDirectoryLaws T Inv}.
Context (S : Surroundings) (Trusted : string -> Prop) (n : Z).
Context (Hn : 0 < n).

Notation good_t := (good (Inv := Inv) Trusted n).

Lemma attempt_ok_forward i t s m u h b a :
  attempt_ok (internal S) Trusted (mkForwardRequest i t s m u h b) a ->
  attempt_ok (internal S) Trusted (to_forward i m u h b) a.
Proof. intros []. by split. Qed.

Lemma forward_with_redirect_runs i t s m u h b :
  shard_in_range n s -> Trusted t ->
  runs good_t (forward_with_redirect S (mkForwardRequest i t s m u h b))
    (forwarded (internal S) Trusted (to_forward i m u h b)).
Proof.
  intros Hs Ht. eapply runs_weaken; [eapply forward_hops_runs; [exact Hs|exact Ht|set_solver]|].
  intros resp l Htr. cbn [fr_target] in Htr.
  pose proof (trace_length _ _ _ _ _ _ _ _ Htr) as Hlen.
  pose proof (trace_forall _ _ _ _ _ _ _ _ Htr) as Hall.
  destruct (trace_fresh _ _ _ _ _ _ _ _ Htr (not_elem_of_empty _)) as [Hnd _].
  destruct (trace_answer _ _ _ _ _ _ _ _ Htr) as (pre & a & -> & -> & Hpre).
  apply (forwarded_sent _ _ (to_forward i m u h b)); [|done..].
  eapply Forall_impl; [exact Hall|]. intros x. apply attempt_ok_forward.
Qed.

Lemma route_without_runs i m u h b :
  runs good_t (route_without_customer_idempotency S i m u h b)
    (forwarded (internal S) Trusted (to_forward i m u h b)).
Proof.
  unfold route_without_customer_idempotency.
  eapply runs_then with (Q := fun r l => l = [] /\ shard_in_range n (fst r) /\
    forall t, snd r = Some t -> Trusted t).
  { destruct (routing_key_with_body _ _ _) as [key|]; apply runs_atomically;
      intros k t (Hi & Hc & Ht).
    - cbn. split; [by split|]. split; [done|]. split.
      + intros s [= <-]. rewrite Hc. by apply shard_for_range.
      + intros x Hx. by eapply Ht, dir_leader_member.
    - pose proof (dir_any_law t ∅ Hi) as Hany.
      destruct (dir_any_node_excluding ∅ t) as [r t']. cbn.
      destruct Hany as (Hi' & [Hm Hc'] & Hr).
      split; [split; [done|split; [congruence|by rewrite Hm]]|]. split; [done|]. split; [by intros s|].
      intros x Hx. by apply Ht, Hr. }
  intros [shard [target|]] l (-> & Hs & Ht); cbn [fst snd app].
  - apply forward_with_redirect_runs; auto.
  - apply runs_return. constructor.
Qed.

Lemma claim_runs i c :
  runs good_t (claim_customer_idempotency S i c)
    (fun r l => exists resp, forwarded (internal S) Trusted (claim_request i c) resp l /\ r = parse_claim resp).
Proof.
  eapply runs_then; [apply route_without_runs|]. intros resp l Hl.
  apply runs_return. exists resp. by rewrite app_nil_r.
Qed.

Lemma abandon_runs i c token (r : Response) :
  runs good_t (abandon_customer_idempotency S i c token ;;; mreturn r)%conc
    (fun r' l => r' = r /\ exists resp, forwarded (internal S) Trusted (abandon_request i c token) resp l).
Proof.
  eapply runs_then with (Q := fun _ l => exists resp,
    forwarded (internal S) Trusted (abandon_request i c token) resp l).
  - eapply runs_then; [apply route_without_runs|]. intros resp l Hl.
    apply runs_return. exists resp. by rewrite app_nil_r.
  - intros _ l Hl. apply runs_return. by rewrite app_nil_r.
Qed.

Lemma complete_runs i c token stored :
  runs good_t (complete_customer_idempotency S i c token stored)
    (fun r l => match stored_to_value stored with
       | None => l = [] /\ is_ok r = false
       | Some result => exists resp,
           forwarded (internal S) Trusted (complete_request i c token result) resp l /\ r = parse_complete resp
       end).
Proof.
  unfold complete_customer_idempotency. destruct (stored_to_value stored) as [result|].
  - eapply runs_then; [apply route_without_runs|]. intros resp l Hl.
    apply runs_return. exists resp. by rewrite app_nil_r.
  - by apply runs_return.
Qed.

#[local] Opaque route_without_customer_idempotency claim_customer_idempotency
  complete_customer_idempotency abandon_customer_idempotency.

Lemma route_with_runs i m u h b c :
  runs good_t (route_with_customer_idempotency S i m u h b c)
    (idem_run (internal S) Trusted i c (to_forward i m u h b)).
Proof.
  unfold route_with_customer_idempotency.
  eapply runs_then; [apply claim_runs|]. intros r lc (resp_c & Hlc & ->).
  destruct (parse_claim resp_c) as [claim|e] eqn:Hp.
  2:{ apply runs_return. rewrite app_nil_r. by eapply idem_refused. }
  destruct (response_for_duplicate_claim c claim) as [r|] eqn:Hd.
  { apply runs_return. rewrite app_nil_r. by eapply idem_duplicate. }
  assert (Hcl : ic_claimed claim = true).
  { unfold response_for_duplicate_claim in Hd. by repeat case_match. }
  destruct (ic_fencing_token claim) as [token|] eqn:Ht.
  2:{ apply runs_return. rewrite app_nil_r. by eapply idem_no_token. }
  eapply runs_then; [apply route_without_runs|]. intros resp lm Hlm.
  destruct (capture_response resp) as [captured|e] eqn:Hcap.
  2:{ eapply runs_weaken; [apply abandon_runs|]. intros r la (-> & resp_a & Hla).
      by eapply idem_too_large. }
  destruct (is_cacheable_idempotent_response (cr_status captured)) eqn:Hca; cbn [negb].
  2:{ eapply runs_weaken; [apply abandon_runs|]. intros r la (-> & resp_a & Hla).
      by eapply idem_transient. }
  eapply runs_then; [apply complete_runs|]. intros r lf Hf.
  destruct (stored_to_value (from_captured c captured)) as [result|] eqn:Hv.
  - destruct Hf as (resp_f & Hlf & ->). apply runs_return. rewrite app_nil_r.
    by eapply idem_completed.
  - destruct Hf as [-> Hr]. apply runs_return. rewrite Hr, !app_nil_r.
    by eapply idem_unencodable.
Qed.

#[local] Transparent route_without_customer_idempotency claim_customer_idempotency
  complete_customer_idempotency abandon_customer_idempotency.

Lemma route_runs i m u h b :
  runs good_t (route S i m u h b) (route_run (internal S) Trusted i m u h b).
Proof.
  unfold route. destruct (path_has_dot_segment (uri_path u)) eqn:Hdot.
  { apply runs_return. by constructor. }
  destruct (authorize_route i m u) as [[]|required] eqn:Hauth.
  2:{ apply runs_return. by constructor. }
  destruct (from_request i m u h b) as [[c|]|r] eqn:Hreq; cbn [is_none andb].
  - eapply runs_weaken; [apply route_with_runs|]. intros. by eapply route_idempotent.
  - destruct (_ && negb (is_idempotency_primitive u)) eqn:Hk.
    + apply runs_return. breflect. destruct i as [id|]; [|done]. by eapply route_key_required.
    + eapply runs_weaken; [apply route_without_runs|]. intros resp l Hl.
      eapply route_plain; try done. intros (id & -> & Hri). rewrite Hri in Hk. cbn [andb] in Hk.
      apply andb_false_iff in Hk as [|Hp]; [by left|right]. by apply negb_false_iff in Hp.
  - apply runs_return. by constructor.
Qed.

Lemma route_without_within i m u h b : within (route_without_customer_idempotency (T := T) S i m u h b) 17.
Proof.
  apply (within_bind _ _ 1 16); [by destruct (routing_key_with_body _ _ _)|done|].
  intros [shard [target|]]; [apply forward_within|done].
Qed.

(** A claim, the request, and the completion or the release. *)
Lemma route_with_within i m u h b c : within (route_with_customer_idempotency (T := T) S i m u h b c) 51.
Proof.
  apply (within_bind _ _ 17 34); [|done|].
  { by apply (within_bind _ _ 17 0); [apply route_without_within| |]. }
  intros [claim|e]; [|done]. destruct (response_for_duplicate_claim c claim); [done|].
  destruct (ic_fencing_token claim) as [token|]; [|done].
  apply (within_bind _ _ 17 17); [apply route_without_within|done|]. intros resp.
  assert (Habandon : forall r : Response, within (abandon_customer_idempotency (T := T) S i c token ;;; mreturn r)%conc 17).
  { intros r. apply (within_bind _ _ 17 0); [|done|done].
    by apply (within_bind _ _ 17 0); [apply route_without_within| |]. }
  destruct (capture_response resp) as [captured|]; [|apply Habandon].
  destruct (negb _); [apply Habandon|]. apply (within_bind _ _ 17 0); [|done|done].
  unfold complete_customer_idempotency. destruct (stored_to_value _); [|done].
  by apply (within_bind _ _ 17 0); [apply route_without_within| |].
Qed.

Lemma route_within i m u h b : within (route (T := T) S i m u h b) 51.
Proof.
  unfold route. destruct (path_has_dot_segment _); [done|]. destruct (authorize_route _ _ _); [|done].
  destruct (from_request _ _ _ _ _) as [[c|]|]; [|cbn [is_none andb]|done].
  - apply route_with_within.
  - destruct (_ && _); [done|]. by eapply within_mono; [apply route_without_within|lia].
Qed.

(** The attempts and the answer of a run among other tasks. *)
Lemma route_trace i m u h b env w :
  rely good_t env -> good_t (w_state w) ->
  exists l, w_log (snd (run env (route S i m u h b) w)) = w_log w ++ l /\
    good_t (w_state (snd (run env (route S i m u h b) w))) /\
    route_run (internal S) Trusted i m u h b (fst (run env (route S i m u h b) w)) l.
Proof. intros Hr Hw. apply (run_guaranteed good_t good_t); [done|apply route_runs|done]. Qed.

End Refinement.

(** ** Lemmas: consequences of the specification *)

Section SpecLemmas.
Context `{HT : Http} `{SJ : SerdeJson} `{FI : FiduciaInterfaces} `{UC : UrlCrate} `{RQ : Reqwest}.
Context `{SH : Sha2} `{AB : AxumBody} `{SS : StoredSerde}.
Context (secret : option string) (Trusted : string -> Prop).

(** An attempt made on behalf of a caller. *)
Definition on_behalf (identity : option VerifiedIdentity) (a : Attempt) : Prop :=
  exists request, fr_identity request = identity /\ attempt_ok secret Trusted request a.

(** Attempts after which the node may have applied the request. *)
Definition maybe_applied (l : list Attempt) : list Attempt :=
  List.filter (fun a => negb (not_applied (at_outcome a))) l.

Lemma forwarded_on_behalf request resp l :
  forwarded secret Trusted request resp l -> Forall (on_behalf (fr_identity request)) l.
Proof.
  destruct 1 as [|pre a Hok]; [constructor|]. eapply Forall_impl; [exact Hok|].
  intros x Hx. by exists request.
Qed.

Lemma forwarded_length request resp l :
  forwarded secret Trusted request resp l -> (length l <= MAX_HOPS)%nat.
Proof. destruct 1; [cbn; lia|done]. Qed.

Lemma forwarded_applied_once request resp l :
  forwarded secret Trusted request resp l -> method_is_replay_safe (fr_method request) = false ->
  (length (maybe_applied l) <= 1)%nat.
Proof.
  destruct 1 as [|pre a Hok Hpre _ _]; intros Hm; [cbn; lia|].
  unfold maybe_applied. rewrite List.filter_app, length_app.
  assert (List.filter (fun a => negb (not_applied (at_outcome a))) pre = []) as ->.
  { clear Hok. induction Hpre as [|x pre Hx _ IH]; [done|]. cbn.
    unfold outcome_retryable in Hx. destruct (at_outcome x); cbn in *; try done; congruence. }
  cbn. by destruct (negb _); cbn; lia.
Qed.

Lemma idem_run_on_behalf identity c request resp l :
  fr_identity request = identity -> idem_run secret Trusted identity c request resp l ->
  Forall (on_behalf identity) l /\ (length l <= 3 * MAX_HOPS)%nat.
Proof.
  intros <- Hr.
  assert (Hf : forall r resp l, fr_identity r = fr_identity request ->
    forwarded secret Trusted r resp l ->
    Forall (on_behalf (fr_identity request)) l /\ (length l <= MAX_HOPS)%nat).
  { intros r resp' l' <- H. split; [by eapply forwarded_on_behalf|by eapply forwarded_length]. }
  destruct Hr as [rc lc e H1|rc lc cl r H1|rc lc cl H1|rc lc cl tk r lm e ra la H1 _ _ _ H2 _ H3
    |rc lc cl tk r lm cap ra la H1 _ _ _ H2 _ _ H3|rc lc cl tk r lm cap v rf lf H1 _ _ _ H2 _ _ _ H3
    |rc lc cl tk r lm cap H1 _ _ _ H2]; apply Hf in H1 as [? ?]; try done;
    [split; [done|lia]..| | | |]; apply Hf in H2 as [? ?]; try done;
    try (apply Hf in H3 as [? ?]; [|done]); rewrite ?Forall_app, ?length_app;
    (split; [auto|lia]).
Qed.

Lemma route_run_on_behalf i m u h b resp l :
  route_run secret Trusted i m u h b resp l ->
  Forall (on_behalf i) l /\ (length l <= 3 * MAX_HOPS)%nat.
Proof.
  destruct 1 as [| | | |resp l _ _ _ _ Hf|c resp l _ _ _ Hr]; try (split; [constructor|cbn; lia]).
  - split; [by eapply (forwarded_on_behalf (to_forward i m u h b))|].
    apply forwarded_length in Hf. lia.
  - by eapply idem_run_on_behalf in Hr.
Qed.

(** The three phases of an idempotent run. *)
Lemma idem_run_phases identity c request resp l :
  method_is_replay_safe (fr_method request) = false ->
  idem_run secret Trusted identity c request resp l ->
  exists resp_c lc lm lf, l = lc ++ lm ++ lf /\
    forwarded secret Trusted (claim_request identity c) resp_c lc /\
    (length (maybe_applied lm) <= 1)%nat /\
    match granted resp_c with
    | None => lm = [] /\ lf = []
    | Some token => exists resp_m resp_f,
        forwarded secret Trusted request resp_m lm /\
        match storable c resp_m with
        | None => forwarded secret Trusted (abandon_request identity c token) resp_f lf
        | Some (Some v) => forwarded secret Trusted (complete_request identity c token v) resp_f lf
        | Some None => lf = []
        end
    end.
Proof.
  intros Hmut Hidem.
  assert (Hgo : forall rc cl tk, parse_claim rc = Ok cl -> ic_claimed cl = true ->
    ic_fencing_token cl = Some tk -> granted rc = Some tk)
    by (intros rc cl tk Hp Hcl Ht; unfold granted; by rewrite Hp, Hcl).
  inversion Hidem as [rc lc e H1 Hp|rc lc cl r H1 Hp Hd|rc lc cl H1 Hp Hcl Ht
    |rc lc cl tk r lm e ra la H1 Hp Hcl Ht H2 He H3
    |rc lc cl tk r lm cap ra la H1 Hp Hcl Ht H2 He Hc H3
    |rc lc cl tk r lm cap v rf lf H1 Hp Hcl Ht H2 He Hc Hv H3
    |rc lc cl tk r lm cap H1 Hp Hcl Ht H2 He Hc Hv]; subst.
  1-3: eexists rc, l, [], []; rewrite !app_nil_r; split_and!; try done; cbn; [lia|];
    unfold granted; rewrite Hp; try rewrite Hcl; try done.
  1: { unfold response_for_duplicate_claim in Hd. by destruct (ic_claimed cl). }
  1: by rewrite Ht.
  all: pose proof (forwarded_applied_once _ _ _ H2 Hmut).
  - exists rc, lc, lm, la. rewrite (Hgo _ _ _ Hp Hcl Ht). split_and!; try done.
    exists r, ra. unfold storable. by rewrite He.
  - exists rc, lc, lm, la. rewrite (Hgo _ _ _ Hp Hcl Ht). split_and!; try done.
    exists r, ra. unfold storable. by rewrite He, Hc.
  - exists rc, lc, lm, lf. rewrite (Hgo _ _ _ Hp Hcl Ht). split_and!; try done.
    exists r, rf. unfold storable. by rewrite He, Hc, Hv.
  - exists rc, lc, lm, []. rewrite app_nil_r, (Hgo _ _ _ Hp Hcl Ht). split_and!; try done.
    exists r, r. unfold storable. by rewrite He, Hc, Hv.
Qed.

(** ** Every answer is a well-formed response *)

Lemma forwarded_well_formed request resp l : forwarded secret Trusted request resp l -> well_formed resp.
Proof.
  destruct 1 as [shard|pre a Hok _ _ _]; [by apply json_well_formed|].
  apply Forall_app in Hok as [_ Ha%Forall_inv]. unfold final_answer.
  destruct (at_outcome a) as [r|leader| | |] eqn:E;
    try (try destruct (method_is_replay_safe _); by apply json_well_formed). by apply (ao_response _ _ _ _ Ha).
Qed.

Lemma captured_well_formed r captured state :
  well_formed r -> capture_response r = Ok captured ->
  well_formed (mark_response state (captured_into_response captured)).
Proof.
  intros Hr. unfold capture_response. destruct (to_bytes _ _) as [b|]; [|done]. intros [= <-].
  destruct r as [st h bd]. by eapply insert_well_formed.
Qed.

Lemma parse_claim_well_formed r e : parse_claim r = Err e -> well_formed e.
Proof.
  unfold parse_claim. destruct (capture_response r) as [captured|e'];
    [|intros [= <-]; by apply json_well_formed].
  destruct (negb _); [intros [= <-]; by apply json_well_formed|].
  destruct (json_from_slice _) as [v|]; cbn [ok_or result_bind]; [|intros [= <-]; by apply json_well_formed].
  destruct (let! x := json_get v "result" in _); [done|]. intros [= <-]. by apply json_well_formed.
Qed.

Lemma capture_well_formed r e : capture_response r = Err e -> well_formed e.
Proof. unfold capture_response. destruct (to_bytes _ _); [done|]. intros [= <-]. by apply json_well_formed. Qed.

Lemma duplicate_well_formed c claim r : response_for_duplicate_claim c claim = Some r -> well_formed r.
Proof.
  assert (Hreplay : forall s, well_formed (into_replay_response s)).
  { intros s. unfold into_replay_response. destruct (st_truncated s); [by apply json_well_formed|].
    destruct (hex_to_bytes _) as [b|]; [|by apply json_well_formed].
    assert (Hs : in_range 100 999 (default 200 (status_from_u16 (st_status s))) = true).
    { unfold status_from_u16. by destruct (in_range 100 999 (st_status s)) eqn:E. }
    do 2 (eapply insert_well_formed with (b := BodyFull b); [|done]).
    assert (Hnil : well_formed (mkResponse (default 200 (status_from_u16 (st_status s))) [] (BodyFull b)))
      by (split; [done|]; intros name; split; [cbn; lia|done]).
    destruct (let! ct := st_content_type s in _); [|done]. by eapply insert_well_formed. }
  assert (Hprog : well_formed in_progress_response).
  { apply (insert_well_formed 409 [("content-type", "application/json")] "retry-after" "1" (BodyFull ""));
      [exact (json_well_formed 409 JNull eq_refl)|done]. }
  unfold response_for_duplicate_claim. intros H. repeat (case_match; try done); injection H as <-;
    first [exact Hprog | by apply json_well_formed | apply Hreplay].
Qed.

Lemma idem_run_well_formed identity c request resp l :
  idem_run secret Trusted identity c request resp l -> well_formed resp.
Proof.
  destruct 1; eauto using parse_claim_well_formed, capture_well_formed, duplicate_well_formed,
    captured_well_formed, forwarded_well_formed. by apply json_well_formed.
Qed.

Lemma route_run_well_formed i m u h b resp l :
  route_run secret Trusted i m u h b resp l -> well_formed resp.
Proof.
  destruct 1 as [| |r _ _ Hr| |resp l _ _ _ _ Hf|c resp l _ _ _ Hr]; try by apply json_well_formed.
  - unfold from_request, ok_or, result_bind in Hr. repeat (case_match; try done); simplify_eq;
      by apply json_well_formed.
  - by eapply forwarded_well_formed.
  - by eapply idem_run_well_formed.
Qed.

End SpecLemmas.

(** What every attempt of a run of [route] satisfies. *)
Lemma route_run_attempt `{Http} `{!HttpLaws} `{SerdeJson} `{FiduciaInterfaces} `{UrlCrate} `{Reqwest}
    `{Sha2} `{AxumBody} `{StoredSerde} secret Trusted i m u h b resp l a :
  route_run secret Trusted i m u h b resp l -> a ∈ l ->
  authorize_route i m u = Ok tt /\ path_has_dot_segment (uri_path u) = false /\
  Trusted (at_target a) /\
  forall rq, at_wire a = Some rq ->
    hm_get_all (sr_headers rq) "x-fiducia-org-id" = option_list (option_map org_id i).
Proof.
  intros Hrun Ha. destruct (route_run_on_behalf _ _ _ _ _ _ _ _ _ Hrun) as [Hall _].
  rewrite Forall_forall in Hall. destruct (Hall a Ha) as (request & Hid & Hok).
  assert (Hne : l <> []) by (intros ->; by apply not_elem_of_nil in Ha).
  split; [by inversion Hrun; subst|]. split; [by inversion Hrun; subst|]. split; [apply Hok|].
  intros rq Hrq. destruct (ao_wire _ _ _ _ Hok rq Hrq) as (_ & m' & st & _ & Hb).
  apply build_request_Some in Hb as (_ & _ & _ & _ & _ & Hh).
  rewrite Hh, forwarded_headers_get_all, Hid. by destruct i.
Qed.

(** ** Properties *)

Section Properties.
Context `{HT : Http} `{HL : !HttpLaws} `{SJ : SerdeJson} `{FI : FiduciaInterfaces}.
Context `{UC : UrlCrate} `{RQ : Reqwest} `{FR : FiduciaRouting} `{FL : !FiduciaRoutingLaws}.
Context `{SH : Sha2} `{AB : AxumBody} `{SS : StoredSerde}.
Context {T : Type} `{LD : LeaderDirectory T} {Inv : T -> Prop} `{LL : !LeaderDirectoryLaws T Inv}.

(** C9. The request pipeline implements its specification: from any good state and
    under any interleaving, [route] answers and makes the attempts that
    [route_run] allows, keeps the directory good, and makes at most twelve. *)
Theorem route_refines (S : Surroundings) (Trusted : string -> Prop) (n : Z)
    (identity : option VerifiedIdentity) (m : Method) (uri : Uri) (headers : HeaderMap)
    (body : string) (env : nat -> T -> T) (w : World T Attempt) :
  0 < n -> rely (good (Inv := Inv) Trusted n) env -> good (Inv := Inv) Trusted n (w_state w) ->
  let (resp, w') := run env (route S identity m uri headers body) w in
  exists l, w_log w' = w_log w ++ l /\ good (Inv := Inv) Trusted n (w_state w') /\
    route_run (internal S) Trusted identity m uri headers body resp l /\
    (length l <= 3 * MAX_HOPS)%nat.
Proof.
  intros Hn Hr Hw.
  destruct (route_trace S Trusted n Hn identity m uri headers body env w Hr Hw) as (l & Hl & Hi & Hrun).
  destruct (run env _ w) as [resp w']. cbn [fst snd] in *. exists l.
  split_and!; try done. by apply (route_run_on_behalf _ _ _ _ _ _ _ _ _ Hrun).
Qed.

(** Nothing reaches a node unless the request was let through: if any attempt
    is made, the path has no dot segment, the route's scopes were granted, and a
    caller that must use idempotency keys on mutations did. Every request put on
    the wire, the internal ones included, carries the organisation of the verified
    caller and no other. *)
Theorem route_sends_only_authorized (S : Surroundings) (Trusted : string -> Prop) (n : Z)
    (identity : option VerifiedIdentity) (m : Method) (uri : Uri) (headers : HeaderMap)
    (body : string) (env : nat -> T -> T) (w : World T Attempt) (a : Attempt) :
  0 < n -> rely (good (Inv := Inv) Trusted n) env -> good (Inv := Inv) Trusted n (w_state w) ->
  a ∈ drop (length (w_log w)) (w_log (snd (run env (route S identity m uri headers body) w))) ->
  path_has_dot_segment (uri_path uri) = false /\ authorize_route identity m uri = Ok tt /\
  (forall id, identity = Some id -> require_idempotency id = true ->
     method_supports_customer_idempotency m = true -> is_idempotency_primitive uri = false ->
     exists c, from_request identity m uri headers body = Ok (Some c)) /\
  Trusted (at_target a) /\
  (forall rq, at_wire a = Some rq ->
     hm_get_all (sr_headers rq) "x-fiducia-org-id" = option_list (option_map org_id identity)).
Proof.
  intros Hn Hr Hw Ha.
  destruct (route_trace S Trusted n Hn identity m uri headers body env w Hr Hw) as (l & Hl & _ & Hrun).
  rewrite Hl, drop_app_length in Ha.
  destruct (route_run_attempt _ _ _ _ _ _ _ _ _ _ Hrun Ha) as (H1 & H2 & H3 & H4).
  assert (Hne : l <> []) by (intros ->; by apply not_elem_of_nil in Ha).
  split; [done|]. split; [done|]. split; [|by split].
  intros id Hi Hreq Hm Hp. inversion Hrun as [| | | |? ? _ _ _ Hpol _|c]; subst; try done; eauto.
  destruct Hpol as [?|?]; [by eauto|congruence..].
Qed.

(** C4. A mutation with an idempotency key runs at most once per grant: it is sent
    only after the node granted the claim and gave a fencing token, at most one of
    its attempts may have been applied, and afterwards the record is completed with
    the stored form of that very response when it is final, and released when it is
    not. *)
Theorem idempotent_mutation_once (S : Surroundings) (Trusted : string -> Prop) (n : Z)
    (identity : option VerifiedIdentity) (m : Method) (uri : Uri) (headers : HeaderMap)
    (body : string) (c : CustomerIdempotency) (env : nat -> T -> T) (w : World T Attempt) :
  0 < n -> rely (good (Inv := Inv) Trusted n) env -> good (Inv := Inv) Trusted n (w_state w) ->
  path_has_dot_segment (uri_path uri) = false -> authorize_route identity m uri = Ok tt ->
  from_request identity m uri headers body = Ok (Some c) ->
  exists resp_c lc lm lf, w_log (snd (run env (route S identity m uri headers body) w)) = w_log w ++ lc ++ lm ++ lf /\
    forwarded (internal S) Trusted (claim_request identity c) resp_c lc /\
    (length (maybe_applied lm) <= 1)%nat /\
    match granted resp_c with
    | None => lm = [] /\ lf = []
    | Some token => exists resp_m resp_f,
        forwarded (internal S) Trusted (to_forward identity m uri headers body) resp_m lm /\
        match storable c resp_m with
        | None => forwarded (internal S) Trusted (abandon_request identity c token) resp_f lf
        | Some (Some v) => forwarded (internal S) Trusted (complete_request identity c token v) resp_f lf
        | Some None => lf = []
        end
    end.
Proof.
  intros Hn Hr Hw Hdot Hauth Hreq.
  destruct (route_trace S Trusted n Hn identity m uri headers body env w Hr Hw) as (l & Hl & _ & Hrun).
  rewrite Hl. assert (Hmut : method_is_replay_safe m = false).
  { apply from_request_Some in Hreq as (Hm & _). by destruct m. }
  inversion Hrun as [| | | | |c' resp' l' _ _ Hreq' Hidem]; subst; try congruence.
  rewrite Hreq in Hreq'. injection Hreq' as <-.
  destruct (idem_run_phases _ _ _ _ (to_forward identity m uri headers body) _ _ Hmut Hidem) as (rc & lc & lm & lf & -> & H).
  by exists rc, lc, lm, lf.
Qed.

(** C31. Every answer is a response the client can be sent: whatever the nodes, the
    records and the other tasks do, the answer of [route] has a valid status code,
    no header of its own has two values, and no hop-by-hop header of a node comes
    through. *)
Theorem route_answers_well_formed (S : Surroundings) (Trusted : string -> Prop) (n : Z)
    (identity : option VerifiedIdentity) (m : Method) (uri : Uri) (headers : HeaderMap)
    (body : string) (env : nat -> T -> T) (w : World T Attempt) :
  0 < n -> rely (good (Inv := Inv) Trusted n) env -> good (Inv := Inv) Trusted n (w_state w) ->
  well_formed (fst (run env (route S identity m uri headers body) w)).
Proof.
  intros Hn Hr Hw.
  destruct (route_trace S Trusted n Hn identity m uri headers body env w Hr Hw) as (l & _ & _ & Hrun).
  by eapply route_run_well_formed.
Qed.

End Properties.

(** ** Availability *)

Section Availability.
Context `{HT : Http} `{SJ : SerdeJson} `{FI : FiduciaInterfaces}.
Context `{UC : UrlCrate} `{RQ : Reqwest} `{FR : FiduciaRouting} `{FL : !FiduciaRoutingLaws}.
Context {T : Type} `{LD : LeaderDirectory T} {Inv : T -> Prop} `{LL : !LeaderDirectoryLaws T Inv}.

Lemma route_without_available (S : Surroundings) (n : Z) (members : list string) identity m uri
    headers body healthy :
  let request := to_forward identity m uri headers body in
  0 < n ->
  (forall k, exists r, outcome_at S request healthy k = Served r) ->
  (forall k x, x ∈ members -> (exists r, outcome_at S request x k = Served r)
     \/ outcome_retryable m (outcome_at S request x k) = true) ->
  (length members <= MAX_HOPS)%nat ->
  guaranteed (roomy (Inv := Inv) n members healthy) (holds_healthy (Inv := Inv) n members healthy)
    (route_without_customer_idempotency S identity m uri headers body)
    (fun resp _ => from_a_node S members request resp).
Proof.
  intros request Hn Hh Ho Hl. unfold route_without_customer_idempotency.
  eapply runs_then with (Q := fun r _ => shard_in_range n (fst r) /\
    exists target, snd r = Some target /\ target ∈ members).
  - destruct (routing_key_with_body _ _ _) as [key|].
    + apply runs_atomically. intros _ t [(Hi & Hsc & Hm & Hin) _]. cbn. rewrite Hsc.
      pose proof (shard_for_range key n Hn) as Hs. split; [by split_and!|]. split; [by intros s [= <-]|].
      destruct (dir_leader_total t (shard_for key n) Hi) as [target Ht];
        [intros E; rewrite E in Hin; by apply not_elem_of_nil in Hin|by rewrite Hsc|].
      exists target. split; [done|]. by eapply Hm, dir_leader_member.
    + apply runs_atomically. intros k t Ht.
      pose proof (untried_found n members healthy ∅ (not_elem_of_empty _) k t Ht) as [H1 (x & H2 & H3 & _)].
      cbn in *. destruct (dir_any_node_excluding ∅ t) as [r t']. cbn in *. split; [done|].
      split; [by intros s|eauto].
  - intros [shard next] l (Hs & target & Ht & Hin). cbn in Ht, Hs |- *. subst next.
    eapply runs_weaken with (Q := fun resp _ => from_a_node S members request resp); [|done].
    refine (failover S n members (mkForwardRequest identity target shard m uri headers body) healthy Hh Ho
      MAX_HOPS ∅ target Hs Hin (not_elem_of_empty _) (not_elem_of_empty _) _).
    etrans; [apply length_filter|done].
Qed.

(** C21. The balancer finds a node that can answer: with at most four members ever,
    one of which stays known and serves the request while the others redirect or
    fail in a retryable way, a request that needs no idempotency record is answered
    by a node — whether it is routed to a leader by its key or to any node, and
    however the table changes meanwhile. *)
Theorem route_available (S : Surroundings) (n : Z) (members : list string)
    (identity : option VerifiedIdentity) (m : Method) (uri : Uri) (headers : HeaderMap)
    (body : string) (healthy : string) (env : nat -> T -> T) (w : World T Attempt) :
  let request := to_forward identity m uri headers body in
  let known := holds_healthy (Inv := Inv) n members healthy in
  let program := route_without_customer_idempotency S identity m uri headers body in
  0 < n -> rely known env -> known (w_state w) -> Forall cursor_clear (seen env program w) ->
  (forall k, exists r, outcome_at S request healthy k = Served r) ->
  (forall k x, x ∈ members -> (exists r, outcome_at S request x k = Served r)
     \/ outcome_retryable m (outcome_at S request x k) = true) ->
  (length members <= MAX_HOPS)%nat ->
  from_a_node S members request (fst (run env program w)).
Proof.
  intros request known program Hn Henv Hw Hc Hh Ho Hl.
  eapply (run_seen known cursor_clear env); [exact Henv| |exact Hw|exact Hc].
  by apply (route_without_available S n members identity m uri headers body healthy).
Qed.

End Availability.

(** ** Witnesses: a cluster that grants claims and never answers the mutation *)

Definition reply_json (status : Z) (v : Json) : Reply :=
  mkReply 1 (SendOk status [("content-type", "application/json")]
               (mkArrival [(1, json_to_vec v)] 1 false)).

Definition output_json (fields : list (string * Json)) : Json :=
  JObj [("result", JObj [("output", JObj fields)])].

(** The path the request asks for, whichever the node. *)
Definition asks_for (path : string) (rq : SentRequest) : bool :=
  match strip_suffix path (sr_url rq) with Some _ => true | None => false end.

Definition stuck_net (_ : nat) (rq : SentRequest) : Reply :=
  if asks_for "/v1/idempotency/claim" rq
  then reply_json 200 (output_json [("claimed", JBool true); ("fencing_token", JNum 7)])
  else if asks_for "/v1/idempotency/abandon" rq then reply_json 200 (output_json [])
  else mkReply 5000 (SendError false).

Definition stuck_surroundings : Surroundings :=
  mkSurroundings (Some "internal") (fun n => Z.of_nat n) stuck_net.

Definition put_kv : M RouteTable Attempt Response :=
  route stuck_surroundings (Some edge_identity) PUT Idempotency.kv_uri key_headers "v".

Definition sent_mutation (a : Attempt) : bool :=
  match at_wire a with Some rq => asks_for "/v1/kv?key=k" rq | None => false end.

(** After an ambiguous result the record is released, so the retry the error
    message asks for runs the mutation again: two requests with the same key, both
    sent to a node and neither known not to have been applied. *)
Theorem ambiguous_mutation_is_reexecuted :
  let (r1, w1) := run quiet put_kv demo_world in
  let (r2, w2) := run quiet put_kv w1 in
  rs_status r1 = 502 /\ rs_body r1 = rs_body ambiguous_response /\
  hm_get (rs_headers r1) FIDUCIA_IDEMPOTENCY_HEADER = Some "not_stored" /\
  map (fun a => (sent_mutation a, not_applied (at_outcome a))) (w_log w2)
  = [(false, false); (true, false); (false, false); (false, false); (true, false); (false, false)] /\
  map (fun a => option_map sr_body (at_wire a)) (List.filter sent_mutation (w_log w2))
  = [Some "v"; Some "v"].
Proof. vm_compute. repeat split. Qed.

Definition healthy_net (_ : nat) (rq : SentRequest) : Reply :=
  if asks_for "/v1/idempotency/claim" rq
  then reply_json 200 (output_json [("claimed", JBool true); ("fencing_token", JNum 7)])
  else if asks_for "/v1/idempotency/complete" rq
  then reply_json 200 (output_json [("completed", JBool true)])
  else reply_json 201 (output_json []).

Definition healthy_surroundings : Surroundings :=
  mkSurroundings (Some "internal") (fun n => Z.of_nat n) healthy_net.

Lemma route_refines_witness :
  let (resp, w') := run quiet (route healthy_surroundings (Some edge_identity) PUT Idempotency.kv_uri key_headers "v")
    demo_world in
  rs_status resp = 201 /\ hm_get (rs_headers resp) FIDUCIA_IDEMPOTENCY_HEADER = Some "stored" /\
  exists l, w_log w' = l /\ length l = 3%nat /\
    route_run (Some "internal") demo_trusted (Some edge_identity) PUT Idempotency.kv_uri key_headers "v"
      resp l.
Proof.
  pose proof (route_refines healthy_surroundings demo_trusted 4 (Some edge_identity) PUT
    Idempotency.kv_uri key_headers "v" quiet demo_world ltac:(lia) demo_rely demo_good) as H.
  assert (E : let (resp, w') := run quiet (route healthy_surroundings (Some edge_identity) PUT Idempotency.kv_uri key_headers "v")
    demo_world in rs_status resp = 201 /\
    hm_get (rs_headers resp) FIDUCIA_IDEMPOTENCY_HEADER = Some "stored" /\ length (w_log w') = 3%nat)
    by (vm_compute; repeat split).
  destruct (run quiet _ demo_world) as [resp w'].
  destruct H as (l & H1 & _ & H2 & _), E as (E1 & E2 & E3). split; [exact E1|]. split; [exact E2|].
  exists l. split; [exact H1|]. split; [|exact H2]. rewrite H1 in E3. exact E3.
Defined.

Lemma route_answers_well_formed_witness :
  well_formed (fst (run quiet (route healthy_surroundings (Some edge_identity) PUT Idempotency.kv_uri
                                 key_headers "v") demo_world)).
Proof.
  apply (route_answers_well_formed healthy_surroundings demo_trusted 4 (Some edge_identity) PUT
    Idempotency.kv_uri key_headers "v" quiet demo_world ltac:(lia) demo_rely demo_good).
Defined.

Definition claim_attempt : Attempt :=
  default (mkAttempt "" GET None NotSent)
    (head (w_log (snd (run quiet (route healthy_surroundings (Some edge_identity) PUT Idempotency.kv_uri key_headers "v")
    demo_world)))).

Lemma route_sends_only_authorized_witness :
  authorize_route (Some edge_identity) PUT Idempotency.kv_uri = Ok tt /\
  (forall rq, at_wire claim_attempt = Some rq ->
     hm_get_all (sr_headers rq) "x-fiducia-org-id" = ["org-a"]) /\
  is_Some (at_wire claim_attempt).
Proof.
  assert (Hin : claim_attempt ∈ drop (length (w_log demo_world)) (w_log (snd (run quiet (route healthy_surroundings (Some edge_identity) PUT Idempotency.kv_uri key_headers "v")
    demo_world))))
    by (apply list_elem_of_In; vm_compute; tauto).
  destruct (route_sends_only_authorized healthy_surroundings demo_trusted 4 (Some edge_identity) PUT
    Idempotency.kv_uri key_headers "v" quiet demo_world claim_attempt ltac:(lia) demo_rely demo_good Hin)
    as (_ & H1 & _ & _ & H2).
  split; [exact H1|]. split; [exact H2|]. vm_compute. eexists. reflexivity.
Defined.

Definition put_customer : CustomerIdempotency :=
  match from_request (Some edge_identity) PUT Idempotency.kv_uri key_headers "v" with
  | Ok (Some c) => c
  | _ => mkCustomerIdempotency "" "" "" "" "" "" ""
  end.

Lemma idempotent_mutation_once_witness :
  exists resp_c lc lm lf,
    w_log (snd (run quiet (route healthy_surroundings (Some edge_identity) PUT Idempotency.kv_uri key_headers "v")
    demo_world)) = lc ++ lm ++ lf /\
    forwarded (Some "internal") demo_trusted (claim_request (Some edge_identity) put_customer) resp_c lc /\
    (length (maybe_applied lm) <= 1)%nat.
Proof.
  destruct (idempotent_mutation_once healthy_surroundings demo_trusted 4 (Some edge_identity) PUT
    Idempotency.kv_uri key_headers "v" put_customer quiet demo_world ltac:(lia) demo_rely demo_good
    ltac:(vm_compute; reflexivity) ltac:(vm_compute; reflexivity) ltac:(vm_compute; reflexivity))
    as (rc & lc & lm & lf & H1 & H2 & H3 & _).
  exists rc, lc, lm, lf. split; [exact H1|]. split; [exact H2|exact H3].
Defined.

Lemma route_available_witness :
  from_a_node demo_surroundings (nodes table3)
    (to_forward (Some edge_identity) GET Idempotency.kv_uri [] "")
    (fst (run quiet (route_without_customer_idempotency demo_surroundings (Some edge_identity) GET
                       Idempotency.kv_uri [] "") demo_world)).
Proof.
  apply (route_available (Inv := trusted_table demo_trusted) demo_surroundings 4 (nodes table3)
           (Some edge_identity) GET Idempotency.kv_uri [] "" "http://c:8090" quiet demo_world).
  - lia.
  - by intros k t.
  - split_and!; [apply demo_good|reflexivity|done|]. apply list_elem_of_In. vm_compute. tauto.
  - apply (bool_decide_unpack _). vm_compute. exact I.
  - intros k. exists demo_response. vm_compute. reflexivity.
  - intros k x Hx. assert (Hx' : x = "http://a:8090" \/ x = "http://b:8090" \/ x = "http://c:8090").
    { apply list_elem_of_In in Hx. vm_compute in Hx. destruct Hx as [<-|[<-|[<-|[]]]]; tauto. }
    destruct Hx' as [-> | [-> | ->]]; [right|right|left; exists demo_response]; vm_compute; reflexivity.
  - vm_compute. lia.
Defined.
