(* ===== verification/Node.v ===== *)
(** * The node's side of the idempotency record ([src/proxy.rs], tests: [FakeNode])

    What the balancer relies on at a node is written down in the source as the test
    double [FakeNode]: claims, completions and releases of records, and mutations.
    It is modelled here as an executable step on a state, and joined with the
    pipeline: the attempts of a request, as a node saw them, with other requests in
    between, answers that come late, get cut off or get lost, requests that a follower
    bounces, and mutations that another shard's leader serves.

    The theorems: while a record exists no request with its key is sent as a
    mutation, and the answer is the record's; what was stored is what every later
    retry gets. *)
From S2P Require Import Prelude RustStr Externals Instances Routing Table Identity Scopes.
From S2P Require Import Conc Directory Forward Idempotency Proxy.
Open Scope string_scope.
Open Scope list_scope.
Open Scope Z_scope.
Open Scope rust_scope.

Record FakeRecord := mkFakeRecord {
  fk_key : string;
  fk_owner : string;
  fk_fencing_token : Z;
  fk_status : string;
  fk_metadata : gmap string string;
  fk_result : option Json;
}.

Record FakeNode := mkFakeNode {
  records : gmap string FakeRecord;
  mutations : list HeaderMap;
  mutation_statuses : list Z;
  abandons : list string;
}.

(** [FakeNode::default()]. *)
Definition fake_node : FakeNode := mkFakeNode ∅ [] [] [].

Definition set_records (r : gmap string FakeRecord) (node : FakeNode) : FakeNode :=
  mkFakeNode r (mutations node) (mutation_statuses node) (abandons node).

(** A node's answer; [None] where the handler panics and the connection is dropped. *)
Record NodeAnswer := mkNodeAnswer {
  na_status : Z;
  na_headers : HeaderMap;
  na_body : string;
}.

Section Node.
Context `{HT : Http} `{SJ : SerdeJson} `{UC : UrlCrate} `{HO : HashOrder}.

(** [value[k].as_str().unwrap()] and [as_u64]. *)
Definition str_field (value : Json) (k : string) : option string :=
  let! x := json_get value k in json_as_str x.
Definition u64_field (value : Json) (k : string) : option Z :=
  let! x := json_get value k in json_as_u64 x.

(** [.iter().filter_map(..).collect()]. *)
Definition metadata_of (fields : list (string * Json)) : gmap string string :=
  fold_left (fun m '(key, value) =>
    match json_as_str value with Some value => <[key := value]> m | None => m end) fields ∅.

Definition record_json (record : FakeRecord) : Json :=
  JObj [("key", JStr (fk_key record)); ("owner", JStr (fk_owner record));
        ("fencing_token", JNum (fk_fencing_token record)); ("status", JStr (fk_status record));
        ("first_seen_ms", JNum 1); ("lease_expires_ms", JNum 2);
        ("metadata", JObj (map (fun p => (fst p, JStr (snd p))) (hash_order (fk_metadata record))));
        ("result", default JNull (fk_result record))].

Definition committed_output (output : Json) : NodeAnswer :=
  mkNodeAnswer 200 [("content-type", "application/json")]
    (json_to_vec (JObj [("committed", JBool true);
       ("result", JObj [("shard", JNum 0); ("log_index", JNum 1); ("revision", JNum 1);
                        ("output", output)])])).

Definition is_json (headers : HeaderMap) : bool :=
  match (let! value := hm_get headers "content-type" in hv_to_str value) with
  | Some value => String.eqb value "application/json"
  | None => false
  end.

Definition fake_claim (node : FakeNode) (headers : HeaderMap) (body : string)
  : option (NodeAnswer * FakeNode) :=
  if negb (is_json headers) then None
  else
    let! value := json_from_slice body in
    let! key := str_field value "key" in
    let! owner := str_field value "owner" in
    let! fields := (let! x := json_get value "metadata" in json_as_object x) in
    match records node !! key with
    | Some record =>
        Some (committed_output (JObj [("claimed", JBool false); ("duplicate", JBool true);
                ("key", JStr key); ("record", record_json record); ("revision", JNum 2)]), node)
    | None =>
        let record := mkFakeRecord key owner 99 "claimed" (metadata_of fields) None in
        Some (committed_output (JObj [("claimed", JBool true); ("duplicate", JBool false);
                ("key", JStr key); ("fencing_token", JNum 99); ("record", record_json record);
                ("revision", JNum 1)]),
              set_records (<[key := record]> (records node)) node)
    end.

Definition fake_complete (node : FakeNode) (headers : HeaderMap) (body : string)
  : option (NodeAnswer * FakeNode) :=
  let refused reason key :=
    committed_output (JObj [("completed", JBool false); ("reason", JStr reason); ("key", JStr key);
                            ("revision", JNum 3)]) in
  if negb (is_json headers) then None
  else
    let! value := json_from_slice body in
    let! key := str_field value "key" in
    let! owner := str_field value "owner" in
    let! token := u64_field value "fencing_token" in
    let result := json_get value "result" in
    match records node !! key with
    | None => Some (refused "not_found" key, node)
    | Some record =>
        if negb (String.eqb (fk_owner record) owner) || negb (fk_fencing_token record =? token)
        then Some (refused "not_holder" key, node)
        else
          let record := mkFakeRecord (fk_key record) (fk_owner record) (fk_fencing_token record)
                          "completed" (fk_metadata record) result in
          Some (committed_output (JObj [("completed", JBool true); ("duplicate", JBool false);
                  ("key", JStr key); ("record", record_json record); ("revision", JNum 3)]),
                set_records (<[key := record]> (records node)) node)
    end.

Definition fake_abandon (node : FakeNode) (body : string) : option (NodeAnswer * FakeNode) :=
  let refused reason key :=
    committed_output (JObj [("abandoned", JBool false); ("reason", JStr reason); ("key", JStr key);
                            ("revision", JNum 3)]) in
  let! value := json_from_slice body in
  let! key := str_field value "key" in
  let! token := u64_field value "fencing_token" in
  match records node !! key with
  | Some record =>
      if (fk_fencing_token record =? token) && negb (String.eqb (fk_status record) "completed")
      then Some (committed_output (JObj [("abandoned", JBool true); ("key", JStr key); ("revision", JNum 3)]),
                 mkFakeNode (delete key (records node)) (mutations node) (mutation_statuses node)
                   (abandons node ++ [key]))
      else Some (refused "not_holder" key, node)
  | None => Some (refused "not_found" key, node)
  end.

(** The path and the target of a request, as the node's server reads them. *)
Definition node_path (rq : SentRequest) : option string :=
  option_map url_path (url_parse (sr_url rq)).

Definition node_target (u : Url) : string :=
  match url_query u with Some q => url_path u +:+ "?" +:+ q | None => url_path u end.

Definition fake_mutation (node : FakeNode) (rq : SentRequest) (u : Url) : NodeAnswer * FakeNode :=
  let muts := mutations node ++ [sr_headers rq] in
  let status :=
    default 200 (let! code := head (mutation_statuses node) in status_from_u16 code) in
  (mkNodeAnswer status [("content-type", "application/json")]
     (json_to_vec (JObj [("ok", JBool (status_is_success status));
        ("method", JStr (method_as_str (sr_method rq))); ("target", JStr (node_target u));
        ("mutation_count", JNum (Z.of_nat (length muts)))])),
   mkFakeNode (records node) muts (tail (mutation_statuses node)) (abandons node)).

Definition fake_node_handler (node : FakeNode) (rq : SentRequest) : option (NodeAnswer * FakeNode) :=
  let! u := url_parse (sr_url rq) in
  let post path := String.eqb (method_as_str (sr_method rq)) "POST" && String.eqb (url_path u) path in
  if post "/v1/idempotency/claim" then fake_claim node (sr_headers rq) (sr_body rq)
  else if post "/v1/idempotency/complete" then fake_complete node (sr_headers rq) (sr_body rq)
  else if post "/v1/idempotency/abandon" then fake_abandon node (sr_body rq)
  else Some (fake_mutation node rq u).

End Node.

(** ** A request as the node saw it *)

Section Seen.
Context `{HT : Http} `{SJ : SerdeJson} `{FI : FiduciaInterfaces} `{UC : UrlCrate} `{HO : HashOrder}.

(** The paths of the idempotency protocol. *)
Definition protocol_paths : list string :=
  ["/v1/idempotency/claim"; "/v1/idempotency/complete"; "/v1/idempotency/abandon"].

(** An attempt did not arrive, or was sent on to the leader; or it was handled, and
    the answer came (in whatever pieces, late or cut off) or was lost; or, where it
    is no request of the idempotency protocol, another node dealt with it, whatever
    it answered. *)
Inductive arrives (node : FakeNode) (a : Attempt) : FakeNode -> Prop :=
| arrives_not :
    at_outcome a = NotSent \/ at_outcome a = AmbiguousTransport \/ (exists leader, at_outcome a = NotLeader leader) ->
    arrives node a node
| arrives_answered rq ans node' delay arrival :
    at_wire a = Some rq -> fake_node_handler node rq = Some (ans, node') ->
    (ar_failed arrival = false -> concat_str (map snd (ar_chunks arrival)) = na_body ans) ->
    at_outcome a = snd (receive (sr_streaming rq) STREAM_NON_BODY_TIMEOUT
      (mkReply delay (SendOk (na_status ans) (na_headers ans) arrival))) ->
    arrives node a node'
| arrives_unheard rq ans node' :
    at_wire a = Some rq -> fake_node_handler node rq = Some (ans, node') ->
    at_outcome a = AmbiguousTransport -> arrives node a node'
| arrives_elsewhere rq path reply :
    at_wire a = Some rq -> node_path rq = Some path -> path ∉ protocol_paths ->
    at_outcome a = snd (receive (sr_streaming rq) STREAM_NON_BODY_TIMEOUT reply) ->
    arrives node a node.

(** The attempts of a request on the record [k]; in between, the node serves others
    that leave the record alone. *)
Inductive seen_by (k : string) : FakeNode -> list Attempt -> FakeNode -> Prop :=
| seen_nil node : seen_by k node [] node
| seen_others node node' l node'' :
    records node' !! k = records node !! k -> seen_by k node' l node'' -> seen_by k node l node''
| seen_own node a node' l node'' :
    arrives node a node' -> seen_by k node' l node'' -> seen_by k node (a :: l) node''.

End Seen.

(** ** Lemmas: what an answer of the node amounts to *)

Section NodeLemmas.
Context `{HT : Http} `{HL : !HttpLaws} `{SJ : SerdeJson} `{JL : !SerdeJsonLaws} `{FI : FiduciaInterfaces}.
Context `{UC : UrlCrate} `{RQ : Reqwest} `{SH : Sha2} `{AB : AxumBody} `{AL : !AxumBodyLaws}.
Context `{SS : StoredSerde} `{HO : HashOrder} `{HOL : !HashOrderLaws}.

Lemma json_not_event_stream status :
  is_event_stream_response status (response_headers [("content-type", "application/json")]) = false.
Proof.
  unfold response_headers. cbn [fold_left]. change (is_hop_by_hop "content-type") with false. cbn iota.
  unfold is_event_stream_response. destruct (status_is_success status); [|done]. cbn [andb].
  destruct (hn_from_bytes "content-type") as [name|] eqn:En; [|done].
  destruct (hv_from_bytes "application/json") as [value|] eqn:Ev; [|done].
  apply hn_from_bytes_Some in En as ->. apply hv_from_bytes_Some in Ev as ->.
  change (to_ascii_lowercase "content-type") with "content-type". rewrite hm_get_insert_eq.
  by rewrite hv_to_str_visible.
Qed.

Lemma json_answer_served streaming budget delay status arrival body r :
  (ar_failed arrival = false -> concat_str (map snd (ar_chunks arrival)) = body) ->
  snd (receive streaming budget
         (mkReply delay (SendOk status [("content-type", "application/json")] arrival))) = Served r ->
  rs_status r = default 500 (status_from_u16 status) /\ rs_body r = BodyFull body.
Proof.
  intros Hb Hr. destruct (receive _ _ _) as [t out] eqn:E. cbn in Hr. subst out.
  pose proof (receive_served _ _ _ _ _ _ _ _ E) as [_ Hbody].
  assert (Hc : rs_status r = default 500 (status_from_u16 status) /\ exists b, rs_body r = BodyFull b).
  { unfold receive, timeout in E. cbn [fst snd rp_delay rp_sent] in E.
    destruct (if streaming then _ else _) as [w o] eqn:Ew.
    assert (Ho : o = None \/ o = Some (SendOk status [("content-type", "application/json")] arrival))
      by (destruct streaming; [destruct (delay <=? budget)|]; injection Ew; auto).
    destruct Ho as [-> | ->]; [done|]. rewrite json_not_event_stream in E.
    destruct (drain_upstream_body arrival) as [td [b|e]] eqn:Ed; cbn [fst snd] in E.
    - destruct streaming; [destruct (td <=? budget)|]; injection E as _ E; try done;
        apply classify_Served in E as (-> & _ & ->); eauto.
    - pose proof (drain_not_served _ _ _ r Ed).
      destruct streaming; [destruct (td <=? budget)|]; injection E as _ E; congruence. }
  destruct Hc as [Hs [b Hb']]. split; [done|]. rewrite Hb' in *. destruct Hbody as (-> & Hf & _).
  f_equal. auto.
Qed.

(** The body of an answer the balancer served to itself. *)
Lemma node_answer_served rq ans node node' a delay arrival r output :
  fake_node_handler node rq = Some (ans, node') -> ans = committed_output output ->
  (ar_failed arrival = false -> concat_str (map snd (ar_chunks arrival)) = na_body ans) ->
  at_outcome a = snd (receive (sr_streaming rq) STREAM_NON_BODY_TIMEOUT
      (mkReply delay (SendOk (na_status ans) (na_headers ans) arrival))) ->
  at_outcome a = Served r ->
  rs_status r = 200 /\ rs_body r = BodyFull (na_body ans).
Proof.
  intros _ -> Hb Ho Hs. rewrite Ho in Hs. by eapply json_answer_served in Hs.
Qed.

Lemma assoc_get_map {V W} (f : V -> W) l k :
  assoc_get k (map (fun p => (fst p, f (snd p))) l) = f <$> assoc_get k l.
Proof.
  induction l as [|[k' v] l IH]; cbn; [done|]. by destruct (String.eqb k' k).
Qed.

Lemma assoc_get_None {V} (l : list (string * V)) k : assoc_get k l = None -> forall v, (k, v) ∉ l.
Proof.
  induction l as [|[k' v'] l IH]; cbn; intros E v Hin; [by apply not_elem_of_nil in Hin|].
  destruct (String.eqb_spec k' k); [done|].
  apply elem_of_cons in Hin as [[= <- <-]|Hin]; [done|by apply (IH E v)].
Qed.

(** Whatever the order of its entries, a map is read back by its keys. *)
Lemma assoc_get_hash_order {V} (m : gmap string V) k : assoc_get k (hash_order m) = m !! k.
Proof.
  destruct (assoc_get k (hash_order m)) as [v|] eqn:E.
  - apply assoc_get_Some in E. rewrite hash_order_perm in E. symmetry. by apply elem_of_map_to_list.
  - symmetry. apply eq_None_not_Some. intros [v Hv].
    apply (assoc_get_None _ _ E v). rewrite hash_order_perm. by apply elem_of_map_to_list.
Qed.

(** A key of a map is there once among its entries. *)
Lemma once_map {V W} (f : V -> W) (m : gmap string V) k x :
  assoc_get k (map (fun p => (fst p, f (snd p))) (hash_order m)) = Some x ->
  once k (map (fun p => (fst p, f (snd p))) (hash_order m)).
Proof.
  assert (Hnd : NoDup (map fst (hash_order m))).
  { rewrite hash_order_perm. apply NoDup_fst_map_to_list. }
  unfold once. revert Hnd. induction (hash_order m) as [|[k' v] l IH]; [done|]. cbn.
  intros [Hk Hnd]%NoDup_cons. destruct (String.eqb_spec k' k) as [->|Hne]; [|by apply IH].
  intros _. cbn. f_equal. clear IH Hnd. induction l as [|[k' w] l IH]; [done|]. cbn in *.
  apply not_elem_of_cons in Hk as [Hne Hk]. destruct (String.eqb_spec k' k); [congruence|by apply IH].
Qed.

Lemma recorded_fingerprint_record record kept :
  same_json (record_json record) kept ->
  recorded_fingerprint kept = fk_metadata record !! "fingerprint".
Proof.
  intros H. unfold recorded_fingerprint.
  destruct (same_get _ _ "metadata" _ H eq_refl eq_refl) as (m & -> & Hm).
  inversion Hm as [| | | | | | |? l H1 H2]; subst. cbn [json_as_object json_get].
  pose proof (assoc_get_map JStr (hash_order (fk_metadata record)) "fingerprint") as Ha.
  rewrite assoc_get_hash_order in Ha. destruct (fk_metadata record !! "fingerprint") as [fp|]; cbn in Ha.
  - destruct (H1 _ _ (once_map _ _ _ _ Ha) Ha) as (_ & x & -> & Hx). by inversion Hx.
  - by rewrite H2.
Qed.

(** A field that occurs once is kept. *)
Lemma metadata_of_once l k s : once k l -> assoc_get k l = Some (JStr s) -> metadata_of l !! k = Some s.
Proof.
  unfold metadata_of. generalize (∅ : gmap string string).
  assert (Hnone : forall l (m : gmap string string), List.filter (fun p => String.eqb (fst p) k) l = [] ->
    fold_left (fun m '(key, value) =>
      match json_as_str value with Some value => <[key := value]> m | None => m end) l m !! k = m !! k).
  { clear. induction l as [|[k' v] l IH]; intros m; cbn; [done|].
    destruct (String.eqb_spec k' k) as [|Hne]; [done|]. intros Hl. rewrite IH by done.
    destruct (json_as_str v); [by rewrite lookup_insert_ne|done]. }
  unfold once. induction l as [|[k' v] l IH]; intros m; cbn; [done|].
  destruct (String.eqb_spec k' k) as [->|Hne]; [|by apply IH].
  intros [= Hl] [= ->]. cbn [json_as_str]. rewrite Hnone; [apply lookup_insert_eq|].
  by destruct (List.filter _ l).
Qed.

Lemma capture_full r body :
  rs_body r = BodyFull body ->
  capture_response r = (if str_len body <=? MAX_CAPTURE_BYTES
                        then Ok (mkCaptured (rs_status r) (rs_headers r) body)
                        else capture_response r) /\
  (str_len body <=? MAX_CAPTURE_BYTES = false -> exists e, capture_response r = Err e).
Proof.
  intros Hb. unfold capture_response. rewrite Hb, to_bytes_full.
  destruct (str_len body <=? MAX_CAPTURE_BYTES); [by split|]. split; [done|]. eauto.
Qed.

(** No attempt was answered with a body the balancer could take in and read. *)
Definition unread (l : list Attempt) : Prop :=
  forall a r body, a ∈ l -> at_outcome a = Served r -> rs_body r = BodyFull body ->
    str_len body <= MAX_CAPTURE_BYTES -> json_from_slice body = None.

(** What was read of a node's answer. *)
Lemma read_output output value :
  json_from_slice (na_body (committed_output output)) = Some value ->
  exists result output', json_get value "result" = Some result /\ json_get result "output" = Some output' /\
    same_json output output'.
Proof.
  intros Hv. apply json_read_back in Hv.
  destruct (same_get _ _ "result" _ Hv eq_refl eq_refl) as (result & Hr & Hs).
  destruct (same_get _ _ "output" _ Hs eq_refl eq_refl) as (output' & Ho & Hs').
  by exists result, output'.
Qed.

(** An answer to a claim: what it says, or "unavailable" when it is too large or
    cannot be read. *)
Lemma parse_claim_committed r output :
  rs_status r = 200 -> rs_body r = BodyFull (na_body (committed_output output)) ->
  ((exists d, parse_claim r = Err (idempotency_unavailable d)) /\
   forall body, rs_body r = BodyFull body -> str_len body <= MAX_CAPTURE_BYTES -> json_from_slice body = None) \/
  exists output', same_json output output' /\ parse_claim r = Ok (mkIdempotencyClaim
    (default false (let! b := json_get output' "claimed" in json_as_bool b))
    (default false (let! b := json_get output' "duplicate" in json_as_bool b))
    (let! t := json_get output' "fencing_token" in json_as_u64 t) (json_get output' "record")).
Proof.
  intros Hs Hb. destruct (capture_full r _ Hb) as [H1 H2]. unfold parse_claim.
  revert H1 H2. destruct (Z.leb_spec (str_len (na_body (committed_output output))) MAX_CAPTURE_BYTES) as [Hle|Hgt];
    intros H1 H2.
  2:{ destruct (H2 eq_refl) as [e ->]. left. split; [by eexists|]. intros body E Hle.
      assert (body = na_body (committed_output output)) as -> by congruence. lia. }
  rewrite H1. cbn [cr_status cr_body]. rewrite Hs. cbn [status_is_success in_range].
  change (negb _) with false. cbn iota.
  destruct (json_from_slice (na_body (committed_output output))) as [value|] eqn:Hv; cbn [ok_or result_bind].
  2:{ left. split; [by eexists|]. intros body E _.
      assert (body = na_body (committed_output output)) as -> by congruence. done. }
  right. destruct (read_output _ _ Hv) as (result & output' & Hr & Ho & Hs'). rewrite Hr. cbv beta iota. rewrite Ho.
  by exists output'.
Qed.

Lemma parse_claim_failed r :
  status_is_success (rs_status r) = false -> exists d, parse_claim r = Err (idempotency_unavailable d).
Proof.
  intros Hs. unfold parse_claim, capture_response. destruct (to_bytes _ _); [|by eexists].
  cbn [cr_status]. rewrite Hs. by eexists.
Qed.

Lemma parse_complete_committed r output :
  rs_status r = 200 -> rs_body r = BodyFull (na_body (committed_output output)) ->
  is_ok (parse_complete r) = true ->
  exists output', same_json output output' /\
    (let! b := json_get output' "completed" in json_as_bool b) = Some true.
Proof.
  intros Hs Hb. destruct (capture_full r _ Hb) as [H1 H2]. unfold parse_complete.
  destruct (_ <=? _); [|by destruct (H2 eq_refl) as [e ->]].
  rewrite H1. cbn [cr_status cr_body]. rewrite Hs. change (negb _) with false. cbn iota.
  destruct (json_from_slice (na_body (committed_output output))) as [value|] eqn:Hv; [|done].
  cbn [ok_or result_bind].
  destruct (read_output _ _ Hv) as (result & output' & -> & Ho & Hs'). cbv beta iota. rewrite Ho.
  cbv beta iota. intros H. exists output'. split; [done|].
  destruct (json_get output' "completed") as [v|]; [|done]. by destruct (json_as_bool v) as [[]|].
Qed.

End NodeLemmas.

(** ** Lemmas: the phases of a request at the node *)

Section Phases.
Context `{HT : Http} `{HL : !HttpLaws} `{SJ : SerdeJson} `{JL : !SerdeJsonLaws} `{FI : FiduciaInterfaces}.
Context `{UC : UrlCrate} `{RQ : Reqwest} `{SH : Sha2} `{AB : AxumBody} `{AL : !AxumBodyLaws}.
Context `{SS : StoredSerde} `{HO : HashOrder} `{HOL : !HashOrderLaws}.
Context (secret : option string) (Trusted : string -> Prop).

Lemma seen_app k node l1 l2 node' :
  seen_by k node (l1 ++ l2) node' -> exists mid, seen_by k node l1 mid /\ seen_by k mid l2 node'.
Proof.
  remember (l1 ++ l2) as l eqn:E. intros H. revert l1 E.
  induction H as [node|node n1 l n2 Hr H IH|node a n1 l n2 Ha H IH]; intros l1 E.
  - symmetry in E. apply app_eq_nil in E as [-> ->]. exists node. by split; constructor.
  - destruct (IH l1 E) as (mid & H1 & H2). exists mid. split; [by eapply seen_others|done].
  - destruct l1 as [|a' l1]; cbn in E.
    + subst l2. exists node. split; [constructor|by eapply seen_own].
    + injection E as <- ->. destruct (IH l1 eq_refl) as (mid & H1 & H2).
      exists mid. split; [by eapply seen_own|done].
Qed.

(** A property of the record that every attempt of a list keeps. *)
Lemma seen_keeps k (P : option FakeRecord -> Prop) (A : Attempt -> Prop) node l node' :
  (forall node a node', A a -> P (records node !! k) -> arrives node a node' -> P (records node' !! k)) ->
  Forall A l -> seen_by k node l node' -> P (records node !! k) -> P (records node' !! k).
Proof.
  intros Hstep Hl H. induction H as [node|node n1 l n2 Hr H IH|node a n1 l n2 Ha H IH]; intros Hp;
    [done|apply IH; [done|by rewrite Hr]|].
  apply Forall_cons in Hl as [Ha' Hl]. apply IH; [done|]. by eapply Hstep.
Qed.

(** The last attempt of a list, and the record it met and left. *)
Lemma seen_last k node pre a node' :
  seen_by k node (pre ++ [a]) node' ->
  exists n1 n2, seen_by k node pre n1 /\ arrives n1 a n2 /\ records node' !! k = records n2 !! k.
Proof.
  intros (mid & H1 & H2)%seen_app. revert H1. remember [a] as l eqn:E.
  induction H2 as [n|n n1 l n2 Hr H IH|n b n1 l n2 Hb H IH]; intros H1; [done| |].
  - apply IH; [done|]. assert (H' : seen_by k n1 [] n1) by constructor.
    clear IH H E. induction H1 as [n0|n0 m l' m' Hr' H1 IH1|n0 b m l' m' Hb H1 IH1].
    + eapply seen_others; [exact Hr|exact H'].
    + eapply seen_others; [exact Hr'|by apply IH1].
    + eapply seen_own; [exact Hb|by apply IH1].
  - injection E as -> ->. exists n, n1. split; [done|]. split; [done|].
    assert (Hn : forall x l y, seen_by k x l y -> l = [] -> records y !! k = records x !! k).
    { clear. induction 1 as [|x x' l y Hr H IH|]; intros El; [done|by rewrite IH|done]. }
    by eapply Hn.
Qed.

(** A request on the wire, as the node reads it. *)
Lemma attempt_wire request a rq :
  attempt_ok secret Trusted request a -> at_wire a = Some rq ->
  sr_body rq = fr_body request /\
  method_from_bytes (method_as_str (fr_method request)) = Some (sr_method rq) /\
  exists u, url_parse (sr_url rq) = Some u /\ url_path u = uri_path (fr_uri request).
Proof.
  intros Ha Hw. destruct (ao_wire _ _ _ _ Ha rq Hw) as (Hu & m & st & Hm & Hb).
  apply build_request_Some in Hb as (_ & _ & -> & _ & -> & _). split; [done|]. split; [done|].
  unfold upstream_url in Hu. destruct (negb _); [done|].
  destruct (url_parse _) as [u|] eqn:Eu; [|done].
  destruct (String.eqb_spec (url_path u) (uri_path (fr_uri request))); cbn [negb] in Hu; [|done].
  injection Hu as Hu. exists u. by rewrite <-Hu.
Qed.

(** An internal request reaches its own handler. *)
Lemma internal_request identity path body a rq node :
  attempt_ok secret Trusted (to_forward identity POST (uri_of_path path) json_headers body) a ->
  at_wire a = Some rq ->
  fake_node_handler node rq =
    if String.eqb path "/v1/idempotency/claim" then fake_claim node (sr_headers rq) body
    else if String.eqb path "/v1/idempotency/complete" then fake_complete node (sr_headers rq) body
    else if String.eqb path "/v1/idempotency/abandon" then fake_abandon node body
    else fake_node_handler node rq.
Proof.
  intros Ha Hw. destruct (attempt_wire _ _ _ Ha Hw) as (Hb & Hm & u & Hu & Hp).
  cbn in Hb, Hm, Hp. rewrite (method_from_as_str POST) in Hm by done. injection Hm as Hm.
  destruct (String.eqb_spec path "/v1/idempotency/claim") as [->|];
    [|destruct (String.eqb_spec path "/v1/idempotency/complete") as [->|];
    [|destruct (String.eqb_spec path "/v1/idempotency/abandon") as [->|]; [|done]]];
    unfold fake_node_handler; by rewrite Hu, <-Hm, Hp, Hb.
Qed.

Definition duplicate_claim (record : FakeRecord) (key : string) : NodeAnswer :=
  committed_output (JObj [("claimed", JBool false); ("duplicate", JBool true); ("key", JStr key);
                          ("record", record_json record); ("revision", JNum 2)]).

(** The record of a granted claim. *)
Definition fresh_record (c : CustomerIdempotency) (record : FakeRecord) : Prop :=
  exists md, record = mkFakeRecord (ci_internal_key c) (ci_owner c) 99 "claimed" md None /\
    md !! "fingerprint" = Some (ci_fingerprint c).

Definition granted_output (record : FakeRecord) : Json :=
  JObj [("claimed", JBool true); ("duplicate", JBool false); ("key", JStr (fk_key record));
        ("fencing_token", JNum 99); ("record", record_json record); ("revision", JNum 1)].

(** What a claim does to the record and answers. *)
Lemma fake_claim_spec node headers c ans node' :
  fake_claim node headers (json_to_vec (claim_body c)) = Some (ans, node') ->
  match records node !! ci_internal_key c with
  | Some record => node' = node /\ ans = duplicate_claim record (ci_internal_key c)
  | None => exists record, fresh_record c record /\ ans = committed_output (granted_output record) /\
      records node' !! ci_internal_key c = Some record
  end.
Proof.
  unfold fake_claim. destruct (negb _); [done|].
  destruct (json_from_slice (json_to_vec (claim_body c))) as [value|] eqn:Hv; [|done].
  apply json_read_back in Hv. cbv beta iota. unfold str_field.
  rewrite (same_get_str _ _ "key" (ci_internal_key c) Hv), (same_get_str _ _ "owner" (ci_owner c) Hv)
    by reflexivity. cbn [json_as_str].
  destruct (same_get _ _ "metadata" (metadata c) Hv) as (m & -> & Hm); [reflexivity..|].
  inversion Hm as [| | | | | | |? fields Hf _]; subst. cbn [json_as_object].
  destruct (Hf "fingerprint" (JStr (ci_fingerprint c)) eq_refl eq_refl) as (Ho & x & Hx & Hs).
  inversion Hs; subst. pose proof (metadata_of_once _ _ _ Ho Hx) as Hfp.
  destruct (records node !! ci_internal_key c) as [record|]; intros [= <- <-]; [done|].
  eexists. split; [by eexists|]. split; [done|]. cbn. apply lookup_insert_eq.
Qed.

(** An answer to an attempt, when the balancer took it for served. *)
Lemma arrives_served node a node' r :
  arrives node a node' -> at_outcome a = Served r ->
  exists rq, at_wire a = Some rq /\
    ((exists path, node_path rq = Some path /\ path ∉ protocol_paths) \/
     exists ans delay arrival, fake_node_handler node rq = Some (ans, node') /\
       (ar_failed arrival = false -> concat_str (map snd (ar_chunks arrival)) = na_body ans) /\
       at_outcome a = snd (receive (sr_streaming rq) STREAM_NON_BODY_TIMEOUT
         (mkReply delay (SendOk (na_status ans) (na_headers ans) arrival)))) /\
    exists reply, at_outcome a = snd (receive (sr_streaming rq) STREAM_NON_BODY_TIMEOUT reply).
Proof.
  intros [Ho|rq ans node1 delay arrival H1 H2 H3 H4|rq ans node1 _ _ Ho|rq path reply H1 H2 H3 H4] Hs.
  - destruct Ho as [?|[?|[? ?]]]; congruence.
  - exists rq. split; [done|]. split; [|by eexists]. right. by exists ans, delay, arrival.
  - congruence.
  - exists rq. split; [done|]. split; [left; by exists path|by eexists].
Qed.

(** A request of the protocol is answered by the node that keeps the records. *)
Lemma protocol_served node identity path body a node' r :
  attempt_ok secret Trusted (to_forward identity POST (uri_of_path path) json_headers body) a ->
  path ∈ protocol_paths -> arrives node a node' -> at_outcome a = Served r ->
  exists rq ans delay arrival, at_wire a = Some rq /\ fake_node_handler node rq = Some (ans, node') /\
    (ar_failed arrival = false -> concat_str (map snd (ar_chunks arrival)) = na_body ans) /\
    at_outcome a = snd (receive (sr_streaming rq) STREAM_NON_BODY_TIMEOUT
      (mkReply delay (SendOk (na_status ans) (na_headers ans) arrival))).
Proof.
  intros Ha Hp Harr Hs.
  destruct (arrives_served _ _ _ _ Harr Hs) as (rq & Hw & [(p & Hn & Hno)|(ans & delay & arrival & H)] & _).
  - exfalso. destruct (attempt_wire _ _ _ Ha Hw) as (_ & _ & u & Hu & Hpath). cbn in Hpath.
    unfold node_path in Hn. rewrite Hu in Hn. cbn in Hn. injection Hn as <-. congruence.
  - by exists rq, ans, delay, arrival.
Qed.

Lemma served_committed rq ans node node' a delay arrival r output :
  fake_node_handler node rq = Some (ans, node') -> ans = committed_output output ->
  (ar_failed arrival = false -> concat_str (map snd (ar_chunks arrival)) = na_body ans) ->
  at_outcome a = snd (receive (sr_streaming rq) STREAM_NON_BODY_TIMEOUT
      (mkReply delay (SendOk (na_status ans) (na_headers ans) arrival))) ->
  at_outcome a = Served r ->
  rs_status r = 200 /\ rs_body r = BodyFull (na_body (committed_output output)).
Proof. intros H ->. by eapply node_answer_served. Qed.

(** The final answer of a forwarded request. *)
Lemma forwarded_last request resp l :
  forwarded secret Trusted request resp l ->
  Forall (attempt_ok secret Trusted request) l /\
  (((rs_status resp = 503 \/ rs_status resp = 502) /\ forall a r, a ∈ l -> at_outcome a <> Served r) \/
   exists pre a, l = pre ++ [a] /\ at_outcome a = Served resp /\
     forall b r, b ∈ pre -> at_outcome b <> Served r).
Proof.
  destruct 1 as [shard|pre a Hok Hpre _ _].
  { split; [constructor|]. left. split; [by left|]. by intros a r ?%not_elem_of_nil. }
  split; [done|].
  assert (Hno : forall b r, b ∈ pre -> at_outcome b <> Served r).
  { intros b r Hb E. rewrite Forall_forall in Hpre. specialize (Hpre b Hb). by rewrite E in Hpre. }
  destruct (at_outcome a) as [r|leader| | |] eqn:E; [right; by exists pre, a|..]; left;
    (split; [right; cbn [final_answer]; by try destruct (method_is_replay_safe _)|]);
    intros b r [Hb|Hb]%elem_of_app; try (by apply Hno); apply list_elem_of_singleton in Hb as ->; congruence.
Qed.

(** The record as an arrived claim leaves it. *)
Lemma claim_arrives identity c node a node' :
  attempt_ok secret Trusted (claim_request identity c) a -> arrives node a node' ->
  match records node !! ci_internal_key c with
  | Some record => records node' !! ci_internal_key c = Some record
  | None => records node' !! ci_internal_key c = None \/
      exists record, fresh_record c record /\ records node' !! ci_internal_key c = Some record
  end.
Proof.
  intros Ha Harr.
  assert (Hh : forall rq ans, at_wire a = Some rq -> fake_node_handler node rq = Some (ans, node') ->
    match records node !! ci_internal_key c with
    | Some record => records node' !! ci_internal_key c = Some record
    | None => records node' !! ci_internal_key c = None \/
        exists record, fresh_record c record /\ records node' !! ci_internal_key c = Some record
    end).
  { intros rq ans Hw Hh. rewrite (internal_request _ _ _ _ _ _ Ha Hw) in Hh. cbn [String.eqb] in Hh.
    apply fake_claim_spec in Hh. destruct (records node !! _) as [record|] eqn:E.
    - by destruct Hh as [-> _].
    - right. destruct Hh as (record & Hf & _ & Hr). eauto. }
  destruct Harr as [_|rq ans n1 delay arrival H1 H2 _ _|rq ans n1 H1 H2 _|];
    [destruct (records node !! _); auto|by eapply Hh|by eapply Hh|destruct (records node !! _); auto].
Qed.

(** While the record exists, claims leave it as it is. *)
Lemma claims_keep identity c l node node' record :
  Forall (attempt_ok secret Trusted (claim_request identity c)) l ->
  seen_by (ci_internal_key c) node l node' ->
  records node !! ci_internal_key c = Some record -> records node' !! ci_internal_key c = Some record.
Proof.
  intros Hall Hseen Hr.
  apply (seen_keeps (ci_internal_key c) (fun o => o = Some record)
    (attempt_ok secret Trusted (claim_request identity c)) node l node'); try done.
  intros n a n' Ha Hn Harr. pose proof (claim_arrives _ _ _ _ _ Ha Harr) as H. by rewrite Hn in H.
Qed.

(** The answer to a claim, and the record it leaves. *)
Lemma claim_phase identity c resp lc node node' :
  forwarded secret Trusted (claim_request identity c) resp lc ->
  seen_by (ci_internal_key c) node lc node' ->
  ((exists d, parse_claim resp = Err (idempotency_unavailable d)) /\ unread lc) \/
  exists claim, parse_claim resp = Ok claim /\
    if ic_claimed claim then records node !! ci_internal_key c = None /\
      exists record, fresh_record c record /\ records node' !! ci_internal_key c = Some record
    else exists record kept, claim = mkIdempotencyClaim false true None (Some kept) /\
           same_json (record_json record) kept /\ records node' !! ci_internal_key c = Some record.
Proof.
  intros Hf Hseen. destruct (forwarded_last _ _ _ Hf) as [Hall [[H Hno]|(pre & a & -> & Hs & Hno)]].
  { left. split; [apply parse_claim_failed; by destruct H as [-> | ->]|].
    intros a r body Ha Hr. by destruct (Hno a r). }
  apply Forall_app in Hall as [Hpre Ha%Forall_inv].
  apply seen_last in Hseen as (n1 & n2 & Hseen & Harr & Hrec).
  destruct (protocol_served _ _ _ _ _ _ _ Ha ltac:(by left) Harr Hs)
    as (rq & ans & delay & arrival & Hw & Hh & Hb & Ho).
  pose proof Hh as Hc. rewrite (internal_request _ _ _ _ _ _ Ha Hw) in Hc. cbn [String.eqb] in Hc.
  change (fake_claim n1 (sr_headers rq) (json_to_vec (claim_body c)) = Some (ans, n2)) in Hc.
  pose proof (fake_claim_spec _ _ _ _ _ Hc) as Hspec. rewrite Hrec.
  assert (Hunread : (forall body, rs_body resp = BodyFull body -> str_len body <= MAX_CAPTURE_BYTES ->
    json_from_slice body = None) -> unread (pre ++ [a])).
  { intros Hu b r body [Hb'|Hb']%elem_of_app Hr; [by destruct (Hno b r)|].
    apply list_elem_of_singleton in Hb' as ->. rewrite Hs in Hr. injection Hr as <-. apply Hu. }
  destruct (records n1 !! ci_internal_key c) as [record|] eqn:E.
  - destruct Hspec as [-> ->].
    destruct (served_committed _ _ _ _ _ _ _ _ _ Hh eq_refl Hb Ho Hs) as [Hst Hbody].
    destruct (parse_claim_committed _ _ Hst Hbody) as [[Hd Hu]|(output & Hsame & Hd)]; [left; auto|]. right.
    eexists. split; [exact Hd|].
    rewrite (same_get_bool _ _ "claimed" false Hsame), (same_get_bool _ _ "duplicate" true Hsame),
      (same_get_None _ _ "fencing_token" Hsame) by reflexivity.
    destruct (same_get _ _ "record" (record_json record) Hsame) as (kept & -> & Hkept); [reflexivity..|].
    by exists record, kept.
  - destruct Hspec as (record & Hfresh & -> & Hn2).
    destruct (served_committed _ _ _ _ _ _ _ _ _ Hh eq_refl Hb Ho Hs) as [Hst Hbody].
    destruct (parse_claim_committed _ _ Hst Hbody) as [[Hd Hu]|(output & Hsame & Hd)]; [left; auto|]. right.
    eexists. split; [exact Hd|].
    rewrite (same_get_bool _ _ "claimed" true Hsame) by reflexivity. cbn [json_as_bool default ic_claimed].
    split; [|eauto]. destruct (records node !! ci_internal_key c) as [record0|] eqn:E0; [|done].
    by rewrite (claims_keep _ _ _ _ _ _ Hpre Hseen E0) in E.
Qed.

(** A mutation leaves every record alone. *)
Lemma mutation_keeps identity m uri headers body k resp lm node node' :
  is_idempotency_primitive uri = false ->
  forwarded secret Trusted (to_forward identity m uri headers body) resp lm ->
  seen_by k node lm node' -> records node' !! k = records node !! k.
Proof.
  intros Hprim Hf Hseen. destruct (forwarded_last _ _ _ Hf) as [Hall _].
  apply (seen_keeps k (fun o => o = records node !! k)
    (attempt_ok secret Trusted (to_forward identity m uri headers body)) node lm node'); try done.
  assert (Hh : forall a rq n ans n', attempt_ok secret Trusted (to_forward identity m uri headers body) a ->
    at_wire a = Some rq -> fake_node_handler n rq = Some (ans, n') -> records n' = records n).
  { intros a rq n ans n' Ha Hw. destruct (attempt_wire _ _ _ Ha Hw) as (_ & _ & u & Hu & Hp). cbn in Hp.
    unfold fake_node_handler. rewrite Hu. unfold is_idempotency_primitive in Hprim.
    assert (Hne : forall path, starts_with "/v1/idempotency" path = true ->
      String.eqb (url_path u) path = false).
    { intros path Hs. apply String.eqb_neq. intros E. rewrite Hp in E. congruence. }
    rewrite !Hne by reflexivity. rewrite !andb_false_r. by intros [= _ <-]. }
  intros n a n' Ha Hn Harr. rewrite <-Hn.
  destruct Harr as [_|rq ans n1 delay arrival H1 H2 _ _|rq ans n1 H1 H2 _|]; [done| | |done];
    by rewrite (Hh _ _ _ _ _ Ha H1 H2).
Qed.

Definition completed_record (record : FakeRecord) (v : Json) : FakeRecord :=
  mkFakeRecord (fk_key record) (fk_owner record) (fk_fencing_token record) "completed"
    (fk_metadata record) (Some v).

Lemma fake_complete_spec node headers c token v ans node' record :
  fake_complete node headers (json_to_vec (complete_body c token v)) = Some (ans, node') ->
  records node !! ci_internal_key c = Some record ->
  (exists reason, node' = node /\
     ans = committed_output (JObj [("completed", JBool false); ("reason", JStr reason);
                                   ("key", JStr (ci_internal_key c)); ("revision", JNum 3)])) \/
  exists v', same_json v v' /\ records node' !! ci_internal_key c = Some (completed_record record v').
Proof.
  unfold fake_complete. destruct (negb (is_json headers)); [done|].
  destruct (json_from_slice (json_to_vec (complete_body c token v))) as [value|] eqn:Hv; [|done].
  apply json_read_back in Hv. cbv beta iota. unfold str_field.
  rewrite (same_get_str _ _ "key" (ci_internal_key c) Hv), (same_get_str _ _ "owner" (ci_owner c) Hv)
    by reflexivity. cbn [json_as_str].
  destruct (same_get _ _ "result" v Hv) as (v' & -> & Hsame); [reflexivity..|]. cbv beta iota zeta.
  destruct (u64_field _ _) as [t|]; [|done]. intros H Hr. rewrite Hr in H.
  destruct (_ || _); injection H as <- <-; [left; by eexists|right]. exists v'. split; [done|].
  cbn. apply lookup_insert_eq.
Qed.

(** The record before or after its completion. *)
Definition around (record : FakeRecord) (v : Json) (o : option FakeRecord) : Prop :=
  o = Some record \/ exists v', same_json v v' /\ o = Some (completed_record record v').

Lemma complete_handled identity c token v a rq node ans node' record :
  attempt_ok secret Trusted (complete_request identity c token v) a -> at_wire a = Some rq ->
  fake_node_handler node rq = Some (ans, node') ->
  around record v (records node !! ci_internal_key c) ->
  (exists reason, node' = node /\
     ans = committed_output (JObj [("completed", JBool false); ("reason", JStr reason);
                                   ("key", JStr (ci_internal_key c)); ("revision", JNum 3)])) \/
  exists v', same_json v v' /\ records node' !! ci_internal_key c = Some (completed_record record v').
Proof.
  intros Ha Hw Hh Hr. rewrite (internal_request _ _ _ _ _ _ Ha Hw) in Hh. cbn [String.eqb] in Hh.
  change (fake_complete node (sr_headers rq) (json_to_vec (complete_body c token v)) = Some (ans, node')) in Hh.
  destruct Hr as [Hr|(v0 & _ & Hr)]; destruct (fake_complete_spec _ _ _ _ _ _ _ _ Hh Hr) as [?|?]; auto.
Qed.

Lemma complete_arrives identity c token v a node node' record :
  attempt_ok secret Trusted (complete_request identity c token v) a -> arrives node a node' ->
  around record v (records node !! ci_internal_key c) -> around record v (records node' !! ci_internal_key c).
Proof.
  intros Ha Harr Hr.
  destruct Harr as [_|rq ans n1 delay arrival H1 H2 _ _|rq ans n1 H1 H2 _|]; [done| | |done];
    destruct (complete_handled _ _ _ _ _ _ _ _ _ _ Ha H1 H2 Hr) as [(? & -> & _)|?];
    (done || by right).
Qed.

Lemma parse_complete_failed r : status_is_success (rs_status r) = false -> is_ok (parse_complete r) = false.
Proof.
  intros Hs. unfold parse_complete, capture_response. destruct (to_bytes _ _); [|done].
  cbn [cr_status]. by rewrite Hs.
Qed.

(** A completion that succeeded has stored the result. *)
Lemma complete_phase identity c token v resp lf node node' record :
  forwarded secret Trusted (complete_request identity c token v) resp lf ->
  seen_by (ci_internal_key c) node lf node' ->
  records node !! ci_internal_key c = Some record -> is_ok (parse_complete resp) = true ->
  exists v', same_json v v' /\ records node' !! ci_internal_key c = Some (completed_record record v').
Proof.
  intros Hf Hseen Hr Hok.
  destruct (forwarded_last _ _ _ Hf) as [Hall [[H _]|(pre & a & -> & Hs & _)]];
    [rewrite parse_complete_failed in Hok; [done|by destruct H as [-> | ->]]|].
  apply Forall_app in Hall as [Hpre Ha%Forall_inv].
  apply seen_last in Hseen as (n1 & n2 & Hseen & Harr & ->).
  assert (H1 : around record v (records n1 !! ci_internal_key c)).
  { refine (seen_keeps _ (around record v) _ node pre n1 _ Hpre Hseen _); [|by left].
    intros n b n' Hb Hn Hn'. by eapply complete_arrives. }
  destruct (protocol_served _ _ _ _ _ _ _ Ha ltac:(right; by left) Harr Hs)
    as (rq & ans & delay & arrival & Hw & Hh & Hb & Ho).
  destruct (complete_handled _ _ _ _ _ _ _ _ _ _ Ha Hw Hh H1) as [(reason & _ & Hans)|?]; [|done].
  destruct (served_committed _ _ _ _ _ _ _ _ _ Hh Hans Hb Ho Hs) as [Hst Hbody].
  destruct (parse_complete_committed _ _ Hst Hbody Hok) as (output & Hsame & Hc).
  by rewrite (same_get_bool _ _ "completed" false Hsame) in Hc.
Qed.

End Phases.

(** ** Properties *)

Section Properties.
Context `{HT : Http} `{HL : !HttpLaws} `{SJ : SerdeJson} `{JL : !SerdeJsonLaws} `{FI : FiduciaInterfaces}.
Context `{UC : UrlCrate} `{RQ : Reqwest} `{SH : Sha2} `{AB : AxumBody} `{AL : !AxumBodyLaws}.
Context `{SS : StoredSerde} `{SL : !StoredSerdeLaws} `{HO : HashOrder} `{HOL : !HashOrderLaws}.

(** The answer the balancer gives for a record that is there; or that the record
    could not be asked for, when no answer about it could be read. *)
Definition answer_of (c : CustomerIdempotency) (record : FakeRecord) (resp : Response) : Prop :=
  exists kept, same_json (record_json record) kept /\
    response_for_duplicate_claim c (mkIdempotencyClaim false true None (Some kept)) = Some resp.

Definition unavailable (resp : Response) (l : list Attempt) : Prop :=
  (exists d, resp = idempotency_unavailable d) /\ unread l.

(** The idempotent route while the record exists. *)
Lemma existing_record_run secret Trusted identity c request resp l node node' record :
  idem_run secret Trusted identity c request resp l -> seen_by (ci_internal_key c) node l node' ->
  records node !! ci_internal_key c = Some record ->
  Forall (attempt_ok secret Trusted (claim_request identity c)) l /\
  records node' !! ci_internal_key c = Some record /\ (unavailable resp l \/ answer_of c record resp).
Proof.
  intros Hrun Hseen Hr.
  assert (Hclaim : forall rc lc mid, forwarded secret Trusted (claim_request identity c) rc lc ->
    seen_by (ci_internal_key c) node lc mid ->
    Forall (attempt_ok secret Trusted (claim_request identity c)) lc /\
    records mid !! ci_internal_key c = Some record /\
    (((exists d, parse_claim rc = Err (idempotency_unavailable d)) /\ unread lc) \/
     exists kept, same_json (record_json record) kept /\
       parse_claim rc = Ok (mkIdempotencyClaim false true None (Some kept)))).
  { intros rc lc mid Hf Hs. pose proof (proj1 (forwarded_last _ _ _ _ _ Hf)) as Hall.
    pose proof (claims_keep _ _ _ _ _ _ _ _ Hall Hs Hr) as Hk. split; [done|]. split; [done|].
    destruct (claim_phase _ _ _ _ _ _ _ _ Hf Hs) as [?|(claim & Hp & Hc)]; [by left|]. right.
    destruct (ic_claimed claim); [destruct Hc; congruence|].
    destruct Hc as (record' & kept & -> & Hsame & Hr'). exists kept.
    assert (record' = record) as -> by congruence. by split. }
  assert (Hgranted : forall rc lc cl rest, forwarded secret Trusted (claim_request identity c) rc lc ->
    l = lc ++ rest -> parse_claim rc = Ok cl -> ic_claimed cl = true -> False).
  { intros rc lc cl rest Hf -> Hp Hcl. apply seen_app in Hseen as (mid & Hs & _).
    destruct (Hclaim _ _ _ Hf Hs) as (_ & _ & [[[d Hd] _]|(kept & _ & Hd)]); rewrite Hp in Hd; [done|].
    injection Hd as ->. done. }
  destruct Hrun as [rc lc e H1 Hp|rc lc cl r H1 Hp Hd|rc lc cl H1 Hp Hcl Ht
    |rc lc cl tk r lm e ra la H1 Hp Hcl|rc lc cl tk r lm cap ra la H1 Hp Hcl
    |rc lc cl tk r lm cap v rf lf H1 Hp Hcl|rc lc cl tk r lm cap H1 Hp Hcl];
    try (exfalso; eapply Hgranted; [exact H1|reflexivity|exact Hp|exact Hcl]).
  - destruct (Hclaim _ _ _ H1 Hseen) as (H2 & H3 & [[[d Hd] Hu]|(kept & _ & Hd)]); rewrite Hp in Hd; [|done].
    injection Hd as ->. split; [done|]. split; [done|]. left. split; [by eexists|done].
  - destruct (Hclaim _ _ _ H1 Hseen) as (H2 & H3 & [[[d Hd'] _]|(kept & Hsame & Hd')]); rewrite Hp in Hd'; [done|].
    injection Hd' as ->. split; [done|]. split; [done|]. right. by exists kept.
  - destruct (Hgranted rc lc cl [] H1 (eq_sym (app_nil_r lc)) Hp Hcl).
Qed.

Lemma duplicate_not_stored c claim r :
  response_for_duplicate_claim c claim = Some r ->
  hm_get (rs_headers r) FIDUCIA_IDEMPOTENCY_HEADER <> Some "stored".
Proof.
  unfold response_for_duplicate_claim. intros H. repeat (case_match; try done);
    injection H as <-; try done. unfold into_replay_response.
  destruct (st_truncated _); [done|]. destruct (hex_to_bytes _); [|done]. cbn [rs_headers].
  by rewrite hm_get_insert_eq.
Qed.

(** What is captured of a node's answer has a status code. *)
Lemma captured_status secret Trusted request r lm k node node' captured :
  forwarded secret Trusted request r lm -> seen_by k node lm node' ->
  capture_response r = Ok captured -> in_range 100 999 (cr_status captured) = true.
Proof.
  intros Hf Hseen Hc. assert (Hs : cr_status captured = rs_status r).
  { unfold capture_response in Hc. destruct (to_bytes _ _); [|done]. by injection Hc as <-. }
  rewrite Hs. destruct (forwarded_last _ _ _ _ _ Hf) as [_ [[H _]|(pre & a & -> & Ho & _)]];
    [by destruct H as [-> | ->]|].
  apply seen_last in Hseen as (n1 & n2 & _ & Harr & _).
  destruct (arrives_served _ _ _ _ Harr Ho) as (rq & _ & _ & reply & Hr).
  rewrite Ho in Hr. destruct (receive _ _ _) as [t out] eqn:E. cbn in Hr. subst out.
  by eapply receive_status_valid.
Qed.

(** A request that ended as "stored" has left its result in the record. *)
Lemma stored_run secret Trusted identity m uri headers body c resp l node node' :
  is_idempotency_primitive uri = false ->
  idem_run secret Trusted identity c (to_forward identity m uri headers body) resp l ->
  seen_by (ci_internal_key c) node l node' ->
  hm_get (rs_headers resp) FIDUCIA_IDEMPOTENCY_HEADER = Some "stored" ->
  exists captured v v' record, in_range 100 999 (cr_status captured) = true /\
    rs_status resp = cr_status captured /\ rs_body resp = BodyFull (cr_body captured) /\
    content_type_of (rs_headers resp) = content_type_of (cr_headers captured) /\
    stored_to_value (from_captured c captured) = Some v /\ same_json v v' /\ fresh_record c record /\
    records node' !! ci_internal_key c = Some (completed_record record v').
Proof.
  intros Hprim Hrun Hseen Hst.
  assert (Hmark : forall s cap, hm_get (rs_headers (mark_response s (captured_into_response cap)))
    FIDUCIA_IDEMPOTENCY_HEADER = Some s) by (intros; apply hm_get_insert_eq).
  destruct Hrun as [rc lc e H1 Hp|rc lc cl r H1 Hp Hd|rc lc cl H1 Hp Hcl Ht
    |rc lc cl tk r lm e ra la H1 Hp Hcl Ht H2 He|rc lc cl tk r lm cap ra la H1 Hp Hcl Ht H2 He Hc H3
    |rc lc cl tk r lm cap v rf lf H1 Hp Hcl Ht H2 He Hc Hv H3|rc lc cl tk r lm cap H1 Hp Hcl Ht H2 He Hc Hv];
    try (rewrite Hmark in Hst; discriminate Hst).
  - exfalso. destruct (claim_phase _ _ _ _ _ _ _ _ H1 Hseen) as [[[d Hd] _]|(claim & Hd & _)];
      rewrite Hp in Hd; [|done]. injection Hd as ->. discriminate Hst.
  - by apply duplicate_not_stored in Hd.
  - discriminate Hst.
  - unfold capture_response in He. destruct (to_bytes _ _); [done|]. injection He as <-. discriminate Hst.
  - rewrite Hmark in Hst. destruct (is_ok (parse_complete rf)) eqn:Hok; [|discriminate Hst].
    apply seen_app in Hseen as (n1 & Hs1 & (n2 & Hs2 & Hs3)%seen_app).
    destruct (claim_phase _ _ _ _ _ _ _ _ H1 Hs1) as [[[d Hd] _]|(claim & Hd & Hrec)]; rewrite Hp in Hd; [done|].
    injection Hd as <-. rewrite Hcl in Hrec. destruct Hrec as (_ & record & Hfresh & Hrec).
    rewrite <-(mutation_keeps _ _ _ _ _ _ _ _ _ _ _ _ Hprim H2 Hs2) in Hrec.
    destruct (complete_phase _ _ _ _ _ _ _ _ _ _ _ H3 Hs3 Hrec Hok) as (v' & Hsame & Hdone).
    exists cap, v, v', record. split; [by eapply (captured_status _ _ _ _ _ _ _ _ _ H2 Hs2)|].
    split; [done|]. split; [done|]. split.
    { unfold content_type_of, mark_response. cbn [rs_headers captured_into_response].
      by rewrite hm_get_insert_ne. }
    by split_and!.
Qed.

End Properties.

(** ** Properties *)

Section Retries.
Context `{HT : Http} `{HL : !HttpLaws} `{SJ : SerdeJson} `{JL : !SerdeJsonLaws} `{FI : FiduciaInterfaces}.
Context `{UC : UrlCrate} `{UL : !UrlLaws} `{RQ : Reqwest} `{FR : FiduciaRouting} `{FL : !FiduciaRoutingLaws}.
Context `{SH : Sha2} `{AB : AxumBody} `{AL : !AxumBodyLaws} `{SS : StoredSerde} `{SL : !StoredSerdeLaws}.
Context `{HO : HashOrder} `{HOL : !HashOrderLaws}.

(** A client's request, handled by some balancer among its other tasks, and its
    attempts as the record's node saw them. *)
Definition handled (S : Surroundings) (Trusted : string -> Prop) (n : Z) (identity : option VerifiedIdentity)
    (m : Method) (uri : Uri) (headers : HeaderMap) (body : string) (k : string)
    (node : FakeNode) (resp : Response) (l : list Attempt) (node' : FakeNode) : Prop :=
  exists (env : nat -> RouteTable -> RouteTable) (w : World RouteTable Attempt),
    0 < n /\ rely (good (Inv := trusted_table Trusted) Trusted n) env /\
    good (Inv := trusted_table Trusted) Trusted n (w_state w) /\
    fst (run env (route S identity m uri headers body) w) = resp /\
    w_log (snd (run env (route S identity m uri headers body) w)) = w_log w ++ l /\
    seen_by k node l node'.

Lemma handled_run S Trusted n identity m uri headers body k node resp l node' :
  handled S Trusted n identity m uri headers body k node resp l node' ->
  route_run (internal S) Trusted identity m uri headers body resp l /\ seen_by k node l node'.
Proof.
  intros (env & w & Hn & Hr & Hw & <- & Hl & Hs).
  destruct (route_trace S Trusted n Hn identity m uri headers body env w Hr Hw) as (l' & Hl' & _ & Hrun).
  rewrite Hl in Hl'. apply app_inv_head in Hl' as <-. by split.
Qed.

(** What a claim on the wire asks for. *)
Definition only_claims (l : list Attempt) : Prop :=
  Forall (fun a => forall rq, at_wire a = Some rq -> node_path rq = Some "/v1/idempotency/claim") l.

Lemma claims_only secret Trusted identity c l :
  Forall (attempt_ok secret Trusted (claim_request identity c)) l -> only_claims l.
Proof.
  intros Hl. eapply Forall_impl; [exact Hl|]. intros a Ha rq Hw.
  destruct (attempt_wire _ _ _ _ _ Ha Hw) as (_ & _ & u & Hu & Hp). unfold node_path. rewrite Hu.
  cbn. by rewrite Hp.
Qed.

(** C5. While a record exists, its key runs nothing: a request whose idempotency
    record is there, in progress or completed, sends the nodes nothing but its claim
    (whatever gets lost or sent on, and whatever else the node serves meanwhile),
    leaves the record as it is, and is answered from the record; with 503 instead only
    when no answer to the claim could be read: each attempt was lost or bounced, or
    its answer was too large or no JSON. *)
Theorem existing_record_runs_nothing (S : Surroundings) (Trusted : string -> Prop) (n : Z)
    (identity : option VerifiedIdentity) (m : Method) (uri : Uri) (headers : HeaderMap) (body : string)
    (c : CustomerIdempotency) (node node' : FakeNode) (record : FakeRecord) (resp : Response)
    (l : list Attempt) :
  path_has_dot_segment (uri_path uri) = false -> authorize_route identity m uri = Ok tt ->
  from_request identity m uri headers body = Ok (Some c) ->
  handled S Trusted n identity m uri headers body (ci_internal_key c) node resp l node' ->
  records node !! ci_internal_key c = Some record ->
  only_claims l /\ records node' !! ci_internal_key c = Some record /\
  (unavailable resp l \/
   (fk_metadata record !! "fingerprint" <> Some (ci_fingerprint c) /\ rs_status resp = 409) \/
   (fk_metadata record !! "fingerprint" = Some (ci_fingerprint c) /\ fk_status record <> "completed" /\
      resp = in_progress_response) \/
   (fk_metadata record !! "fingerprint" = Some (ci_fingerprint c) /\ fk_status record = "completed" /\
      answer_of c record resp)).
Proof.
  intros Hdot Hauth Hreq [Hrun Hseen]%handled_run Hr.
  inversion Hrun as [| | | | |c' resp' l' _ _ Hreq' Hidem]; subst; try congruence.
  rewrite Hreq in Hreq'. injection Hreq' as <-.
  destruct (existing_record_run _ _ _ _ _ _ _ _ _ _ Hidem Hseen Hr) as (H1 & H2 & H3).
  split; [by eapply claims_only|]. split; [done|].
  destruct H3 as [?|Hans]; [by left|right]. destruct Hans as (kept & Hsame & Ha).
  assert (Hans : answer_of c record resp) by by exists kept.
  unfold response_for_duplicate_claim in Ha. cbn [ic_claimed ic_duplicate ic_record negb] in Ha.
  rewrite (recorded_fingerprint_record _ _ Hsame) in Ha.
  case_bool_decide as Hf; cbn [negb] in Ha; [right|injection Ha as <-; by left].
  rewrite (same_get_str _ _ "status" (fk_status record) Hsame) in Ha by reflexivity.
  cbn [json_as_str] in Ha. case_bool_decide as Hst.
  - injection Hst as Hst. by right.
  - injection Ha as <-. left. split; [done|]. split; [congruence|done].
Qed.

(** C3. A retry gets what was stored, and runs nothing: once a request was answered
    "stored", every later request with its idempotency key, to this or another
    balancer, sends nothing but claims, leaves the record alone, and is answered with
    the first response's status, body and content type, marked as a replay (409 when
    the body exceeded 32 KiB, or when the request is another one); with 503 instead
    only when no answer to its claim could be read: each attempt was lost or bounced,
    or its answer was too large or no JSON. *)
Theorem retry_replays_stored_response (S1 S2 : Surroundings) (Trusted1 Trusted2 : string -> Prop)
    (n1 n2 : Z) (id1 id2 : option VerifiedIdentity) (m1 m2 : Method) (uri1 uri2 : Uri)
    (h1 h2 : HeaderMap) (b1 b2 : string) (c1 c2 : CustomerIdempotency)
    (node node1 node2 node3 : FakeNode) (resp1 resp2 : Response) (l1 l2 : list Attempt) :
  from_request id1 m1 uri1 h1 b1 = Ok (Some c1) ->
  from_request id2 m2 uri2 h2 b2 = Ok (Some c2) -> ci_internal_key c2 = ci_internal_key c1 ->
  path_has_dot_segment (uri_path uri2) = false -> authorize_route id2 m2 uri2 = Ok tt ->
  handled S1 Trusted1 n1 id1 m1 uri1 h1 b1 (ci_internal_key c1) node resp1 l1 node1 ->
  hm_get (rs_headers resp1) FIDUCIA_IDEMPOTENCY_HEADER = Some "stored" ->
  records node2 !! ci_internal_key c1 = records node1 !! ci_internal_key c1 ->
  handled S2 Trusted2 n2 id2 m2 uri2 h2 b2 (ci_internal_key c1) node2 resp2 l2 node3 ->
  only_claims l2 /\ records node3 !! ci_internal_key c1 = records node1 !! ci_internal_key c1 /\
  (unavailable resp2 l2 \/
   if String.eqb (ci_fingerprint c2) (ci_fingerprint c1) then
     exists first, rs_body resp1 = BodyFull first /\
       if str_len first <=? MAX_REPLAY_BODY_BYTES then
         rs_status resp2 = rs_status resp1 /\ rs_body resp2 = BodyFull first /\
         hm_get (rs_headers resp2) "content-type" = content_type_of (rs_headers resp1) /\
         hm_get (rs_headers resp2) IDEMPOTENCY_REPLAYED_HEADER = Some "true"
       else resp2 = replay_unavailable "stored response exceeded the replay body limit"
   else resp2 = idempotency_conflict "idempotency key was already used with a different request").
Proof.
  intros Hreq1 Hreq2 Hk Hdot Hauth [Hrun1 Hseen1]%handled_run Hst Hothers [Hrun2 Hseen2]%handled_run.
  pose proof (from_request_Some _ _ _ _ _ _ Hreq1) as (_ & Hprim & _).
  assert (Hidem1 : idem_run (internal S1) Trusted1 id1 c1 (to_forward id1 m1 uri1 h1 b1) resp1 l1).
  { inversion Hrun1 as [| | | | |c' resp' l' _ _ Hreq' Hidem]; subst;
      congruence || discriminate Hst. }
  destruct (stored_run _ _ _ _ _ _ _ _ _ _ _ _ Hprim Hidem1 Hseen1 Hst)
    as (captured & v & v' & record & Hrange & H1 & H2 & H3 & H4 & Hv & (md & -> & Hmd) & H5).
  rewrite H5 in Hothers |- *.
  inversion Hrun2 as [| | | | |c' resp' l' _ _ Hreq' Hidem2]; subst; try congruence.
  rewrite Hreq2 in Hreq'. injection Hreq' as <-. rewrite <-Hk in Hseen2, Hothers |- *.
  destruct (existing_record_run _ _ _ _ _ _ _ _ _ _ Hidem2 Hseen2 Hothers) as (H6 & H7 & H8).
  split; [by eapply claims_only|]. split; [done|].
  destruct H8 as [?|(kept & Hsame & Ha)]; [by left|right].
  unfold response_for_duplicate_claim in Ha. cbn [ic_claimed ic_duplicate ic_record negb] in Ha.
  rewrite (recorded_fingerprint_record _ _ Hsame) in Ha. cbn [completed_record fk_metadata] in Ha.
  rewrite Hmd in Ha.
  destruct (String.eqb_spec (ci_fingerprint c2) (ci_fingerprint c1)) as [Hf|Hf].
  2:{ rewrite bool_decide_eq_false_2 in Ha by congruence. by injection Ha. }
  rewrite bool_decide_eq_true_2 in Ha by congruence. cbn [negb] in Ha.
  rewrite (same_get_str _ _ "status" "completed" Hsame) in Ha by reflexivity.
  rewrite bool_decide_eq_true_2 in Ha by done.
  destruct (same_get _ _ "result" v' Hsame) as (v'' & Hv'' & Hs''); [reflexivity..|].
  rewrite Hv'' in Ha. cbv beta iota in Ha.
  destruct (stored_round_trip (from_captured c1 captured)) as (v0 & Hv0 & Hback).
  { cbn. unfold in_range, u16_max in *. breflect. apply andb_true_iff. rewrite !Z.leb_le. lia. }
  rewrite H4 in Hv0. injection Hv0 as <-.
  rewrite (Hback v'' (same_json_trans _ _ _ Hv Hs'')) in Ha. cbn [st_fingerprint from_captured] in Ha.
  rewrite Hf, String.eqb_refl in Ha. injection Ha as <-. exists (cr_body captured). split; [done|].
  destruct (Z.leb_spec (str_len (cr_body captured)) MAX_REPLAY_BODY_BYTES) as [Hl|Hl].
  - destruct (into_replay_from_captured c1 captured Hrange Hl) as (R1 & R2 & R3 & R4 & _).
    rewrite H1, H3. by split_and!.
  - by apply into_replay_oversized.
Qed.

End Retries.

(** ** Witnesses: a put, stored and retried *)

(** The node's answer, in one piece. *)
Definition prompt (answer : option (NodeAnswer * FakeNode)) : Reply :=
  match answer with
  | Some (ans, _) => mkReply 1 (SendOk (na_status ans) (na_headers ans) (mkArrival [(1, na_body ans)] 1 false))
  | None => mkReply 1 (SendError false)
  end.

Fixpoint serve_log (node : FakeNode) (l : list Attempt) : option FakeNode :=
  match l with
  | [] => Some node
  | a :: l =>
      match at_wire a with
      | Some rq =>
          match fake_node_handler node rq with
          | Some (ans, node') =>
              if bool_decide (at_outcome a = snd (receive (sr_streaming rq) STREAM_NON_BODY_TIMEOUT
                                                    (prompt (Some (ans, node')))))
              then serve_log node' l else None
          | None => None
          end
      | None => None
      end
  end.

Lemma serve_log_seen k node l node' : serve_log node l = Some node' -> seen_by k node l node'.
Proof.
  revert node. induction l as [|a l IH]; intros node; cbn [serve_log]; [intros [= ->]; constructor|].
  destruct (at_wire a) as [rq|] eqn:Hw; [|done].
  destruct (fake_node_handler node rq) as [[ans n1]|] eqn:Hh; [|done].
  case_bool_decide as Ho; [|done]. intros H. eapply seen_own; [|by apply IH].
  eapply arrives_answered; [exact Hw|exact Hh| |exact Ho]. intros _. cbn. by rewrite app_nil_r_str.
Qed.

(** The record of the put exists once its claim was granted. *)
Definition claimed_node : FakeNode :=
  set_records {[ci_internal_key put_customer := mkFakeRecord (ci_internal_key put_customer)
    (ci_owner put_customer) 99 "claimed" (metadata_of match metadata put_customer with JObj fields => fields | _ => [] end)
    None]} fake_node.

Definition first_net (_ : nat) (rq : SentRequest) : Reply :=
  prompt (fake_node_handler (if asks_for "/v1/idempotency/complete" rq then claimed_node else fake_node) rq).

Definition first_balancer : Surroundings := mkSurroundings (Some "internal") (fun n => Z.of_nat n) first_net.

Local Notation first_put :=
  (run quiet (route first_balancer (Some edge_identity) PUT Idempotency.kv_uri key_headers "v") demo_world).

Definition stored_node : FakeNode := default fake_node (serve_log fake_node (w_log (snd first_put))).

Definition second_balancer : Surroundings :=
  mkSurroundings (Some "internal") (fun n => Z.of_nat n)
    (fun _ rq => prompt (fake_node_handler stored_node rq)).

Local Notation second_put :=
  (run quiet (route second_balancer (Some edge_identity) PUT Idempotency.kv_uri key_headers "v") demo_world).

Lemma first_put_handled :
  handled first_balancer demo_trusted 4 (Some edge_identity) PUT Idempotency.kv_uri key_headers "v"
    (ci_internal_key put_customer) fake_node (fst first_put) (w_log (snd first_put)) stored_node.
Proof.
  exists quiet, demo_world. split; [lia|]. split; [apply demo_rely|]. split; [apply demo_good|].
  split; [reflexivity|]. split; [symmetry; apply (app_nil_l (w_log (snd first_put)))|].
  apply serve_log_seen. unfold stored_node.
  destruct (serve_log fake_node (w_log (snd first_put))) as [node|] eqn:E; [reflexivity|].
  assert (H : is_none (serve_log fake_node (w_log (snd first_put))) = false) by (vm_compute; reflexivity).
  rewrite E in H. discriminate H.
Qed.

Lemma second_put_handled :
  exists node3, handled second_balancer demo_trusted 4 (Some edge_identity) PUT Idempotency.kv_uri key_headers "v"
    (ci_internal_key put_customer) stored_node (fst second_put) (w_log (snd second_put)) node3.
Proof.
  destruct (serve_log stored_node (w_log (snd second_put))) as [node3|] eqn:E.
  - exists node3, quiet, demo_world. split; [lia|]. split; [apply demo_rely|]. split; [apply demo_good|].
    split; [reflexivity|]. split; [symmetry; apply (app_nil_l (w_log (snd second_put)))|].
    apply serve_log_seen. exact E.
  - assert (H : is_none (serve_log stored_node (w_log (snd second_put))) = false) by (vm_compute; reflexivity).
    rewrite E in H. discriminate H.
Qed.

(** The second put is answered with the first one's response, marked as a replay. *)
Lemma retry_replays_stored_response_witness :
  only_claims (w_log (snd second_put)) /\ length (w_log (snd second_put)) = 1%nat /\
  exists first, rs_body (fst first_put) = BodyFull first /\ rs_body (fst second_put) = BodyFull first /\
    hm_get (rs_headers (fst second_put)) IDEMPOTENCY_REPLAYED_HEADER = Some "true".
Proof.
  destruct second_put_handled as [node3 H2].
  assert (Hr : from_request (Some edge_identity) PUT Idempotency.kv_uri key_headers "v" = Ok (Some put_customer))
    by (vm_compute; reflexivity).
  assert (Hst : hm_get (rs_headers (fst first_put)) FIDUCIA_IDEMPOTENCY_HEADER = Some "stored")
    by (vm_compute; reflexivity).
  assert (H200 : rs_status (fst second_put) = 200) by (vm_compute; reflexivity).
  assert (Hsmall : exists first, rs_body (fst first_put) = BodyFull first /\
    (str_len first <=? MAX_REPLAY_BODY_BYTES) = true) by (eexists; vm_compute; split; reflexivity).
  destruct (retry_replays_stored_response first_balancer second_balancer demo_trusted demo_trusted 4 4
    (Some edge_identity) (Some edge_identity) PUT PUT Idempotency.kv_uri Idempotency.kv_uri key_headers
    key_headers "v" "v" put_customer put_customer fake_node stored_node stored_node node3
    (fst first_put) (fst second_put) (w_log (snd first_put)) (w_log (snd second_put))
    Hr Hr eq_refl ltac:(vm_compute; reflexivity) ltac:(vm_compute; reflexivity) first_put_handled
    Hst eq_refl H2) as (H3 & _ & H4).
  split; [exact H3|]. split; [vm_compute; reflexivity|]. rewrite String.eqb_refl in H4.
  destruct H4 as [[[d H4] _]|(first & H4 & H5)].
  { rewrite H4 in H200. discriminate H200. }
  destruct Hsmall as (first' & H6 & H7). rewrite H4 in H6. injection H6 as <-. rewrite H7 in H5.
  destruct H5 as (_ & H5 & _ & H8). exists first. split; [exact H4|]. split; [exact H5|exact H8].
Defined.

Lemma existing_record_runs_nothing_witness :
  exists node3, only_claims (w_log (snd second_put)) /\
    records node3 !! ci_internal_key put_customer = records stored_node !! ci_internal_key put_customer.
Proof.
  destruct second_put_handled as [node3 H2]. exists node3.
  assert (Hrec : exists record, records stored_node !! ci_internal_key put_customer = Some record).
  { assert (H : is_none (records stored_node !! ci_internal_key put_customer) = false)
      by (vm_compute; reflexivity).
    destruct (records stored_node !! ci_internal_key put_customer) as [record|]; [|discriminate H].
    exists record. reflexivity. }
  destruct Hrec as [record Hr].
  destruct (existing_record_runs_nothing second_balancer demo_trusted 4 (Some edge_identity) PUT
    Idempotency.kv_uri key_headers "v" put_customer stored_node node3 record (fst second_put)
    (w_log (snd second_put)) ltac:(vm_compute; reflexivity) ltac:(vm_compute; reflexivity)
    ltac:(vm_compute; reflexivity) H2 Hr) as (H3 & H4 & _).
  split; [exact H3|]. rewrite H4, Hr. reflexivity.
Defined.
