(* ===== verification/Revocation.v ===== *)
(** * Revocation decisions ([src/revocation.rs], the sequential part)

    The bounded cache of decisions with its clock high-water mark, the authority's
    answer and its checks, the cache key of a token. The theorems: the cache never
    exceeds its capacity and only evicts an oldest entry, a fresh answer is one the
    authority gave within the freshness budget, an answer is accepted exactly when
    it is consistent, and two tokens never share a key. *)
From S2P Require Import Prelude RustStr Externals Instances Identity.
Open Scope string_scope.
Open Scope list_scope.
Open Scope Z_scope.
Open Scope rust_scope.

Definition READER_HEADER : string := "x-revocation-reader-auth".
Definition MAX_RESPONSE_BYTES : Z := 16 * 1024.

Inductive Unavailable : Type := ClockRegression | RefreshFailed | RefreshTimedOut.
Inductive Authorization : Type := Allowed | Revoked | IsUnavailable (u : Unavailable).
Inductive Decision : Type := Allow | Deny.
Inductive Lookup : Type := Fresh (d : Decision) | Stale | Miss.

#[export] Instance Decision_eq_dec : EqDecision Decision.
Proof. solve_decision. Defined.
#[export] Instance Unavailable_eq_dec : EqDecision Unavailable.
Proof. solve_decision. Defined.
#[export] Instance Authorization_eq_dec : EqDecision Authorization.
Proof. solve_decision. Defined.

Record Entry := mkEntry { decision : Decision; observed_at : Z }.

Record RevocationCache := mkRevocationCache {
  entries : gmap string Entry;
  high_water : Z;
  freshness_budget_secs : Z;
  capacity : Z;
}.

Definition new_cache (freshness_budget_secs capacity : Z) : RevocationCache :=
  mkRevocationCache ∅ 0 (Z.max freshness_budget_secs 1) (Z.max capacity 1).

Definition advance (now : Z) (c : RevocationCache) : result RevocationCache unit :=
  if now <? high_water c then Err tt
  else Ok (mkRevocationCache (entries c) now (freshness_budget_secs c) (capacity c)).

Definition lookup_decision (key : string) (now : Z) (c : RevocationCache)
  : result (Lookup * RevocationCache) unit :=
  let? c := advance now c in
  Ok (match entries c !! key with
      | Some entry =>
          if u64_saturating_sub now (observed_at entry) <=? freshness_budget_secs c
          then Fresh (decision entry) else Stale
      | None => Miss
      end, c).

Definition record_refresh_start (now : Z) (c : RevocationCache) : result RevocationCache unit :=
  advance now c.

Section Apply.
Context `{HO : HashOrder}.

Definition evict_oldest (m : gmap string Entry) : gmap string Entry :=
  match min_by_key (fun p => observed_at (snd p)) (hash_order m) with
  | Some (oldest, _) => delete oldest m
  | None => m
  end.

Definition apply_decision (key : string) (d : Decision) (now : Z) (c : RevocationCache)
  : result RevocationCache unit :=
  let? c := advance now c in
  let kept :=
    if is_none (entries c !! key) && (capacity c <=? Z.of_nat (size (entries c)))
    then evict_oldest (entries c) else entries c in
  Ok (mkRevocationCache (<[key := mkEntry d now]> kept) (high_water c) (freshness_budget_secs c)
        (capacity c)).

End Apply.

Definition decision_to_authorization (d : Decision) : Authorization :=
  match d with Allow => Allowed | Deny => Revoked end.

(** ** The authority *)

Inductive AuthorityError : Type := Misconfigured | Transport | Status | Oversized | Malformed.

Inductive MatchedTarget : Type := TokenId | Subject.

Record WireDecision := mkWireDecision {
  revoked : bool;
  matched_target : option MatchedTarget;
  generation : option Z;
  expires_at : option Z;
}.

(** The derived (de)serialisers of the request and the envelope. *)
Class RevocationWire := {
  check_request_json : Claims -> string;
  envelope_from_slice : string -> option WireDecision;
}.

Definition validate_wire_decision (d : WireDecision) (now : Z) : result unit AuthorityError :=
  if revoked d then
    if is_none (matched_target d) || is_none (generation d)
       || match expires_at d with None => true | Some e => e <=? now end
    then Err Malformed else Ok tt
  else if negb (is_none (matched_target d)) || negb (is_none (generation d))
          || negb (is_none (expires_at d))
  then Err Malformed else Ok tt.

Section Authority.
Context `{HT : Http} `{RW : RevocationWire}.

(** The request to the authority; without a reader secret none is made, and a secret
    that is no header value fails the build. *)
Definition check_request (check_url : string) (reader_secret : option string) (claims : Claims)
  : result ClientRequest AuthorityError :=
  let? secret := ok_or reader_secret Misconfigured in
  let? value := ok_or (hv_from_str secret) Transport in
  Ok (mkClientRequest check_url [(READER_HEADER, value); ("content-type", "application/json")]
        (check_request_json claims)).

Definition check_answer (now : Z) (reply : ClientReply) : result bool AuthorityError :=
  match reply with
  | NoReply => Err Transport
  | Replied status body =>
      if negb (status_is_success status) then Err Status
      else
        let? body := ok_or body Transport in
        if MAX_RESPONSE_BYTES <? str_len body then Err Oversized
        else
          let? d := ok_or (envelope_from_slice body) Malformed in
          let? _ := validate_wire_decision d now in
          Ok (revoked d)
  end.

Definition check_revocation (send : ClientRequest -> ClientReply) (check_url : string)
    (reader_secret : option string) (claims : Claims) (now : Z) : result bool AuthorityError :=
  let? request := check_request check_url reader_secret claims in
  check_answer now (send request).

End Authority.

(** ** Cache keys *)

(** The [n] low bytes of a number, most significant first. *)
Fixpoint be_bytes (n : nat) (z : Z) : string :=
  match n with
  | O => ""
  | Datatypes.S n => String (chr (Z.shiftr z (8 * Z.of_nat n) mod 256)) (be_bytes n z)
  end.

(** [(len as u64).to_be_bytes()] and the field. *)
Definition length_prefixed (field : string) : string := be_bytes 8 (str_len field) +:+ field.

Definition cache_key_preimage (claims : Claims) : string :=
  concat_str (map length_prefixed
    [cl_iss claims; cl_aud claims; cl_org_id claims; cl_sub claims; cl_jti claims]).

Definition revocation_cache_key `{Sha2} (claims : Claims) : string :=
  to_hex (sha256_digest (cache_key_preimage claims)).

(** ** Invariant *)

Record cache_ok (c : RevocationCache) : Prop := {
  co_capacity : 1 <= capacity c;
  co_size : Z.of_nat (size (entries c)) <= capacity c;
  co_past : forall k e, entries c !! k = Some e -> observed_at e <= high_water c;
}.

(** ** Lemmas *)

Lemma advance_Ok now c c' :
  advance now c = Ok c' <-> high_water c <= now
  /\ c' = mkRevocationCache (entries c) now (freshness_budget_secs c) (capacity c).
Proof. unfold advance. destruct (Z.ltb_spec now (high_water c)); [naive_solver lia|naive_solver]. Qed.

Lemma advance_ok now c c' : cache_ok c -> advance now c = Ok c' -> cache_ok c'.
Proof.
  intros [H1 H2 H3] [Hn ->]%advance_Ok. split; cbn; [done|done|]. intros k e Hk.
  specialize (H3 k e Hk). lia.
Qed.

Lemma lookup_decision_Ok key now c l c' :
  lookup_decision key now c = Ok (l, c') -> advance now c = Ok c' /\
  (forall d, l = Fresh d -> exists e, entries c !! key = Some e /\ decision e = d
                            /\ now - observed_at e <= freshness_budget_secs c).
Proof.
  unfold lookup_decision. destruct (advance now c) as [c1|] eqn:E; [|done]. cbn [result_bind].
  intros [= <- <-]. split; [done|]. apply advance_Ok in E as [_ ->]. cbn. intros d Hd.
  destruct (entries c !! key) as [e|]; [|done]. exists e.
  unfold u64_saturating_sub in Hd.
  destruct (Z.leb_spec (Z.max (now - observed_at e) 0) (freshness_budget_secs c)); [|done].
  injection Hd as ->. split; [done|]. split; [done|lia].
Qed.

Section ApplyLemmas.
Context `{HO : HashOrder} `{HOL : !HashOrderLaws}.

Lemma hash_order_elem {V} (m : gmap string V) p : p ∈ hash_order m <-> m !! fst p = Some (snd p).
Proof. rewrite hash_order_perm. destruct p. apply elem_of_map_to_list. Qed.

(** Eviction removes one entry, an oldest one. *)
Lemma evict_oldest_spec m :
  m <> ∅ -> exists k e, m !! k = Some e /\ evict_oldest m = delete k m
    /\ forall k' e', m !! k' = Some e' -> observed_at e <= observed_at e'.
Proof.
  intros Hm. unfold evict_oldest.
  destruct (min_by_key _ (hash_order m)) as [[k e]|] eqn:E.
  - apply min_by_key_Some in E as [Hin Hmin]. apply hash_order_elem in Hin. cbn in Hin.
    exists k, e. split_and!; try done. intros k' e' He'.
    apply (Hmin (k', e')). by apply hash_order_elem.
  - apply min_by_key_None in E. destruct Hm. apply map_to_list_empty_iff, Permutation_nil_r.
    by rewrite <-hash_order_perm, E.
Qed.

Lemma evict_oldest_subset m k e : evict_oldest m !! k = Some e -> m !! k = Some e.
Proof.
  unfold evict_oldest. destruct (min_by_key _ _) as [[k' e']|]; [|done].
  by intros [_ ?]%lookup_delete_Some.
Qed.

Lemma apply_decision_Ok key d now c c' :
  apply_decision key d now c = Ok c' ->
  high_water c <= now /\ high_water c' = now /\ capacity c' = capacity c
  /\ freshness_budget_secs c' = freshness_budget_secs c
  /\ entries c' !! key = Some (mkEntry d now)
  /\ forall k e, k <> key -> entries c' !! k = Some e -> entries c !! k = Some e.
Proof.
  unfold apply_decision. destruct (advance now c) as [c1|] eqn:E; [|done].
  apply advance_Ok in E as [Hn ->]. cbn. intros [= <-]. cbn. split_and!; try done.
  - apply lookup_insert_eq.
  - intros k e Hk. rewrite lookup_insert_ne by done. case_match; [apply evict_oldest_subset|done].
Qed.

Lemma apply_decision_ok key d now c c' :
  cache_ok c -> apply_decision key d now c = Ok c' -> cache_ok c'.
Proof.
  intros [Hc Hs Hp] H. destruct (apply_decision_Ok _ _ _ _ _ H) as (Hn & Hhw & Hcap & _ & Hk & Ho).
  split.
  - by rewrite Hcap.
  - rewrite Hcap. unfold apply_decision in H. destruct (advance now c) as [c1|] eqn:E; [|done].
    apply advance_Ok in E as [_ ->]. cbn in H. injection H as <-. cbn.
    destruct (entries c !! key) as [e|] eqn:Ek; cbn.
    { rewrite map_size_insert, Ek. done. }
    rewrite map_size_insert.
    destruct (Z.leb_spec (capacity c) (Z.of_nat (size (entries c)))).
    + assert (Hne : entries c <> ∅) by (intros H0; rewrite H0, map_size_empty in *; lia).
      destruct (evict_oldest_spec _ Hne) as (k & e & Hke & -> & _).
      assert (delete k (entries c) !! key = None) as -> by (apply lookup_delete_None; auto).
      rewrite map_size_delete, Hke.
      assert (size (entries c) <> 0%nat) by (by intros ?%map_size_empty_inv). lia.
    + rewrite Ek. lia.
  - intros k e Hke. rewrite Hhw. destruct (decide (k = key)) as [->|Hne].
    + rewrite Hk in Hke. by injection Hke as <-.
    + specialize (Hp k e (Ho k e Hne Hke)). lia.
Qed.

End ApplyLemmas.

Lemma length_be_bytes n z : String.length (be_bytes n z) = n.
Proof. induction n; simpl; congruence. Qed.

Lemma be_bytes_inj n x y :
  0 <= x < 2 ^ (8 * Z.of_nat n) -> 0 <= y < 2 ^ (8 * Z.of_nat n) ->
  be_bytes n x = be_bytes n y -> x = y.
Proof.
  intros Hx Hy H.
  assert (G : forall m, (m <= n)%nat -> be_bytes m x = be_bytes m y -> x mod 2 ^ (8 * Z.of_nat m) = y mod 2 ^ (8 * Z.of_nat m)).
  { clear H. induction m as [|m IH]; intros Hm H; [by rewrite !Z.mod_1_r|].
    cbn [be_bytes] in H. injection H as H1 H2. specialize (IH ltac:(lia) H2).
    apply (f_equal ord) in H1. rewrite !ord_chr in H1 by (apply Z.mod_pos_bound; lia).
    rewrite !Z.shiftr_div_pow2 in H1 by lia.
    replace (8 * Z.of_nat (Datatypes.S m)) with (8 * Z.of_nat m + 8) by lia.
    rewrite !Z.pow_add_r by lia. change (2 ^ 8) with 256.
    rewrite !(Z.rem_mul_r _ (2 ^ (8 * Z.of_nat m)) 256) by lia. congruence. }
  specialize (G n (le_n n) H). by rewrite !Z.mod_small in G.
Qed.

(** A length-prefixed field is read back unambiguously. *)
Lemma length_prefixed_inj a b x y :
  str_len a < 2 ^ 64 -> str_len b < 2 ^ 64 ->
  length_prefixed a +:+ x = length_prefixed b +:+ y -> a = b /\ x = y.
Proof.
  unfold length_prefixed. intros Ha Hb. rewrite !app_assoc_str. intros H.
  apply app_inj_length in H as [Hl H]; [|by rewrite !length_be_bytes].
  apply be_bytes_inj in Hl; [|split; [apply str_len_nonneg|done]..].
  apply app_inj_length in H; [done|]. unfold str_len in Hl. lia.
Qed.

(** A decision that may be believed. *)
Definition consistent (d : WireDecision) (now : Z) : Prop :=
  if revoked d
  then is_Some (matched_target d) /\ is_Some (generation d)
       /\ exists e, expires_at d = Some e /\ now < e
  else matched_target d = None /\ generation d = None /\ expires_at d = None.

Lemma validate_wire_decision_spec d now :
  validate_wire_decision d now = Ok tt <-> consistent d now.
Proof.
  unfold validate_wire_decision, consistent, is_Some. destruct d as [rv mt ge ex]; cbn.
  destruct rv, mt, ge, ex as [e|]; cbn; try (destruct (Z.leb_spec e now); cbn); naive_solver lia.
Qed.

Section AnswerLemmas.
Context `{HT : Http} `{RW : RevocationWire}.

Lemma check_answer_spec now reply verdict :
  check_answer now reply = Ok verdict <->
  exists status body d, reply = Replied status (Some body) /\ 200 <= status <= 299 /\
    str_len body <= 16 * 1024 /\ envelope_from_slice body = Some d /\ revoked d = verdict /\
    consistent d now.
Proof.
  unfold check_answer. destruct reply as [|status [body|]]; [split; [done|naive_solver]| |].
  2:{ split; [by destruct (negb _)|naive_solver]. }
  destruct (status_is_success status) eqn:Hst; unfold status_is_success, in_range in Hst; cbn [negb].
  2:{ split; [done|]. intros (? & ? & ? & [= <- <-] & ? & _).
      apply andb_false_iff in Hst. rewrite !Z.leb_gt in Hst. lia. }
  cbn [ok_or result_bind]. breflect.
  destruct (Z.ltb_spec MAX_RESPONSE_BYTES (str_len body)) as [Hl|Hl]; unfold MAX_RESPONSE_BYTES in Hl.
  { split; [done|]. intros (? & ? & ? & [= <- <-] & _ & ? & _). lia. }
  destruct (envelope_from_slice body) as [d|] eqn:Hd; cbn [ok_or result_bind].
  2:{ split; [done|]. intros (? & ? & ? & [= <- <-] & _ & _ & ? & _). congruence. }
  rewrite result_bind_Ok. split.
  - intros ([] & Hv%validate_wire_decision_spec & [= <-]). exists status, body, d. by split_and!.
  - intros (? & ? & d' & [= <- <-] & _ & _ & Hd' & <- & Hc). rewrite Hd in Hd'. injection Hd' as <-.
    exists tt. by rewrite validate_wire_decision_spec.
Qed.

End AnswerLemmas.

(** ** Properties *)

(** The authority's word counts only when it is complete: a token is let
    through exactly on a success status with a body of at most 16 KiB that parses
    to "not revoked" with no further field set; it is revoked exactly on such a body
    that names the matched target, a generation and a future expiry; anything else
    is an error, and without a reader secret the authority is not even asked. *)
Theorem authority_answer_spec `{Http} `{RevocationWire} (send : ClientRequest -> ClientReply)
    (url : string) (secret : option string) (claims : Claims) (now : Z) (verdict : bool) :
  check_revocation send url secret claims now = Ok verdict <->
  exists s v status body d, secret = Some s /\ hv_from_str s = Some v /\
    send (mkClientRequest url [(READER_HEADER, v); ("content-type", "application/json")]
            (check_request_json claims)) = Replied status (Some body) /\
    200 <= status <= 299 /\ str_len body <= 16 * 1024 /\ envelope_from_slice body = Some d /\
    revoked d = verdict /\ consistent d now.
Proof.
  unfold check_revocation, check_request. destruct secret as [s|]; cbn [ok_or result_bind].
  - destruct (hv_from_str s) as [v|] eqn:E; cbn [ok_or result_bind]; [|split; [done|naive_solver]].
    rewrite check_answer_spec. naive_solver.
  - split; [done|naive_solver].
Qed.

(** C35. The cache key tells tokens apart: two tokens share a key only if issuer,
    audience, organisation, subject and token id all agree, as long as the digest
    does not collide on their two preimages (so a decision about one tenant's token
    is never served for another's). *)
Theorem revocation_key_separates `{!Sha2} (c1 c2 : Claims) :
  Forall (fun f => str_len f < 2 ^ 64)
    [cl_iss c1; cl_aud c1; cl_org_id c1; cl_sub c1; cl_jti c1;
     cl_iss c2; cl_aud c2; cl_org_id c2; cl_sub c2; cl_jti c2] ->
  (sha256_digest (cache_key_preimage c1) = sha256_digest (cache_key_preimage c2) ->
   cache_key_preimage c1 = cache_key_preimage c2) ->
  revocation_cache_key c1 = revocation_cache_key c2 <->
  cl_iss c1 = cl_iss c2 /\ cl_aud c1 = cl_aud c2 /\ cl_org_id c1 = cl_org_id c2
  /\ cl_sub c1 = cl_sub c2 /\ cl_jti c1 = cl_jti c2.
Proof.
  rewrite !Forall_cons. intros (? & ? & ? & ? & ? & ? & ? & ? & ? & ? & _) Hcol.
  unfold revocation_cache_key. split.
  - intros Hk%identity_hex_inj%Hcol. unfold cache_key_preimage in Hk. cbn [map concat_str foldr] in Hk.
    apply length_prefixed_inj in Hk as [? Hk]; [|done..].
    apply length_prefixed_inj in Hk as [? Hk]; [|done..].
    apply length_prefixed_inj in Hk as [? Hk]; [|done..].
    apply length_prefixed_inj in Hk as [? Hk]; [|done..].
    by apply length_prefixed_inj in Hk as [? _]; [|done..].
  - intros (E1 & E2 & E3 & E4 & E5). unfold cache_key_preimage. by rewrite E1, E2, E3, E4, E5.
Qed.

(** ** Witnesses *)

#[export] Instance demo_wire : RevocationWire := {|
  check_request_json c := cl_jti c;
  envelope_from_slice s :=
    if String.eqb s "allow" then Some (mkWireDecision false None None None)
    else if String.eqb s "deny" then Some (mkWireDecision true (Some TokenId) (Some 4) (Some 900))
    else None;
|}.

Lemma authority_answer_spec_witness :
  check_revocation (fun _ => Replied 200 (Some "deny")) "http://auth/check" (Some "reader") demo_claims 100
  = Ok true.
Proof.
  apply (authority_answer_spec (fun _ => Replied 200 (Some "deny")) "http://auth/check" (Some "reader")
           demo_claims 100 true).
  exists "reader", "reader", 200, "deny", (mkWireDecision true (Some TokenId) (Some 4) (Some 900)).
  split; [reflexivity|]. split; [reflexivity|]. split; [reflexivity|]. split; [lia|].
  split; [vm_compute; discriminate|].
  split; [reflexivity|]. split; [reflexivity|]. split; [eexists; reflexivity|].
  split; [eexists; reflexivity|]. exists 900. split; [reflexivity|lia].
Defined.

Definition other_claims : Claims :=
  mkClaims "org-b" "org-b" ["kv:read"] "fiducia-auth" "fiducia-api" 100 200 "token-a".

Lemma revocation_key_separates_witness :
  revocation_cache_key demo_claims <> revocation_cache_key other_claims.
Proof.
  intros E. apply (revocation_key_separates demo_claims other_claims) in E.
  - destruct E as (_ & _ & E & _). discriminate E.
  - repeat constructor.
  - intros Hc. vm_compute in Hc. discriminate Hc.
Defined.
