(* ===== verification/RevocationGate.v ===== *)
(** * The revocation gate under concurrency ([src/revocation.rs], [RevocationGate])

    [authorize] as a state machine per task over the shared cache, the map of
    per-key locks and the locks themselves; a step is one critical section or one
    await. Any number of tasks interleave freely; a task may be cancelled where it
    awaits. [exec] is executable, so schedules can be evaluated.

    The theorems, by induction on the schedule: at most one task per token is past
    the key's lock; an authorization rests on an answer of the authority within the
    freshness budget; no schedule deadlocks, and every task ends in at most a fixed
    number of its own steps. Two theorems exhibit schedules the code does not mean:
    a fresh permission turned into a denial, and a per-key lock that is never
    removed. *)
From S2P Require Import Prelude RustStr Externals Instances Identity Revocation.
Open Scope string_scope.
Open Scope list_scope.
Open Scope Z_scope.
Open Scope rust_scope.

(** Where a task is in [authorize]; [l] identifies the [Arc<AsyncMutex>] it holds. *)
Inductive Pc : Type :=
| Looking
| Acquiring
| Waiting (l : nat)
| Rechecking (l : nat)
| Starting (l : nat)
| Asking (l : nat)
| Applying (l : nat) (d : Decision)
| Unlocking (l : nat) (out : Authorization)
| Releasing (l : nat) (out : Authorization)
| Dropping (l : nat) (out : Authorization)
| Finished (out : Authorization)
| Cancelled.

Record Task := mkTask { t_key : string; t_now : Z; t_pc : Pc }.

Record Gate := mkGate {
  g_cache : RevocationCache;
  g_locks : gmap string nat;
  g_next : nat;
  g_held : gset nat;
  g_tasks : gmap nat Task;
  g_answers : list (string * Decision * Z);
}.

Definition new_gate (freshness_budget_secs capacity : Z) : Gate :=
  mkGate (new_cache freshness_budget_secs capacity) ∅ 0 ∅ ∅ [].

(** The outcome of asking the authority under [tokio::time::timeout]. *)
Inductive Answer : Type := TimedOut | Failed | Says (revoked : bool).

Inductive Action : Type :=
| Spawn (id : nat) (key : string) (now : Z)
| Advance (id : nat)
| Answers (id : nat) (a : Answer)
| Cancel (id : nat).

(** The [Arc] and the mutex a task holds. *)
Definition pc_arc (p : Pc) : option nat :=
  match p with
  | Waiting l | Rechecking l | Starting l | Asking l | Applying l _ | Unlocking l _
  | Releasing l _ | Dropping l _ => Some l
  | Looking | Acquiring | Finished _ | Cancelled => None
  end.

Definition pc_mutex (p : Pc) : option nat :=
  match p with
  | Rechecking l | Starting l | Asking l | Applying l _ | Unlocking l _ => Some l
  | _ => None
  end.

(** [Arc::strong_count]: the map's references and the tasks'. *)
Definition strong_count (l : nat) (g : Gate) : nat :=
  size (filter (fun p => snd p = l) (g_locks g))
  + size (filter (fun p => pc_arc (t_pc (snd p)) = Some l) (g_tasks g)).

Definition set_pc (id : nat) (t : Task) (p : Pc) (g : Gate) : Gate :=
  mkGate (g_cache g) (g_locks g) (g_next g) (g_held g)
    (<[id := mkTask (t_key t) (t_now t) p]> (g_tasks g)) (g_answers g).

Definition set_cache (c : RevocationCache) (g : Gate) : Gate :=
  mkGate c (g_locks g) (g_next g) (g_held g) (g_tasks g) (g_answers g).

Definition set_held (h : gset nat) (g : Gate) : Gate :=
  mkGate (g_cache g) (g_locks g) (g_next g) h (g_tasks g) (g_answers g).

Definition set_locks (m : gmap string nat) (next : nat) (g : Gate) : Gate :=
  mkGate (g_cache g) m next (g_held g) (g_tasks g) (g_answers g).

Definition add_answer (key : string) (d : Decision) (now : Z) (g : Gate) : Gate :=
  mkGate (g_cache g) (g_locks g) (g_next g) (g_held g) (g_tasks g)
    (g_answers g ++ [(key, d, now)]).

(** [cache_lookup] and what [authorize] does with it: an outcome, or go on. *)
Definition gate_lookup (t : Task) (g : Gate) : option Authorization * Gate :=
  match lookup_decision (t_key t) (t_now t) (g_cache g) with
  | Err _ => (Some (IsUnavailable ClockRegression), g)
  | Ok (Fresh d, c) => (Some (decision_to_authorization d), set_cache c g)
  | Ok (_, c) => (None, set_cache c g)
  end.

(** [acquire_key]. *)
Definition acquire_key (key : string) (g : Gate) : nat * Gate :=
  match g_locks g !! key with
  | Some l => (l, g)
  | None => (g_next g, set_locks (<[key := g_next g]> (g_locks g)) (S (g_next g)) g)
  end.

(** [release_key], up to the drop of its parameter. *)
Definition release_key (key : string) (l : nat) (g : Gate) : Gate :=
  if (strong_count l g <=? 2)%nat then set_locks (delete key (g_locks g)) (g_next g) g else g.

Definition verdict_of (revoked : bool) : Decision := if revoked then Deny else Allow.

Section Exec.
Context `{HO : HashOrder}.

(** One step of a task that is not waiting for an answer. *)
Definition advance_task (id : nat) (t : Task) (g : Gate) : option Gate :=
  match t_pc t with
  | Looking =>
      let (o, g) := gate_lookup t g in
      Some (set_pc id t (match o with Some out => Finished out | None => Acquiring end) g)
  | Acquiring =>
      let (l, g) := acquire_key (t_key t) g in Some (set_pc id t (Waiting l) g)
  | Waiting l =>
      if bool_decide (l ∈ g_held g) then None
      else Some (set_pc id t (Rechecking l) (set_held ({[l]} ∪ g_held g) g))
  | Rechecking l =>
      let (o, g) := gate_lookup t g in
      Some (set_pc id t (match o with Some out => Unlocking l out | None => Starting l end) g)
  | Starting l =>
      match record_refresh_start (t_now t) (g_cache g) with
      | Err _ => Some (set_pc id t (Unlocking l (IsUnavailable ClockRegression)) g)
      | Ok c => Some (set_pc id t (Asking l) (set_cache c g))
      end
  | Applying l d =>
      match apply_decision (t_key t) d (t_now t) (g_cache g) with
      | Err _ => Some (set_pc id t (Unlocking l (IsUnavailable ClockRegression)) g)
      | Ok c => Some (set_pc id t (Unlocking l (decision_to_authorization d)) (set_cache c g))
      end
  | Unlocking l out => Some (set_pc id t (Releasing l out) (set_held (g_held g ∖ {[l]}) g))
  | Releasing l out => Some (set_pc id t (Dropping l out) (release_key (t_key t) l g))
  | Dropping _ out => Some (set_pc id t (Finished out) g)
  | Asking _ | Finished _ | Cancelled => None
  end.

Definition answer_task (id : nat) (t : Task) (a : Answer) (g : Gate) : option Gate :=
  match t_pc t with
  | Asking l =>
      Some match a with
      | TimedOut => set_pc id t (Unlocking l (IsUnavailable RefreshTimedOut)) g
      | Failed => set_pc id t (Unlocking l (IsUnavailable RefreshFailed)) g
      | Says revoked =>
          set_pc id t (Applying l (verdict_of revoked))
            (add_answer (t_key t) (verdict_of revoked) (t_now t) g)
      end
  | _ => None
  end.

(** Dropping the future where it awaits: its guard and its [Arc] go with it. *)
Definition cancel_task (id : nat) (t : Task) (g : Gate) : option Gate :=
  match t_pc t with
  | Waiting _ => Some (set_pc id t Cancelled g)
  | Asking l => Some (set_pc id t Cancelled (set_held (g_held g ∖ {[l]}) g))
  | _ => None
  end.

Definition exec (a : Action) (g : Gate) : option Gate :=
  match a with
  | Spawn id key now =>
      match g_tasks g !! id with
      | Some _ => None
      | None => Some (set_pc id (mkTask key now Looking) Looking g)
      end
  | Advance id => let! t := g_tasks g !! id in advance_task id t g
  | Answers id ans => let! t := g_tasks g !! id in answer_task id t ans g
  | Cancel id => let! t := g_tasks g !! id in cancel_task id t g
  end.

Fixpoint exec_all (l : list Action) (g : Gate) : option Gate :=
  match l with
  | [] => Some g
  | a :: l => let! g := exec a g in exec_all l g
  end.

Inductive reachable (budget cap : Z) : Gate -> Prop :=
| reach_new : reachable budget cap (new_gate budget cap)
| reach_step a g g' : reachable budget cap g -> exec a g = Some g' -> reachable budget cap g'.

End Exec.

(** ** Invariant *)

(** The outcome a task carries. *)
Definition pc_out (p : Pc) : option Authorization :=
  match p with
  | Unlocking _ out | Releasing _ out | Dropping _ out | Finished out => Some out
  | _ => None
  end.

(** An outcome rests on an answer within the freshness budget. *)
Definition grounded (budget : Z) (answers : list (string * Decision * Z)) (key : string) (now : Z)
    (out : Authorization) : Prop :=
  forall d, out = decision_to_authorization d ->
    exists observed, (key, d, observed) ∈ answers /\ observed <= now <= observed + budget.

(** A task holds the [Arc] its key's entry in the map holds, unless it is about to
    drop it; a task past the lock holds the mutex. *)
Record task_ok (g : Gate) (t : Task) : Prop := {
  tk_arc : forall l, pc_arc (t_pc t) = Some l -> (exists out, t_pc t = Dropping l out)
             \/ g_locks g !! t_key t = Some l;
  tk_held : forall l, pc_mutex (t_pc t) = Some l -> l ∈ g_held g;
  tk_answer : forall l d, t_pc t = Applying l d -> (t_key t, d, t_now t) ∈ g_answers g;
  tk_out : forall out, pc_out (t_pc t) = Some out ->
    grounded (freshness_budget_secs (g_cache g)) (g_answers g) (t_key t) (t_now t) out;
}.

Record gate_ok (g : Gate) : Prop := {
  go_cache : cache_ok (g_cache g);
  go_budget : 1 <= freshness_budget_secs (g_cache g);
  go_entries : forall k e, entries (g_cache g) !! k = Some e ->
    (k, decision e, observed_at e) ∈ g_answers g;
  go_locks : forall k l, g_locks g !! k = Some l -> (l < g_next g)%nat;
  go_locks_inj : forall k1 k2 l, g_locks g !! k1 = Some l -> g_locks g !! k2 = Some l -> k1 = k2;
  go_arcs : forall i t l, g_tasks g !! i = Some t -> pc_arc (t_pc t) = Some l -> (l < g_next g)%nat;
  go_tasks : forall i t, g_tasks g !! i = Some t -> task_ok g t;
  go_held : forall l, l ∈ g_held g -> exists i t, g_tasks g !! i = Some t /\ pc_mutex (t_pc t) = Some l;
  go_mutex : forall i j t u l, g_tasks g !! i = Some t -> g_tasks g !! j = Some u ->
    pc_mutex (t_pc t) = Some l -> pc_mutex (t_pc u) = Some l -> i = j;
}.

(** The steps left to a task. *)
Definition steps_left (p : Pc) : nat :=
  match p with
  | Looking => 11 | Acquiring => 10 | Waiting _ => 9 | Rechecking _ => 8 | Starting _ => 7
  | Asking _ => 6 | Applying _ _ => 5 | Unlocking _ _ => 4 | Releasing _ _ => 3 | Dropping _ _ => 2
  | Finished _ => 0 | Cancelled => 0
  end.

(** ** Lemmas: one task's move keeps the invariant *)

Lemma grounded_mono budget a a' key now out :
  a ⊆ a' -> grounded budget a key now out -> grounded budget a' key now out.
Proof. intros Ha Hg d Hd. destruct (Hg d Hd) as (o & Ho & Hle). exists o. auto. Qed.

Lemma gate_task_ok_mono g g' u :
  task_ok g u ->
  (forall l, pc_arc (t_pc u) = Some l -> g_locks g !! t_key u = Some l -> g_locks g' !! t_key u = Some l) ->
  (forall l, pc_mutex (t_pc u) = Some l -> l ∈ g_held g -> l ∈ g_held g') ->
  g_answers g ⊆ g_answers g' ->
  freshness_budget_secs (g_cache g') = freshness_budget_secs (g_cache g) ->
  task_ok g' u.
Proof.
  intros [H1 H2 H3 H4] Hl Hh Ha Hb. split.
  - intros l Hp. destruct (H1 l Hp); [by left|right; auto].
  - auto.
  - intros l d Hp. apply Ha. eauto.
  - intros out Ho. rewrite Hb. eapply grounded_mono; eauto.
Qed.

(** What a step of task [id] to [p] has to establish. *)
Record update (g g' : Gate) (id : nat) (t : Task) (p : Pc) : Prop := {
  up_tasks : g_tasks g' = <[id := mkTask (t_key t) (t_now t) p]> (g_tasks g);
  up_cache : cache_ok (g_cache g');
  up_budget : freshness_budget_secs (g_cache g') = freshness_budget_secs (g_cache g);
  up_entries : forall k e, entries (g_cache g') !! k = Some e ->
    (k, decision e, observed_at e) ∈ g_answers g';
  up_locks : forall k l, g_locks g' !! k = Some l -> (l < g_next g')%nat;
  up_inj : forall k1 k2 l, g_locks g' !! k1 = Some l -> g_locks g' !! k2 = Some l -> k1 = k2;
  up_next : (g_next g <= g_next g')%nat;
  up_others : forall j u, j <> id -> g_tasks g !! j = Some u -> task_ok g' u;
  up_self : task_ok g' (mkTask (t_key t) (t_now t) p);
  up_arc : forall l, pc_arc p = Some l -> (l < g_next g')%nat;
  up_held : forall l, l ∈ g_held g' <->
    (l ∈ g_held g /\ pc_mutex (t_pc t) <> Some l) \/ pc_mutex p = Some l;
  up_mutex : forall l, pc_mutex p = Some l -> pc_mutex (t_pc t) = Some l \/ l ∉ g_held g;
}.

Lemma update_ok g g' id t p :
  gate_ok g -> g_tasks g !! id = Some t -> update g g' id t p -> gate_ok g'.
Proof.
  intros [Gc Gb Ge Gl Gi Ga Gt Gh Gm] Hid [Ut Uc Ub Ue Ul Ui Un Uo Us Ua Uh Um].
  assert (Hlook : forall j u, g_tasks g' !! j = Some u ->
    (j = id /\ u = mkTask (t_key t) (t_now t) p) \/ (j <> id /\ g_tasks g !! j = Some u)).
  { intros j u. rewrite Ut. intros [[<- <-]|[Hne Hj]]%lookup_insert_Some; [by left|by right]. }
  split; try done.
  - by rewrite Ub.
  - intros j u l Hj Hl. destruct (Hlook j u Hj) as [[-> ->]|[Hne Hj']]; [by apply Ua|].
    specialize (Ga j u l Hj' Hl). lia.
  - intros j u Hj. destruct (Hlook j u Hj) as [[-> ->]|[Hne Hj']]; [done|eauto].
  - intros l [[Hl Hne]|Hp]%Uh.
    + destruct (Gh l Hl) as (j & u & Hj & Hu). destruct (decide (j = id)) as [->|Hji].
      { rewrite Hid in Hj. injection Hj as <-. congruence. }
      exists j, u. by rewrite Ut, lookup_insert_ne.
    + exists id, (mkTask (t_key t) (t_now t) p). by rewrite Ut, lookup_insert_eq.
  - assert (Hself : forall j u l, j <> id -> g_tasks g !! j = Some u -> pc_mutex p = Some l ->
      pc_mutex (t_pc u) = Some l -> False).
    { intros j u l Hji Hj Hp Hu. destruct (Um l Hp) as [Ht|Hnot].
      - apply Hji. eapply Gm; eauto.
      - apply Hnot. by eapply tk_held; [eapply Gt|]. }
    intros i j u v l Hi Hj Hu Hv.
    destruct (Hlook i u Hi) as [[-> ->]|[Hne Hi']], (Hlook j v Hj) as [[-> ->]|[Hne' Hj']]; cbn in *.
    + done.
    + by destruct (Hself j v l).
    + by destruct (Hself i u l).
    + eauto.
Qed.

Lemma held_same (P : option nat) (h : gset nat) l :
  (forall l', P = Some l' -> l' ∈ h) -> l ∈ h <-> (l ∈ h /\ P <> Some l) \/ P = Some l.
Proof. intros Hh. destruct (decide (P = Some l)) as [E|E]; naive_solver. Qed.

(** A move that only changes the cache, the answers and the task's place between
    two points with the same [Arc] and mutex. *)
Lemma move_ok g c answers id t p :
  gate_ok g -> g_tasks g !! id = Some t ->
  cache_ok c -> freshness_budget_secs c = freshness_budget_secs (g_cache g) ->
  g_answers g ⊆ answers ->
  (forall k e, entries c !! k = Some e -> (k, decision e, observed_at e) ∈ answers) ->
  pc_mutex p = pc_mutex (t_pc t) ->
  (forall l, pc_arc p = Some l -> (l < g_next g)%nat
     /\ ((exists out, p = Dropping l out) \/ g_locks g !! t_key t = Some l)) ->
  (forall l d, p = Applying l d -> (t_key t, d, t_now t) ∈ answers) ->
  (forall out, pc_out p = Some out ->
     grounded (freshness_budget_secs c) answers (t_key t) (t_now t) out) ->
  gate_ok (mkGate c (g_locks g) (g_next g) (g_held g)
             (<[id := mkTask (t_key t) (t_now t) p]> (g_tasks g)) answers).
Proof.
  intros Hok Hid Hc Hb Ha He Hm Harc Happ Hout. pose proof Hok as [Gc Gb Ge Gl Gi Ga Gt Gh Gm].
  pose proof (Gt id t Hid) as Ht.
  apply (update_ok g _ id t p Hok Hid). split; cbn; try done.
  - intros j u Hj Hu. eapply gate_task_ok_mono; [by eapply Gt|done..].
  - split; cbn; [by intros l [_ ?]%Harc| |done|done].
    intros l Hl. rewrite Hm in Hl. by eapply tk_held.
  - intros l Hl. by apply Harc.
  - intros l. rewrite Hm. apply held_same. intros l'. apply (tk_held _ _ Ht).
  - intros l Hl. left. congruence.
Qed.

Lemma set_cache_id g : set_cache (g_cache g) g = g.
Proof. by destruct g. Qed.

Lemma unavailable_grounded budget a key now u : grounded budget a key now (IsUnavailable u).
Proof. intros []; discriminate. Qed.

#[export] Hint Resolve unavailable_grounded : fiducia.

Lemma decision_to_authorization_inj d d' :
  decision_to_authorization d = decision_to_authorization d' -> d = d'.
Proof. by destruct d, d'. Qed.

Lemma gate_lookup_spec t g o g' :
  gate_ok g -> gate_lookup t g = (o, g') ->
  exists c, g' = set_cache c g /\ cache_ok c /\ entries c = entries (g_cache g)
    /\ freshness_budget_secs c = freshness_budget_secs (g_cache g)
    /\ forall out, o = Some out ->
         grounded (freshness_budget_secs c) (g_answers g) (t_key t) (t_now t) out.
Proof.
  intros Hok. unfold gate_lookup.
  destruct (lookup_decision (t_key t) (t_now t) (g_cache g)) as [[l c]|e] eqn:E.
  - apply lookup_decision_Ok in E as [Ha Hf]. pose proof (advance_ok _ _ _ (go_cache g Hok) Ha) as Hc.
    apply advance_Ok in Ha as [Hn ->]. set (c := mkRevocationCache _ _ _ _) in *.
    assert (Hg : g' = set_cache c g /\ (forall out, o = Some out -> exists d, l = Fresh d
        /\ out = decision_to_authorization d) -> exists c, g' = set_cache c g /\ cache_ok c
      /\ entries c = entries (g_cache g)
      /\ freshness_budget_secs c = freshness_budget_secs (g_cache g)
      /\ forall out, o = Some out ->
         grounded (freshness_budget_secs c) (g_answers g) (t_key t) (t_now t) out).
    { intros [-> Ho]. exists c. split_and!; try done. intros out Hout.
      destruct (Ho out Hout) as (d & Hl & ->). intros d' <-%decision_to_authorization_inj.
      destruct (Hf d Hl) as (e & He & <- & Hle). exists (observed_at e).
      split; [by apply (go_entries g Hok)|].
      pose proof (co_past _ (go_cache g Hok) _ _ He). cbn. lia. }
    destruct l; intros [= <- <-]; apply Hg; split; naive_solver.
  - intros [= <- <-]. exists (g_cache g). rewrite set_cache_id.
    split_and!; try done; [apply Hok|]. intros out [= <-]. apply unavailable_grounded.
Qed.

(** ** Lemmas: every action keeps the invariant *)

Section Steps.
Context `{HO : HashOrder} `{HOL : !HashOrderLaws}.

Lemma pc_arc_ok g id t l :
  gate_ok g -> g_tasks g !! id = Some t -> pc_arc (t_pc t) = Some l ->
  (forall out, t_pc t <> Dropping l out) ->
  (l < g_next g)%nat /\ g_locks g !! t_key t = Some l.
Proof.
  intros Hok Hid Hl Hnd. split; [by eapply go_arcs|].
  destruct (tk_arc _ _ (go_tasks g Hok _ _ Hid) l Hl) as [[out Ho]|Ho]; [by destruct (Hnd out)|done].
Qed.

(** Acquiring the key's lock from the map. *)
Lemma acquire_ok g id t :
  gate_ok g -> g_tasks g !! id = Some t -> t_pc t = Acquiring ->
  let (l, g') := acquire_key (t_key t) g in gate_ok (set_pc id t (Waiting l) g').
Proof.
  intros Hok Hid Hpc. pose proof Hok as [Gc Gb Ge Gl Gi Ga Gt Gh Gm]. unfold acquire_key.
  destruct (g_locks g !! t_key t) as [l|] eqn:El.
  - apply (move_ok g (g_cache g) (g_answers g)); try done; [by rewrite Hpc|].
    intros l' [= <-]. eauto.
  - apply (update_ok g _ id t (Waiting (g_next g)) Hok Hid). split; cbn; try done.
    + intros k l [[_ <-]|[_ Hk]]%lookup_insert_Some; [lia|]. specialize (Gl k l Hk). lia.
    + intros k1 k2 l [[<- <-]|[Hn1 H1]]%lookup_insert_Some [[<- Hl]|[Hn2 H2]]%lookup_insert_Some;
        try done; [by specialize (Gl _ _ H2); lia|by specialize (Gl _ _ H1); lia|eauto].
    + lia.
    + intros j u Hj Hu. eapply gate_task_ok_mono; [by eapply Gt|cbn|done..].
      intros l _ Hl. rewrite lookup_insert_ne; [done|]. intros E. congruence.
    + split; cbn; try done. intros l [= <-]. right. apply lookup_insert_eq.
    + intros l [= <-]. lia.
    + intros l. rewrite Hpc. cbn. naive_solver.
Qed.

Lemma waiting_ok g id t l :
  gate_ok g -> g_tasks g !! id = Some t -> t_pc t = Waiting l -> l ∉ g_held g ->
  gate_ok (set_pc id t (Rechecking l) (set_held ({[l]} ∪ g_held g) g)).
Proof.
  intros Hok Hid Hpc Hl. pose proof Hok as [Gc Gb Ge Gl Gi Ga Gt Gh Gm].
  destruct (pc_arc_ok g id t l Hok Hid) as [Hlt Hk]; [by rewrite Hpc|by rewrite Hpc|].
  apply (update_ok g _ id t (Rechecking l) Hok Hid). split; cbn; try done.
  - intros j u Hj Hu. eapply gate_task_ok_mono; [by eapply Gt|done|cbn; set_solver|done..].
  - split; cbn; try done; intros l' [= <-]; [by right|set_solver].
  - by intros l' [= <-].
  - intros l'. rewrite Hpc, elem_of_union, elem_of_singleton. cbn. naive_solver.
  - intros l' [= <-]. by right.
Qed.

(** Giving the mutex up, with an outcome or by cancellation. *)
Lemma unlock_ok g id t l p :
  gate_ok g -> g_tasks g !! id = Some t -> pc_mutex (t_pc t) = Some l -> pc_mutex p = None ->
  (forall l', pc_arc p = Some l' -> l' = l /\ pc_arc (t_pc t) = Some l /\ forall out, t_pc t <> Dropping l out) ->
  (forall l d, p <> Applying l d) ->
  (forall out, pc_out p = Some out ->
     grounded (freshness_budget_secs (g_cache g)) (g_answers g) (t_key t) (t_now t) out) ->
  gate_ok (set_pc id t p (set_held (g_held g ∖ {[l]}) g)).
Proof.
  intros Hok Hid Hm Hp Harc Happ Hout. pose proof Hok as [Gc Gb Ge Gl Gi Ga Gt Gh Gm].
  assert (Harc' : forall l', pc_arc p = Some l' -> (l' < g_next g)%nat /\ g_locks g !! t_key t = Some l').
  { intros l' Hl'. destruct (Harc l' Hl') as (-> & Ha & Hnd). by eapply pc_arc_ok. }
  apply (update_ok g _ id t p Hok Hid). split; cbn; try done.
  - intros j u Hj Hu. eapply gate_task_ok_mono; [by eapply Gt|done|cbn|done..].
    intros l' Hl' Hin. apply elem_of_difference. split; [done|]. rewrite elem_of_singleton.
    intros ->. apply Hj. eapply Gm; eauto.
  - split; cbn; [|by rewrite Hp|by intros l' d E%Happ|done].
    intros l' Hl'. right. by apply Harc'.
  - intros l' Hl'. by apply Harc'.
  - intros l'. rewrite elem_of_difference, elem_of_singleton, Hm, Hp. naive_solver.
  - by rewrite Hp.
Qed.

(** The key's lock leaves the map only when no other task holds it. *)
Lemma strong_count_others g id t l :
  g_tasks g !! id = Some t -> pc_arc (t_pc t) = Some l -> g_locks g !! t_key t = Some l ->
  (strong_count l g <= 2)%nat ->
  forall j u, j <> id -> g_tasks g !! j = Some u -> pc_arc (t_pc u) <> Some l.
Proof.
  intros Hid Hl Hk Hsc j u Hj Hu Hul. unfold strong_count in Hsc.
  assert (H1 : (1 <= size (filter (fun p : string * nat => snd p = l) (g_locks g)))%nat).
  { destruct (size _) eqn:E; [|lia]. apply map_size_empty_inv in E.
    assert (Hf : filter (fun p : string * nat => snd p = l) (g_locks g) !! t_key t = Some l)
      by by apply map_lookup_filter_Some. by rewrite E, lookup_empty in Hf. }
  assert (H2 : (2 <= size (filter (fun p : nat * Task => pc_arc (t_pc (snd p)) = Some l) (g_tasks g)))%nat).
  { assert (Hsub : {[id; j]} ⊆ dom (filter (fun p : nat * Task => pc_arc (t_pc (snd p)) = Some l) (g_tasks g))).
    { intros x. rewrite elem_of_union, !elem_of_singleton, elem_of_dom.
      intros [-> | ->]; [exists t|exists u]; by apply map_lookup_filter_Some. }
    apply subseteq_size in Hsub. rewrite size_dom in Hsub.
    rewrite size_union in Hsub by set_solver. rewrite !size_singleton in Hsub. lia. }
  lia.
Qed.

Lemma release_ok g id t l out :
  gate_ok g -> g_tasks g !! id = Some t -> t_pc t = Releasing l out ->
  gate_ok (set_pc id t (Dropping l out) (release_key (t_key t) l g)).
Proof.
  intros Hok Hid Hpc. pose proof Hok as [Gc Gb Ge Gl Gi Ga Gt Gh Gm].
  destruct (pc_arc_ok g id t l Hok Hid) as [Hlt Hk]; [by rewrite Hpc|by rewrite Hpc|].
  pose proof (tk_out _ _ (Gt id t Hid) out ltac:(by rewrite Hpc)) as Hout.
  unfold release_key. destruct (Nat.leb_spec (strong_count l g) 2) as [Hsc|Hsc].
  2:{ apply (move_ok g (g_cache g) (g_answers g)); try done; [by rewrite Hpc| |by intros ? [= <-]].
      intros l' [= <-]. split; [done|]. left. eauto. }
  pose proof (strong_count_others g id t l Hid ltac:(by rewrite Hpc) Hk Hsc) as Hothers.
  apply (update_ok g _ id t (Dropping l out) Hok Hid). split; cbn; try done.
  - intros k l' [_ Hk']%lookup_delete_Some. eauto.
  - intros k1 k2 l' [_ H1]%lookup_delete_Some [_ H2]%lookup_delete_Some. eauto.
  - intros j u Hj Hu. eapply gate_task_ok_mono; [by eapply Gt|cbn|done..].
    intros l' Hl' Hlk. apply lookup_delete_Some. split; [|done]. intros E. rewrite <-E in Hlk.
    rewrite Hk in Hlk. injection Hlk as ->. by eapply Hothers.
  - split; cbn; try done; [|by intros ? [= <-]]. intros l' [= <-]. left. eauto.
  - by intros l' [= <-].
  - intros l'. rewrite Hpc. apply held_same. done.
Qed.

Lemma spawn_ok g id key now :
  gate_ok g -> g_tasks g !! id = None -> gate_ok (set_pc id (mkTask key now Looking) Looking g).
Proof.
  intros [Gc Gb Ge Gl Gi Ga Gt Gh Gm] Hid.
  assert (Hlook : forall j u, <[id := mkTask key now Looking]> (g_tasks g) !! j = Some u ->
    u = mkTask key now Looking \/ g_tasks g !! j = Some u).
  { intros j u [[_ <-]|[_ ?]]%lookup_insert_Some; auto. }
  split; cbn; try done.
  - intros j u l Hj Hl. destruct (Hlook j u Hj) as [->|Hj']; [done|eauto].
  - intros j u Hj. destruct (Hlook j u Hj) as [->|Hj']; [by split|].
    by eapply gate_task_ok_mono; [eapply Gt| | | |].
  - intros l Hl. destruct (Gh l Hl) as (j & u & Hj & Hu). exists j, u.
    rewrite lookup_insert_ne; [done|]. intros ->. congruence.
  - intros i j u v l Hi Hj Hu Hv.
    apply lookup_insert_Some in Hi as [[_ <-]|[_ Hi]]; [done|].
    apply lookup_insert_Some in Hj as [[_ <-]|[_ Hj]]; [done|]. eauto.
Qed.

(** A move between two points with the same [Arc] and mutex, with a cache that has
    the same entries. *)
Lemma step_ok g c id t p :
  gate_ok g -> g_tasks g !! id = Some t -> cache_ok c ->
  freshness_budget_secs c = freshness_budget_secs (g_cache g) -> entries c = entries (g_cache g) ->
  pc_mutex p = pc_mutex (t_pc t) -> (pc_arc p = None \/ pc_arc p = pc_arc (t_pc t)) ->
  (forall l out, t_pc t = Dropping l out -> pc_arc p = None) -> (forall l d, p <> Applying l d) ->
  (forall out, pc_out p = Some out ->
     grounded (freshness_budget_secs c) (g_answers g) (t_key t) (t_now t) out) ->
  gate_ok (set_pc id t p (set_cache c g)).
Proof.
  intros Hok Hid Hc Hb He Hm Ha Hd Happ Hout.
  apply (move_ok g c (g_answers g)); try done; [rewrite He; apply Hok| |by intros l d E%Happ].
  intros l Hl. destruct Ha as [Ha|Ha]; [congruence|]. rewrite Ha in Hl.
  destruct (pc_arc_ok g id t l Hok Hid Hl); [|by auto]. intros out Ho.
  specialize (Hd l out Ho). congruence.
Qed.

Lemma applying_ok g id t l d c :
  gate_ok g -> g_tasks g !! id = Some t -> t_pc t = Applying l d ->
  apply_decision (t_key t) d (t_now t) (g_cache g) = Ok c ->
  gate_ok (set_pc id t (Unlocking l (decision_to_authorization d)) (set_cache c g)).
Proof.
  intros Hok Hid Hpc Happ. pose proof (tk_answer _ _ (go_tasks g Hok _ _ Hid) l d Hpc) as Hin.
  pose proof (apply_decision_ok _ _ _ _ _ (go_cache g Hok) Happ) as Hc.
  destruct (apply_decision_Ok _ _ _ _ _ Happ) as (_ & _ & _ & Hb & Hk & Ho).
  pose proof (go_budget g Hok). apply (move_ok g c (g_answers g)); try done.
  - intros k e Hke. destruct (decide (k = t_key t)) as [->|Hne].
    + rewrite Hk in Hke. by injection Hke as <-.
    + by apply (go_entries g Hok), (Ho k e Hne).
  - by rewrite Hpc.
  - intros l' [= <-]. destruct (pc_arc_ok g id t l Hok Hid); rewrite ?Hpc; auto.
  - intros out [= <-] d' <-%decision_to_authorization_inj. exists (t_now t). split; [done|lia].
Qed.

Lemma advance_task_ok g g' id t :
  gate_ok g -> g_tasks g !! id = Some t -> advance_task id t g = Some g' -> gate_ok g'.
Proof.
  intros Hok Hid. unfold advance_task.
  pose proof (tk_out _ _ (go_tasks g Hok _ _ Hid)) as Hout.
  destruct (t_pc t) as [| |l|l|l|l|l d|l out|l out|l out|out|] eqn:Hpc; try done.
  - destruct (gate_lookup t g) as [o g1] eqn:E. intros [= <-].
    apply gate_lookup_spec in E as (c & -> & Hc & He & Hb & Ho); [|done].
    apply step_ok; rewrite ?Hpc; try done; destruct o; try done; auto; intros ? [= <-]; by apply Ho.
  - destruct (acquire_key (t_key t) g) as [l g1] eqn:E. intros [= <-].
    pose proof (acquire_ok g id t Hok Hid Hpc) as H. by rewrite E in H.
  - case_bool_decide; [done|]. intros [= <-]. by apply waiting_ok.
  - destruct (gate_lookup t g) as [o g1] eqn:E. intros [= <-].
    apply gate_lookup_spec in E as (c & -> & Hc & He & Hb & Ho); [|done].
    apply step_ok; rewrite ?Hpc; try done; destruct o; try done; auto; intros ? [= <-]; by apply Ho.
  - unfold record_refresh_start. destruct (advance (t_now t) (g_cache g)) as [c|] eqn:E; intros [= <-].
    + pose proof (advance_ok _ _ _ (go_cache g Hok) E). apply advance_Ok in E as [_ ->].
      apply step_ok; rewrite ?Hpc; auto; done.
    + rewrite <-(set_cache_id g). apply step_ok; rewrite ?Hpc; auto; try done; [apply Hok|].
      intros ? [= <-]. apply unavailable_grounded.
  - destruct (apply_decision _ _ _ _) as [c|] eqn:E; intros [= <-]; [by eapply applying_ok|].
    rewrite <-(set_cache_id g). apply step_ok; rewrite ?Hpc; auto; try done; [apply Hok|].
    intros ? [= <-]. apply unavailable_grounded.
  - intros [= <-]. apply unlock_ok; rewrite ?Hpc; try done. intros l' [= <-]. by split_and!.
  - intros [= <-]. by apply release_ok.
  - intros [= <-]. rewrite <-(set_cache_id g). apply step_ok; rewrite ?Hpc; auto; try done.
    apply Hok.
Qed.

Lemma answer_task_ok g g' id t a :
  gate_ok g -> g_tasks g !! id = Some t -> answer_task id t a g = Some g' -> gate_ok g'.
Proof.
  intros Hok Hid. unfold answer_task. destruct (t_pc t) as [| | | | |l| | | | | |] eqn:Hpc; try done.
  destruct (pc_arc_ok g id t l Hok Hid) as [Hlt Hk]; [by rewrite Hpc|by rewrite Hpc|].
  intros [= <-]. destruct a as [| |rv].
  1-2: rewrite <-(set_cache_id g); apply step_ok; rewrite ?Hpc; auto; try done; [apply Hok|];
    intros ? [= <-]; apply unavailable_grounded.
  apply (move_ok g (g_cache g) (g_answers g ++ [(t_key t, verdict_of rv, t_now t)])); try done.
  - apply Hok.
  - set_solver.
  - intros k e Hke. apply elem_of_app. left. by apply (go_entries g Hok).
  - by rewrite Hpc.
  - intros l' [= <-]. auto.
  - intros l' d [= _ <-]. apply elem_of_app. right. left.
Qed.

Lemma cancel_task_ok g g' id t :
  gate_ok g -> g_tasks g !! id = Some t -> cancel_task id t g = Some g' -> gate_ok g'.
Proof.
  intros Hok Hid. unfold cancel_task. destruct (t_pc t) as [| |l| | |l| | | | | |] eqn:Hpc; try done;
    intros [= <-].
  - rewrite <-(set_cache_id g). apply step_ok; rewrite ?Hpc; auto; try done. apply Hok.
  - apply unlock_ok; rewrite ?Hpc; done.
Qed.

Lemma exec_ok a g g' : gate_ok g -> exec a g = Some g' -> gate_ok g'.
Proof.
  intros Hok. destruct a as [id key now|id|id ans|id]; cbn [exec];
    destruct (g_tasks g !! id) as [t|] eqn:Hid; try done.
  - intros [= <-]. by apply spawn_ok.
  - by apply advance_task_ok.
  - by apply answer_task_ok.
  - by apply cancel_task_ok.
Qed.

Lemma new_gate_ok budget cap : gate_ok (new_gate budget cap).
Proof.
  split; cbn; try done; try lia.
  split; cbn; try lia; try done. rewrite map_size_empty. lia.
Qed.

Lemma reachable_ok budget cap g : reachable budget cap g -> gate_ok g.
Proof. induction 1; [apply new_gate_ok|by eapply exec_ok]. Qed.

End Steps.

(** ** Lemmas: parameters and the measure *)

Section Measure.
Context `{HO : HashOrder} `{HOL : !HashOrderLaws}.

Lemma gate_lookup_params t g :
  let c := g_cache (snd (gate_lookup t g)) in
  freshness_budget_secs c = freshness_budget_secs (g_cache g) /\ capacity c = capacity (g_cache g)
  /\ g_tasks (snd (gate_lookup t g)) = g_tasks g.
Proof.
  unfold gate_lookup. destruct (lookup_decision _ _ _) as [[l c]|] eqn:E; [|done].
  apply lookup_decision_Ok in E as [[_ ->]%advance_Ok _]. by destruct l.
Qed.

Ltac finish_move t Hpc :=
  split_and!; try done; eexists t, _; rewrite Hpc; cbn; (split_and!; [done..|cbn; lia]).

(** An action moves one task closer to its end and leaves the others alone. *)
Lemma exec_moves a g g' :
  exec a g = Some g' ->
  freshness_budget_secs (g_cache g') = freshness_budget_secs (g_cache g) /\
  capacity (g_cache g') = capacity (g_cache g) /\
  match a with
  | Spawn id key now => g_tasks g !! id = None /\ g_tasks g' = <[id := mkTask key now Looking]> (g_tasks g)
  | Advance id | Answers id _ | Cancel id => exists t p, g_tasks g !! id = Some t /\
      g_tasks g' = <[id := mkTask (t_key t) (t_now t) p]> (g_tasks g) /\
      (steps_left p < steps_left (t_pc t))%nat
  end.
Proof.
  destruct a as [id key now|id|id ans|id]; cbn [exec];
    destruct (g_tasks g !! id) as [t|] eqn:Hid; try done; [by intros [= <-]|..].
  - unfold advance_task.
    destruct (t_pc t) as [| |l|l|l|l|l d|l out|l out|l out|out|] eqn:Hpc; try done.
    1,4: pose proof (gate_lookup_params t g) as (H1 & H2 & H3);
      destruct (gate_lookup t g) as [[o|] g1]; intros [= <-]; cbn in *; rewrite H3;
      finish_move t Hpc.
    + unfold acquire_key. destruct (g_locks g !! t_key t); intros [= <-]; finish_move t Hpc.
    + case_bool_decide; [done|]. intros [= <-]. finish_move t Hpc.
    + unfold record_refresh_start. destruct (advance _ _) as [c|] eqn:E; intros [= <-].
      * apply advance_Ok in E as [_ ->]. finish_move t Hpc.
      * finish_move t Hpc.
    + destruct (apply_decision _ _ _ _) as [c|] eqn:E; intros [= <-].
      * apply apply_decision_Ok in E as (_ & _ & Hcap & Hb & _). finish_move t Hpc.
      * finish_move t Hpc.
    + intros [= <-]. finish_move t Hpc.
    + unfold release_key. destruct (_ <=? _)%nat; intros [= <-]; finish_move t Hpc.
    + intros [= <-]. finish_move t Hpc.
  - unfold answer_task. destruct (t_pc t) eqn:Hpc; try done. intros [= <-].
    destruct ans; finish_move t Hpc.
  - unfold cancel_task. destruct (t_pc t) eqn:Hpc; try done; intros [= <-]; finish_move t Hpc.
Qed.

(** The steps all tasks have left. *)
Definition total_left (g : Gate) : nat :=
  map_fold (fun _ t n => steps_left (t_pc t) + n)%nat 0%nat (g_tasks g).

Lemma total_insert (m : gmap nat Task) id t :
  m !! id = None ->
  map_fold (fun _ t n => steps_left (t_pc t) + n)%nat 0%nat (<[id := t]> m)
  = (steps_left (t_pc t) + map_fold (fun _ t n => steps_left (t_pc t) + n)%nat 0%nat m)%nat.
Proof.
  intros Hid. apply (map_fold_insert_L (fun _ t n => steps_left (t_pc t) + n)%nat); [intros; lia|done].
Qed.

Lemma total_update (m : gmap nat Task) id t t' :
  m !! id = Some t ->
  (map_fold (fun _ t n => steps_left (t_pc t) + n) 0 (<[id := t']> m) + steps_left (t_pc t)
   = map_fold (fun _ t n => steps_left (t_pc t) + n) 0 m + steps_left (t_pc t'))%nat.
Proof.
  intros Hid. rewrite <-(insert_delete_id m id t Hid) at 2. rewrite <-insert_delete_eq.
  rewrite !total_insert by apply lookup_delete_eq. lia.
Qed.

Definition is_spawn (a : Action) : bool := match a with Spawn _ _ _ => true | _ => false end.
Definition spawns (l : list Action) : nat := length (List.filter is_spawn l).
Definition task_steps (l : list Action) : nat := length (List.filter (fun a => negb (is_spawn a)) l).

Lemma exec_all_steps l g g' :
  exec_all l g = Some g' -> (task_steps l + total_left g' <= 11 * spawns l + total_left g)%nat.
Proof.
  revert g. induction l as [|a l IH]; intros g; cbn [exec_all]; [intros [= ->]; cbn; lia|].
  destruct (exec a g) as [g1|] eqn:E; [|done]. intros H1. specialize (IH _ H1).
  apply exec_moves in E as (_ & _ & E). unfold total_left in *. unfold spawns, task_steps in *.
  destruct a as [id key now|id|id ans|id]; cbn.
  - destruct E as [Hid E]. rewrite E, total_insert in IH by done. cbn in IH. lia.
  - destruct E as (t & p & Hid & E & Hlt). rewrite E in IH.
    pose proof (total_update _ _ _ (mkTask (t_key t) (t_now t) p) Hid). cbn in *. lia.
  - destruct E as (t & p & Hid & E & Hlt). rewrite E in IH.
    pose proof (total_update _ _ _ (mkTask (t_key t) (t_now t) p) Hid). cbn in *. lia.
  - destruct E as (t & p & Hid & E & Hlt). rewrite E in IH.
    pose proof (total_update _ _ _ (mkTask (t_key t) (t_now t) p) Hid). cbn in *. lia.
Qed.

(** The moves of one task, its answers and its cancellation included. *)
Definition moves_task (id : nat) (a : Action) : bool :=
  match a with Spawn _ _ _ => false | Advance i | Answers i _ | Cancel i => (i =? id)%nat end.
Definition steps_of (id : nat) (l : list Action) : nat := length (List.filter (moves_task id) l).

(** The steps left to the task of this number; one not there yet has them all. *)
Definition left_to (id : nat) (g : Gate) : nat :=
  match g_tasks g !! id with Some t => steps_left (t_pc t) | None => 11 end.

Lemma exec_left id a g g' :
  exec a g = Some g' -> ((if moves_task id a then 1 else 0) + left_to id g' <= left_to id g)%nat.
Proof.
  intros E. apply exec_moves in E as (_ & _ & E).
  assert (Hact : forall i, (exists t p, g_tasks g !! i = Some t /\
      g_tasks g' = <[i := mkTask (t_key t) (t_now t) p]> (g_tasks g) /\
      (steps_left p < steps_left (t_pc t))%nat) ->
    ((if (i =? id)%nat then 1 else 0) + left_to id g' <= left_to id g)%nat).
  { intros i (t & p & Hi & Hg & Hlt). unfold left_to. rewrite Hg. destruct (Nat.eqb_spec i id) as [<-|Hne].
    - rewrite lookup_insert_eq, Hi. cbn. lia.
    - by rewrite lookup_insert_ne. }
  destruct a as [i key now|i|i ans|i]; cbn [moves_task]; [|by apply Hact..].
  destruct E as [Hi Hg]. unfold left_to. rewrite Hg. destruct (decide (i = id)) as [<-|Hne].
  - by rewrite lookup_insert_eq, Hi.
  - by rewrite lookup_insert_ne.
Qed.

Lemma exec_all_left id l g g' :
  exec_all l g = Some g' -> (steps_of id l + left_to id g' <= left_to id g)%nat.
Proof.
  revert g. induction l as [|a l IH]; intros g; cbn [exec_all]; [intros [= ->]; cbn; lia|].
  destruct (exec a g) as [g1|] eqn:E; [|done]. intros H1. specialize (IH _ H1).
  apply (exec_left id) in E. unfold steps_of in *. cbn. destruct (moves_task id a); cbn in *; lia.
Qed.

Lemma exec_all_reachable budget cap l g g' :
  reachable budget cap g -> exec_all l g = Some g' -> reachable budget cap g'.
Proof.
  revert g. induction l as [|a l IH]; intros g Hr; cbn [exec_all]; [by intros [= <-]|].
  destruct (exec a g) as [g1|] eqn:E; [|done]. apply IH. by eapply reach_step.
Qed.

Lemma reachable_params budget cap g :
  reachable budget cap g ->
  freshness_budget_secs (g_cache g) = Z.max budget 1 /\ capacity (g_cache g) = Z.max cap 1.
Proof.
  induction 1 as [|a g g' _ [IH1 IH2] E]; [done|]. apply exec_moves in E as (-> & -> & _). done.
Qed.

(** A task that is neither done nor blocked on a mutex can act. *)
Lemma task_can_act g id t :
  g_tasks g !! id = Some t -> (0 < steps_left (t_pc t))%nat ->
  (forall l, t_pc t = Waiting l -> l ∉ g_held g) ->
  exists a g', (a = Advance id \/ a = Answers id TimedOut) /\ exec a g = Some g'.
Proof.
  intros Hid Hs Hw. destruct (t_pc t) as [| |l|l|l|l|l d|l out|l out|l out|out|] eqn:Hpc;
    cbn in Hs; try lia.
  6: { eexists (Answers id TimedOut), _. split; [auto|]. cbn. rewrite Hid. unfold answer_task. by rewrite Hpc. }
  all: exists (Advance id); cbn [exec]; rewrite Hid; unfold advance_task; rewrite Hpc.
  - destruct (gate_lookup t g). eauto.
  - destruct (acquire_key _ g). eauto.
  - rewrite bool_decide_eq_false_2 by auto. eauto.
  - destruct (gate_lookup t g). eauto.
  - destruct (record_refresh_start _ _); eauto.
  - destruct (apply_decision _ _ _ _); eauto.
  - eauto.
  - eauto.
  - eauto.
Qed.

End Measure.

(** ** Schedules *)

(** Request 1 is asking while a request about another token moves the clock. *)
Definition clock_schedule : list Action :=
  [Spawn 1 "token-a" 100; Advance 1; Advance 1; Advance 1; Advance 1; Advance 1;
   Spawn 2 "token-b" 101; Advance 2; Answers 1 (Says false);
   Advance 1; Advance 1; Advance 1; Advance 1].

(** Two overlapping requests about one token; the first drops its reference late. *)
Definition leak_schedule : list Action :=
  [Spawn 1 "token-a" 100; Spawn 2 "token-a" 100; Advance 1; Advance 2; Advance 1; Advance 2;
   Advance 1; Advance 1; Advance 1; Answers 1 (Says false); Advance 1; Advance 1;
   Advance 2; Advance 2; Advance 2; Advance 1; Advance 2; Advance 1; Advance 2].

(** ** Properties *)

Section Properties.
Context `{HO : HashOrder} `{HOL : !HashOrderLaws}.

(** C14. Single flight: in every reachable state at most one task per token is past
    the token's lock, so at most one question about a token is with the authority
    and no two answers about it race for the cache. *)
Theorem gate_single_flight (budget cap : Z) (g : Gate) (i j : nat) (t u : Task) :
  reachable budget cap g -> g_tasks g !! i = Some t -> g_tasks g !! j = Some u ->
  t_key t = t_key u -> is_Some (pc_mutex (t_pc t)) -> is_Some (pc_mutex (t_pc u)) -> i = j.
Proof.
  intros Hr%reachable_ok Hi Hj Hk [l Hl] [l' Hl'].
  assert (Hlock : forall i t l, g_tasks g !! i = Some t -> pc_mutex (t_pc t) = Some l ->
    g_locks g !! t_key t = Some l).
  { intros k v m Hv Hm. apply (pc_arc_ok g k v m Hr Hv); destruct (t_pc v); simpl in Hm; simplify_eq; done. }
  pose proof (Hlock i t l Hi Hl) as H1. pose proof (Hlock j u l' Hj Hl') as H2.
  rewrite Hk, H2 in H1. injection H1 as ->. by eapply go_mutex.
Qed.

(** C13. No token is let through, or refused as revoked, without the authority:
    every such outcome rests on an answer the authority gave for that very token at
    a time not later than the request's and not earlier than the freshness budget
    before it. The cache stays within its capacity whatever the schedule. *)
Theorem gate_outcomes_grounded (budget cap : Z) (g : Gate) :
  reachable budget cap g ->
  Z.of_nat (size (entries (g_cache g))) <= Z.max cap 1 /\
  forall i t d, g_tasks g !! i = Some t -> t_pc t = Finished (decision_to_authorization d) ->
    exists observed, (t_key t, d, observed) ∈ g_answers g /\
      observed <= t_now t <= observed + Z.max budget 1.
Proof.
  intros Hr. pose proof (reachable_ok _ _ _ Hr) as Hok.
  destruct (reachable_params _ _ _ Hr) as [Hb Hc]. rewrite <-Hb, <-Hc.
  split; [apply (go_cache g Hok)|]. intros i t d Ht Hpc.
  exact (tk_out _ _ (go_tasks g Hok i t Ht) (decision_to_authorization d) ltac:(by rewrite Hpc) d eq_refl).
Qed.

(** C26. The gate never deadlocks: in every reachable state each unfinished task
    can act, or waits for the lock of its token while another task on the same
    token, which holds it, can. *)
Theorem gate_never_stuck (budget cap : Z) (g : Gate) (i : nat) (t : Task) :
  reachable budget cap g -> g_tasks g !! i = Some t -> (0 < steps_left (t_pc t))%nat ->
  (exists a g', (a = Advance i \/ a = Answers i TimedOut) /\ exec a g = Some g') \/
  (exists l j u a g', t_pc t = Waiting l /\ g_tasks g !! j = Some u /\ t_key u = t_key t /\
     pc_mutex (t_pc u) = Some l /\ (a = Advance j \/ a = Answers j TimedOut) /\ exec a g = Some g').
Proof.
  intros Hr%reachable_ok Hi Hs. destruct (t_pc t) eqn:Hpc.
  3: destruct (decide (l ∈ g_held g)) as [Hl|Hl].
  3:{ right. destruct (go_held g Hr l Hl) as (j & u & Hj & Hu).
      destruct (task_can_act g j u Hj) as (a & g' & Ha & E);
        [by destruct (t_pc u); simpl in *; try done; lia|by intros l' E; rewrite E in Hu|].
      exists l, j, u, a, g'. split_and!; try done.
      destruct (pc_arc_ok g i t l Hr Hi) as [_ H1]; [by rewrite Hpc|by rewrite Hpc|].
      destruct (pc_arc_ok g j u l Hr Hj) as [_ H2]; [by destruct (t_pc u)|
        by intros out E'; rewrite E' in Hu|]. eapply go_locks_inj; eauto. }
  all: left; apply (task_can_act g i t Hi); rewrite Hpc; try done; intros l' [= <-]; done.
Qed.

(** C27. Every authorization ends: in any schedule each single task takes at most
    eleven steps, the answers and the cancellation included, and so all of them
    together at most eleven per task; and one that has taken eleven has its outcome
    or is cancelled. *)
Theorem gate_terminates (budget cap : Z) (l : list Action) (g : Gate) :
  exec_all l (new_gate budget cap) = Some g ->
  (forall id, (steps_of id l <= 11)%nat) /\ (task_steps l <= 11 * spawns l)%nat /\
  (forall id t, g_tasks g !! id = Some t -> steps_of id l = 11%nat ->
     (exists out, t_pc t = Finished out) \/ t_pc t = Cancelled).
Proof.
  intros Hl. assert (Hid : forall id, (steps_of id l + left_to id g <= 11)%nat)
    by (intros id; exact (exec_all_left id l _ g Hl)).
  split; [intros id; specialize (Hid id); lia|]. apply exec_all_steps in Hl.
  assert (E : total_left (new_gate budget cap) = 0%nat) by apply map_fold_empty. split; [lia|].
  intros id t Ht Hs. specialize (Hid id). unfold left_to in Hid. rewrite Ht, Hs in Hid.
  destruct (t_pc t); cbn in Hid; try lia; eauto.
Qed.

End Properties.

(** A fresh permission can turn into a denial: request 1 asks the authority at
    second 100 and is told "not revoked"; meanwhile a request about another token
    arrives in second 101 and moves the shared clock; request 1 is then refused for
    a "clock regression" that no clock made, and the answer is thrown away. *)
Theorem fresh_permission_denied `{HashOrder} :
  match exec_all clock_schedule (new_gate 5 100) with
  | Some g =>
      option_map t_pc (g_tasks g !! 1%nat) = Some (Finished (IsUnavailable ClockRegression)) /\
      g_answers g = [("token-a", Allow, 100)] /\ entries (g_cache g) = ∅
  | None => False
  end.
Proof. vm_compute. repeat split. Qed.

(** A token's lock can stay in the map for ever: two requests about the same
    token overlap, both finish normally, no task is left, and the entry remains
    (the second one still counts the first one's reference, which is dropped only
    after [release_key] has looked). *)
Theorem key_lock_leaks `{HashOrder} :
  match exec_all leak_schedule (new_gate 5 100) with
  | Some g =>
      map (fun p => t_pc (snd p)) (map_to_list (g_tasks g)) = [Finished Allowed; Finished Allowed] /\
      g_held g = ∅ /\ g_locks g !! "token-a" = Some 0%nat
  | None => False
  end.
Proof. vm_compute. repeat split. Qed.

(** ** Witnesses *)

(** Two requests about one token, the second waiting for the first. *)
Definition overlap : list Action :=
  [Spawn 1 "token-a" 100; Spawn 2 "token-a" 100; Advance 1; Advance 2; Advance 1; Advance 2;
   Advance 1; Advance 1; Advance 1].
Definition overlap_state : Gate := default (new_gate 5 100) (exec_all overlap (new_gate 5 100)).

Lemma overlap_reachable : reachable 5 100 overlap_state.
Proof. apply (exec_all_reachable 5 100 overlap (new_gate 5 100)); [constructor|vm_compute; reflexivity]. Qed.

Definition overlap_end : Gate :=
  default (new_gate 5 100) (exec_all (overlap ++ [Answers 1 (Says true); Advance 1; Advance 1; Advance 1;
    Advance 1; Advance 2; Advance 2; Advance 2; Advance 2; Advance 2]) (new_gate 5 100)).

Lemma overlap_end_reachable : reachable 5 100 overlap_end.
Proof.
  apply (exec_all_reachable 5 100 (overlap ++ [Answers 1 (Says true); Advance 1; Advance 1; Advance 1;
    Advance 1; Advance 2; Advance 2; Advance 2; Advance 2; Advance 2]) (new_gate 5 100));
    [constructor|vm_compute; reflexivity].
Qed.

Lemma gate_single_flight_witness :
  pc_mutex (t_pc (mkTask "token-a" 100 (Asking 0))) = Some 0%nat /\ (1 = 1)%nat /\
  exec (Advance 2) overlap_state = None.
Proof.
  split; [reflexivity|]. split; [|vm_compute; reflexivity].
  apply (gate_single_flight 5 100 overlap_state 1 1 (mkTask "token-a" 100 (Asking 0))
           (mkTask "token-a" 100 (Asking 0)) overlap_reachable);
    [vm_compute; reflexivity|vm_compute; reflexivity|reflexivity|eexists; reflexivity|eexists; reflexivity].
Defined.

Lemma gate_outcomes_grounded_witness :
  option_map t_pc (g_tasks overlap_end !! 2%nat) = Some (Finished Revoked) /\
  exists observed, ("token-a", Deny, observed) ∈ g_answers overlap_end /\ observed <= 100 <= observed + 5.
Proof.
  split; [vm_compute; reflexivity|].
  exact (proj2 (gate_outcomes_grounded 5 100 overlap_end overlap_end_reachable) 2%nat
           (mkTask "token-a" 100 (Finished Revoked)) Deny ltac:(vm_compute; reflexivity) eq_refl).
Defined.

Lemma gate_never_stuck_witness :
  exists l j u a g', Waiting 0 = Waiting l /\ g_tasks overlap_state !! j = Some u /\
    pc_mutex (t_pc u) = Some l /\ (a = Advance j \/ a = Answers j TimedOut) /\
    exec a overlap_state = Some g'.
Proof.
  destruct (gate_never_stuck 5 100 overlap_state 2 (mkTask "token-a" 100 (Waiting 0)) overlap_reachable
    ltac:(vm_compute; reflexivity) ltac:(vm_compute; lia)) as [(a & g' & [-> | ->] & E)|H].
  - vm_compute in E. discriminate E.
  - vm_compute in E. discriminate E.
  - destruct H as (l & j & u & a & g' & H1 & H2 & _ & H3 & H4 & H5). exists l, j, u, a, g'.
    split; [exact H1|]. split; [exact H2|]. split; [exact H3|]. split; [exact H4|exact H5].
Defined.

Lemma gate_terminates_witness :
  (steps_of 1 overlap <= 11)%nat /\ (steps_of 2 overlap <= 11)%nat /\ (task_steps overlap <= 22)%nat.
Proof.
  destruct (gate_terminates 5 100 overlap overlap_state ltac:(vm_compute; reflexivity)) as (H1 & H2 & _).
  split; [exact (H1 1%nat)|]. split; [exact (H1 2%nat)|exact H2].
Defined.
