(* ===== verification/Auth.v ===== *)
(** * Authentication ([src/auth.rs], [AuthState])

    The configuration read from the environment, the bounded cache of decisions,
    the JWKS cache, and the two ways to authenticate a credential. The caches are
    shared with the other requests; the clocks, the authentication service
    and the revocation gate are functions of the step. Instants and durations are in
    milliseconds.

    The theorems: an identity is returned only when the authentication service (for
    an API key) or a verified token together with the revocation gate (for a JWT)
    vouches for it, at a step of the request itself or through a cache entry the
    request found there unexpired; the decision cache stays bounded; a transient outage of the key
    set is remembered as an invalid token. *)
From S2P Require Import Prelude RustStr Externals Instances Identity Conc Revocation.
Open Scope string_scope.
Open Scope list_scope.
Open Scope Z_scope.
Open Scope rust_scope.

(** ** Configuration *)

Definition DEFAULT_AUTH_URL : string := "http://fiducia-auth.fiducia.svc.cluster.local:8097".
Definition DEFAULT_REVOCATION_CHECK_URL : string :=
  "http://fiducia-revocation-admin.fiducia.svc.cluster.local:8098/v1/revocations/check".
Definition DEFAULT_CACHE_TTL_SECS : Z := 60.
Definition DEFAULT_NEGATIVE_CACHE_TTL_SECS : Z := 5.
Definition DEFAULT_JWKS_TTL_SECS : Z := 10 * 60.
Definition DEFAULT_HTTP_TIMEOUT_SECS : Z := 2.
Definition DEFAULT_REVOCATION_FRESHNESS_SECS : Z := 30.
Definition DEFAULT_REVOCATION_CAPACITY : Z := 65536.
Definition DEFAULT_REVOCATION_TIMEOUT_MILLIS : Z := 2000.
Definition DEFAULT_JWT_ISSUER : string := "fiducia-auth".
Definition DEFAULT_JWT_AUDIENCE : string := "fiducia-api".
Definition MAX_CACHED_DECISIONS : Z := 10000.
Definition MAX_INTROSPECTION_RESPONSE_BYTES : Z := 64 * 1024.
Definition MAX_JWKS_RESPONSE_BYTES : Z := 256 * 1024.

Definition env_value (env : Environment) (name : string) : option string :=
  let! value := env name in
  if String.eqb (trim value) "" then None else Some (trim value).

Definition env_bool_opt (env : Environment) (name : string) : option bool :=
  let! value := env_value env name in
  if bool_decide (value ∈ ["1"; "true"; "TRUE"; "yes"; "YES"; "on"; "ON"]) then Some true
  else if bool_decide (value ∈ ["0"; "false"; "FALSE"; "no"; "NO"; "off"; "OFF"]) then Some false
  else None.

Definition env_bool (env : Environment) (name : string) (default_ : bool) : bool :=
  default default_ (env_bool_opt env name).

Definition u64_env (env : Environment) (name : string) (default_ : Z) : Z :=
  default default_ (let! value := env_value env name in parse_uint u64_max value).

(** [usize] is 64 bits wide. *)
Definition usize_env (env : Environment) (name : string) (default_ : Z) : Z :=
  default default_ (let! value := env_value env name in parse_uint u64_max value).

(** [Duration::from_secs], in milliseconds. *)
Definition duration_env (env : Environment) (name : string) (default_secs : Z) : Z :=
  1000 * u64_env env name default_secs.

Definition normalize_url (url : string) : string := trim_end_matches "/" (trim url).

Definition auth_required_decision (explicit : option bool) (is_debug_build : bool) : bool :=
  default (negb is_debug_build) explicit.

Record AuthConfig := mkAuthConfig {
  required : bool;
  allow_api_keys : bool;
  allow_jwts : bool;
  introspect_url : string;
  introspect_secret : option string;
  jwks_url : string;
  jwt_issuer : string;
  jwt_audience : string;
  cache_ttl : Z;
  negative_cache_ttl : Z;
  jwks_ttl : Z;
  http_timeout : Z;
  revocation_check_url : string;
  revocation_reader_secret : option string;
  revocation_freshness_secs : Z;
  revocation_capacity : Z;
  revocation_refresh_timeout : Z;
}.

(** [AuthConfig::from_env]; [is_debug_build] is [cfg!(debug_assertions)]. *)
Definition config_from_env (is_debug_build : bool) (env : Environment) : AuthConfig :=
  let auth_url := normalize_url (default DEFAULT_AUTH_URL (env_value env "FIDUCIA_AUTH_URL")) in
  let reader_secret :=
    let! secret := env_value env "FIDUCIA_REVOCATION_READER_SECRET" in
    if valid_reader_secret secret then Some secret else None in
  mkAuthConfig
    (auth_required_decision (env_bool_opt env "FIDUCIA_AUTH_REQUIRED") is_debug_build)
    (env_bool env "FIDUCIA_AUTH_ALLOW_API_KEYS" true)
    (env_bool env "FIDUCIA_AUTH_ALLOW_JWTS" true)
    (default (auth_url +:+ "/v1/introspect") (env_value env "FIDUCIA_AUTH_INTROSPECT_URL"))
    (env_value env "FIDUCIA_INTROSPECT_SECRET")
    (default (auth_url +:+ "/.well-known/jwks.json") (env_value env "FIDUCIA_AUTH_JWKS_URL"))
    (default DEFAULT_JWT_ISSUER (env_value env "FIDUCIA_JWT_ISSUER"))
    (default DEFAULT_JWT_AUDIENCE (env_value env "FIDUCIA_JWT_AUDIENCE"))
    (duration_env env "FIDUCIA_AUTH_CACHE_TTL_SECS" DEFAULT_CACHE_TTL_SECS)
    (duration_env env "FIDUCIA_AUTH_NEGATIVE_CACHE_TTL_SECS" DEFAULT_NEGATIVE_CACHE_TTL_SECS)
    (duration_env env "FIDUCIA_AUTH_JWKS_TTL_SECS" DEFAULT_JWKS_TTL_SECS)
    (duration_env env "FIDUCIA_AUTH_HTTP_TIMEOUT_SECS" DEFAULT_HTTP_TIMEOUT_SECS)
    (default DEFAULT_REVOCATION_CHECK_URL (env_value env "FIDUCIA_REVOCATION_CHECK_URL"))
    reader_secret
    (Z.max (u64_env env "FIDUCIA_REVOCATION_CACHE_FRESHNESS_SECS" DEFAULT_REVOCATION_FRESHNESS_SECS) 1)
    (Z.max (usize_env env "FIDUCIA_REVOCATION_CACHE_CAPACITY" DEFAULT_REVOCATION_CAPACITY) 1)
    (Z.max (u64_env env "FIDUCIA_REVOCATION_TIMEOUT_MILLIS" DEFAULT_REVOCATION_TIMEOUT_MILLIS) 1).

(** ** [jsonwebtoken] *)

(** Key sets, token headers and signature verification. [find_jwk] is [JwkSet::find];
    [decode_token] takes the algorithm of the header, the issuer, the audience and the
    required claims. *)
Class Jsonwebtoken := {
  Jwk : Type;
  DecodingKey : Type;
  jwkset_from_slice : string -> option (list Jwk);
  find_jwk : string -> list Jwk -> option Jwk;
  jwk_is_octet_key : Jwk -> bool;
  decode_header : string -> option (Algorithm * option string);
  decoding_key_from_jwk : Jwk -> option DecodingKey;
  decode_token : string -> DecodingKey -> Algorithm -> string -> string -> list string -> option Claims;
}.

(** ** State *)

Record CachedDecision := mkCachedDecision {
  cd_expires_at : Z;
  cd_identity : option VerifiedIdentity;
}.

Record CachedJwks `{Jsonwebtoken} := mkCachedJwks {
  cj_fetched_at : Z;
  cj_jwks : list Jwk;
}.
Arguments mkCachedJwks {_} _ _.

Record AuthCaches `{Jsonwebtoken} := mkAuthCaches {
  decisions : gmap string CachedDecision;
  jwks : option CachedJwks;
}.
Arguments mkAuthCaches {_} _ _.

(** [AuthState::from_env] starts with empty caches. *)
Definition no_caches `{Jsonwebtoken} : AuthCaches := mkAuthCaches ∅ None.

Section Prune.
Context `{HO : HashOrder}.

Definition prune_decisions (d : gmap string CachedDecision) (now capacity : Z)
  : gmap string CachedDecision :=
  if Z.of_nat (size d) <? capacity then d
  else
    let d := filter (fun p => now < cd_expires_at (snd p)) d in
    if Z.of_nat (size d) <? capacity then d
    else match min_by_key (fun p => cd_expires_at (snd p)) (hash_order d) with
    | Some (key, _) => delete key d
    | None => d
    end.

End Prune.

(** What surrounds one authentication. *)
Record AuthSurroundings `{Jsonwebtoken} := mkAuthSurroundings {
  config : AuthConfig;
  instant : nat -> Z;
  unix_secs : nat -> Z;
  introspection_service : nat -> ClientRequest -> ClientReply;
  jwks_service : nat -> string -> ClientReply;
  revocation_gate : nat -> Claims -> Z -> Authorization;
}.

Arguments mkAuthSurroundings {_} _ _ _ _ _ _.

(** [send().await?.error_for_status()?.bytes().await?] with a size limit. *)
Definition bounded_body (what : string) (limit : Z) (reply : ClientReply) : result string AuthError :=
  match reply with
  | NoReply => Err HttpError
  | Replied status body =>
      if in_range 400 599 status then Err HttpError
      else
        let? body := ok_or body HttpError in
        if limit <? str_len body then Err (OversizedResponse what) else Ok body
  end.

Section Authenticate.
Context `{HT : Http} `{SJ : SerdeJson} `{SH : Sha2} `{FI : FiduciaInterfaces} `{JT : Jsonwebtoken}.
Context `{HO : HashOrder} (S : AuthSurroundings).
Open Scope conc_scope.

Local Notation AM := (M AuthCaches Empty_set).

Definition cached_decision (key : string) : AM (option (option VerifiedIdentity)) :=
  atomically (fun n s =>
    (let! cached := decisions s !! key in
     if instant S n <? cd_expires_at cached then Some (cd_identity cached) else None, s)).

Definition cache_decision (key : string) (identity : option VerifiedIdentity) (ttl : Z) : AM unit :=
  if ttl =? 0 then mreturn tt
  else
    now <- ask (instant S) ;;
    atomically (fun _ s =>
      let kept := prune_decisions (decisions s) now MAX_CACHED_DECISIONS in
      (tt, mkAuthCaches (<[key := mkCachedDecision (now + ttl) identity]> kept) (jwks s))).

(** The introspection request; a secret that is no header value fails the build. *)
Definition introspection_request (api_key : string) : option ClientRequest :=
  let body := json_to_vec (JObj [("api_key", JStr api_key)]) in
  let headers := [("content-type", "application/json")] in
  match introspect_secret (config S) with
  | Some secret =>
      let! v := hv_from_str secret in
      Some (mkClientRequest (introspect_url (config S)) (hm_append headers "x-server-auth" v) body)
  | None => Some (mkClientRequest (introspect_url (config S)) headers body)
  end.

Definition introspection_answer (reply : ClientReply) : result Introspection AuthError :=
  let? body := bounded_body "introspection" MAX_INTROSPECTION_RESPONSE_BYTES reply in
  ok_or (introspection_from_slice body) (InvalidResponse "introspection").

Definition fetch_introspection (api_key : string) : AM (result Introspection AuthError) :=
  match introspection_request api_key with
  | None => mreturn (Err HttpError)
  | Some rq =>
      reply <- ask (fun n => introspection_service S n rq) ;;
      mreturn (introspection_answer reply)
  end.

Definition authenticate_api_key (api_key : string) : AM (result VerifiedIdentity Response) :=
  let cache_key := credential_cache_key "api_key" api_key in
  let invalid := auth_response 401 "invalid_api_key" "invalid api key" in
  cached <- cached_decision cache_key ;;
  match cached with
  | Some cached => mreturn (ok_or cached invalid)
  | None =>
      intro <- fetch_introspection api_key ;;
      match intro with
      | Err _ => mreturn (Err (auth_response 503 "auth_unavailable" "auth service is unavailable"))
      | Ok intro =>
          match identity_from_introspection intro with
          | None =>
              cache_decision cache_key None (negative_cache_ttl (config S)) ;;;
              mreturn (Err invalid)
          | Some identity =>
              cache_decision cache_key (Some identity) (cache_ttl (config S)) ;;;
              mreturn (Ok identity)
          end
      end
  end.

Definition jwks_answer (reply : ClientReply) : result (list Jwk) AuthError :=
  let? body := bounded_body "jwks" MAX_JWKS_RESPONSE_BYTES reply in
  let? keys := ok_or (jwkset_from_slice body) (InvalidResponse "jwks") in
  match keys with [] => Err EmptyJwks | _ => Ok keys end.

Definition refresh_jwks : AM (result (list Jwk) AuthError) :=
  reply <- ask (fun n => jwks_service S n (jwks_url (config S))) ;;
  match jwks_answer reply with
  | Err e => mreturn (Err e)
  | Ok keys =>
      now <- ask (instant S) ;;
      atomically (fun _ s =>
        (Ok keys, mkAuthCaches (decisions s) (Some (mkCachedJwks now keys))))
  end.

Definition cached_jwks : AM (result (list Jwk) AuthError) :=
  cached <- atomically (fun n s =>
    (let! cached := jwks s in
     if Z.max (instant S n - cj_fetched_at cached) 0 <? jwks_ttl (config S)
     then Some (cj_jwks cached) else None, s)) ;;
  match cached with
  | Some keys => mreturn (Ok keys)
  | None => refresh_jwks
  end.

Definition jwk_for_kid (kid : string) : AM (result Jwk AuthError) :=
  keys <- cached_jwks ;;
  match keys with
  | Err e => mreturn (Err e)
  | Ok keys =>
      match find_jwk kid keys with
      | Some jwk => mreturn (Ok jwk)
      | None =>
          keys <- refresh_jwks ;;
          mreturn (let? keys := keys in ok_or (find_jwk kid keys) (MissingJwk kid))
      end
  end.

Definition reject_symmetric_jwk (jwk : Jwk) : result unit AuthError :=
  if jwk_is_octet_key jwk then Err SymmetricJwk else Ok tt.

Definition required_claims : list string := ["exp"; "iss"; "aud"; "sub"; "org_id"; "iat"; "jti"].

(** [verify_jwt] once the key is known. *)
Definition verify_with_key (jwt : string) (alg : Algorithm) (jwk : Jwk) (now : Z)
  : result (VerifiedIdentity * Claims) AuthError :=
  let? _ := reject_symmetric_jwk jwk in
  let? key := ok_or (decoding_key_from_jwk jwk) JwtError in
  let? claims := ok_or (decode_token jwt key alg (jwt_issuer (config S)) (jwt_audience (config S))
                          required_claims) JwtError in
  let? _ := validate_claim_contract claims (jwt_issuer (config S)) (jwt_audience (config S)) now in
  let? identity := identity_from_claims claims in
  Ok (identity, claims).

Definition verify_jwt (jwt : string) : AM (result (VerifiedIdentity * Claims) AuthError) :=
  match decode_header jwt with
  | None => mreturn (Err JwtError)
  | Some (alg, kid) =>
      if negb (is_asymmetric_algorithm alg) then mreturn (Err (UnsupportedAlgorithm alg))
      else match kid with
      | None => mreturn (Err MissingKid)
      | Some kid =>
          jwk <- jwk_for_kid kid ;;
          match jwk with
          | Err e => mreturn (Err e)
          | Ok jwk => now <- ask (unix_secs S) ;; mreturn (verify_with_key jwt alg jwk now)
          end
      end
  end.

Definition invalid_jwt : Response := auth_response 401 "invalid_jwt" "invalid or expired jwt".

(** [authenticate_jwt] when the token is not already known to be invalid. *)
Definition authenticate_unknown_jwt (jwt : string) : AM (result VerifiedIdentity Response) :=
  verified <- verify_jwt jwt ;;
  match verified with
  | Err _ =>
      cache_decision (credential_cache_key "invalid_jwt" jwt) None (negative_cache_ttl (config S)) ;;;
      mreturn (Err invalid_jwt)
  | Ok (identity, claims) =>
      verdict <- ask (fun n => revocation_gate S n claims (unix_secs S n)) ;;
      mreturn match verdict with
      | Allowed => Ok identity
      | Revoked => Err (auth_response 401 "revoked_jwt" "jwt has been revoked")
      | IsUnavailable _ =>
          Err (auth_response 503 "revocation_unavailable" "jwt revocation state is unavailable")
      end
  end.

Definition authenticate_jwt (jwt : string) : AM (result VerifiedIdentity Response) :=
  cached <- cached_decision (credential_cache_key "invalid_jwt" jwt) ;;
  match cached with
  | Some None => mreturn (Err invalid_jwt)
  | _ => authenticate_unknown_jwt jwt
  end.

Definition authenticate (headers : HeaderMap) : AM (result (option VerifiedIdentity) Response) :=
  match extract_credential headers with
  | None =>
      mreturn (if required (config S)
               then Err (auth_response 401 "missing_credentials"
                           "send Authorization: Bearer <api-key-or-token>")
               else Ok None)
  | Some credential =>
      if is_api_key credential then
        if negb (allow_api_keys (config S)) then
          mreturn (Err (auth_response 401 "api_keys_disabled" "api key authentication is disabled"))
        else
          r <- authenticate_api_key credential ;;
          mreturn (let? id := r in Ok (Some id))
      else if looks_like_jwt credential then
        if negb (allow_jwts (config S)) then
          mreturn (Err (auth_response 401 "jwt_disabled" "jwt authentication is disabled"))
        else
          r <- authenticate_jwt credential ;;
          mreturn (let? id := r in Ok (Some id))
      else
        mreturn (Err (auth_response 401 "unsupported_credentials"
                        "credential must be a fiducia API key or fiducia JWT"))
  end.

End Authenticate.

(** ** Specification

    Facts about one authentication name the steps it took: it started at step [n0],
    and a fact established before step [n1] rests on steps [n] with
    [n0 <= n < n1]. [Was n s] says that the caches were [s] at step [n]. *)

Section Spec.
Context `{HT : Http} `{SJ : SerdeJson} `{SH : Sha2} `{FI : FiduciaInterfaces} `{JT : Jsonwebtoken}.
Context (S : AuthSurroundings).

(** The authentication service accepted the key at step [n]. *)
Definition vouched (n : nat) (api_key : string) (id : VerifiedIdentity) : Prop :=
  exists rq intro, introspection_request S api_key = Some rq /\
    introspection_answer (introspection_service S n rq) = Ok intro /\
    identity_from_introspection intro = Some id.

(** The authentication service published the key set at step [n]. *)
Definition published (n : nat) (keys : list Jwk) : Prop :=
  jwks_answer (jwks_service S n (jwks_url (config S))) = Ok keys.

(** A decision held at step [n]: the service accepted a key with this digest at an
    earlier step, and the decision expires a time to live after the instant read
    when it was put down. *)
Definition decision_of (n : nat) (key : string) (d : CachedDecision) (id : VerifiedIdentity) : Prop :=
  exists api_key asked stored, (asked < stored < n)%nat /\ key = credential_cache_key "api_key" api_key /\
    vouched asked api_key id /\ cd_expires_at d = instant S stored + cache_ttl (config S).

(** A key set held at step [n], fetched earlier. *)
Definition key_set_of (n : nat) (c : CachedJwks) : Prop :=
  exists asked stored, (asked < stored < n)%nat /\ published asked (cj_jwks c) /\
    cj_fetched_at c = instant S stored.

(** The caches at step [n]: bounded, and everything they let through came from the
    service. *)
Record caches_ok (n : nat) (s : AuthCaches) : Prop := {
  ca_bounded : Z.of_nat (size (decisions s)) <= MAX_CACHED_DECISIONS;
  ca_positive : forall k d id, decisions s !! k = Some d -> cd_identity d = Some id ->
    decision_of n k d id;
  ca_jwks : forall c, jwks s = Some c -> key_set_of n c;
}.

Context (Was : nat -> AuthCaches -> Prop) (n0 n1 : nat).

(** The request found this decision in the cache at one of its own steps, not yet
    expired. *)
Definition remembered (key : string) (id : VerifiedIdentity) : Prop :=
  exists n s d, (n0 <= n < n1)%nat /\ Was n s /\ decisions s !! key = Some d /\
    cd_identity d = Some id /\ instant S n < cd_expires_at d /\ decision_of n key d id.

(** The service accepted the key when this request asked, or the request found an
    unexpired decision of the service about a key with the same digest. *)
Definition api_key_accepted (api_key : string) (id : VerifiedIdentity) : Prop :=
  (exists n, (n0 <= n < n1)%nat /\ vouched n api_key id) \/
  remembered (credential_cache_key "api_key" api_key) id.

(** The service published the key set when this request asked, or the request found
    it in the cache within its time to live. *)
Definition key_set_known (keys : list Jwk) : Prop :=
  (exists n, (n0 <= n < n1)%nat /\ published n keys) \/
  exists n s c, (n0 <= n < n1)%nat /\ Was n s /\ jwks s = Some c /\ cj_jwks c = keys /\
    Z.max (instant S n - cj_fetched_at c) 0 < jwks_ttl (config S) /\ key_set_of n c.

(** The token was verified: an asymmetric algorithm, a known key that is not
    symmetric, a valid signature, and the claim contract at the time the request read
    off the clock. *)
Definition token_verified (jwt : string) (id : VerifiedIdentity) (claims : Claims) : Prop :=
  exists alg kid keys jwk key n, (n0 <= n < n1)%nat /\
    decode_header jwt = Some (alg, Some kid) /\ is_asymmetric_algorithm alg = true /\
    key_set_known keys /\ find_jwk kid keys = Some jwk /\ jwk_is_octet_key jwk = false /\
    decoding_key_from_jwk jwk = Some key /\
    decode_token jwt key alg (jwt_issuer (config S)) (jwt_audience (config S)) required_claims
      = Some claims /\
    validate_claim_contract claims (jwt_issuer (config S)) (jwt_audience (config S)) (unix_secs S n)
      = Ok tt /\
    identity_from_claims claims = Ok id.

(** The revocation gate let the claims through when this request asked it. *)
Definition gate_allowed (claims : Claims) : Prop :=
  exists n, (n0 <= n < n1)%nat /\ revocation_gate S n claims (unix_secs S n) = Allowed.

End Spec.

(** ** Lemmas *)

Section Lemmas.
Context `{HT : Http} `{SJ : SerdeJson} `{SH : Sha2} `{FI : FiduciaInterfaces} `{JT : Jsonwebtoken}.
Context `{HO : HashOrder} `{HOL : !HashOrderLaws} (S : AuthSurroundings).

Lemma prune_decisions_size d now capacity :
  1 <= capacity -> Z.of_nat (size d) <= capacity ->
  Z.of_nat (size (prune_decisions d now capacity)) < capacity.
Proof.
  intros Hc Hd. unfold prune_decisions. destruct (Z.ltb_spec (Z.of_nat (size d)) capacity); [done|].
  set (f := filter _ d). assert (Hf : (size f <= size d)%nat)
    by (apply map_subseteq_size, map_filter_subseteq).
  destruct (Z.ltb_spec (Z.of_nat (size f)) capacity); [done|].
  destruct (min_by_key _ (hash_order f)) as [[k x]|] eqn:E.
  - apply min_by_key_Some in E as [Hin _]. rewrite hash_order_perm in Hin.
    apply elem_of_map_to_list in Hin. rewrite map_size_delete, Hin. lia.
  - apply min_by_key_None in E. assert (Hp : map_to_list f = []).
    { apply Permutation_nil_r. by rewrite <-hash_order_perm, E. }
    apply map_to_list_empty_iff in Hp. rewrite Hp, map_size_empty in *. lia.
Qed.

Lemma prune_decisions_subset d now capacity k x :
  prune_decisions d now capacity !! k = Some x -> d !! k = Some x.
Proof.
  unfold prune_decisions. destruct (_ <? _); [done|].
  set (f := filter _ d). assert (Hf : forall k x, f !! k = Some x -> d !! k = Some x)
    by (intros ? ? [? _]%map_lookup_filter_Some; done).
  destruct (_ <? _); [apply Hf|]. destruct (min_by_key _ _) as [[k' x']|]; [|apply Hf].
  intros [_ H]%lookup_delete_Some. by apply Hf.
Qed.

Lemma no_caches_ok n : caches_ok S n no_caches.
Proof. split; cbn; [rewrite map_size_empty; unfold MAX_CACHED_DECISIONS; lia|done|done]. Qed.

Lemma decision_of_mono n n' key d id :
  decision_of S n key d id -> (n <= n')%nat -> decision_of S n' key d id.
Proof. intros (k & na & ns & Hn & H) Hle. exists k, na, ns. split; [lia|done]. Qed.

Lemma caches_ok_mono n n' s : caches_ok S n s -> (n <= n')%nat -> caches_ok S n' s.
Proof.
  intros [Hb Hp Hj] Hle. split; [done| |].
  - intros k d id Hk Hd. eapply decision_of_mono; eauto.
  - intros c Hc. destruct (Hj c Hc) as (na & ns & Hn & H). exists na, ns. split; [lia|done].
Qed.

(** An answer that refuses: 401 or 503, never cacheable. *)
Definition refusal (r : Response) : Prop :=
  (rs_status r = 401 \/ rs_status r = 503) /\
  hm_get (rs_headers r) "cache-control" = Some "no-store".

Lemma refusal_401 e d : refusal (auth_response 401 e d).
Proof. split; [by left|done]. Qed.
Lemma refusal_503 e d : refusal (auth_response 503 e d).
Proof. split; [by right|done]. Qed.

Context (Was : nat -> AuthCaches -> Prop) (E : nat -> Empty_set -> Prop) (n0 : nat).

Local Notation obliged n m Q := (timed (both (caches_ok S) Was) (caches_ok S) E n m Q).

Lemma api_key_accepted_mono n1 n2 key id :
  api_key_accepted S Was n0 n1 key id -> (n1 <= n2)%nat -> api_key_accepted S Was n0 n2 key id.
Proof.
  intros [(n & Hn & H)|(n & s & d & Hn & H)] Hle; [left; exists n|right; exists n, s, d];
    (split; [lia|done]).
Qed.

Lemma key_set_known_mono n1 n2 keys :
  key_set_known S Was n0 n1 keys -> (n1 <= n2)%nat -> key_set_known S Was n0 n2 keys.
Proof.
  intros [(n & Hn & H)|(n & s & c & Hn & H)] Hle; [left; exists n|right; exists n, s, c];
    (split; [lia|done]).
Qed.

Lemma token_verified_mono n1 n2 jwt id claims :
  token_verified S Was n0 n1 jwt id claims -> (n1 <= n2)%nat -> token_verified S Was n0 n2 jwt id claims.
Proof.
  intros (alg & kid & keys & jwk & key & n & Hn & Hh & Ha & Hk & H) Hle.
  exists alg, kid, keys, jwk, key, n. split; [lia|]. split; [done|]. split; [done|].
  split; [by eapply key_set_known_mono|done].
Qed.

(** Reading changes nothing. *)
Lemma ask_obliged {A} n (oracle : nat -> A) (Q : nat -> A -> list Empty_set -> Prop) :
  (forall k, (n <= k)%nat -> Q (Datatypes.S k) (oracle k) []) -> obliged n (ask oracle) Q.
Proof.
  intros HQ. apply timed_ask; [|done]. intros k s [Hs _]. eapply caches_ok_mono; [exact Hs|lia].
Qed.

Lemma read_obliged {A} n (f : nat -> AuthCaches -> A) (Q : nat -> A -> list Empty_set -> Prop) :
  (forall k s, (n <= k)%nat -> caches_ok S k s -> Was k s -> Q (Datatypes.S k) (f k s) []) ->
  obliged n (atomically (fun k s => (f k s, s))) Q.
Proof.
  intros HQ. apply timed_atomically. intros k s Hk [Hs Hw]. split; [|by apply HQ].
  eapply caches_ok_mono; [exact Hs|lia].
Qed.

Lemma cached_decision_runs key n :
  (n0 <= n)%nat ->
  obliged n (cached_decision S key) (fun n1 o _ => forall id, o = Some (Some id) ->
    remembered S Was n0 n1 key id).
Proof.
  intros Hn. apply read_obliged. intros k s Hk Hs Hw id Hid.
  destruct (decisions s !! key) as [d|] eqn:Ed; [|done]. cbn in Hid.
  destruct (Z.ltb_spec (instant S k) (cd_expires_at d)); [|done]. injection Hid as Hid.
  exists k, s, d. split_and!; try done; try lia. by eapply ca_positive.
Qed.

Lemma cache_decision_runs key identity ttl n :
  (forall id, identity = Some id -> ttl = cache_ttl (config S) /\
     exists api_key asked, (asked < n)%nat /\ key = credential_cache_key "api_key" api_key /\
       vouched S asked api_key id) ->
  obliged n (cache_decision S key identity ttl) (fun _ _ _ => True).
Proof.
  intros Hid. unfold cache_decision. destruct (ttl =? 0); [by apply timed_return|].
  apply (timed_then _ _ _ _ _ _ (fun n1 now _ => exists ns, (n <= ns < n1)%nat /\ now = instant S ns)).
  { apply ask_obliged. intros k Hk. exists k. split; [lia|done]. }
  intros n1 now l _ (ns & Hns & ->). apply timed_atomically. intros k s Hk [[Hb Hp Hj] _]. split; [|done].
  pose proof (prune_decisions_size (decisions s) (instant S ns) MAX_CACHED_DECISIONS
    ltac:(unfold MAX_CACHED_DECISIONS; lia) Hb) as Hsz.
  split; cbn; [|intros k' d id|].
  - rewrite map_size_insert. destruct (_ !! key); unfold id; lia.
  - intros [[<- <-]|[Hne Hk']]%lookup_insert_Some; cbn.
    + intros ->. destruct (Hid id eq_refl) as (-> & api_key & asked & ? & ? & ?).
      exists api_key, asked, ns. split; [lia|done].
    + intros Hd. apply prune_decisions_subset in Hk'. eapply decision_of_mono; [by eapply Hp|lia].
  - intros c Hc. destruct (Hj c Hc) as (na & nf & Hlt & H). exists na, nf. split; [lia|done].
Qed.

Lemma fetch_introspection_runs api_key n :
  obliged n (fetch_introspection S api_key) (fun n1 r _ => forall intro id,
    r = Ok intro -> identity_from_introspection intro = Some id ->
    exists asked, (n <= asked < n1)%nat /\ vouched S asked api_key id).
Proof.
  unfold fetch_introspection. destruct (introspection_request S api_key) as [rq|] eqn:Erq;
    [|by apply timed_return].
  apply (timed_then _ _ _ _ _ _ (fun n1 reply _ => exists asked, (n <= asked < n1)%nat /\
    reply = introspection_service S asked rq)).
  { apply ask_obliged. intros k Hk. exists k. split; [lia|done]. }
  intros n1 reply l _ (asked & Ha & ->). apply timed_return. intros intro id Hi Hid.
  exists asked. split; [lia|]. by exists rq, intro.
Qed.

Lemma authenticate_api_key_runs api_key :
  obliged n0 (authenticate_api_key S api_key) (fun n1 r _ =>
    match r with
    | Ok id => identity_ok id /\ api_key_accepted S Was n0 n1 api_key id
    | Err resp => refusal resp
    end).
Proof.
  assert (Hok : forall n k id, vouched S n k id -> identity_ok id).
  { intros n k id (rq & intro & _ & _ & Hi). by apply identity_from_introspection_ok in Hi as [_ ?]. }
  unfold authenticate_api_key. eapply timed_then; [by apply cached_decision_runs|].
  intros n1 [cached|] l Hn1 Hc; cbn.
  - apply timed_return. destruct cached as [id|]; cbn; [|apply refusal_401].
    pose proof (Hc id eq_refl) as Hr. split; [|by right].
    destruct Hr as (n & s & d & _ & _ & _ & _ & _ & k & na & ns & _ & _ & Hv & _). by eapply Hok.
  - eapply timed_then; [apply fetch_introspection_runs|]. intros n2 [intro|e] l' Hn2 Hi; cbn.
    2:{ apply timed_return. apply refusal_503. }
    destruct (identity_from_introspection intro) as [id|] eqn:Eid.
    + destruct (Hi intro id eq_refl Eid) as (asked & Ha & Hv).
      eapply timed_then; [apply cache_decision_runs|intros n3 _ l'' Hn3 _; apply timed_return].
      * intros id' [= <-]. split; [done|]. exists api_key, asked. split; [lia|done].
      * split; [by eapply Hok|]. left. exists asked. split; [lia|done].
    + eapply timed_then; [by apply cache_decision_runs|]. intros n3 _ l'' _ _. apply timed_return.
      apply refusal_401.
Qed.

Lemma refresh_jwks_runs n :
  (n0 <= n)%nat ->
  obliged n (refresh_jwks S) (fun n1 r _ => forall keys, r = Ok keys -> key_set_known S Was n0 n1 keys).
Proof.
  intros Hn. unfold refresh_jwks.
  apply (timed_then _ _ _ _ _ _ (fun n1 reply _ => exists asked, (n <= asked < n1)%nat /\
    reply = jwks_service S asked (jwks_url (config S)))).
  { apply ask_obliged. intros k Hk. exists k. split; [lia|done]. }
  intros n1 reply l _ (asked & Ha & ->). destruct (jwks_answer _) as [keys|e] eqn:Ek; [|by apply timed_return].
  apply (timed_then _ _ _ _ _ _ (fun n2 now _ => exists ns, (n1 <= ns < n2)%nat /\ now = instant S ns)).
  { apply ask_obliged. intros k Hk. exists k. split; [lia|done]. }
  intros n2 now l' _ (ns & Hns & ->). apply timed_atomically. intros k s Hk [Hs _].
  pose proof (caches_ok_mono _ (Datatypes.S k) _ Hs ltac:(lia)) as [Hb Hp _]. split.
  - split; cbn; [done|done|]. intros c [= <-]. exists asked, ns. split; [lia|done].
  - intros ? [= <-]. left. exists asked. split; [lia|exact Ek].
Qed.

Lemma cached_jwks_runs n :
  (n0 <= n)%nat ->
  obliged n (cached_jwks S) (fun n1 r _ => forall keys, r = Ok keys -> key_set_known S Was n0 n1 keys).
Proof.
  intros Hn. unfold cached_jwks.
  apply (timed_then _ _ _ _ _ _ (fun n1 o _ => forall keys, o = Some keys -> key_set_known S Was n0 n1 keys)).
  - apply read_obliged. intros k s Hk Hs Hw keys Ho. destruct (jwks s) as [c|] eqn:Ec; [|done]. cbn in Ho.
    destruct (Z.ltb_spec (Z.max (instant S k - cj_fetched_at c) 0) (jwks_ttl (config S))); [|done].
    injection Ho as <-. right. exists k, s, c. split_and!; try done; try lia. by eapply ca_jwks.
  - intros n1 [keys|] l Hn1 Hk; [|apply refresh_jwks_runs; lia]. apply timed_return. intros ? [= <-]. auto.
Qed.

Lemma jwk_for_kid_runs kid n :
  (n0 <= n)%nat ->
  obliged n (jwk_for_kid S kid) (fun n1 r _ => forall jwk, r = Ok jwk ->
    exists keys, key_set_known S Was n0 n1 keys /\ find_jwk kid keys = Some jwk).
Proof.
  intros Hn. unfold jwk_for_kid. eapply timed_then; [by apply cached_jwks_runs|]. intros n1 [keys|e] l Hn1 Hk.
  2: by apply timed_return.
  destruct (find_jwk kid keys) as [jwk|] eqn:Ef.
  { apply timed_return. intros ? [= <-]. exists keys. auto. }
  eapply timed_then; [apply refresh_jwks_runs; lia|]. intros n2 [keys'|e] l' Hn2 Hk'; apply timed_return; [|done].
  cbn. destruct (find_jwk kid keys') as [jwk|] eqn:Ef'; [|done]. intros ? [= <-]. exists keys'. auto.
Qed.

Lemma verify_jwt_runs jwt n :
  (n0 <= n)%nat ->
  obliged n (verify_jwt S jwt) (fun n1 r _ => forall id claims, r = Ok (id, claims) ->
    token_verified S Was n0 n1 jwt id claims).
Proof.
  intros Hn0. unfold verify_jwt. destruct (decode_header jwt) as [[alg kid]|] eqn:Eh; [|by apply timed_return].
  destruct (is_asymmetric_algorithm alg) eqn:Ea; [|by apply timed_return].
  destruct kid as [kid|]; [|by apply timed_return]. cbn [negb].
  eapply timed_then; [by apply jwk_for_kid_runs|]. intros n1 [jwk|e] l Hn1 Hj; [|by apply timed_return].
  destruct (Hj jwk eq_refl) as (keys & Hp & Hf).
  apply (timed_then _ _ _ _ _ _ (fun n2 now _ => exists k, (n1 <= k < n2)%nat /\ now = unix_secs S k)).
  { apply ask_obliged. intros k Hk. exists k. split; [lia|done]. }
  intros n2 now l' Hn2 (k & Hk & ->). apply timed_return. intros id claims H. unfold verify_with_key in H.
  unfold reject_symmetric_jwk in H. destruct (jwk_is_octet_key jwk) eqn:Eo; [done|]. cbn in H.
  destruct (decoding_key_from_jwk jwk) as [key|] eqn:Ek; [|done]. cbn in H.
  destruct (decode_token _ _ _ _ _ _) as [c|] eqn:Ed; [|done]. cbn in H.
  destruct (validate_claim_contract _ _ _ _) as [[]|] eqn:Ev; [|done]. cbn in H.
  injection H as <- <-. exists alg, kid, keys, jwk, key, k. split; [lia|]. split_and!; try done.
  by eapply key_set_known_mono.
Qed.

Definition jwt_answer_ok (n1 : nat) (jwt : string) (r : result VerifiedIdentity Response) : Prop :=
  match r with
  | Ok id => identity_ok id /\
      exists claims, token_verified S Was n0 n1 jwt id claims /\ gate_allowed S n0 n1 claims
  | Err resp => refusal resp
  end.

Lemma authenticate_unknown_jwt_runs jwt n :
  (n0 <= n)%nat ->
  obliged n (authenticate_unknown_jwt S jwt) (fun n1 r _ => jwt_answer_ok n1 jwt r).
Proof.
  intros Hn. eapply timed_then; [by apply verify_jwt_runs|]. intros n1 [[id claims]|e] l' Hn1 Hv.
  - apply (timed_then _ _ _ _ _ _ (fun n2 v _ => exists k, (n1 <= k < n2)%nat /\
      v = revocation_gate S k claims (unix_secs S k))).
    { apply ask_obliged. intros k Hk. exists k. split; [lia|done]. }
    intros n2 v l'' Hn2 (k & Hk & Hg). apply timed_return.
    destruct v; [|apply refusal_401|apply refusal_503].
    pose proof (Hv id claims eq_refl) as Htok. split.
    { destruct Htok as (? & ? & ? & ? & ? & ? & _ & _ & _ & _ & _ & _ & _ & _ & Hval & Hid).
      by eapply identity_from_claims_ok. }
    exists claims. split; [|exists k; split; [lia|done]].
    by eapply token_verified_mono.
  - eapply timed_then; [by apply cache_decision_runs|]. intros n2 _ l'' _ _. apply timed_return.
    apply refusal_401.
Qed.

Lemma authenticate_jwt_runs jwt :
  obliged n0 (authenticate_jwt S jwt) (fun n1 r _ => jwt_answer_ok n1 jwt r).
Proof.
  eapply timed_then; [by apply cached_decision_runs|]. intros n1 [[id|]|] l Hn1 _.
  - by apply authenticate_unknown_jwt_runs.
  - apply timed_return, refusal_401.
  - by apply authenticate_unknown_jwt_runs.
Qed.

End Lemmas.

(** ** Lemmas: the whole of [authenticate] *)

Section Authenticated.
Context `{HT : Http} `{SJ : SerdeJson} `{SH : Sha2} `{FI : FiduciaInterfaces} `{JT : Jsonwebtoken}.
Context `{HO : HashOrder} `{HOL : !HashOrderLaws} (S : AuthSurroundings).

(** What may come out of [authenticate]. *)
Definition authenticated (Was : nat -> AuthCaches -> Prop) (n0 n1 : nat) (headers : HeaderMap)
    (r : result (option VerifiedIdentity) Response) : Prop :=
  match r with
  | Ok None => extract_credential headers = None /\ required (config S) = false
  | Ok (Some id) => identity_ok id /\ exists credential, extract_credential headers = Some credential /\
      ((is_api_key credential = true /\ allow_api_keys (config S) = true /\
        api_key_accepted S Was n0 n1 credential id) \/
       (is_api_key credential = false /\ allow_jwts (config S) = true /\
        exists claims, token_verified S Was n0 n1 credential id claims /\ gate_allowed S n0 n1 claims))
  | Err resp => refusal resp
  end.

Lemma authenticated_mono Was n0 n1 n2 headers r :
  authenticated Was n0 n1 headers r -> (n1 <= n2)%nat -> authenticated Was n0 n2 headers r.
Proof.
  destruct r as [[id|]|]; [|done|done]. intros (Hok & c & Hc & H) Hle. split; [done|]. exists c.
  split; [done|]. destruct H as [(? & ? & H)|(? & ? & claims & Ht & n & Hn & Hg)]; [left|right].
  - split_and!; try done. by eapply api_key_accepted_mono.
  - split_and!; try done. exists claims. split; [by eapply token_verified_mono|].
    exists n. split; [lia|done].
Qed.

Lemma authenticate_runs Was E n0 headers :
  timed (both (caches_ok S) Was) (caches_ok S) E n0 (authenticate S headers)
    (fun n1 r _ => authenticated Was n0 n1 headers r).
Proof.
  unfold authenticate, authenticated.
  destruct (extract_credential headers) as [credential|] eqn:Ec.
  2:{ apply timed_return. destruct (required (config S)) eqn:Er; [apply refusal_401|by split]. }
  destruct (is_api_key credential) eqn:Ek.
  - destruct (allow_api_keys (config S)) eqn:Ea; [|apply timed_return, refusal_401]. cbn [negb].
    eapply timed_then; [by apply authenticate_api_key_runs|]. intros n1 [id|resp] l _ Hr; apply timed_return.
    + destruct Hr as [Hok Hacc]. split; [done|]. exists credential. auto.
    + exact Hr.
  - destruct (looks_like_jwt credential); [|apply timed_return, refusal_401].
    destruct (allow_jwts (config S)) eqn:Ea; [|apply timed_return, refusal_401]. cbn [negb].
    eapply timed_then; [by apply authenticate_jwt_runs|]. intros n1 [id|resp] l _ Hr; apply timed_return.
    + destruct Hr as (Hok & claims & Ht & Hg). split; [done|]. exists credential.
      split; [done|]. right. eauto 6.
    + exact Hr.
Qed.

(** The caches after a run among tasks that keep them well. *)
Lemma authenticate_keeps headers env w :
  trely (caches_ok S) env -> caches_ok S (w_step w) (w_state w) ->
  let w' := snd (run env (authenticate S headers) w) in caches_ok S (w_step w') (w_state w').
Proof.
  intros Hr Hw. pose proof (run_tsafe (caches_ok S) (fun _ _ => True) (fun _ _ => True) env _ _ [] w Hr
    (authenticate_runs _ _ _ headers) (fun _ _ _ => I) Hw) as H.
  destruct (run _ _ _) as [answer w']. by destruct H as (_ & _ & Hs & _).
Qed.

(** ** Steps of an authentication *)

Lemma cache_decision_within key identity ttl : within (cache_decision S key identity ttl) 2.
Proof. unfold cache_decision. by destruct (ttl =? 0). Qed.

Lemma refresh_jwks_within : within (refresh_jwks S) 3.
Proof. apply (within_bind _ _ 1 2); [done|done|]. intros reply. by destruct (jwks_answer reply). Qed.

Lemma authenticate_api_key_within api_key : within (authenticate_api_key S api_key) 4.
Proof.
  apply (within_bind _ _ 1 3); [done|done|]. intros [cached|]; [done|].
  apply (within_bind _ _ 1 2); [|done|].
  { unfold fetch_introspection. by destruct (introspection_request S api_key). }
  intros [intro|e]; [|done].
  destruct (identity_from_introspection intro);
    (apply (within_bind _ _ 2 0); [apply cache_decision_within|done|done]).
Qed.

Lemma verify_jwt_within jwt : within (verify_jwt S jwt) 8.
Proof.
  unfold verify_jwt. destruct (decode_header jwt) as [[alg kid]|]; [|done].
  destruct (negb _); [done|]. destruct kid as [kid|]; [|done].
  apply (within_bind _ _ 7 1); [|done|by intros [jwk|e]].
  apply (within_bind _ _ 4 3); [|done|].
  - apply (within_bind _ _ 1 3); [done|done|]. intros [keys|]; [done|apply refresh_jwks_within].
  - intros [keys|e]; [|done]. destruct (find_jwk kid keys); [done|].
    apply (within_bind _ _ 3 0); [apply refresh_jwks_within|done|done].
Qed.

Lemma authenticate_jwt_within jwt : within (authenticate_jwt S jwt) 11.
Proof.
  assert (H : within (authenticate_unknown_jwt S jwt) 10).
  { apply (within_bind _ _ 8 2); [apply verify_jwt_within|done|]. intros [[id claims]|e].
    - by apply (within_bind _ _ 1 1).
    - apply (within_bind _ _ 2 0); [apply cache_decision_within|done|done]. }
  apply (within_bind _ _ 1 10); [done|done|]. by intros [[id|]|].
Qed.

Lemma authenticate_within headers : within (authenticate S headers) 11.
Proof.
  unfold authenticate. destruct (extract_credential headers) as [credential|]; [|done].
  destruct (is_api_key credential).
  - destruct (negb _); [done|]. eapply (within_bind _ _ 4 0);
      [apply authenticate_api_key_within|lia|done].
  - destruct (looks_like_jwt credential); [|done]. destruct (negb _); [done|].
    apply (within_bind _ _ 11 0); [apply authenticate_jwt_within|done|done].
Qed.

End Authenticated.

(** ** Properties *)

Section Properties.
Context `{HT : Http} `{SJ : SerdeJson} `{SH : Sha2} `{FI : FiduciaInterfaces} `{JT : Jsonwebtoken}.
Context `{HO : HashOrder} `{HOL : !HashOrderLaws}.

(** C10. No identity without a fresh voucher: an API key yields an identity only if
    the authentication service accepted it when this request asked, or if at one of
    its own steps this request found a decision in the cache whose expiry, a time to
    live after it was put down on the service's acceptance of a key with the same
    digest, still lay ahead; a JWT only if it carries a valid signature by an
    asymmetric key of a set published now or cached within its time to live, satisfies
    the claim contract at the time this request read, and the revocation gate allowed
    it when this request asked. A caller without credentials passes only if
    credentials are optional, and every refusal is a 401 or 503 that must not be
    cached. The caches keep to their bound and to the service's answers under any
    interleaving. *)
Theorem authenticate_sound (S : AuthSurroundings) (headers : HeaderMap)
    (env : nat -> AuthCaches -> AuthCaches) (w : World AuthCaches Empty_set) :
  trely (caches_ok S) env -> caches_ok S (w_step w) (w_state w) ->
  let (answer, w') := run env (authenticate S headers) w in
  authenticated S (passed env (authenticate S headers) w) (w_step w) (w_step w') headers answer /\
  caches_ok S (w_step w') (w_state w').
Proof.
  intros Hr Hw.
  pose proof (run_tsafe (caches_ok S) (passed env (authenticate S headers) w) (fun _ _ => True) env _ _ [] w
    Hr (authenticate_runs S _ _ _ headers) (fun _ _ H => H) Hw) as H.
  destruct (run _ _ _) as [answer w']. by destruct H as (_ & _ & Hs & Hq).
Qed.

(** Pruning makes room and drops what matters least: below capacity nothing
    changes; otherwise only expired decisions go, and if that is not enough one live
    decision, of which none expires earlier. *)
Theorem prune_decisions_spec (d : gmap string CachedDecision) (now capacity : Z) :
  1 <= capacity -> Z.of_nat (size d) <= capacity ->
  let kept := prune_decisions d now capacity in
  Z.of_nat (size kept) < capacity /\
  (Z.of_nat (size d) < capacity -> kept = d) /\
  (forall k x, kept !! k = Some x -> d !! k = Some x) /\
  (forall k k' x x', d !! k = Some x -> kept !! k = None -> now < cd_expires_at x ->
     kept !! k' = Some x' -> cd_expires_at x <= cd_expires_at x') /\
  (forall k1 k2 x1 x2, d !! k1 = Some x1 -> d !! k2 = Some x2 -> now < cd_expires_at x1 ->
     now < cd_expires_at x2 -> kept !! k1 = None -> kept !! k2 = None -> k1 = k2).
Proof.
  intros Hc Hd kept. split; [by apply prune_decisions_size|].
  split; [intros Hlt; unfold kept, prune_decisions; by destruct (Z.ltb_spec (Z.of_nat (size d)) capacity); [|lia]|].
  split; [apply prune_decisions_subset|].
  assert (Hlive : forall k x, d !! k = Some x -> now < cd_expires_at x -> kept !! k = None ->
    let f := filter (fun p => now < cd_expires_at (snd p)) d in
    exists v, min_by_key (fun p => cd_expires_at (snd p)) (hash_order f) = Some (k, v)
      /\ kept = delete k f).
  { intros k x Hk Hx Hn f. unfold kept, prune_decisions in Hn |- *.
    destruct (_ <? _); [congruence|]. fold f in Hn |- *.
    assert (Hf : f !! k = Some x) by by apply map_lookup_filter_Some.
    destruct (_ <? _); [congruence|].
    destruct (min_by_key _ (hash_order f)) as [[k' v]|] eqn:E; [|congruence].
    apply lookup_delete_None in Hn as [->|Hn]; [eauto|congruence]. }
  split.
  - intros k k' x x' Hk Hn Hx Hk'. destruct (Hlive k x Hk Hx Hn) as (v & E & Hkept).
    apply min_by_key_Some in E as [Hin Hmin]. rewrite hash_order_perm, elem_of_map_to_list in Hin.
    apply map_lookup_filter_Some in Hin as [Hin _]. rewrite Hk in Hin. injection Hin as <-.
    rewrite Hkept in Hk'. apply lookup_delete_Some in Hk' as [_ Hk'].
    apply (Hmin (k', x')). by rewrite hash_order_perm, elem_of_map_to_list.
  - intros k1 k2 x1 x2 H1 H2 L1 L2 N1 N2.
    destruct (Hlive k1 x1 H1 L1 N1) as (v1 & E1 & _), (Hlive k2 x2 H2 L2 N2) as (v2 & E2 & _).
    rewrite E1 in E2. by injection E2.
Qed.

(** The configuration fails closed: a release build requires credentials unless
    the operator explicitly says otherwise, a revocation reader secret is only ever
    one of at least 32 bytes without blanks, and the revocation bounds are never
    zero. *)
Theorem config_fails_closed (env : Environment) :
  let c := config_from_env false env in
  (required c = false <->
     exists v, env "FIDUCIA_AUTH_REQUIRED" = Some v /\
       trim v ∈ ["0"; "false"; "FALSE"; "no"; "NO"; "off"; "OFF"]) /\
  (forall s, revocation_reader_secret c = Some s -> valid_reader_secret s = true) /\
  1 <= revocation_freshness_secs c /\ 1 <= revocation_capacity c /\ 1 <= revocation_refresh_timeout c.
Proof.
  cbn. split; [|split; [|lia]].
  - unfold auth_required_decision, env_bool_opt, env_value.
    destruct (env "FIDUCIA_AUTH_REQUIRED") as [v|]; cbn; [|split; [done|naive_solver]].
    destruct (String.eqb_spec (trim v) "") as [E|E].
    { split; [done|]. intros (v' & [= <-] & Hv). rewrite E in Hv.
      apply list_elem_of_In in Hv. cbn in Hv. naive_solver. }
    case_bool_decide as Ht; cbn.
    { split; [done|]. intros (v' & [= <-] & Hv). apply list_elem_of_In in Ht, Hv.
      cbn in Ht, Hv. exfalso. naive_solver congruence. }
    case_bool_decide as Hf; cbn; [naive_solver|]. split; [done|naive_solver].
  - intros s. destruct (env_value env _) as [v|]; [|done].
    destruct (valid_reader_secret v) eqn:E; naive_solver.
Qed.

End Properties.

(** ** Witnesses: a service that accepts keys and a key set that is late *)

(** Tokens [h.kid.sig] carry the demo claims; a key set is the list of its ids. *)
#[export] Instance demo_jsonwebtoken : Jsonwebtoken := {|
  Jwk := string;
  DecodingKey := string;
  jwkset_from_slice s := Some (split_on "," s);
  find_jwk kid keys := List.find (String.eqb kid) keys;
  jwk_is_octet_key k := false;
  decode_header t := match split_on "." t with [_; kid; _] => Some (ES256, Some kid) | _ => None end;
  decoding_key_from_jwk k := Some k;
  decode_token _ _ _ _ _ _ := Some demo_claims;
|}.

Definition no_environment : Environment := fun _ => None.

Definition demo_introspection : string :=
  json_to_vec (JObj [("valid", JBool true); ("org_id", JStr "org-a"); ("key_id", JStr "key-1");
                     ("scopes", JArr [JStr "kv:read"])]).

(** The key set is unreachable for ten steps; a step takes a tenth of a second. *)
Definition demo_auth : AuthSurroundings :=
  mkAuthSurroundings (config_from_env false no_environment) (fun n => 100 * Z.of_nat n)
    (fun _ => 100) (fun _ _ => Replied 200 (Some demo_introspection))
    (fun n _ => if (n <? 10)%nat then NoReply else Replied 200 (Some "k1"))
    (fun _ _ _ => Allowed).

Definition api_key_headers : HeaderMap := [("authorization", "Bearer fdc_1.secret")].
Definition jwt_headers : HeaderMap := [("authorization", "Bearer h.k1.s")].

(** A transient outage of the key set is remembered as an invalid token: the
    token is refused with 401 although only the key service was unreachable, and it
    is refused again after the service is back, until the negative decision expires;
    a balancer without that memory accepts it at the same instant. *)
Theorem jwks_outage_is_remembered :
  let (r1, w1) := run quiet (authenticate demo_auth jwt_headers) (mkWorld 0 no_caches []) in
  let (r2, w2) := run quiet (authenticate demo_auth jwt_headers) (mkWorld 20 (w_state w1) []) in
  let (r3, w3) := run quiet (authenticate demo_auth jwt_headers) (mkWorld 20 no_caches []) in
  r1 = Err invalid_jwt /\ r2 = Err invalid_jwt /\ rs_status invalid_jwt = 401 /\
  is_ok r3 = true.
Proof. vm_compute. repeat split. Qed.

(** The service answers the first introspection only; decisions live for a minute. *)
Definition brief_auth : AuthSurroundings :=
  mkAuthSurroundings (config demo_auth) (instant demo_auth) (unix_secs demo_auth)
    (fun n _ => if (n <? 5)%nat then Replied 200 (Some demo_introspection) else NoReply)
    (jwks_service demo_auth) (revocation_gate demo_auth).

(** The caches after a first call with the key. *)
Definition warm_caches : AuthCaches :=
  w_state (snd (run quiet (authenticate brief_auth api_key_headers) (mkWorld 0 no_caches []))).

Lemma warm_caches_ok n : (20 <= n)%nat -> caches_ok brief_auth n warm_caches.
Proof.
  intros Hn. pose proof (authenticate_keeps brief_auth api_key_headers quiet (mkWorld 0 no_caches [])
    (fun _ _ H => H) (no_caches_ok brief_auth 0)) as H. unfold warm_caches.
  destruct (run _ _ _) as [answer w] eqn:E. cbn in H |- *.
  assert (Hs : (w_step w < 20)%nat).
  { assert (Hw : w_step (snd (run quiet (authenticate brief_auth api_key_headers) (mkWorld 0 no_caches []))) = 4%nat)
      by (vm_compute; reflexivity). rewrite E in Hw. cbn in Hw. lia. }
  eapply caches_ok_mono; [exact H|lia].
Qed.

(** A second call two seconds later rests on the cache alone; one that comes after a
    minute is not let through. *)
Lemma authenticate_sound_witness :
  let (answer, w) := run quiet (authenticate brief_auth api_key_headers) (mkWorld 20 warm_caches []) in
  authenticated brief_auth (passed quiet (authenticate brief_auth api_key_headers) (mkWorld 20 warm_caches []))
    20 (w_step w) api_key_headers answer /\ is_ok answer = true /\
  is_ok (fst (run quiet (authenticate brief_auth api_key_headers) (mkWorld 700 warm_caches []))) = false.
Proof.
  pose proof (authenticate_sound brief_auth api_key_headers quiet (mkWorld 20 warm_caches [])
    (fun _ _ H => H) (warm_caches_ok 20 (Nat.le_refl 20))) as H.
  assert (E : is_ok (fst (run quiet (authenticate brief_auth api_key_headers) (mkWorld 20 warm_caches []))) = true)
    by (vm_compute; reflexivity).
  destruct (run quiet (authenticate brief_auth api_key_headers) (mkWorld 20 warm_caches [])) as [answer w].
  destruct H as [H _]. split; [exact H|]. split; [exact E|]. vm_compute. reflexivity.
Defined.

Definition two_decisions : gmap string CachedDecision :=
  {["soon" := mkCachedDecision 20 None; "later" := mkCachedDecision 90 None]}.

Lemma prune_decisions_spec_witness :
  Z.of_nat (size (prune_decisions two_decisions 10 2)) < 2 /\
  prune_decisions two_decisions 10 2 !! "soon" = None.
Proof.
  split; [|vm_compute; reflexivity].
  apply (prune_decisions_spec two_decisions 10 2); vm_compute; discriminate.
Defined.
