(* ===== verification/TokenGate.v ===== *)
(** * Tokens under the revocation gate ([src/auth.rs] with [src/revocation.rs])

    The revocation gate with the calls it serves: a call is [authorize] for the
    claims of a token, the answers come from the authority over HTTP, and the verdict
    is what the authentication of that token gets. [with_gate] puts the gate's
    verdicts in place of the authentication's parameter: one history of one gate, of
    which a request finds the part before its own step.

    The theorems: a verdict that lets a token through rests on a call of that history,
    made at most the freshness budget earlier, about a token with the same cache key,
    and on the authority's complete "not revoked" answer to that call; so does every
    token the authentication accepts. *)
From S2P Require Import Prelude RustStr Externals Instances Identity Conc Revocation RevocationGate Auth.
Open Scope string_scope.
Open Scope list_scope.
Open Scope Z_scope.
Open Scope rust_scope.

(** [AuthState] at start-up, less its HTTP client. *)
Record AuthState `{Jsonwebtoken} := mkAuthState {
  as_config : AuthConfig;
  as_caches : AuthCaches;
  as_gate : Gate;
}.
Arguments mkAuthState {_} _ _ _.

(** [AuthState::from_env]. *)
Definition auth_state_from_env `{Jsonwebtoken} (is_debug_build : bool) (env : Environment) : AuthState :=
  let config := config_from_env is_debug_build env in
  mkAuthState config no_caches
    (new_gate (Auth.revocation_freshness_secs config) (Auth.revocation_capacity config)).

(** ** Calls of the gate *)

Record Calls := mkCalls {
  ca_gate : Gate;
  ca_claims : gmap nat Claims;
}.

(** [Reply id n]: the authority answers call [id] at step [n]; [Timeout id]: the
    refresh timeout ends first; [Drop id]: the caller is gone. *)
Inductive GateEvent : Type :=
| Authorize (id : nat) (claims : Claims) (now : Z)
| Proceed (id : nat)
| Reply (id n : nat)
| Timeout (id : nat)
| Drop (id : nat).

Section Calls.
Context `{HT : Http} `{RW : RevocationWire} `{SH : Sha2} `{HO : HashOrder}.
Context (config : AuthConfig) (authority : nat -> ClientRequest -> ClientReply).

(** The authority's answer to a question at step [n], as the gate sees it. *)
Definition authority_says (n : nat) (claims : Claims) (now : Z) : result bool AuthorityError :=
  check_revocation (authority n) (revocation_check_url config) (revocation_reader_secret config) claims now.

Definition on_gate (a : Action) (s : Calls) : option Calls :=
  let! g := exec a (ca_gate s) in Some (mkCalls g (ca_claims s)).

Definition perform (ev : GateEvent) (s : Calls) : option Calls :=
  match ev with
  | Authorize id claims now =>
      let! s := on_gate (Spawn id (revocation_cache_key claims) now) s in
      Some (mkCalls (ca_gate s) (<[id := claims]> (ca_claims s)))
  | Proceed id => on_gate (Advance id) s
  | Reply id n =>
      let! claims := ca_claims s !! id in
      let! t := g_tasks (ca_gate s) !! id in
      on_gate (Answers id match authority_says n claims (t_now t) with
                          | Ok revoked => Says revoked
                          | Err _ => Failed
                          end) s
  | Timeout id => on_gate (Answers id TimedOut) s
  | Drop id => on_gate (Cancel id) s
  end.

Fixpoint perform_all (l : list GateEvent) (s : Calls) : option Calls :=
  match l with
  | [] => Some s
  | ev :: l => let! s := perform ev s in perform_all l s
  end.

Definition no_calls : Calls :=
  mkCalls (new_gate (Auth.revocation_freshness_secs config) (Auth.revocation_capacity config)) ∅.

(** The verdict of a call: what [authorize] returned for these claims at this time.
    Before it has returned there is none to act on. *)
Definition verdict (events : list GateEvent) (id : nat) (claims : Claims) (now : Z) : Authorization :=
  let pending := IsUnavailable RefreshTimedOut in
  match perform_all events no_calls with
  | Some s =>
      match ca_claims s !! id, g_tasks (ca_gate s) !! id with
      | Some claims', Some t =>
          if bool_decide (claims' = claims) && (t_now t =? now) then
            match t_pc t with Finished out => out | _ => pending end
          else pending
      | _, _ => pending
      end
  | None => pending
  end.

End Calls.

(** ** Lemmas *)

(** In this history a call about [claims] was made at time [observed], and later the
    authority was asked for it, at step [n]. *)
Definition told (history : list GateEvent) (claims : Claims) (observed : Z) (n : nat) : Prop :=
  exists id l1 l2 l3, history = l1 ++ Authorize id claims observed :: l2 ++ Reply id n :: l3.

Lemma told_later history l claims observed n :
  told history claims observed n -> told (history ++ l) claims observed n.
Proof.
  intros (id & l1 & l2 & l3 & ->). exists id, l1, l2, (l3 ++ l). by rewrite <-app_assoc, <-!app_comm_cons, <-app_assoc.
Qed.

Lemma told_now history id claims observed n :
  Authorize id claims observed ∈ history -> told (history ++ [Reply id n]) claims observed n.
Proof.
  intros (l1 & l2 & ->)%list_elem_of_split. exists id, l1, l2, []. by rewrite <-app_assoc, <-app_comm_cons.
Qed.

Section Lemmas.
Context `{HT : Http} `{RW : RevocationWire} `{SH : Sha2} `{HO : HashOrder} `{HOL : !HashOrderLaws}.
Context (config : AuthConfig) (authority : nat -> ClientRequest -> ClientReply).

Local Notation budget := (Auth.revocation_freshness_secs config).
Local Notation cap := (Auth.revocation_capacity config).

(** Only an answer of the authority becomes an answer of the gate. *)
Lemma exec_answers a g g' :
  exec a g = Some g' ->
  g_answers g' = g_answers g ++
    match a with
    | Answers id (Says revoked) =>
        match g_tasks g !! id with
        | Some t => [(t_key t, verdict_of revoked, t_now t)]
        | None => []
        end
    | _ => []
    end.
Proof.
  assert (Hlook : forall t, g_answers (snd (gate_lookup t g)) = g_answers g).
  { intros t. unfold gate_lookup. by destruct (lookup_decision _ _ _) as [[[d| |] c]|]. }
  destruct a as [id key now|id|id ans|id]; cbn [exec];
    destruct (g_tasks g !! id) as [t|]; try done; [by intros [= <-]; rewrite app_nil_r|..].
  - rewrite app_nil_r. unfold advance_task. destruct (t_pc t); try done.
    1,4: specialize (Hlook t); destruct (gate_lookup t g) as [o g1]; by intros [= <-].
    + unfold acquire_key. by destruct (g_locks g !! t_key t); intros [= <-].
    + case_bool_decide; [done|]. by intros [= <-].
    + by destruct (record_refresh_start _ _); intros [= <-].
    + by destruct (apply_decision _ _ _ _); intros [= <-].
    + by intros [= <-].
    + intros [= <-]. unfold release_key. by destruct (_ <=? _)%nat.
    + by intros [= <-].
  - unfold answer_task. destruct (t_pc t); try done. destruct ans; intros [= <-]; cbn; by rewrite ?app_nil_r.
  - rewrite app_nil_r. unfold cancel_task. by destruct (t_pc t); intros [= <-].
Qed.

(** The authority gave this answer, in this history, about a token with this cache
    key, to a call made at this time. *)
Definition answered (history : list GateEvent) (key : string) (d : Decision) (observed : Z) : Prop :=
  exists claims n revoked, revocation_cache_key claims = key /\ told history claims observed n /\
    authority_says config authority n claims observed = Ok revoked /\ d = verdict_of revoked.

Lemma answered_later history l key d observed :
  answered history key d observed -> answered (history ++ l) key d observed.
Proof.
  intros (claims & n & rv & Hk & Ht & H). exists claims, n, rv. split; [done|]. split; [|done].
  by apply told_later.
Qed.

Record calls_ok (history : list GateEvent) (s : Calls) : Prop := {
  cs_reachable : reachable budget cap (ca_gate s);
  cs_claims : forall id claims t, ca_claims s !! id = Some claims -> g_tasks (ca_gate s) !! id = Some t ->
    t_key t = revocation_cache_key claims /\ Authorize id claims (t_now t) ∈ history;
  cs_tasks : forall id t, g_tasks (ca_gate s) !! id = Some t -> is_Some (ca_claims s !! id);
  cs_answers : forall key d observed, (key, d, observed) ∈ g_answers (ca_gate s) ->
    answered history key d observed;
}.

Lemma no_calls_ok : calls_ok [] (no_calls config).
Proof. split; cbn; [constructor|done..|]. intros key d o H. by apply not_elem_of_nil in H. Qed.

(** A step of a task that is there: it keeps its key and its time. *)
Lemma on_gate_ok history ev a s s' :
  calls_ok history s -> (forall id key now, a <> Spawn id key now) ->
  (forall id revoked, a = Answers id (Says revoked) -> forall t, g_tasks (ca_gate s) !! id = Some t ->
     answered (history ++ [ev]) (t_key t) (verdict_of revoked) (t_now t)) ->
  on_gate a s = Some s' -> calls_ok (history ++ [ev]) s'.
Proof.
  intros [Hr Hc Ht Ha] Hs Hans. unfold on_gate. destruct (exec a (ca_gate s)) as [g|] eqn:E; [|done].
  intros [= <-]. pose proof (exec_answers _ _ _ E) as Hg. pose proof (exec_moves _ _ _ E) as (_ & _ & Hm).
  assert (Htask : forall j u, g_tasks g !! j = Some u ->
    exists u', g_tasks (ca_gate s) !! j = Some u' /\ t_key u = t_key u' /\ t_now u = t_now u').
  { intros j u Hu. destruct a as [id key now|id|id ans|id]; [by destruct (Hs id key now)|..];
      destruct Hm as (t & q & Hid & Hg' & _); rewrite Hg' in Hu;
      apply lookup_insert_Some in Hu as [[<- <-]|[_ Hu]]; eauto. }
  split; cbn.
  - by eapply reach_step.
  - intros id claims t Hcl Hid. destruct (Htask id t Hid) as (u & Hu & -> & ->).
    destruct (Hc id claims u Hcl Hu). split; [done|]. apply elem_of_app. by left.
  - intros id t Hid. destruct (Htask id t Hid) as (u & Hu & _). eauto.
  - intros key d o Hin. rewrite Hg in Hin. apply elem_of_app in Hin as [Hin|Hin];
      [apply answered_later; auto|].
    destruct a as [| |id [| |revoked]|]; try by apply not_elem_of_nil in Hin.
    destruct (g_tasks (ca_gate s) !! id) as [t|] eqn:Hid; [|by apply not_elem_of_nil in Hin].
    apply list_elem_of_singleton in Hin. injection Hin as -> -> ->. by eapply Hans.
Qed.

Lemma perform_ok history ev s s' :
  calls_ok history s -> perform config authority ev s = Some s' -> calls_ok (history ++ [ev]) s'.
Proof.
  intros Hok. destruct ev as [id claims now|id|id n|id|id]; cbn [perform];
    try (apply on_gate_ok; [done|done|by intros ? ? [=]]).
  - destruct Hok as [Hr Hc Ht Ha]. unfold on_gate.
    destruct (exec _ (ca_gate s)) as [g|] eqn:E; [|done]. intros [= <-].
    pose proof (exec_answers _ _ _ E) as Hg. rewrite app_nil_r in Hg.
    pose proof (exec_moves _ _ _ E) as (_ & _ & Hnone & Htasks). split; cbn.
    + by eapply reach_step.
    + intros j cl t. rewrite Htasks. intros Hj1 Hj2. rewrite elem_of_app, list_elem_of_singleton.
      apply lookup_insert_Some in Hj1 as [[<- <-]|[Hne Hj1]].
      * rewrite lookup_insert_eq in Hj2. injection Hj2 as <-. auto.
      * rewrite lookup_insert_ne in Hj2 by done. destruct (Hc _ _ _ Hj1 Hj2). auto.
    + intros j t. rewrite Htasks. intros [[<- _]|[Hne Hj]]%lookup_insert_Some;
        [rewrite lookup_insert_eq; eauto|]. rewrite lookup_insert_ne by done. eauto.
    + intros key d o. rewrite Hg. intros Hin. by apply answered_later, Ha.
  - destruct (ca_claims s !! id) as [claims|] eqn:Hcl; [|done].
    destruct (g_tasks (ca_gate s) !! id) as [t|] eqn:Hid; [|done].
    apply on_gate_ok; [done|done|]. intros id' revoked [= <- Hb] t' Ht'.
    rewrite Hid in Ht'. injection Ht' as <-.
    destruct (authority_says config authority n claims (t_now t)) as [b|] eqn:E; [|done].
    injection Hb as ->. destruct (cs_claims _ _ Hok id claims t Hcl Hid) as [Hk Hin].
    exists claims, n, revoked. split_and!; [done| |done|done]. by apply told_now.
Qed.

Lemma perform_all_ok history l s s' :
  calls_ok history s -> perform_all config authority l s = Some s' -> calls_ok (history ++ l) s'.
Proof.
  revert history s. induction l as [|ev l IH]; intros history s Hok; cbn [perform_all].
  { intros [= <-]. by rewrite app_nil_r. }
  destruct (perform config authority ev s) as [s1|] eqn:E; [|done]. intros H.
  apply (perform_ok _ _ _ _ Hok) in E. specialize (IH _ _ E H). by rewrite <-app_assoc in IH.
Qed.

(** A token let through, or refused as revoked, on the authority's fresh word. *)
Lemma verdict_grounded events id claims now d :
  1 <= budget ->
  verdict config authority events id claims now = decision_to_authorization d ->
  exists claims' n observed revoked, revocation_cache_key claims' = revocation_cache_key claims /\
    told events claims' observed n /\ authority_says config authority n claims' observed = Ok revoked /\
    d = verdict_of revoked /\ observed <= now <= observed + budget.
Proof.
  intros Hb. unfold verdict.
  destruct (perform_all _ _ _ _) as [s|] eqn:E; [|by destruct d].
  pose proof (perform_all_ok _ _ _ _ no_calls_ok E) as [Hr Hc _ Ha].
  destruct (ca_claims s !! id) as [claims'|] eqn:Hcl; [|by destruct d].
  destruct (g_tasks (ca_gate s) !! id) as [t|] eqn:Hid; [|by destruct d].
  destruct (bool_decide (claims' = claims) && (t_now t =? now)) eqn:Hmatch; [|by destruct d].
  apply andb_true_iff in Hmatch as [->%bool_decide_eq_true Hnow]. apply Z.eqb_eq in Hnow.
  destruct (t_pc t) as [| | | | | | | | | |out|] eqn:Hpc; try by destruct d.
  intros ->. pose proof (reachable_ok _ _ _ Hr) as Hok.
  destruct (tk_out _ _ (go_tasks _ Hok id t Hid) _ (f_equal pc_out Hpc) d eq_refl) as (o & Ho & Hle).
  destruct (Ha _ _ _ Ho) as (cl & n & rv & Hk & Ht & Hs & Hd).
  rewrite (proj1 (reachable_params _ _ _ Hr)), Z.max_l in Hle by done.
  exists cl, n, o, rv. split_and!; try done; [|lia..]. rewrite Hk. by eapply Hc.
Qed.

End Lemmas.

(** ** The authentication with the gate *)

Section WithGate.
Context `{HT : Http} `{SJ : SerdeJson} `{SH : Sha2} `{FI : FiduciaInterfaces} `{JT : Jsonwebtoken}.
Context `{HO : HashOrder} `{HOL : !HashOrderLaws} `{RW : RevocationWire}.

(** What one gate went through, and which part of it an authentication that asks at
    step [n] finds: its own call, after the first [gh_upto n] events. *)
Record GateHistory := mkGateHistory {
  gh_events : list GateEvent;
  gh_upto : nat -> nat;
  gh_call : nat -> nat;
}.

Definition gate_before (h : GateHistory) (n : nat) : list GateEvent := take (gh_upto h n) (gh_events h).

(** The authentication whose questions are calls of this gate. *)
Definition with_gate (S : AuthSurroundings) (authority : nat -> ClientRequest -> ClientReply)
    (h : GateHistory) : AuthSurroundings :=
  mkAuthSurroundings (config S) (instant S) (unix_secs S) (introspection_service S) (jwks_service S)
    (fun n claims now => verdict (config S) authority (gate_before h n) (gh_call h n) claims now).

Context (S : AuthSurroundings) (authority : nat -> ClientRequest -> ClientReply).

(** In this history of the gate the authority answered "not revoked" to a call about
    a token with the same cache key, and that call was made at most the freshness
    budget before [now]. *)
Definition freshly_allowed (history : list GateEvent) (claims : Claims) (now : Z) : Prop :=
  exists claims' n observed, revocation_cache_key claims' = revocation_cache_key claims /\
    told history claims' observed n /\ authority_says (config S) authority n claims' observed = Ok false /\
    observed <= now <= observed + Auth.revocation_freshness_secs (config S).

Lemma authenticated_token h Was n0 n1 headers jwt id :
  1 <= Auth.revocation_freshness_secs (config S) ->
  authenticated (with_gate S authority h) Was n0 n1 headers (Ok (Some id)) ->
  extract_credential headers = Some jwt -> is_api_key jwt = false ->
  exists claims n, (n0 <= n < n1)%nat /\ token_verified (with_gate S authority h) Was n0 n1 jwt id claims /\
    freshly_allowed (gate_before h n) claims (unix_secs S n).
Proof.
  intros Hb (_ & credential & Hc & Hk) Hj Hapi. rewrite Hc in Hj. injection Hj as ->.
  destruct Hk as [(Hk & _)|(_ & _ & claims & Ht & n & Hn & Hv)]; [congruence|]. exists claims, n.
  split; [done|]. split; [done|]. cbn [revocation_gate with_gate unix_secs] in Hv.
  destruct (verdict_grounded _ _ _ _ claims (unix_secs S n) Allow Hb Hv)
    as (claims' & m & o & rv & H1 & H2 & H3 & H4 & H5). exists claims', m, o. by destruct rv.
Qed.

End WithGate.

(** ** Properties *)

Section Properties.
Context `{HT : Http} `{SJ : SerdeJson} `{SH : Sha2} `{FI : FiduciaInterfaces} `{JT : Jsonwebtoken}.
Context `{HO : HashOrder} `{HOL : !HashOrderLaws} `{RW : RevocationWire}.

(** C11. An accepted token is not revoked: with the gate in place, a JWT yields an
    identity only if it verifies and, at one of the request's own steps, what the gate
    had gone through holds a call about a token with the same cache key, made at most
    the freshness budget before the time this request read, which the authority's
    complete, consistent HTTP answer called not revoked. *)
Theorem accepted_token_not_revoked (S : AuthSurroundings) (authority : nat -> ClientRequest -> ClientReply)
    (h : GateHistory) (headers : HeaderMap) (jwt : string) (id : VerifiedIdentity)
    (env : nat -> AuthCaches -> AuthCaches) (w : World AuthCaches Empty_set) :
  let S' := with_gate S authority h in
  let request := authenticate S' headers in
  let ended := w_step (snd (run env request w)) in
  1 <= Auth.revocation_freshness_secs (config S) ->
  trely (caches_ok S') env -> caches_ok S' (w_step w) (w_state w) ->
  extract_credential headers = Some jwt -> is_api_key jwt = false ->
  fst (run env request w) = Ok (Some id) ->
  exists claims n, (w_step w <= n < ended)%nat /\
    token_verified S' (passed env request w) (w_step w) ended jwt id claims /\
    freshly_allowed S authority (gate_before h n) claims (unix_secs S n).
Proof.
  intros S' request ended Hb Hr Hw Hc Hk Ha. unfold ended.
  pose proof (run_tsafe (caches_ok S') (passed env request w) (fun _ _ => True) env request _ [] w
    Hr (authenticate_runs S' _ _ _ headers) (fun _ _ H => H) Hw) as H.
  destruct (run env request w) as [answer w']. destruct H as (_ & _ & _ & Hq). cbn in Ha. subst answer.
  by eapply authenticated_token.
Qed.

(** The gate asks whom it should and believes only whole answers: a verdict other
    than "unavailable" on a call is the authority's reply to a check request for
    claims with the call's cache key, of status 2xx, at most 16 KiB, consistent at
    that time. *)
Theorem verdict_is_the_authoritys (config : AuthConfig) (authority : nat -> ClientRequest -> ClientReply)
    (events : list GateEvent) (id : nat) (claims : Claims) (now : Z) (out : Authorization) :
  1 <= Auth.revocation_freshness_secs config ->
  verdict config authority events id claims now = out -> (forall u, out <> IsUnavailable u) ->
  exists claims' n observed rq status body d,
    revocation_cache_key claims' = revocation_cache_key claims /\
    check_request (revocation_check_url config) (revocation_reader_secret config) claims' = Ok rq /\
    told events claims' observed n /\
    authority n rq = Replied status (Some body) /\ 200 <= status <= 299 /\ str_len body <= 16 * 1024 /\
    envelope_from_slice body = Some d /\ consistent d observed /\
    out = (if revoked d then Revoked else Allowed) /\
    observed <= now <= observed + Auth.revocation_freshness_secs config.
Proof.
  intros Hb Hv Hu. assert (exists d, out = decision_to_authorization d) as [d ->].
  { destruct out as [| |u]; [by exists Allow|by exists Deny|by destruct (Hu u)]. }
  destruct (verdict_grounded _ _ _ _ _ _ _ Hb Hv) as (cl & n & o & rv & Hk & Ht & Hs & -> & Ho).
  unfold authority_says, check_revocation in Hs.
  destruct (check_request _ _ cl) as [rq|] eqn:Hrq; [|done]. cbn [result_bind] in Hs.
  apply check_answer_spec in Hs as (status & body & wd & H1 & H2 & H3 & H4 & <- & H5).
  exists cl, n, o, rq, status, body, wd. split_and!; try done; try lia. by destruct (revoked wd).
Qed.

End Properties.

(** ** Witnesses: the authority allows the token *)

Definition reader_environment : Environment := fun name =>
  if String.eqb name "FIDUCIA_REVOCATION_READER_SECRET"
  then Some "0123456789abcdef0123456789abcdef" else None.

Definition reader_config : AuthConfig := config_from_env false reader_environment.

Definition reader_auth : AuthSurroundings :=
  mkAuthSurroundings reader_config (fun n => 100 * Z.of_nat n)
    (fun n => if (n <? 10)%nat then 100 else 102)
    (fun _ _ => NoReply) (fun _ _ => Replied 200 (Some "k1")) (fun _ _ _ => IsUnavailable RefreshFailed).

Definition allowing_authority (_ : nat) (_ : ClientRequest) : ClientReply := Replied 200 (Some "allow").

(** Two calls about one token: the authority answers the first at step 3; the second,
    two seconds later, finds the answer in the cache. *)
Definition two_calls : list GateEvent :=
  [Authorize 0 demo_claims 100; Proceed 0; Proceed 0; Proceed 0; Proceed 0; Proceed 0; Reply 0 3;
   Proceed 0; Proceed 0; Proceed 0; Proceed 0; Authorize 1 demo_claims 102; Proceed 1].

Definition two_calls_history : GateHistory :=
  mkGateHistory two_calls (fun _ => 13%nat) (fun n => if (n <? 10)%nat then 0%nat else 1%nat).

Lemma accepted_token_not_revoked_witness :
  exists id claims n,
    fst (run quiet (authenticate (with_gate reader_auth allowing_authority two_calls_history) jwt_headers)
           (mkWorld 20 no_caches [])) = Ok (Some id) /\ (20 <= n)%nat /\
    freshly_allowed reader_auth allowing_authority (gate_before two_calls_history n) claims 102.
Proof.
  assert (E : exists id, fst (run quiet
      (authenticate (with_gate reader_auth allowing_authority two_calls_history) jwt_headers)
      (mkWorld 20 no_caches [])) = Ok (Some id)) by (eexists; vm_compute; reflexivity).
  destruct E as [id E]. exists id.
  destruct (accepted_token_not_revoked reader_auth allowing_authority two_calls_history jwt_headers "h.k1.s" id
    quiet (mkWorld 20 no_caches []) ltac:(vm_compute; discriminate) (fun _ _ H => H)
    (no_caches_ok (with_gate reader_auth allowing_authority two_calls_history) 20)
    ltac:(vm_compute; reflexivity) ltac:(vm_compute; reflexivity) E) as (claims & n & [Hn _] & _ & H).
  exists claims, n. split; [exact E|]. split; [exact Hn|].
  assert (Ht : unix_secs reader_auth n = 102).
  { unfold unix_secs, reader_auth. cbn in Hn. destruct (Nat.ltb_spec n 10) as [Hlt|]; [lia|reflexivity]. }
  rewrite <-Ht. exact H.
Defined.

Lemma verdict_is_the_authoritys_witness :
  exists n rq body d, allowing_authority n rq = Replied 200 (Some body) /\
    envelope_from_slice body = Some d /\ revoked d = false.
Proof.
  destruct (verdict_is_the_authoritys reader_config allowing_authority two_calls 0 demo_claims 100
    Allowed ltac:(vm_compute; discriminate) ltac:(vm_compute; reflexivity) ltac:(intros u; discriminate))
    as (_ & n & _ & rq & status & body & d & _ & _ & _ & Hb & _ & _ & Hd & _ & Ho & _).
  exists n, rq, body, d. injection Hb as <- <-. split; [reflexivity|]. split; [exact Hd|].
  destruct (revoked d); [discriminate Ho|reflexivity].
Defined.
