(* ===== verification/App.v ===== *)
(** * The service: handlers and operator surface ([src/main.rs])

    Start-up values from the environment, the router, the probes, the operator
    endpoints and the client entry point, which establishes an identity (trusted
    edge first, then the caller's own credential) and hands the request to the
    pipeline. All handlers are programs on one state, the caches of the
    authentication and the route table; [System] lets any number of them run at once.

    The theorems: the operator endpoints are closed to everyone without an
    operator scope; a ready balancer can route every shard; start-up is well
    formed. *)
From S2P Require Import Prelude RustStr Externals Instances Routing Table Identity Scopes Conc.
From S2P Require Import Directory Forward Brain Idempotency Proxy Revocation Auth.
Open Scope string_scope.
Open Scope list_scope.
Open Scope Z_scope.
Open Scope rust_scope.

Definition SERVICE : string := "fiducia-load-balance".
Definition MAX_BODY_BYTES : Z := 1024 * 1024.

(** ** Start-up *)

Definition shard_count_from_env_value (value : option string) : Z :=
  Z.max (default 16 (let! raw := value in parse_uint u32_max (trim raw))) 1.

(** [FIDUCIA_NODES]. *)
Definition seed_nodes (env : Environment) : list string :=
  match env "FIDUCIA_NODES" with
  | Some s => List.filter (fun n => negb (String.eqb n "")) (split_on "," s)
  | None => []
  end.

Definition port_from_env (env : Environment) (name : string) (default_ : Z) : Z :=
  default default_ (let! p := env name in parse_uint u16_max p).

Record TlsSettings := mkTlsSettings {
  tls_cert_path : string;
  tls_key_path : string;
  tls_port : Z;
}.

Definition tls_settings (env : Environment) : result (option TlsSettings) string :=
  match env "FIDUCIA_TLS_CERT_PATH", env "FIDUCIA_TLS_KEY_PATH" with
  | Some cert_path, Some key_path =>
      Ok (Some (mkTlsSettings cert_path key_path (port_from_env env "TLS_PORT" 8443)))
  | None, None => Ok None
  | _, _ => Err "set both FIDUCIA_TLS_CERT_PATH and FIDUCIA_TLS_KEY_PATH, or neither"
  end.

Definition brain_url_from_env (env : Environment) : string :=
  default "http://localhost:8095" (env "FIDUCIA_BRAIN_URL").

(** The route table [main] starts with. *)
Definition initial_table `{UrlCrate} (env : Environment) : RouteTable :=
  Table.new (shard_count_from_env_value (env "FIDUCIA_SHARD_COUNT")) (seed_nodes env).

(** What [main] serves: the proxy on its port, or over TLS with the guard beside it. *)
Inductive Listener : Type :=
| ProxyHttp (port : Z)
| ProxyHttps (tls : TlsSettings)
| GuardHttp (port : Z).

Definition listeners (env : Environment) : result (list Listener) string :=
  let port := port_from_env env "PORT" 8088 in
  let? tls := tls_settings env in
  Ok match tls with
     | Some tls => [GuardHttp port; ProxyHttps tls]
     | None => [ProxyHttp port]
     end.

(** ** Responses *)

Section Pages.
Context `{SJ : SerdeJson}.

Definition healthz : Response :=
  json_response 200 (JObj [("status", JStr "ok"); ("service", JStr SERVICE)]).

Definition readiness_response (routes : RouteTable) : Response :=
  if negb (is_hydrated routes) then
    json_response 503 (JObj [("status", JStr "not_ready"); ("service", JStr SERVICE);
      ("detail", JStr "route table is not hydrated yet")])
  else json_response 200 (JObj [("status", JStr "ok"); ("service", JStr SERVICE)]).

Definition plaintext_upgrade_required : Response :=
  json_response 426 (JObj [("error", JStr "https_required");
    ("detail", JStr "cleartext proxying is disabled while TLS is enabled; retry the configured HTTPS endpoint")]).

Definition insufficient_admin_scope_response : Response :=
  json_response 403 (JObj [("error", JStr "insufficient_scope");
    ("detail", JStr "credential scope does not permit this operator route");
    ("required_scopes", JArr (map JStr ["admin:read"; "admin:write"]))]).

End Pages.

(** [authorize_admin_read], with this file's copy of [scope_matches]. *)
Definition admin_scope_matches (granted required : string) : bool :=
  if String.eqb granted required then true
  else match strip_suffix ":*" granted with
  | None => false
  | Some prefix =>
      match strip_prefix prefix required with
      | Some suffix => starts_with ":" suffix
      | None => false
      end
  end.

Definition authorize_admin_read (identity : option VerifiedIdentity) : result unit unit :=
  match identity with
  | None => Err tt
  | Some i =>
      if existsb (fun scope =>
           let scope := trim scope in
           String.eqb scope "*"
           || existsb (admin_scope_matches scope) ["admin:read"; "admin:write"]) (scopes i)
      then Ok tt else Err tt
  end.

(** ** The web framework *)

Record ResolveParams := mkResolveParams { rp_path : string }.

(** What [axum] and [tower-http] do on their own: refuse a declared or an actual body
    over the limit, or a method a route does not serve; read the parameters off a
    query; and leave the body out of an answer to HEAD. *)
Class WebFramework := {
  declared_length : HeaderMap -> option Z;
  declared_too_large : Response;
  body_too_large : Response;
  method_not_allowed : Response;
  extract_query : Uri -> result ResolveParams Response;
  without_body : Response -> Response;
}.

(** A request of a client, as the framework hands it over. *)
Record Incoming := mkIncoming {
  in_method : Method;
  in_uri : Uri;
  in_headers : HeaderMap;
  in_body : string;
}.

(** ** The shared state *)

(** [AppState]: what the handlers share. *)
Record Service `{Jsonwebtoken} := mkService {
  sv_caches : AuthCaches;
  sv_table : RouteTable;
}.
Arguments mkService {_} _ _.

Definition no_event {A} (e : Empty_set) : A := match e with end.

Definition on_auth `{Jsonwebtoken} {A} (m : M AuthCaches Empty_set A) : M Service Attempt A :=
  zoom sv_caches (fun c s => mkService c (sv_table s)) no_event m.

Definition on_routes `{Jsonwebtoken} {A} (m : M RouteTable Attempt A) : M Service Attempt A :=
  zoom sv_table (fun t s => mkService (sv_caches s) t) id m.

(** What [main] starts with. *)
Definition initial_service `{Jsonwebtoken} `{UrlCrate} (env : Environment) : Service :=
  mkService no_caches (initial_table env).

(** What the caches were. *)
Definition caches_at `{Jsonwebtoken} (Was : nat -> Service -> Prop) (n : nat) (c : AuthCaches) : Prop :=
  exists s, Was n s /\ sv_caches s = c.

(** ** Handlers *)

Section Handlers.
Context `{HT : Http} `{SJ : SerdeJson} `{FI : FiduciaInterfaces} `{UC : UrlCrate} `{RQ : Reqwest}.
Context `{FR : FiduciaRouting} `{SH : Sha2} `{AB : AxumBody} `{SS : StoredSerde}.
Context `{JT : Jsonwebtoken} `{HO : HashOrder} `{WF : WebFramework}.
Context (SA : AuthSurroundings) (SR : Surroundings).
Open Scope conc_scope.

Local Notation Handler := (M Service Attempt Response).

Definition request_identity_with_secret (headers : HeaderMap) (expected_secret : option string)
  : M AuthCaches Empty_set (result (option VerifiedIdentity) Response) :=
  match trusted_edge_identity headers expected_secret with
  | Some identity => mreturn (Ok (Some identity))
  | None => authenticate SA headers
  end.

Definition request_identity (headers : HeaderMap) :=
  request_identity_with_secret headers (internal SR).

(** A handler that first establishes the identity. *)
Definition with_identity (headers : HeaderMap) (k : option VerifiedIdentity -> Handler) : Handler :=
  identity <- on_auth (request_identity headers) ;;
  match identity with
  | Err response => mreturn response
  | Ok identity => k identity
  end.

Definition proxy_fallback (rq : Incoming) : Handler :=
  with_identity (in_headers rq) (fun identity =>
    on_routes (route SR identity (in_method rq) (in_uri rq) (in_headers rq) (in_body rq))).

(** An operator's handler: the identity, then the scope. *)
Definition with_operator (headers : HeaderMap) (k : option VerifiedIdentity -> Handler) : Handler :=
  with_identity headers (fun identity =>
    match authorize_admin_read identity with
    | Err _ => mreturn insufficient_admin_scope_response
    | Ok _ => k identity
    end).

Definition routes_dump (headers : HeaderMap) : Handler :=
  with_operator headers (fun _ =>
    on_routes (atomically (fun _ t => (json_response 200 (snapshot t), t)))).

Definition resolve (headers : HeaderMap) (p : ResolveParams) : Handler :=
  with_operator headers (fun identity =>
    match uri_parse (rp_path p) with
    | None =>
        mreturn (json_response 400 (JObj [("error", JStr "path is not a valid URI");
                                          ("path", JStr (rp_path p))]))
    | Some uri =>
        let key := routing_key uri (option_map org_id identity) in
        on_routes (atomically (fun _ t =>
          let shard := option_map (fun k => shard_for k (shard_count t)) key in
          let (target, t') := match shard with
                              | Some s => (leader_for t s, t)
                              | None => any_node t
                              end in
          (json_response 200 (JObj [("path", JStr (rp_path p)); ("key", json_opt JStr key);
             ("shard", json_opt JNum shard); ("target", json_opt JStr target)]), t')))
    end).

(** [readyz], and [guard_readyz] of the plaintext guard. *)
Definition readyz : Handler := on_routes (atomically (fun _ t => (readiness_response t, t))).

(** [axum]'s [get]: GET, and HEAD without the body. *)
Definition get_only (m : Method) (k : Handler) : Handler :=
  if bool_decide (m = GET) then k
  else if bool_decide (m = HEAD) then response <- k ;; mreturn (without_body response)
  else mreturn method_not_allowed.

(** The router of [build_app]. The outer layer refuses a declared length over
    [MAX_BODY_BYTES]; the catch-all, which collects the body, refuses an actual one. *)
Definition build_app (rq : Incoming) : Handler :=
  let page := uri_path (in_uri rq) in
  let get := get_only (in_method rq) in
  if MAX_BODY_BYTES <? default 0 (declared_length (in_headers rq)) then mreturn declared_too_large
  else if String.eqb page "/healthz" then get (mreturn healthz)
  else if String.eqb page "/readyz" then get readyz
  else if String.eqb page "/_lb/routes" then get (routes_dump (in_headers rq))
  else if String.eqb page "/_lb/resolve" then
    get (match extract_query (in_uri rq) with
         | Ok p => resolve (in_headers rq) p
         | Err rejection => mreturn rejection
         end)
  else if MAX_BODY_BYTES <? str_len (in_body rq) then mreturn body_too_large
  else proxy_fallback rq.

(** The router of [build_plaintext_guard_app]. *)
Definition build_plaintext_guard_app (rq : Incoming) : Handler :=
  let page := uri_path (in_uri rq) in
  let get := get_only (in_method rq) in
  if String.eqb page "/healthz" then get (mreturn healthz)
  else if String.eqb page "/readyz" then get readyz
  else mreturn plaintext_upgrade_required.

End Handlers.

(** ** Lemmas *)

Section Lemmas.
Context `{HT : Http} `{HL : !HttpLaws} `{SJ : SerdeJson} `{FI : FiduciaInterfaces} `{UC : UrlCrate}.
Context `{UL : !UrlLaws} `{RQ : Reqwest} `{FR : FiduciaRouting} `{FL : !FiduciaRoutingLaws}.
Context `{SH : Sha2} `{AB : AxumBody} `{SS : StoredSerde} `{JT : Jsonwebtoken}.
Context `{HO : HashOrder} `{HOL : !HashOrderLaws}.

(** An identity established for a request's headers, at steps from [n0] on and before
    [n1], of a service that was [Was n] at step [n]. *)
Definition established (SA : AuthSurroundings) (secret : option string)
    (Was : nat -> Service -> Prop) (n0 n1 : nat) (headers : HeaderMap)
    (identity : option VerifiedIdentity) : Prop :=
  (exists id, identity = Some id /\ trusted_edge_identity headers secret = Some id) \/
  authenticated SA (caches_at Was) n0 n1 headers (Ok identity).

Lemma established_mono SA secret Was n0 n1 n2 headers identity :
  established SA secret Was n0 n1 headers identity -> (n1 <= n2)%nat ->
  established SA secret Was n0 n2 headers identity.
Proof. intros [H|H] Hle; [by left|right; by eapply authenticated_mono]. Qed.

Lemma request_identity_runs (SA : AuthSurroundings) (SR : Surroundings) Was E n0 headers :
  timed (both (caches_ok SA) (caches_at Was)) (caches_ok SA) E n0 (request_identity SA SR headers)
    (fun n1 r _ =>
      match r with
      | Ok identity => established SA (internal SR) Was n0 n1 headers identity
      | Err resp => refusal resp
      end).
Proof.
  unfold request_identity, request_identity_with_secret.
  destruct (trusted_edge_identity headers (internal SR)) as [id|] eqn:Ee.
  { apply timed_return. left. eauto. }
  eapply timed_weaken; [apply authenticate_runs|]. intros n1 [identity|resp] l _ Hr; [by right|exact Hr].
Qed.

Lemma admin_scope_matches_eq g r : admin_scope_matches g r = scope_matches g r.
Proof. done. Qed.

Lemma authorize_admin_read_spec identity :
  authorize_admin_read identity = Ok tt <->
  exists i g r, identity = Some i /\ g ∈ scopes i /\ r ∈ ["admin:read"; "admin:write"]
    /\ grants (trim g) r.
Proof.
  unfold authorize_admin_read. destruct identity as [i|]; [|split; [done|naive_solver]].
  set (b := existsb _ (scopes i)). assert (Hb : b = has_any_scope i ["admin:read"; "admin:write"]).
  { unfold b, has_any_scope. done. }
  rewrite Hb. destruct (has_any_scope i _) eqn:E.
  - apply has_any_scope_true in E as (g & r & ? & ? & ?); [|done]. split; [|done]. intros _.
    by exists i, g, r.
  - split; [done|]. intros (i' & g & r & [= <-] & ? & ? & ?).
    assert (has_any_scope i ["admin:read"; "admin:write"] = true); [|congruence].
    apply has_any_scope_true; [done|]. by exists g, r.
Qed.

End Lemmas.

Lemma shard_count_range value : 1 <= shard_count_from_env_value value <= u32_max.
Proof.
  unfold shard_count_from_env_value. destruct value as [raw|]; cbn; [|unfold u32_max; lia].
  destruct (parse_uint u32_max (trim raw)) as [n|] eqn:E; cbn; [|unfold u32_max; lia].
  apply parse_uint_bounds in E; unfold u32_max in *; lia.
Qed.

(** ** Programs on the service *)

Section OnService.
Context `{HT : Http} `{HL : !HttpLaws} `{SJ : SerdeJson} `{FI : FiduciaInterfaces} `{UC : UrlCrate}.
Context `{UL : !UrlLaws} `{RQ : Reqwest} `{FR : FiduciaRouting} `{FL : !FiduciaRoutingLaws}.
Context `{SH : Sha2} `{AB : AxumBody} `{SS : StoredSerde} `{JT : Jsonwebtoken}.
Context `{HO : HashOrder} `{HOL : !HashOrderLaws}.
Context (SA : AuthSurroundings) (SR : Surroundings).
Context (R : RouteTable -> Prop) (Was : nat -> Service -> Prop).

(** The caches keep their invariant, and the table [R]. *)
Definition service_ok (n : nat) (s : Service) : Prop := caches_ok SA n (sv_caches s) /\ R (sv_table s).

Local Notation obliged E n m Q := (timed (both service_ok Was) service_ok E n m Q).

Lemma on_auth_runs {A} (m : M AuthCaches Empty_set A) E n Q :
  timed (both (caches_ok SA) (caches_at Was)) (caches_ok SA) (fun _ _ => True) n m Q ->
  obliged E n (on_auth m) (fun n1 a l => l = [] /\ Q n1 a []).
Proof.
  intros H. refine (zoom_tsafe _ _ _ _ _ _ _ _ _ n m Q _ [] _ _ _ H _).
  - intros k s [[? _] Hw]. split; [done|]. by exists s.
  - intros k c s [[_ ?] _] ?. by split.
  - intros k [].
  - by intros k a [|[]] _ Hq.
Qed.

Lemma on_routes_runs {A} (m : M RouteTable Attempt A) t (E0 : Attempt -> Prop) (E : nat -> Attempt -> Prop)
    n Q :
  runs R m Q -> R t -> (forall a l, Q a l -> Forall E0 l) ->
  (forall k a, (n <= k)%nat -> E0 a -> E k a) -> obliged E n (on_routes m) (fun _ => Q).
Proof.
  intros H Ht HE HE0. pose proof (tsafe_lift R E0 n m Q [] t H Ht HE) as Hl.
  refine (zoom_tsafe _ _ _ _ _ _ _ _ _ n m _ _ [] _ _ _ Hl _).
  - by intros k s [[_ ?] _].
  - intros k t' s [[Hc _] _] ?. split; [|done]. eapply caches_ok_mono; [exact Hc|lia].
  - done.
  - intros k a l _. by rewrite map_id.
Qed.

(** A table the service had at a step from [n0] on and before [n1]. *)
Definition table_at (n0 n1 : nat) (t : RouteTable) : Prop :=
  exists n s, (n0 <= n < n1)%nat /\ Was n s /\ sv_table s = t.

Lemma read_table {A} (f : RouteTable -> A * RouteTable) E n0 n (Q : nat -> A -> list Attempt -> Prop) :
  (n0 <= n)%nat ->
  (forall k t, (n <= k)%nat -> R t -> table_at n0 (S k) t -> R (snd (f t)) /\ Q (S k) (fst (f t)) []) ->
  obliged E n (on_routes (atomically (fun _ t => f t))) Q.
Proof.
  intros Hle HQ k s Hk [[Hc Ht] Hw]. cbn.
  destruct (HQ k (sv_table s) Hk Ht) as [H1 H2]; [exists k, s; split; [lia|done]|].
  destruct (f (sv_table s)) as [x t']. cbn in *. split; [|done]. split; [|done].
  eapply caches_ok_mono; [exact Hc|lia].
Qed.

Lemma with_identity_runs headers k E n0 Q :
  (forall n resp, refusal resp -> Q n resp []) ->
  (forall n1 identity, (n0 <= n1)%nat -> established SA (internal SR) Was n0 n1 headers identity ->
     obliged E n1 (k identity) Q) ->
  obliged E n0 (with_identity SA SR headers k) Q.
Proof.
  intros He Hk. eapply timed_then; [apply on_auth_runs, request_identity_runs|].
  intros n1 [identity|resp] l Hn [-> H]; [by apply Hk|by apply timed_return, He].
Qed.

(** An identity that may use the operator endpoints. *)
Definition operator (identity : option VerifiedIdentity) : Prop :=
  exists i g r, identity = Some i /\ g ∈ scopes i /\ r ∈ ["admin:read"; "admin:write"]
    /\ grants (trim g) r.

(** An answer that does not depend on the table. *)
Definition closed (resp : Response) : Prop :=
  resp = insufficient_admin_scope_response \/ refusal resp.

Lemma with_operator_runs headers k E n0 Q :
  (forall n resp, closed resp -> Q n resp []) ->
  (forall n1 identity, (n0 <= n1)%nat -> established SA (internal SR) Was n0 n1 headers identity ->
     operator identity -> obliged E n1 (k identity) Q) ->
  obliged E n0 (with_operator SA SR headers k) Q.
Proof.
  intros Hc Hk. apply with_identity_runs; [intros n resp Hr; apply Hc; by right|].
  intros n1 identity Hn He. destruct (authorize_admin_read identity) as [[]|e] eqn:Ea.
  - apply Hk; [done|done|]. by apply authorize_admin_read_spec.
  - apply timed_return, Hc. by left.
Qed.

Context `{WF : WebFramework}.

(** The answer as it goes out. *)
Definition sent (rq : Incoming) (resp : Response) : Response :=
  if bool_decide (in_method rq = HEAD) then without_body resp else resp.

Lemma get_only_runs rq k E n0 (Q : nat -> Response -> list Attempt -> Prop) :
  (in_method rq ∈ [GET; HEAD] -> obliged E n0 k (fun n resp l => Q n (sent rq resp) l)) ->
  (in_method rq ∉ [GET; HEAD] -> Q n0 method_not_allowed []) ->
  obliged E n0 (get_only (in_method rq) k) Q.
Proof.
  unfold get_only, sent. intros Hk Hn. destruct (in_method rq);
    try (apply timed_return, Hn; intros Hin; apply list_elem_of_In in Hin; cbn in Hin; naive_solver).
  - apply Hk. by left.
  - eapply timed_then; [apply Hk; right; by left|]. intros n1 resp l _ Hr. apply timed_return.
    by rewrite app_nil_r.
Qed.

Definition probe_pages : list string := ["/healthz"; "/readyz"].
Definition operator_pages : list string := ["/_lb/routes"; "/_lb/resolve"].

(** What [/_lb/resolve] says of a path: what is wrong with it, or the key, the shard
    and the target it has in a table the service had. *)
Definition resolved (n0 n1 : nat) (identity : option VerifiedIdentity) (p : ResolveParams)
    (resp : Response) : Prop :=
  (uri_parse (rp_path p) = None /\
   resp = json_response 400 (JObj [("error", JStr "path is not a valid URI"); ("path", JStr (rp_path p))])) \/
  exists uri t, uri_parse (rp_path p) = Some uri /\ R t /\ table_at n0 n1 t /\
    let key := routing_key uri (option_map org_id identity) in
    let shard := option_map (fun k => shard_for k (shard_count t)) key in
    let target := match shard with Some s => leader_for t s | None => fst (any_node t) end in
    resp = json_response 200 (JObj [("path", JStr (rp_path p)); ("key", json_opt JStr key);
             ("shard", json_opt JNum shard); ("target", json_opt JStr target)]).

(** What the service may do with a request that arrives at step [n0] and is answered
    by step [n1]. *)
Inductive served (Trusted : string -> Prop) (n0 n1 : nat) (rq : Incoming)
    : Response -> list Attempt -> Prop :=
| served_declared_too_large :
    MAX_BODY_BYTES < default 0 (declared_length (in_headers rq)) ->
    served Trusted n0 n1 rq declared_too_large []
| served_wrong_method :
    uri_path (in_uri rq) ∈ probe_pages ++ operator_pages -> in_method rq ∉ [GET; HEAD] ->
    served Trusted n0 n1 rq method_not_allowed []
| served_alive :
    uri_path (in_uri rq) = "/healthz" -> served Trusted n0 n1 rq (sent rq healthz) []
| served_readiness t :
    uri_path (in_uri rq) = "/readyz" -> R t -> table_at n0 n1 t ->
    served Trusted n0 n1 rq (sent rq (readiness_response t)) []
| served_bad_query rejection :
    uri_path (in_uri rq) = "/_lb/resolve" -> extract_query (in_uri rq) = Err rejection ->
    served Trusted n0 n1 rq (sent rq rejection) []
| served_closed resp :
    uri_path (in_uri rq) ∈ operator_pages -> closed resp -> served Trusted n0 n1 rq (sent rq resp) []
| served_routes identity t :
    uri_path (in_uri rq) = "/_lb/routes" ->
    established SA (internal SR) Was n0 n1 (in_headers rq) identity -> operator identity ->
    R t -> table_at n0 n1 t ->
    served Trusted n0 n1 rq (sent rq (json_response 200 (snapshot t))) []
| served_resolve identity p resp :
    uri_path (in_uri rq) = "/_lb/resolve" -> extract_query (in_uri rq) = Ok p ->
    established SA (internal SR) Was n0 n1 (in_headers rq) identity -> operator identity ->
    resolved n0 n1 identity p resp -> served Trusted n0 n1 rq (sent rq resp) []
| served_body_too_large :
    MAX_BODY_BYTES < str_len (in_body rq) -> served Trusted n0 n1 rq body_too_large []
| served_refused resp :
    uri_path (in_uri rq) ∉ probe_pages ++ operator_pages -> refusal resp -> served Trusted n0 n1 rq resp []
| served_proxied identity resp l :
    uri_path (in_uri rq) ∉ probe_pages ++ operator_pages ->
    default 0 (declared_length (in_headers rq)) <= MAX_BODY_BYTES ->
    str_len (in_body rq) <= MAX_BODY_BYTES ->
    established SA (internal SR) Was n0 n1 (in_headers rq) identity ->
    route_run (internal SR) Trusted identity (in_method rq) (in_uri rq) (in_headers rq) (in_body rq) resp l ->
    served Trusted n0 n1 rq resp l.

(** What the service may put on the wire by step [n] for a request that arrives at
    step [n0]. *)
Definition may_send (Trusted : string -> Prop) (rq : Incoming) (n0 n : nat) (a : Attempt) : Prop :=
  exists identity,
    established SA (internal SR) Was n0 n (in_headers rq) identity /\
    authorize_route identity (in_method rq) (in_uri rq) = Ok tt /\
    path_has_dot_segment (uri_path (in_uri rq)) = false /\
    Trusted (at_target a) /\ str_len (in_body rq) <= MAX_BODY_BYTES /\
    forall w, at_wire a = Some w ->
      hm_get_all (sr_headers w) "x-fiducia-org-id" = option_list (option_map org_id identity).

End OnService.

(** ** The service implements its specification *)

Section Served.
Context `{HT : Http} `{HL : !HttpLaws} `{SJ : SerdeJson} `{FI : FiduciaInterfaces} `{UC : UrlCrate}.
Context `{UL : !UrlLaws} `{RQ : Reqwest} `{FR : FiduciaRouting} `{FL : !FiduciaRoutingLaws}.
Context `{SH : Sha2} `{AB : AxumBody} `{SS : StoredSerde} `{JT : Jsonwebtoken}.
Context `{HO : HashOrder} `{HOL : !HashOrderLaws} `{WF : WebFramework}.
Context (SA : AuthSurroundings) (SR : Surroundings).
Context (Trusted : string -> Prop) (n : Z) (Hn : 0 < n) (Was : nat -> Service -> Prop).

Local Notation good_t := (good (Inv := trusted_table Trusted) Trusted n).
Local Notation ok := (service_ok SA good_t).
Local Notation spec := (served SA SR good_t Was Trusted).
Local Notation obliged rq n0 m n Q :=
  (timed (both ok Was) ok (may_send SA SR Was Trusted rq n0) n m Q).

Context (t0 : RouteTable) (Ht0 : good_t t0).

Lemma readyz_runs rq n0 :
  uri_path (in_uri rq) = "/readyz" ->
  obliged rq n0 readyz n0 (fun n1 resp l => spec n0 n1 rq (sent rq resp) l).
Proof.
  intros Hp. apply (read_table SA good_t Was (fun t => (readiness_response t, t)) _ n0); [done|].
  intros k t Hk Ht Hat. split; [done|]. by apply served_readiness.
Qed.

Lemma routes_dump_runs rq n0 :
  uri_path (in_uri rq) = "/_lb/routes" ->
  obliged rq n0 (routes_dump SA SR (in_headers rq)) n0 (fun n1 resp l => spec n0 n1 rq (sent rq resp) l).
Proof.
  intros Hp. assert (Hop : uri_path (in_uri rq) ∈ operator_pages) by (rewrite Hp; by left).
  apply with_operator_runs; [intros n1 resp Hr; by apply served_closed|]. intros n1 identity Hn1 He Ho.
  apply (read_table SA good_t Was (fun t => (json_response 200 (snapshot t), t)) _ n0); [done|].
  intros k t Hk Ht Hat. split; [done|]. eapply served_routes; try done.
  eapply established_mono; [exact He|lia].
Qed.

Lemma any_node_good t : good_t t -> good_t (snd (any_node t)).
Proof.
  intros Ht. pose proof (dir_any_law t ∅ (proj1 Ht)) as H. cbn in H. unfold any_node.
  destruct (any_node_excluding ∅ t) as [r t']. destruct H as (H1 & [H2 H3] & _). cbn in *.
  destruct Ht as (Ht & Hc & Hm). cbn in Hc, Hm.
  split; [done|]. split; [by rewrite <-Hc|]. intros x. cbn. rewrite H2. apply Hm.
Qed.

Lemma resolve_runs rq p n0 :
  uri_path (in_uri rq) = "/_lb/resolve" -> extract_query (in_uri rq) = Ok p ->
  obliged rq n0 (resolve SA SR (in_headers rq) p) n0 (fun n1 resp l => spec n0 n1 rq (sent rq resp) l).
Proof.
  intros Hp Hq. assert (Hop : uri_path (in_uri rq) ∈ operator_pages) by (rewrite Hp; right; by left).
  apply with_operator_runs; [intros n1 resp Hr; by apply served_closed|]. intros n1 identity Hn1 He Ho.
  destruct (uri_parse (rp_path p)) as [u|] eqn:Eu.
  2:{ apply timed_return. eapply served_resolve; try done. by left. }
  cbv zeta. match goal with |- timed _ _ _ _ (on_routes (atomically (fun _ => ?f))) _ =>
    apply (read_table SA good_t Was f _ n0); [done|] end.
  intros k t Hk Ht Hat. apply established_mono with (n2 := S k) in He; [|lia].
  assert (Hres : forall resp, resolved good_t Was n0 (S k) identity p resp -> spec n0 (S k) rq (sent rq resp) [])
    by (intros resp Hr; by eapply served_resolve).
  destruct (routing_key u (option_map org_id identity)) as [key|] eqn:Ek; cbn [option_map].
  - split; [done|]. apply Hres. right. exists u, t. rewrite Ek. by split_and!.
  - pose proof (any_node_good t Ht) as Hg.
    assert (Hr : resolved good_t Was n0 (S k) identity p (json_response 200 (JObj
      [("path", JStr (rp_path p)); ("key", json_opt JStr None); ("shard", json_opt JNum None);
       ("target", json_opt JStr (fst (any_node t)))])))
      by (right; exists u, t; rewrite Ek; by split_and!).
    destruct (any_node t) as [target t']. split; [exact Hg|by apply Hres].
Qed.

Lemma proxy_fallback_runs rq n0 :
  uri_path (in_uri rq) ∉ probe_pages ++ operator_pages ->
  default 0 (declared_length (in_headers rq)) <= MAX_BODY_BYTES ->
  str_len (in_body rq) <= MAX_BODY_BYTES ->
  obliged rq n0 (proxy_fallback SA SR rq) n0 (fun n1 => spec n0 n1 rq).
Proof.
  intros Hp Hd Hb. apply with_identity_runs; [intros n1 resp Hr; by apply served_refused|].
  intros n1 identity Hn1 He.
  assert (Hr : runs good_t (route SR identity (in_method rq) (in_uri rq) (in_headers rq) (in_body rq))
    (route_run (internal SR) Trusted identity (in_method rq) (in_uri rq) (in_headers rq) (in_body rq)))
    by by apply route_runs.
  eapply timed_weaken.
  - apply (on_routes_runs SA good_t Was _ t0 (may_send SA SR Was Trusted rq n0 n1) _ _ _ Hr Ht0).
    + intros resp l Hrun. apply Forall_forall. intros a Ha.
      destruct (route_run_attempt _ _ _ _ _ _ _ _ _ _ Hrun Ha) as (? & ? & ? & ?).
      exists identity. by split_and!.
    + intros k a Hk (i & Hi & H). exists i. split; [by eapply established_mono|done].
  - intros n2 resp l Hn2 Hrun. cbn in Hrun. eapply served_proxied; try done. by eapply established_mono.
Qed.

Lemma build_app_runs rq n0 : obliged rq n0 (build_app SA SR rq) n0 (fun n1 => spec n0 n1 rq).
Proof.
  unfold build_app. destruct (Z.ltb_spec MAX_BODY_BYTES (default 0 (declared_length (in_headers rq)))).
  { apply timed_return. by apply served_declared_too_large. }
  assert (Hpage : forall page k, uri_path (in_uri rq) = page -> page ∈ probe_pages ++ operator_pages ->
    obliged rq n0 k n0 (fun n1 resp l => spec n0 n1 rq (sent rq resp) l) ->
    obliged rq n0 (get_only (in_method rq) k) n0 (fun n1 => spec n0 n1 rq)).
  { intros page k <- Hin Hk. apply get_only_runs; [done|]. intros Hm. by apply served_wrong_method. }
  destruct (String.eqb_spec (uri_path (in_uri rq)) "/healthz") as [E1|E1].
  { apply (Hpage _ _ E1); [by left|]. apply timed_return. by apply served_alive. }
  destruct (String.eqb_spec (uri_path (in_uri rq)) "/readyz") as [E2|E2].
  { apply (Hpage _ _ E2); [right; by left|]. by apply readyz_runs. }
  destruct (String.eqb_spec (uri_path (in_uri rq)) "/_lb/routes") as [E3|E3].
  { apply (Hpage _ _ E3); [do 2 right; by left|]. by apply routes_dump_runs. }
  destruct (String.eqb_spec (uri_path (in_uri rq)) "/_lb/resolve") as [E4|E4].
  { apply (Hpage _ _ E4); [do 3 right; by left|]. destruct (extract_query (in_uri rq)) as [p|r] eqn:Eq.
    - by apply resolve_runs.
    - apply timed_return. by apply served_bad_query. }
  destruct (Z.ltb_spec MAX_BODY_BYTES (str_len (in_body rq))).
  { apply timed_return. by apply served_body_too_large. }
  apply proxy_fallback_runs; [|done|done]. intros Hin. apply list_elem_of_In in Hin. cbn in Hin. naive_solver.
Qed.

(** ** Steps of a request *)

Lemma with_identity_within headers k b :
  (forall identity, within (k identity) b) -> within (with_identity SA SR headers k) (11 + b).
Proof.
  intros Hk. apply within_then.
  - apply zoom_within. unfold request_identity, request_identity_with_secret.
    destruct (trusted_edge_identity _ _); [done|]. apply authenticate_within.
  - by intros [identity|resp].
Qed.

Lemma with_operator_within headers k b :
  (forall identity, within (k identity) b) -> within (with_operator SA SR headers k) (11 + b).
Proof. intros Hk. apply with_identity_within. intros identity. by destruct (authorize_admin_read identity). Qed.

Lemma get_only_within m k b : within k b -> within (get_only m k) b.
Proof.
  intros Hk. unfold get_only. case_bool_decide; [done|]. case_bool_decide; [|done].
  by apply (within_bind _ _ b 0); [|lia|].
Qed.

Lemma build_app_within rq : within (build_app SA SR rq) 62.
Proof.
  assert (Hop : forall k, (forall identity, within (k identity) 1) ->
    within (get_only (in_method rq) (with_operator SA SR (in_headers rq) k)) 62).
  { intros k Hk. apply get_only_within. eapply within_mono; [by apply with_operator_within|lia]. }
  assert (Hret : forall resp : Response, within (get_only (in_method rq) (mreturn resp)) 62)
    by (intros resp; by apply get_only_within).
  unfold build_app. repeat match goal with |- within (if ?b then _ else _) _ => destruct b end; try done.
  - by apply get_only_within.
  - apply Hop. intros _. by apply zoom_within.
  - destruct (extract_query (in_uri rq)) as [p|r]; [|apply Hret]. apply Hop. intros identity.
    destruct (uri_parse (rp_path p)); [|done]. by apply zoom_within.
  - apply (with_identity_within _ _ 51). intros identity. apply zoom_within, route_within.
Qed.

Lemma build_plaintext_guard_app_within rq : within (build_plaintext_guard_app rq) 1.
Proof.
  unfold build_plaintext_guard_app.
  repeat match goal with |- within (if ?b then _ else _) _ => destruct b end; [| |done];
    by apply get_only_within.
Qed.

End Served.

(** ** Properties *)

Section Properties.
Context `{HT : Http} `{HL : !HttpLaws} `{SJ : SerdeJson} `{FI : FiduciaInterfaces} `{UC : UrlCrate}.
Context `{UL : !UrlLaws} `{RQ : Reqwest} `{FR : FiduciaRouting} `{FL : !FiduciaRoutingLaws}.
Context `{SH : Sha2} `{AB : AxumBody} `{SS : StoredSerde} `{JT : Jsonwebtoken}.
Context `{HO : HashOrder} `{HOL : !HashOrderLaws} `{WF : WebFramework}.

(** C37. The operator endpoints are closed: a run of either in which no identity
    with an operator scope (or a wildcard that grants one) is established answers 403
    or the refusal of the authentication, whatever the table holds, and leaves the
    table alone. *)
Theorem operator_surface_closed (SA : AuthSurroundings) (SR : Surroundings)
    (headers : HeaderMap) (p : ResolveParams) (handler : M Service Attempt Response) (t : RouteTable)
    (env : nat -> Service -> Service) (w : World Service Attempt) :
  handler ∈ [routes_dump SA SR headers; resolve SA SR headers p] ->
  trely (service_ok SA (eq t)) env -> service_ok SA (eq t) (w_step w) (w_state w) ->
  let (resp, w') := run env handler w in
  (forall identity n, established SA (internal SR) (passed env handler w) (w_step w) n headers identity ->
     ~ operator identity) ->
  closed resp /\ sv_table (w_state w') = t /\ w_log w' = w_log w.
Proof.
  intros Hh Henv Hw. assert (exists k, handler = with_operator SA SR headers k) as [k Hk].
  { apply list_elem_of_In in Hh as [<-|[<-|[]]]; by eexists. }
  destruct (run env handler w) as [resp w'] eqn:Er. intros Hno.
  pose proof (run_tsafe (service_ok SA (eq t)) (passed env handler w) (fun _ _ => True) env handler
    (fun _ resp l => l = [] /\ closed resp) [] w Henv) as H. rewrite Er in H.
  destruct H as (l & Hl & [_ Ht] & Hq); [|done|done|].
  - rewrite Hk at 2. apply with_operator_runs; [done|]. intros n1 identity _ He Ho.
    by destruct (Hno identity n1 He).
  - cbn in Hq. destruct Hq as [-> Hc]. by rewrite app_nil_r in Hl.
Qed.

(** C38. Ready means routable: as soon as the readiness probe answers 200, a keyed
    request goes straight to a member that leads its shard; it is never answered
    "no route". *)
Theorem ready_routes_every_key (SR : Surroundings) (identity : option VerifiedIdentity)
    (m : Method) (uri : Uri) (headers : HeaderMap) (body key : string)
    (env : nat -> RouteTable -> RouteTable) (w : World RouteTable Attempt) :
  let t := env (w_step w) (w_state w) in
  let shard := shard_for key (shard_count t) in
  table_ok t -> 0 < shard_count t -> rs_status (readiness_response t) = 200 ->
  routing_key_with_body uri body (option_map org_id identity) = Some key ->
  exists leader, leader_for t shard = Some leader /\ leader ∈ nodes t /\
    run env (route_without_customer_idempotency SR identity m uri headers body) w
    = run env (forward_with_redirect SR (mkForwardRequest identity leader (Some shard) m uri headers body))
        (mkWorld (S (w_step w)) t (w_log w)).
Proof.
  intros t shard Hok Hn Hready Hkey. unfold readiness_response in Hready.
  destruct (is_hydrated t) eqn:E; [|done]. unfold is_hydrated in E. breflect.
  assert (Hne : nodes t <> []).
  { intros H. destruct (map_choose (leaders t)) as (s & u & Hs); [done|].
    apply (ok_leaders_member t Hok) in Hs. rewrite H in Hs. by apply not_elem_of_nil in Hs. }
  destruct (ok_leaders_total t Hok Hne shard) as [leader Hl]; [by apply shard_for_range|].
  exists leader. split; [done|]. split; [by eapply ok_leaders_member|].
  unfold route_without_customer_idempotency. rewrite Hkey, run_then. cbn [run atomically]. fold t.
  cbn [dir_leader_for dir_shard_count table_directory fst snd]. fold shard.
  change (leader_for t shard = Some leader) in Hl. by rewrite Hl.
Qed.

(** Start-up is well formed: from any environment the shard count is between 1
    and 2^32 - 1, the table satisfies its invariant, the ports are 16-bit, and when
    TLS is on nothing but the probe guard listens in cleartext. *)
Theorem startup_well_formed (e : Environment) :
  table_ok (initial_table e) /\ 1 <= shard_count (initial_table e) <= u32_max /\
  (forall ls, listeners e = Ok ls ->
     (exists tls, ls = [GuardHttp (port_from_env e "PORT" 8088); ProxyHttps tls]
                  /\ 0 <= tls_port tls <= u16_max)
     \/ ls = [ProxyHttp (port_from_env e "PORT" 8088)]
        /\ e "FIDUCIA_TLS_CERT_PATH" = None /\ e "FIDUCIA_TLS_KEY_PATH" = None) /\
  0 <= port_from_env e "PORT" 8088 <= u16_max.
Proof.
  pose proof (shard_count_range (e "FIDUCIA_SHARD_COUNT")) as Hs.
  assert (Hp : forall name d, 0 <= d <= u16_max -> 0 <= port_from_env e name d <= u16_max).
  { intros name d Hd. unfold port_from_env. destruct (e name) as [p|]; cbn; [|done].
    destruct (parse_uint u16_max p) as [z|] eqn:E; cbn; [|done].
    apply parse_uint_bounds in E; unfold u16_max in *; lia. }
  split; [apply new_ok; lia|]. split; [done|]. split; [|apply Hp; unfold u16_max; lia].
  intros ls. unfold listeners, tls_settings.
  destruct (e "FIDUCIA_TLS_CERT_PATH"), (e "FIDUCIA_TLS_KEY_PATH"); cbn; try done; intros [= <-].
  - left. eexists. split; [done|]. apply Hp. unfold u16_max. lia.
  - by right.
Qed.

End Properties.

(** ** Witnesses *)

#[export] Instance demo_framework : WebFramework := {|
  declared_length headers := let! v := hm_get headers "content-length" in parse_uint u64_max v;
  declared_too_large := mkResponse 413 [] (BodyFull "length limit exceeded");
  body_too_large := mkResponse 413 [] (BodyFull "length limit exceeded");
  method_not_allowed := mkResponse 405 [] (BodyFull "");
  extract_query uri :=
    ok_or (let! q := uri_query uri in option_map mkResolveParams (strip_prefix "path=" q))
      (mkResponse 400 [] (BodyFull "missing field `path`"));
  without_body r := mkResponse (rs_status r) (rs_headers r) (BodyFull "");
|}.

Definition demo_service : Service := mkService no_caches table3.

Lemma operator_surface_closed_witness :
  closed (fst (run quiet (routes_dump demo_auth demo_surroundings []) (mkWorld 0 demo_service []))).
Proof.
  pose proof (operator_surface_closed demo_auth demo_surroundings [] (mkResolveParams "/")
    (routes_dump demo_auth demo_surroundings []) table3 quiet (mkWorld 0 demo_service [])
    (list_elem_of_here _ _) (fun _ _ H => H) (conj (no_caches_ok demo_auth 0) eq_refl)) as H.
  destruct (run quiet (routes_dump demo_auth demo_surroundings []) (mkWorld 0 demo_service [])) as [resp w].
  apply H. intros identity n [(id & _ & He)|He] (i & _ & _ & -> & _).
  - vm_compute in He. discriminate He.
  - destruct He as (_ & credential & He & _). vm_compute in He. discriminate He.
Defined.

Lemma ready_routes_every_key_witness :
  exists leader, leader_for table3 (shard_for (org_scoped_key "org-a" "k") 4) = Some leader /\
    leader ∈ nodes table3.
Proof.
  destruct (ready_routes_every_key demo_surroundings (Some edge_identity) GET Idempotency.kv_uri [] ""
    (org_scoped_key "org-a" "k") quiet demo_world table3_ok) as (leader & H1 & H2 & _);
    [reflexivity|vm_compute; reflexivity|vm_compute; reflexivity|].
  exists leader. split; [exact H1|exact H2].
Defined.
