(* ===== verification/System.v ===== *)
(** * The running service

    The balancer as one closed system: any number of client calls on the proxy's
    listener, calls on the plaintext guard and ticks of the control-plane refresh run
    interleaved, step by step, on the shared caches and route table; clients may
    disconnect at any await. Nothing is assumed about the other tasks: they are the
    same programs. What is outside (the clients, the nodes, the authentication
    service, the control plane) answers as it likes.

    ([main] never runs two refreshes at once; here they may overlap, which allows
    every interleaving of the program and more.)

    The theorems: everything put on the wire is authorized, whoever else is active;
    the caches and the table keep their invariants in every reachable state; every
    answer is one the specification allows; every request ends within a fixed number
    of its own steps and nothing ever waits; the guard proxies nothing. *)
From S2P Require Import Prelude RustStr Externals Instances Routing Table Identity Scopes Conc Pool.
From S2P Require Import Directory Forward Brain Idempotency Proxy Revocation Auth TokenGate App.
Open Scope string_scope.
Open Scope list_scope.
Open Scope Z_scope.
Open Scope rust_scope.

(** What the process is asked to do. *)
Inductive Job : Type :=
| ClientCall (rq : Incoming)
| GuardCall (rq : Incoming)
| BrainTick.

Section System.
Context `{HT : Http} `{SJ : SerdeJson} `{FI : FiduciaInterfaces} `{UC : UrlCrate} `{RQ : Reqwest}.
Context `{FR : FiduciaRouting} `{SH : Sha2} `{AB : AxumBody} `{SS : StoredSerde}.
Context `{JT : Jsonwebtoken} `{HO : HashOrder} `{WF : WebFramework} `{BS : BrainSerde}.
Context (SA : AuthSurroundings) (SR : Surroundings) (brain : nat -> ClientRequest -> ClientReply).
Context (e : Environment).
Open Scope conc_scope.

Definition program (j : Job) : M Service Attempt (option Response) :=
  match j with
  | ClientCall rq => response <- build_app SA SR rq ;; mreturn (Some response)
  | GuardCall rq => response <- build_plaintext_guard_app rq ;; mreturn (Some response)
  | BrainTick =>
      on_routes (refresh_from_brain (internal SR) (clock SR) brain (brain_url_from_env e)) ;;;
      mreturn None
  end.

(** The process after a schedule. *)
Definition running (moves : list (Move Job)) : option (Pool Service Attempt Job (option Response)) :=
  exec_all program moves (empty_pool (initial_service e)).

(** What the process was at the steps of a schedule. *)
Definition was (moves : list (Move Job)) : nat -> Service -> Prop :=
  history program moves (initial_service e).

(** The nodes a request may go to: the configured seeds and what the control plane
    listed as healthy. *)
Definition listed (u : string) : Prop :=
  (exists seed, seed ∈ seed_nodes e /\ normalize_node_url seed = Some u) \/
  brain_listed (internal SR) brain (brain_url_from_env e) u.

End System.

(** ** Lemmas *)

Section Lemmas.
Context `{HT : Http} `{HL : !HttpLaws} `{SJ : SerdeJson} `{FI : FiduciaInterfaces} `{UC : UrlCrate}.
Context `{UL : !UrlLaws} `{RQ : Reqwest} `{FR : FiduciaRouting} `{FL : !FiduciaRoutingLaws}.
Context `{SH : Sha2} `{AB : AxumBody} `{SS : StoredSerde} `{JT : Jsonwebtoken}.
Context `{HO : HashOrder} `{HOL : !HashOrderLaws} `{WF : WebFramework}.
Context `{BS : BrainSerde} `{BL : !BrainSerdeLaws}.
Context (SA : AuthSurroundings) (SR : Surroundings) (brain : nat -> ClientRequest -> ClientReply).
Context (e : Environment).

Definition shards : Z := shard_count_from_env_value (e "FIDUCIA_SHARD_COUNT").

Local Notation trusted := (listed SR brain e).
Local Notation good_t := (good (Inv := trusted_table trusted) trusted shards).
Local Notation ok := (service_ok SA good_t).

Lemma initial_table_ok : good_t (initial_table e).
Proof.
  pose proof (shard_count_range (e "FIDUCIA_SHARD_COUNT")).
  assert (Hm : forall u, u ∈ nodes (initial_table e) -> trusted u).
  { intros u Hu. apply new_members in Hu as (seed & Hs & Hu). left. by exists seed. }
  split; [split; [apply new_ok; lia|exact Hm]|by split].
Qed.

Lemma initial_ok : ok 0 (initial_service e).
Proof. split; [apply no_caches_ok|apply initial_table_ok]. Qed.

Section Obligations.
Context (Was : nat -> Service -> Prop).

(** What the guard may answer to a request that arrives at step [n0], by step [n1]. *)
Definition guarded (n0 n1 : nat) (rq : Incoming) (resp : Response) : Prop :=
  (uri_path (in_uri rq) ∈ probe_pages /\
    (resp = method_not_allowed \/ resp = sent rq healthz \/
     exists t, good_t t /\ table_at Was n0 n1 t /\ resp = sent rq (readiness_response t))) \/
  (uri_path (in_uri rq) ∉ probe_pages /\ resp = plaintext_upgrade_required).

Lemma guard_runs rq E n0 :
  timed (both ok Was) ok E n0 (build_plaintext_guard_app rq)
    (fun n1 resp l => l = [] /\ guarded n0 n1 rq resp).
Proof.
  unfold build_plaintext_guard_app, guarded.
  destruct (String.eqb_spec (uri_path (in_uri rq)) "/healthz") as [E1|E1].
  { apply (get_only_runs SA good_t Was); [intros _; apply timed_return|intros _]; (split; [done|]); left;
      (split; [rewrite E1; by left|]); auto. }
  destruct (String.eqb_spec (uri_path (in_uri rq)) "/readyz") as [E2|E2].
  { assert (Hin : uri_path (in_uri rq) ∈ probe_pages) by (rewrite E2; right; by left).
    apply (get_only_runs SA good_t Was); [intros _|intros _; by auto].
    apply (read_table SA good_t Was (fun t => (readiness_response t, t)) _ n0); [done|].
    intros k t Hk Ht Hat. split; [done|]. split; [done|]. left. split; [done|]. eauto 6. }
  apply timed_return. split; [done|]. right. split; [|done]. intros Hin.
  apply list_elem_of_In in Hin. cbn in Hin. naive_solver.
Qed.

(** What a job that starts at step [n0] leads to by step [n1]. *)
Definition outcome (j : Job) (n0 n1 : nat) (answer : option Response) (l : list Attempt) : Prop :=
  match j with
  | ClientCall rq => exists resp, answer = Some resp /\ served SA SR good_t Was trusted n0 n1 rq resp l
  | GuardCall rq => exists resp, answer = Some resp /\ l = [] /\ guarded n0 n1 rq resp
  | BrainTick => answer = None /\ l = []
  end.

(** What it may have put on the wire by then. *)
Definition reported (j : Job) (n0 n1 : nat) (a : Attempt) : Prop :=
  match j with
  | ClientCall rq => may_send SA SR Was trusted rq n0 n1 a
  | GuardCall _ | BrainTick => False
  end.

Lemma program_runs j n0 :
  timed (both ok Was) ok (reported j n0) n0 (program SA SR brain e j) (outcome j n0).
Proof.
  assert (Hn : 0 < shards)
    by (pose proof (shard_count_range (e "FIDUCIA_SHARD_COUNT")); unfold shards; lia).
  destruct j as [rq|rq|]; cbn [program outcome reported].
  - eapply timed_then; [by apply (build_app_runs SA SR trusted shards Hn Was _ initial_table_ok)|].
    intros n1 resp l _ Hs. apply timed_return. exists resp. by rewrite app_nil_r.
  - eapply timed_then; [apply guard_runs|]. intros n1 resp l _ [-> Hg]. apply timed_return. by exists resp.
  - eapply timed_then.
    + eapply (on_routes_runs SA good_t Was _ _ (fun _ => False));
        [apply (refresh_runs _ _ _ trusted); by right|apply initial_table_ok|by intros _ l ->|done].
    + intros n1 _ l _ ->. by apply timed_return.
Qed.

End Obligations.

Local Notation was := (was SA SR brain e).

(** Everything about a reachable pool. *)
Lemma running_ok moves p :
  running SA SR brain e moves = Some p ->
  ok (pl_step p) (pl_state p) /\
  Forall (task_ok ok (was moves) (reported (was moves)) (outcome (was moves)) (pl_step p)) (pl_tasks p).
Proof.
  apply (pool_ok _ ok (was moves) _ _ (program_runs (was moves))); [apply initial_ok|done].
Qed.

(** Every attempt of a task, whatever the state of the others. *)
Lemma task_attempt moves p task a :
  running SA SR brain e moves = Some p -> task ∈ pl_tasks p -> a ∈ tk_events task ->
  exists rq, tk_job task = ClientCall rq /\
    may_send SA SR (was moves) trusted rq (tk_start task) (pl_step p) a.
Proof.
  intros Hrun Hin Ha. destruct (running_ok _ _ Hrun) as [_ Htasks].
  rewrite Forall_forall in Htasks.
  destruct (task_ok_events _ _ _ _ _ _ _ (Htasks _ Hin) Ha) as (n & Hn & Hr).
  destruct (tk_job task) as [rq|rq|]; [|done|done]. exists rq. split; [done|].
  destruct Hr as (identity & He & H). exists identity. split; [by eapply established_mono|done].
Qed.

Lemma program_within j : within (program SA SR brain e j) 62.
Proof.
  destruct j as [rq|rq|]; cbn [program].
  - apply (within_bind _ _ 62 0); [apply build_app_within|done|done].
  - apply (within_bind _ _ 1 0); [apply build_plaintext_guard_app_within|lia|done].
  - apply (within_bind _ _ 4 0); [apply zoom_within, refresh_within|lia|done].
Qed.

End Lemmas.

(** ** Properties *)

Section Properties.
Context `{HT : Http} `{HL : !HttpLaws} `{SJ : SerdeJson} `{FI : FiduciaInterfaces} `{UC : UrlCrate}.
Context `{UL : !UrlLaws} `{RQ : Reqwest} `{FR : FiduciaRouting} `{FL : !FiduciaRoutingLaws}.
Context `{SH : Sha2} `{AB : AxumBody} `{SS : StoredSerde} `{JT : Jsonwebtoken}.
Context `{HO : HashOrder} `{HOL : !HashOrderLaws} `{WF : WebFramework}.
Context `{BS : BrainSerde} `{BL : !BrainSerdeLaws}.

(** The authority calls no token with these claims' cache key "not revoked" from step
    [r] on. *)
Definition revoked_from `{RW : RevocationWire} (S : AuthSurroundings)
    (authority : nat -> ClientRequest -> ClientReply) (r : nat) (claims : Claims) : Prop :=
  forall claims' n observed, revocation_cache_key claims' = revocation_cache_key claims -> (r <= n)%nat ->
    authority_says (config S) authority n claims' observed <> Ok false.

(** C1. End to end: whatever the clients send, in whatever order the requests, the
    refreshes and the disconnections interleave, every attempt the balancer makes
    belongs to a client call, for an identity that the trusted edge or the call's own
    credential established (or for nobody, where credentials are optional) at the
    call's own steps, authorized for the route, to a configured seed or a node the
    control plane listed as healthy, with that identity's organisation and no other.
    (An attempt is recorded when its answer arrives; the one a disconnected client
    leaves in flight is the one the same schedule without the disconnection records.) *)
Theorem service_sends_only_authorized (SA : AuthSurroundings) (SR : Surroundings)
    (brain : nat -> ClientRequest -> ClientReply) (e : Environment) (moves : list (Move Job))
    (p : Pool Service Attempt Job (option Response)) (task : Task Service Attempt Job (option Response))
    (a : Attempt) :
  running SA SR brain e moves = Some p -> task ∈ pl_tasks p -> a ∈ tk_events task ->
  exists rq identity, tk_job task = ClientCall rq /\
    established SA (internal SR) (was SA SR brain e moves) (tk_start task) (pl_step p)
      (in_headers rq) identity /\
    authorize_route identity (in_method rq) (in_uri rq) = Ok tt /\
    path_has_dot_segment (uri_path (in_uri rq)) = false /\
    listed SR brain e (at_target a) /\ str_len (in_body rq) <= MAX_BODY_BYTES /\
    forall w, at_wire a = Some w ->
      hm_get_all (sr_headers w) "x-fiducia-org-id" = option_list (option_map org_id identity).
Proof.
  intros Hrun Hin Ha. destruct (task_attempt _ _ _ _ _ _ _ _ Hrun Hin Ha) as (rq & Hj & identity & H).
  by exists rq, identity.
Qed.

(** C15. In every reachable state of the running service the decision cache is within
    its bound and holds only the authentication service's own decisions, the route
    table satisfies its invariant, the shard count is the configured one, and every
    member is a seed or was listed as healthy by the control plane. *)
Theorem service_invariant (SA : AuthSurroundings) (SR : Surroundings)
    (brain : nat -> ClientRequest -> ClientReply) (e : Environment) (moves : list (Move Job))
    (p : Pool Service Attempt Job (option Response)) :
  running SA SR brain e moves = Some p ->
  caches_ok SA (pl_step p) (sv_caches (pl_state p)) /\ table_ok (sv_table (pl_state p)) /\
  shard_count (sv_table (pl_state p)) = shards e /\
  forall u, u ∈ nodes (sv_table (pl_state p)) -> listed SR brain e u.
Proof.
  intros Hrun. destruct (running_ok _ _ _ _ _ _ Hrun) as [(Hc & (Ht & Hm) & Hn & _) _]. by split_and!.
Qed.

(** C8. The running service implements its specification: whatever else is active, a
    client call is answered, and has made the attempts, as [served] allows at the
    call's own steps, a call on the guard as [guarded] does without any attempt, and a
    refresh makes none. *)
Theorem service_refines (SA : AuthSurroundings) (SR : Surroundings)
    (brain : nat -> ClientRequest -> ClientReply) (e : Environment) (moves : list (Move Job))
    (p : Pool Service Attempt Job (option Response)) (task : Task Service Attempt Job (option Response))
    (r : option Response) :
  running SA SR brain e moves = Some p -> task ∈ pl_tasks p -> answer task = Some r ->
  exists n, (tk_start task <= n <= pl_step p)%nat /\
    outcome SA SR brain e (was SA SR brain e moves) (tk_job task) (tk_start task) n r (tk_events task).
Proof.
  intros Hrun Hin Ha. destruct (running_ok _ _ _ _ _ _ Hrun) as [_ Htasks].
  rewrite Forall_forall in Htasks. by eapply task_ok_answer; [apply Htasks|].
Qed.

(** C20. The service never gets stuck and every job ends: a task that is neither
    answered nor gone can always move; after any schedule, letting the remaining tasks
    run in some order settles all of them; and over the whole of it every single task
    takes at most 62 steps (11 to authenticate, 3 times 17 to claim, forward and
    complete), however the nodes and services answer. *)
Theorem service_drains (SA : AuthSurroundings) (SR : Surroundings)
    (brain : nat -> ClientRequest -> ClientReply) (e : Environment) (moves : list (Move Job))
    (p : Pool Service Attempt Job (option Response)) :
  running SA SR brain e moves = Some p ->
  (forall i task, pl_tasks p !! i = Some task -> ~ settled task ->
     is_Some (exec (program SA SR brain e) (Advance i) p)) /\
  exists turns p', exec_all (program SA SR brain e) (map Advance turns) p = Some p' /\
    Forall settled (pl_tasks p') /\ (length turns + advances moves <= 62 * arrivals moves)%nat /\
    forall i, (steps_of i (moves ++ map Advance turns) <= 62)%nat.
Proof.
  intros Hrun. split.
  - intros i task Hi Hs. unfold settled in Hs. apply (pool_progress _ _ _ _ i task Hrun Hi).
    + destruct (tk_gone task); [|done]. destruct Hs. by left.
    + destruct (answer task) eqn:Ea; [|done]. destruct Hs. right. by eexists.
  - destruct (pool_drains _ _ (program_within SA SR brain e) _ _ _ Hrun) as (turns & p' & H1 & H2 & H3).
    exists turns, p'. split_and!; try done. intros i.
    apply (pool_task_steps _ _ (program_within SA SR brain e) _ (initial_service e) p').
    rewrite exec_all_app. unfold running in Hrun. by rewrite Hrun.
Qed.

(** The cleartext guard proxies nothing: whatever is sent to it, and whatever else
    is going on, it makes no attempt, and answers every path but the probes with 426
    and the probes with nothing but their own page. *)
Theorem guard_proxies_nothing (SA : AuthSurroundings) (SR : Surroundings)
    (brain : nat -> ClientRequest -> ClientReply) (e : Environment) (moves : list (Move Job))
    (p : Pool Service Attempt Job (option Response)) (task : Task Service Attempt Job (option Response))
    (rq : Incoming) :
  running SA SR brain e moves = Some p -> task ∈ pl_tasks p -> tk_job task = GuardCall rq ->
  tk_events task = [] /\
  (forall resp, answer task = Some (Some resp) -> uri_path (in_uri rq) ∉ probe_pages ->
     rs_status resp = 426) /\
  (forall resp, answer task = Some (Some resp) ->
     guarded SR brain e (was SA SR brain e moves) (tk_start task) (pl_step p) rq resp).
Proof.
  intros Hrun Hin Hj. destruct (running_ok _ _ _ _ _ _ Hrun) as [_ Htasks].
  rewrite Forall_forall in Htasks. specialize (Htasks _ Hin).
  assert (Hans : forall resp, answer task = Some (Some resp) ->
    guarded SR brain e (was SA SR brain e moves) (tk_start task) (pl_step p) rq resp).
  { intros resp Ha. apply (task_ok_answer _ _ _ _ _ _ _ Htasks) in Ha as (n & Hn & Ha). rewrite Hj in Ha.
    destruct Ha as (? & [= <-] & _ & [(H1 & H2)|H]); [left|by right]. split; [done|].
    destruct H2 as [?|[?|(t & Ht & (k & s & Hk & H3) & ?)]]; [by left|right; by left|]. right. right.
    exists t. split; [done|]. split; [|done]. exists k, s. split; [lia|done]. }
  split; [|split; [|done]].
  - destruct (tk_events task) as [|a l] eqn:E; [done|].
    destruct (task_attempt _ _ _ _ _ _ task a Hrun Hin) as (rq' & Hj' & _); [rewrite E; by left|congruence].
  - intros resp Ha Hp. by destruct (Hans resp Ha) as [[? _]|[_ ->]].
Qed.

(** C12. Revocation takes effect: suppose the authority, whatever it said before,
    calls no token with the token's cache key "not revoked" from step [r] on, and the
    clock showed at most [T] before that step. Then a call whose only credential is
    that token reaches no node at all once the clock shows more than the freshness
    budget after [T], whatever the gate was told, and kept, about the token before.
    (Every call of the gate carries a time read off the clock before the authority is
    asked for it.) *)
Theorem revoked_token_reaches_no_node `{RW : RevocationWire} (S : AuthSurroundings)
    (authority : nat -> ClientRequest -> ClientReply) (h : GateHistory)
    (SR : Surroundings) (brain : nat -> ClientRequest -> ClientReply) (e : Environment)
    (moves : list (Move Job)) (p : Pool Service Attempt Job (option Response))
    (task : Task Service Attempt Job (option Response)) (rq : Incoming) (jwt : string) (r : nat) (T : Z) :
  let SA := with_gate S authority h in
  1 <= Auth.revocation_freshness_secs (config S) ->
  running SA SR brain e moves = Some p -> task ∈ pl_tasks p -> tk_job task = ClientCall rq ->
  trusted_edge_identity (in_headers rq) (internal SR) = None ->
  extract_credential (in_headers rq) = Some jwt -> is_api_key jwt = false ->
  (forall claims observed n, told (gh_events h) claims observed n ->
     exists m, (m <= n)%nat /\ observed = unix_secs S m) ->
  (forall alg key claims,
     decode_token jwt key alg (jwt_issuer (config S)) (jwt_audience (config S)) required_claims = Some claims ->
     revoked_from S authority r claims) ->
  (forall m, (m < r)%nat -> unix_secs S m <= T) ->
  (forall n, (tk_start task <= n)%nat -> T + Auth.revocation_freshness_secs (config S) < unix_secs S n) ->
  tk_events task = [].
Proof.
  intros SA Hb Hrun Hin Hj Hedge Hc Hk Htimely Hrev Hbefore Hnow.
  destruct (tk_events task) as [|a l] eqn:E; [done|].
  destruct (task_attempt SA SR brain e moves p task a Hrun Hin) as (rq' & Hj' & identity & He & _);
    [rewrite E; by left|].
  rewrite Hj in Hj'. injection Hj' as <-. exfalso.
  destruct He as [(id & _ & He)|He]; [congruence|].
  destruct identity as [id|]; [|destruct He as [He _]; congruence].
  destruct (authenticated_token S authority h _ _ _ _ jwt id Hb He Hc Hk)
    as (claims & n & Hn & Ht & claims' & k & observed & Hkey & Htold & Hsays & Hfresh).
  destruct Ht as (alg & kid & keys & jwk & key & m & _ & _ & _ & _ & _ & _ & _ & Hdec & _).
  assert (Hkr : (k < r)%nat).
  { apply Nat.nle_gt. intros Hle. by apply (Hrev _ _ _ Hdec claims' k observed). }
  destruct (Htimely claims' observed k) as (j & Hjk & ->).
  { rewrite <-(take_drop (gh_upto h n) (gh_events h)). by apply told_later. }
  specialize (Hbefore j ltac:(lia)). specialize (Hnow n ltac:(lia)). lia.
Qed.

End Properties.

(** ** Witnesses: two clients, a probe and a refresh at once; one client leaves *)

Definition three_seeds_env : Environment := fun name =>
  if String.eqb name "FIDUCIA_NODES" then Some "http://a:8090,http://b:8090/,http://c:8090"
  else if String.eqb name "FIDUCIA_SHARD_COUNT" then Some " 4"
  else if String.eqb name "FIDUCIA_BRAIN_URL" then Some "http://brain:1" else None.

(** A caller verified by the trusted edge. *)
Definition edge_headers : HeaderMap :=
  [(EDGE_AUTH_HEADER, "internal"); ("x-fiducia-auth-kind", "jwt"); ("x-fiducia-org-id", "org-a");
   ("x-fiducia-scopes", "kv:read kv:write")].

Definition kv_call : Incoming := mkIncoming GET Idempotency.kv_uri edge_headers "".
Definition key_call : Incoming := mkIncoming GET Idempotency.kv_uri api_key_headers "".
Definition guard_call : Incoming := mkIncoming POST Idempotency.kv_uri edge_headers "v".

Definition demo_moves : list (Move Job) :=
  [Arrive (ClientCall kv_call); Arrive BrainTick; Advance 0; Advance 1; Arrive (ClientCall key_call);
   Arrive (GuardCall guard_call); Advance 2; Advance 0; Advance 1; Advance 0; Advance 2; Advance 1;
   Disconnect 2; Advance 0; Advance 1; Advance 0; Advance 0; Advance 0; Advance 0; Advance 0; Advance 0].

(** What an attempt went to, and whether the task's answer is there. *)
Definition summary (p : Pool Service Attempt Job (option Response)) :=
  map (fun t => (tk_gone t, option_map (option_map rs_status) (answer t), map at_target (tk_events t)))
    (pl_tasks p).

Local Notation demo_run := (running demo_auth demo_surroundings demo_brain three_seeds_env demo_moves).
Local Notation demo_targets := ["http://a:8090"; "http://b:8090"; "http://d:8090"].

Lemma demo_reached :
  exists p t0 t1 t2 t3, demo_run = Some p /\ pl_tasks p = [t0; t1; t2; t3] /\
    summary p = [(false, Some (Some 200), demo_targets); (false, Some None, []); (true, None, []);
                 (false, Some (Some 426), [])] /\
    tk_job t3 = GuardCall guard_call.
Proof.
  assert (E : option_map (fun p => (summary p, option_map tk_job (pl_tasks p !! 3%nat))) demo_run =
    Some ([(false, Some (Some 200), demo_targets); (false, Some None, []); (true, None, []);
           (false, Some (Some 426), [])], Some (GuardCall guard_call))) by (vm_compute; reflexivity).
  destruct demo_run as [p|]; [|done]. cbn [option_map] in E. injection E as E1 E2.
  unfold summary in E1. destruct (pl_tasks p) as [|t0 [|t1 [|t2 [|t3 [|]]]]] eqn:Ep; try discriminate E1.
  exists p, t0, t1, t2, t3. split; [done|]. split; [done|]. split; [unfold summary; by rewrite Ep|].
  by injection E2.
Qed.

Lemma service_sends_only_authorized_witness :
  exists p task, demo_run = Some p /\ task ∈ pl_tasks p /\
    map at_target (tk_events task) = demo_targets /\
    Forall (fun a => listed demo_surroundings demo_brain three_seeds_env (at_target a)) (tk_events task).
Proof.
  destruct demo_reached as (p & t0 & t1 & t2 & t3 & Hp & Ht & Hs & _).
  unfold summary in Hs. rewrite Ht in Hs. injection Hs as _ _ Hs _ _ _ _ _ _ _ _ _.
  assert (Hin : t0 ∈ pl_tasks p) by (rewrite Ht; left).
  exists p, t0. split; [exact Hp|]. split; [exact Hin|]. split; [exact Hs|].
  apply Forall_forall. intros a Ha.
  destruct (service_sends_only_authorized demo_auth demo_surroundings demo_brain three_seeds_env demo_moves
    p t0 a Hp Hin Ha) as (rq & identity & _ & _ & _ & _ & H & _).
  exact H.
Defined.

Lemma service_invariant_witness :
  exists p, demo_run = Some p /\ table_ok (sv_table (pl_state p)).
Proof.
  destruct demo_reached as (p & t0 & t1 & t2 & t3 & Hp & _). exists p. split; [exact Hp|].
  apply (service_invariant demo_auth demo_surroundings demo_brain three_seeds_env demo_moves p Hp).
Defined.

Lemma service_refines_witness :
  exists p task resp n, demo_run = Some p /\ task ∈ pl_tasks p /\ rs_status resp = 200 /\
    outcome demo_auth demo_surroundings demo_brain three_seeds_env
      (was demo_auth demo_surroundings demo_brain three_seeds_env demo_moves)
      (tk_job task) (tk_start task) n (Some resp) (tk_events task).
Proof.
  destruct demo_reached as (p & t0 & t1 & t2 & t3 & Hp & Ht & Hs & _).
  unfold summary in Hs. rewrite Ht in Hs. injection Hs as _ Ha _ _ _ _ _ _ _ _ _ _.
  destruct (answer t0) as [[resp|]|] eqn:E; try discriminate Ha. injection Ha as Ha.
  assert (Hin : t0 ∈ pl_tasks p) by (rewrite Ht; left).
  destruct (service_refines demo_auth demo_surroundings demo_brain three_seeds_env demo_moves p t0 (Some resp)
    Hp Hin E) as (n & _ & H).
  exists p, t0, resp, n. split; [exact Hp|]. split; [exact Hin|]. split; [exact Ha|exact H].
Defined.

Lemma service_drains_witness :
  exists p turns p', demo_run = Some p /\
    exec_all (program demo_auth demo_surroundings demo_brain three_seeds_env) (map Advance turns) p = Some p' /\
    Forall settled (pl_tasks p') /\ (steps_of 0 (demo_moves ++ map Advance turns) <= 62)%nat.
Proof.
  destruct demo_reached as (p & t0 & t1 & t2 & t3 & Hp & _).
  destruct (service_drains demo_auth demo_surroundings demo_brain three_seeds_env demo_moves p Hp)
    as (_ & turns & p' & H1 & H2 & _ & H3).
  exists p, turns, p'. split; [exact Hp|]. split; [exact H1|]. split; [exact H2|exact (H3 0%nat)].
Defined.

Lemma guard_proxies_nothing_witness :
  exists p task, demo_run = Some p /\ task ∈ pl_tasks p /\ tk_events task = [].
Proof.
  destruct demo_reached as (p & t0 & t1 & t2 & t3 & Hp & Ht & _ & Hj).
  assert (Hin : t3 ∈ pl_tasks p) by (rewrite Ht; right; right; right; left).
  exists p, t3. split; [exact Hp|]. split; [exact Hin|].
  apply (guard_proxies_nothing demo_auth demo_surroundings demo_brain three_seeds_env demo_moves p
    t3 guard_call Hp Hin Hj).
Defined.

(** The authority allows the token until it is revoked at step 5. *)
Definition revoking_authority (n : nat) (_ : ClientRequest) : ClientReply :=
  Replied 200 (Some (if (n <? 5)%nat then "allow" else "deny")).

(** The first call of the gate is answered "not revoked"; for the second, 50 seconds
    later, the kept answer is too old and the authority is asked again. *)
Definition revoking_history : GateHistory :=
  mkGateHistory
    [Authorize 0 demo_claims 100; Proceed 0; Proceed 0; Proceed 0; Proceed 0; Proceed 0; Reply 0 3;
     Proceed 0; Proceed 0; Proceed 0; Proceed 0;
     Authorize 1 demo_claims 150; Proceed 1; Proceed 1; Proceed 1; Proceed 1; Proceed 1; Reply 1 30;
     Proceed 1; Proceed 1; Proceed 1; Proceed 1]
    (fun n => if (n <? 10)%nat then 11%nat else 22%nat) (fun n => if (n <? 10)%nat then 0%nat else 1%nat).

Definition later_auth : AuthSurroundings :=
  mkAuthSurroundings reader_config (instant reader_auth) (fun n => if (n <? 10)%nat then 100 else 150)
    (introspection_service reader_auth) (jwks_service reader_auth) (revocation_gate reader_auth).

Definition token_call : Incoming := mkIncoming GET Idempotency.kv_uri jwt_headers "".

(** The same call twice: at step 0, and when the first one has been answered. *)
Definition token_moves : list (Move Job) :=
  Arrive (ClientCall token_call) :: repeat (Advance 0) 17 ++
  Arrive (ClientCall token_call) :: repeat (Advance 1) 4.

Local Notation token_run := (running (with_gate later_auth revoking_authority revoking_history)
  demo_surroundings demo_brain three_seeds_env token_moves).

Lemma token_reached :
  exists p first second, token_run = Some p /\ pl_tasks p = [first; second] /\
    tk_job second = ClientCall token_call /\ (10 <= tk_start second)%nat /\
    option_map (option_map rs_status) (answer first) = Some (Some 200) /\
    option_map (option_map rs_status) (answer second) = Some (Some 401).
Proof.
  assert (E : option_map (fun p => map (fun t => (tk_job t, (10 <=? tk_start t)%nat,
      option_map (option_map rs_status) (answer t))) (pl_tasks p)) token_run
    = Some [(ClientCall token_call, false, Some (Some 200)); (ClientCall token_call, true, Some (Some 401))])
    by (vm_compute; reflexivity).
  destruct token_run as [p|]; [|done]. injection E as E.
  destruct (pl_tasks p) as [|first [|second [|]]] eqn:Ep; try discriminate E.
  injection E as _ _ H1 H2 H3 H4. exists p, first, second. split_and!; try done. by apply Nat.leb_le.
Qed.

Lemma revoking_history_timely claims observed n :
  told (gh_events revoking_history) claims observed n ->
  exists m, (m <= n)%nat /\ observed = unix_secs later_auth m.
Proof.
  intros (id & l1 & l2 & l3 & E). 
  assert (Ha : Authorize id claims observed ∈ gh_events revoking_history)
    by (rewrite E; apply elem_of_app; right; left).
  assert (Hr : Reply id n ∈ gh_events revoking_history).
  { rewrite E. apply elem_of_app. right. right. apply elem_of_app. right. left. }
  apply list_elem_of_In in Ha, Hr. cbn in Ha, Hr.
  repeat match goal with H : _ \/ _ |- _ => destruct H as [H|H] end;
    try discriminate; try done; simplify_eq.
  - by exists 0%nat; split; [lia|].
  - by exists 10%nat; split; [lia|].
Qed.

Lemma revoked_token_reaches_no_node_witness :
  exists p first second, token_run = Some p /\ pl_tasks p = [first; second] /\
    option_map (option_map rs_status) (answer first) = Some (Some 200) /\
    option_map (option_map rs_status) (answer second) = Some (Some 401) /\ tk_events second = [].
Proof.
  destruct token_reached as (p & first & second & Hp & Ht & Hj & Hs & H1 & H2).
  exists p, first, second. split; [exact Hp|]. split; [exact Ht|]. split; [exact H1|]. split; [exact H2|].
  assert (Hin : second ∈ pl_tasks p) by (rewrite Ht; right; left).
  apply (revoked_token_reaches_no_node later_auth revoking_authority revoking_history demo_surroundings
    demo_brain three_seeds_env token_moves p second token_call "h.k1.s" 5 100 ltac:(vm_compute; discriminate)
    Hp Hin Hj ltac:(vm_compute; reflexivity) ltac:(vm_compute; reflexivity) ltac:(vm_compute; reflexivity)
    revoking_history_timely).
  - intros alg key claims _ claims' n observed _ Hn Ha. unfold authority_says, check_revocation in Ha.
    destruct (check_request _ _ _) as [r|]; [|discriminate Ha]. cbn [result_bind] in Ha.
    apply check_answer_spec in Ha as (st & body & d & [= <- <-] & _ & _ & Hd & Hr & _).
    destruct (Nat.ltb_spec n 5) as [Hlt|Hge]; [lia|].
    vm_compute in Hd. injection Hd as <-. discriminate Hr.
  - intros m Hm. unfold unix_secs, later_auth. destruct (Nat.ltb_spec m 10); lia.
  - intros n Hn. unfold unix_secs, later_auth. destruct (Nat.ltb_spec n 10); [lia|].
    vm_compute. reflexivity.
Defined.
