(* ===== verification/Testing.v ===== *)
(** * Assertions

    The repository's unit tests, as far as they are about code modelled here, are
    run against the model in the files [*Tests]: a test is the list of its
    assertions, each a boolean that evaluates on the concrete parameters of
    [Instances], in the order of the source, under the source's name. A test that
    goes over a socket runs the same programs on a network given as a function. *)
From S2P Require Import Prelude RustStr Externals Instances.
Open Scope string_scope.
Open Scope list_scope.
Open Scope Z_scope.

(** [assert!]s of one test. *)
Definition test : Type := list bool.

Definition passes (t : test) : bool := forallb (fun b => b) t.

(** [assert_eq!], [assert_ne!]. *)
Definition assert_eq `{EqDecision A} (x y : A) : bool := bool_decide (x = y).
Definition assert_ne `{EqDecision A} (x y : A) : bool := bool_decide (x <> y).

(** [unwrap] of a parse that the test relies on: the value, or a failed test. *)
Definition unwrap {A} (o : option A) (k : A -> test) : test :=
  match o with Some a => k a | None => [false] end.

(** A loop over the cases of a test. *)
Definition for_each {A} (l : list A) (k : A -> test) : test := l ≫= k.

(** The same loop when its body changes a state. *)
Fixpoint for_each_in {A St} (l : list A) (k : A -> St -> test * St) (s : St) : test * St :=
  match l with
  | [] => ([], s)
  | a :: l => let (t, s) := k a s in let (ts, s) := for_each_in l k s in (t ++ ts, s)
  end.

(** The repository's [#[test]]s pass when each of their assertions holds. *)
Definition all_pass (l : list test) : Prop := forallb passes l = true.

#[export] Instance result_eq_dec `{EqDecision A, EqDecision E} : EqDecision (result A E).
Proof. solve_decision. Defined.

(** [value["key"]] and [value[index]]. *)
Definition at_key (k : string) (v : Json) : Json := default JNull (json_get v k).
Definition at_index (i : nat) (v : Json) : Json :=
  match v with JArr l => default JNull (l !! i) | _ => JNull end.

(** [str::contains(&str)]. *)
Fixpoint str_contains (needle s : string) : bool :=
  starts_with needle s || match s with "" => false | String _ s => str_contains needle s end.

(** [HeaderMap::remove]. *)
Definition hm_remove (h : HeaderMap) (name : string) : HeaderMap :=
  List.filter (fun p => negb (String.eqb (fst p) name)) h.

(** [s.parse::<Uri>().unwrap()]; the tests' URIs parse. *)
Definition uri (s : string) : Uri := default (uri_of_path s) (uri_parse s).

(** The bytes of a JSON object literal. *)
Definition json (fields : list (string * Json)) : string := json_to_vec (JObj fields).
