(* ===== verification/RoutingTests.v ===== *)
(** * The unit tests of [src/routing.rs], run against the model

    Request bodies are written as the JSON values the source's literals denote. *)
From S2P Require Import Prelude RustStr Externals Instances Routing Testing.
Open Scope string_scope.
Open Scope list_scope.
Open Scope Z_scope.

(** [shard_for_request]. *)
Definition shard_for_request (uri : Uri) (shard_count : Z) : option Z :=
  option_map (fun key => shard_for key shard_count) (routing_key uri None).

(** ** Helpers of the tests *)

Definition key (s : string) : option string := routing_key (uri s) None.

Definition key_with_body (s body : string) : option string := routing_key_with_body (uri s) body None.

(** ** Tests *)

Definition org_owned_keys_are_scoped_with_the_callers_org : test :=
  let org := Some "org_1" in
  let scoped k := Some (org_scoped_key "org_1" k) in
  [ assert_eq (routing_key (uri "/v1/kv?key=orders/checkout") org) (scoped "orders/checkout");
    assert_eq (routing_key (uri "/v1/idempotency?key=req-1") org) (scoped "req-1");
    assert_eq (routing_key (uri "/v1/rate-limit/acme/checkout/check") org) (scoped "checkout");
    assert_eq (routing_key (uri "/v1/cron/schedules/nightly/history") org) (scoped "nightly");
    assert_eq (routing_key (uri "/v1/elections/cleanup/campaign") org) (scoped "cleanup");
    assert_eq (routing_key_with_body (uri "/v1/idempotency/claim") (json [("key", JStr "req-9")]) org)
      (scoped "req-9") ].

Definition coordinator_keys_are_never_org_scoped : test :=
  let org := Some "org_1" in
  [ assert_eq (routing_key (uri "/v1/locks/acquire") org) (Some LOCK_COORDINATION_KEY);
    assert_eq (routing_key (uri "/v1/semaphores/acquire") org) (Some LOCK_COORDINATION_KEY);
    assert_eq (routing_key (uri "/v1/services/api") org) (Some SERVICE_DISCOVERY_KEY) ].

Definition same_key_diverges_across_orgs_and_agrees_across_paths_within_one_org : test :=
  let kv := uri "/v1/kv?key=orders/checkout" in
  unwrap (routing_key kv (Some "org_a")) (fun under_a =>
  unwrap (routing_key kv (Some "org_b")) (fun under_b =>
  unwrap (routing_key kv None) (fun anonymous =>
  unwrap (routing_key (uri "/v1/kv?key=orders/checkout") (Some "org_a")) (fun via_kv_query =>
  unwrap (routing_key (uri "/v1/idempotency?key=orders/checkout") (Some "org_a")) (fun via_idem_query =>
  unwrap (routing_key_with_body (uri "/v1/idempotency/claim")
            (json [("key", JStr "orders/checkout"); ("ttl", JStr "24h")]) (Some "org_a")) (fun via_idem_body =>
  [ assert_ne under_a under_b; assert_ne under_a anonymous; assert_ne under_b anonymous;
    assert_eq via_kv_query via_idem_query; assert_eq via_kv_query via_idem_body;
    assert_eq via_kv_query under_a ] ++
  for_each [4; 16; 256] (fun n =>
    [assert_eq (shard_for via_kv_query n) (shard_for via_idem_body n)]))))))).

Definition kv_key_comes_from_the_query_param_and_is_slash_safe : test :=
  [ assert_eq (key "/v1/kv?key=orders") (Some "orders");
    assert_eq (key "/v1/kv?key=flags/checkout") (Some "flags/checkout");
    assert_eq (key "/v1/kv?key=a%2Fb") (Some "a/b");
    assert_eq (key "/v1/kv?watch=true&key=x") (Some "x");
    assert_eq (key "/v1/kv") None ].

Definition idempotency_routes_by_query_or_body_key : test :=
  [ assert_eq (key "/v1/idempotency?key=stripe-webhook/event_123") (Some "stripe-webhook/event_123");
    assert_eq (key_with_body "/v1/idempotency/claim"
                 (json [("key", JStr "stripe-webhook/event_123"); ("ttl", JStr "24h")]))
      (Some "stripe-webhook/event_123");
    assert_eq (key_with_body "/v1/idempotency/complete"
                 (json [("key", JStr "stripe-webhook/event_123"); ("fencing_token", JNum 7)]))
      (Some "stripe-webhook/event_123");
    assert_eq (key "/v1/idempotency/claim") None ].

Definition idempotency_body_routing_rejects_malformed_or_non_string_keys : test :=
  [ assert_eq (key_with_body "/v1/idempotency/claim" (json [("key", JNum 7)])) None;
    assert_eq (key_with_body "/v1/idempotency/complete" (json [("owner", JStr "worker")])) None;
    assert_eq (key_with_body "/v1/idempotency/claim" "not-json") None ].

Definition routing_decodes_plus_and_percent_escapes_in_keys : test :=
  [ assert_eq (key "/v1/kv?key=tenant+space%2Fcheckout") (Some "tenant space/checkout");
    assert_eq (key "/v1/rate-limit/acme/tenant+space%2Fcheckout/check") (Some "tenant+space/checkout");
    assert_eq (key "/v1/cron/schedules/nightly+backup/history") (Some "nightly+backup");
    assert_eq (key "/v1/elections/worker%2Bprimary/campaign") (Some "worker+primary");
    assert_eq (key "/v1/elections/prod%2Fjob+runner%2Fleader") (Some "prod/job+runner/leader") ].

Definition new_primitives_route_by_query_or_body_exactly_like_the_node : test :=
  [ assert_eq (key "/v1/counters?key=rollout%2Ffailures") (Some "rollout/failures") ] ++
  for_each ["barriers"; "tasks"; "effects"; "handoffs"; "decisions"; "budgets"; "claims"] (fun family =>
    [ assert_eq (key ("/v1/" +:+ family +:+ "?name=release-942%2Freviewers")) (Some "release-942/reviewers") ]) ++
  [ assert_eq (key_with_body "/v1/counters/add" (json [("key", JStr "rollout/failures"); ("delta", JNum 1)]))
      (Some "rollout/failures");
    assert_eq (key_with_body "/v1/barriers/arrive"
                 (json [("name", JStr "release-942/reviewers"); ("participant", JStr "w1")]))
      (Some "release-942/reviewers");
    assert_eq (key_with_body "/v1/tasks/claim" (json [("name", JStr "repo/acme/issue/482"); ("worker", JStr "w1")]))
      (Some "repo/acme/issue/482");
    assert_eq (key_with_body "/v1/budgets/reserve" (json [("name", JStr "org/acme"); ("usd_micros", JNum 5)]))
      (Some "org/acme");
    assert_eq (key "/v1/counters") None;
    assert_eq (key_with_body "/v1/tasks/create" "not-json") None ].

(** The crate's [lock_coordination_shard] is the shard of [LOCK_COORDINATION_KEY]. *)
Definition all_lock_and_semaphore_requests_route_to_the_one_coordinator_shard : test :=
  for_each ["/v1/locks/acquire"; "/v1/locks/renew"; "/v1/locks/cancel"; "/v1/locks/release";
            "/v1/locks?key=orders/42"; "/v1/semaphores/acquire"; "/v1/semaphores/renew";
            "/v1/semaphores/cancel"; "/v1/semaphores/release"; "/v1/semaphores?key=db-pool"]
    (fun p => [assert_eq (key p) (Some LOCK_COORDINATION_KEY)]) ++
  for_each [4; 16; 256] (fun n =>
    unwrap (shard_for_request (uri "/v1/locks/acquire") n) (fun s =>
    unwrap (shard_for_request (uri "/v1/semaphores/acquire") n) (fun s' =>
    [ assert_eq s (shard_for LOCK_COORDINATION_KEY n); assert_eq s s' ]))).

Definition other_primitives_route_by_their_path_identifier : test :=
  [ assert_eq (key "/v1/rate-limit/acme/checkout/check") (Some "checkout");
    assert_eq (key "/v1/cron/schedules/nightly/history") (Some "nightly");
    assert_eq (key "/v1/elections/cleanup/campaign") (Some "cleanup");
    assert_eq (key "/v1/status") None;
    assert_eq (key "/healthz") None ].

Definition service_discovery_routes_to_the_registry_coordinator : test :=
  for_each ["/v1/services"; "/v1/services/api"; "/v1/services/api/instances/i1"; "/v1/services/api/watch"]
    (fun p => [assert_eq (key p) (Some SERVICE_DISCOVERY_KEY)]) ++
  for_each [4; 16; 256] (fun n =>
    unwrap (shard_for_request (uri "/v1/services/api/instances/i1") n) (fun s =>
    [assert_eq s (shard_for SERVICE_DISCOVERY_KEY n)])).

Lemma routing_tests_pass : all_pass
  [ org_owned_keys_are_scoped_with_the_callers_org; coordinator_keys_are_never_org_scoped;
    same_key_diverges_across_orgs_and_agrees_across_paths_within_one_org;
    kv_key_comes_from_the_query_param_and_is_slash_safe; idempotency_routes_by_query_or_body_key;
    idempotency_body_routing_rejects_malformed_or_non_string_keys;
    routing_decodes_plus_and_percent_escapes_in_keys;
    new_primitives_route_by_query_or_body_exactly_like_the_node;
    all_lock_and_semaphore_requests_route_to_the_one_coordinator_shard;
    other_primitives_route_by_their_path_identifier; service_discovery_routes_to_the_registry_coordinator ].
Proof. vm_compute. reflexivity. Qed.
