(* ===== verification/RevocationTests.v ===== *)
(** * The unit tests of [src/revocation.rs], run against the model

    A call of [authorize] is a task of the gate. A call made alone is run to its end;
    the concurrent calls take turns, and the authority answers when every other call
    waits (it sleeps meanwhile). The derived JSON encodings are the instance
    [envelope_wire], which refuses unknown fields as the source's attribute does. *)
From S2P Require Import Prelude RustStr Externals Instances Identity Revocation RevocationGate Testing.
Open Scope string_scope.
Open Scope list_scope.
Open Scope Z_scope.
Open Scope rust_scope.

(** ** The authority of the tests *)

Definition claims (org subject jti : string) : Claims :=
  mkClaims subject org ["kv:read"] "fiducia-auth" "fiducia-api" 90 900 jti.

Record PolicyAuthority := mkPolicyAuthority {
  calls : nat;
  fail_after_first : bool;
  delay : Z;
}.

(** Its [check_revocation], under the gate's timeout. *)
Definition policy_check (refresh_timeout : Z) (token : Claims) (a : PolicyAuthority)
  : Answer * PolicyAuthority :=
  let revoked := String.eqb (cl_jti token) "revoked-token" || String.eqb (cl_sub token) "revoked-subject" in
  (if refresh_timeout <? delay a then TimedOut
   else if fail_after_first a && (0 <? calls a)%nat then Failed else Says revoked,
   mkPolicyAuthority (S (calls a)) (fail_after_first a) (delay a)).

(** ** Running calls *)

Record Run := mkRun { r_gate : Gate; r_authority : PolicyAuthority; r_timeout : Z }.

Definition gate (authority : PolicyAuthority) (freshness : Z) : Run :=
  mkRun (new_gate freshness 64) authority 200.

Definition spawn (id : nat) (token : Claims) (now : Z) (r : Run) : Run :=
  mkRun (default (r_gate r) (exec (Spawn id (revocation_cache_key token) now) (r_gate r)))
    (r_authority r) (r_timeout r).

(** A turn of a call that does not wait for the authority. *)
Definition advance (r : Run) (id : nat) : Run :=
  mkRun (default (r_gate r) (exec (Advance id) (r_gate r))) (r_authority r) (r_timeout r).

(** A turn of a call; if it waits for the authority, the answer arrives. *)
Definition turn (token : Claims) (r : Run) (id : nat) : Run :=
  match t_pc <$> (g_tasks (r_gate r) !! id) with
  | Some (Asking _) =>
      let (ans, a) := policy_check (r_timeout r) token (r_authority r) in
      mkRun (default (r_gate r) (exec (Answers id ans) (r_gate r))) a (r_timeout r)
  | _ => advance r id
  end.

Definition outcome (id : nat) (r : Run) : option Authorization :=
  match t_pc <$> (g_tasks (r_gate r) !! id) with Some (Finished out) => Some out | _ => None end.

(** [gate.authorize(&token, now).await], with nothing else going on. *)
Definition authorize (id : nat) (token : Claims) (now : Z) (r : Run) : option Authorization * Run :=
  let r := foldl (turn token) (spawn id token now r) (replicate 11 id) in
  (outcome id r, r).

(** ** Tests *)

Definition allows_only_after_authority_and_uses_fresh_cache : test :=
  let token := claims "org-a" "subject-a" "token-a" in
  let (first, r) := authorize 0 token 100 (gate (mkPolicyAuthority 0 false 0) 30) in
  let (second, r) := authorize 1 token 110 r in
  [ assert_eq first (Some Allowed); assert_eq second (Some Allowed); assert_eq (calls (r_authority r)) 1%nat ].

Definition exact_token_and_subject_revocations_deny : test :=
  let (first, r) := authorize 0 (claims "org-a" "subject-a" "revoked-token") 100
                      (gate (mkPolicyAuthority 0 false 0) 30) in
  let (second, r) := authorize 1 (claims "org-a" "revoked-subject" "token-b") 100 r in
  [ assert_eq first (Some Revoked); assert_eq second (Some Revoked) ].

Definition stale_allow_and_stale_deny_both_fail_closed_on_outage : test :=
  for_each [claims "org-a" "subject-a" "token-a"; claims "org-a" "subject-a" "revoked-token"] (fun token =>
    let (first, r) := authorize 0 token 100 (gate (mkPolicyAuthority 0 true 0) 1) in
    let (second, r) := authorize 1 token 102 r in
    [ match first with Some Allowed | Some Revoked => true | _ => false end;
      assert_eq second (Some (IsUnavailable RefreshFailed)) ]).

Definition clock_regression_never_serves_cached_allow : test :=
  let token := claims "org-a" "subject-a" "token-a" in
  let (first, r) := authorize 0 token 100 (gate (mkPolicyAuthority 0 false 0) 30) in
  let (second, r) := authorize 1 token 99 r in
  [ assert_eq first (Some Allowed); assert_eq second (Some (IsUnavailable ClockRegression)) ].

Definition equal_jti_in_different_tenants_is_independent : test :=
  let (first, r) := authorize 0 (claims "org-a" "subject" "shared-jti") 100
                      (gate (mkPolicyAuthority 0 false 0) 30) in
  let (second, r) := authorize 1 (claims "org-b" "subject" "shared-jti") 100 r in
  [ assert_eq first (Some Allowed); assert_eq second (Some Allowed); assert_eq (calls (r_authority r)) 2%nat ].

Definition concurrent_misses_coalesce_to_one_authority_call : test :=
  let token := claims "org-a" "subject-a" "token-a" in
  let joins := seq 0 12 in
  let r := foldl (fun r id => spawn id token 100 r) (gate (mkPolicyAuthority 0 false 25) 30) joins in
  let r := foldl advance r (concat (replicate 5 joins)) in
  let r := foldl (turn token) r (concat (map (replicate 11) joins)) in
  for_each joins (fun id => [assert_eq (outcome id r) (Some Allowed)]) ++
  [assert_eq (calls (r_authority r)) 1%nat].

Definition refresh_timeout_denies : test :=
  let (out, _) := authorize 0 (claims "org-a" "subject-a" "token-a") 100
                    (mkRun (new_gate 30 64) (mkPolicyAuthority 0 false 50) 5) in
  [assert_eq out (Some (IsUnavailable RefreshTimedOut))].

(** ** The authority over HTTP *)

(** An object with no field but these. *)
Definition only_fields (fields : list string) (v : Json) : bool :=
  match v with JObj l => forallb (fun '(k, _) => bool_decide (k ∈ fields)) l | _ => false end.

(** An optional field: absent and [null] are [None]. *)
Definition opt_field {A} (k : string) (parse : Json -> option A) (v : Json) : option (option A) :=
  match json_get v k with
  | None | Some JNull => Some None
  | Some x => Some <$> parse x
  end.

Definition target_of (v : Json) : option MatchedTarget :=
  match v with
  | JStr s => if String.eqb s "token_id" then Some TokenId
              else if String.eqb s "subject" then Some Subject else None
  | _ => None
  end.

Definition envelope_of (v : Json) : option WireDecision :=
  if negb (only_fields ["decision"] v) then None else
  let! d := json_get v "decision" in
  if negb (only_fields ["revoked"; "matched_target"; "generation"; "expires_at"] d) then None else
  let! revoked := (let! b := json_get d "revoked" in json_as_bool b) in
  let! target := opt_field "matched_target" target_of d in
  let! generation := opt_field "generation" json_as_u64 d in
  let! expires_at := opt_field "expires_at" json_as_u64 d in
  Some (mkWireDecision revoked target generation expires_at).

Definition claims_json (c : Claims) : Json :=
  JObj [("sub", JStr (cl_sub c)); ("org_id", JStr (cl_org_id c)); ("scopes", JArr (map JStr (cl_scopes c)));
        ("iss", JStr (cl_iss c)); ("aud", JStr (cl_aud c)); ("iat", JNum (cl_iat c));
        ("exp", JNum (cl_exp c)); ("jti", JStr (cl_jti c))].

#[local] Instance envelope_wire : RevocationWire := {|
  check_request_json c := json_to_vec (JObj [("claims", claims_json c)]);
  envelope_from_slice s := let! v := json_from_slice s in envelope_of v;
|}.

Record HttpFixture := mkHttpFixture { fx_secret : string; fx_body : Json; fx_status : Z }.

Definition check_fixture (fixture : HttpFixture) (rq : ClientRequest) : ClientReply :=
  if negb (bool_decide ((let! value := hm_get (cq_headers rq) READER_HEADER in hv_to_str value)
                        = Some (fx_secret fixture)))
  then Replied 401 (Some (json_to_vec (JObj [("error", JStr "unauthorized")])))
  else Replied (fx_status fixture) (Some (json_to_vec (fx_body fixture))).

(** The authority on the fixture: its [check_revocation]. *)
Definition fixture_authority (body : Json) (token : Claims) (now : Z) : result bool AuthorityError :=
  let fixture := mkHttpFixture "reader-secret-reader-secret-reader-secret" body 200 in
  check_revocation (check_fixture fixture) "http://127.0.0.1:1/v1/revocations/check"
    (Some (fx_secret fixture)) token now.

#[local] Instance AuthorityError_eq_dec : EqDecision AuthorityError.
Proof. solve_decision. Defined.

Definition http_adapter_accepts_well_formed_reader_response : test :=
  [ assert_eq
      (fixture_authority
         (JObj [("decision", JObj [("revoked", JBool false); ("matched_target", JNull);
                                   ("generation", JNull); ("expires_at", JNull)])])
         (claims "org-a" "subject-a" "token-a") 100)
      (Ok false) ].

Definition http_adapter_rejects_inconsistent_or_extra_fields : test :=
  [ assert_eq
      (fixture_authority
         (JObj [("decision", JObj [("revoked", JBool false); ("matched_target", JStr "token_id");
                                   ("generation", JNum 1); ("expires_at", JNum 200);
                                   ("unexpected", JBool true)])])
         (claims "org-a" "subject-a" "token-a") 100)
      (Err Malformed) ].

Lemma revocation_tests_pass : all_pass
  [ allows_only_after_authority_and_uses_fresh_cache; exact_token_and_subject_revocations_deny;
    stale_allow_and_stale_deny_both_fail_closed_on_outage; clock_regression_never_serves_cached_allow;
    equal_jti_in_different_tenants_is_independent; concurrent_misses_coalesce_to_one_authority_call;
    refresh_timeout_denies; http_adapter_accepts_well_formed_reader_response;
    http_adapter_rejects_inconsistent_or_extra_fields ].
Proof. vm_compute. reflexivity. Qed.
