(* ===== verification/MainTests.v ===== *)
(** * The unit tests of [src/main.rs], run against the model

    Environment variables are the argument of the start-up functions; handlers are
    run with no other task. [generated_interfaces_are_importable] is about the
    payload crate alone and has no counterpart. *)
From S2P Require Import Prelude RustStr Externals Instances Routing Table Identity Conc Directory Forward.
From S2P Require Import Revocation Auth App Testing.
Open Scope string_scope.
Open Scope list_scope.
Open Scope Z_scope.

(** ** Helpers of the tests *)

Definition test_identity (scopes : list string) : VerifiedIdentity :=
  mkIdentity ApiKey "org_test" (Some "key_test") scopes false.

(** The environment with these variables set. *)
Definition vars (l : list (string * string)) : Environment := fun name => assoc_get name l.

Definition handled {A} (m : M Service Attempt A) (routes : RouteTable) : A :=
  fst (run quiet m (mkWorld 0 (mkService no_caches routes) [])).

(** ** Tests *)

Definition tls_settings_require_cert_and_key_together : test :=
  [ match tls_settings (vars []) with Ok None => true | _ => false end;
    negb (is_ok (tls_settings (vars [("FIDUCIA_TLS_CERT_PATH", "/tls/tls.crt")]))) ] ++
  match tls_settings (vars [("FIDUCIA_TLS_CERT_PATH", "/tls/tls.crt"); ("FIDUCIA_TLS_KEY_PATH", "/tls/tls.key");
                            ("TLS_PORT", "9443")]) with
  | Ok (Some settings) =>
      [ assert_eq (tls_cert_path settings) "/tls/tls.crt"; assert_eq (tls_key_path settings) "/tls/tls.key";
        assert_eq (tls_port settings) 9443 ]
  | _ => [false]
  end.

Definition lb_operator_routes_require_admin_read_scope_and_fail_closed_when_anonymous : test :=
  [ negb (is_ok (authorize_admin_read None));
    negb (is_ok (authorize_admin_read (Some (test_identity ["kv:read"]))));
    is_ok (authorize_admin_read (Some (test_identity ["admin:read"])));
    is_ok (authorize_admin_read (Some (test_identity ["admin:write"])));
    is_ok (authorize_admin_read (Some (test_identity ["admin:*"])));
    is_ok (authorize_admin_read (Some (test_identity ["*"]))) ].

Definition valid_trusted_edge_identity_precedes_missing_raw_credentials : test :=
  let headers := hm_insert [] EDGE_AUTH_HEADER "edge-secret" in
  let headers := hm_insert headers "x-fiducia-org-id" "org_edge" in
  let headers := hm_insert headers "x-fiducia-scopes" "kv:write" in
  match fst (run quiet (request_identity_with_secret demo_auth headers (Some "edge-secret"))
               (mkWorld 0 no_caches [])) with
  | Ok (Some identity) => [ assert_eq (org_id identity) "org_edge"; assert_eq (scopes identity) ["kv:write"] ]
  | _ => [false]
  end.

Definition plaintext_guard_serves_probes_but_rejects_everything_else : test :=
  [ assert_eq (rs_status plaintext_upgrade_required) 426 ].

Definition readyz_is_503_until_the_route_table_is_hydrated : test :=
  let hydrated := new 4 ["http://node-a:8090"] in
  [ assert_eq (rs_status (handled readyz (new 4 []))) 503; assert_eq (rs_status (handled readyz hydrated)) 200 ].

Definition shard_count_is_clamped_to_at_least_one : test :=
  [ assert_eq (shard_count_from_env_value None) 16; assert_eq (shard_count_from_env_value (Some "")) 16;
    assert_eq (shard_count_from_env_value (Some "not-a-number")) 16;
    assert_eq (shard_count_from_env_value (Some "0")) 1;
    assert_eq (shard_count_from_env_value (Some " 32 ")) 32;
    assert_eq (shard_for "orders/42" (shard_count_from_env_value (Some "0"))) 0 ].

Lemma main_tests_pass : all_pass
  [ tls_settings_require_cert_and_key_together;
    lb_operator_routes_require_admin_read_scope_and_fail_closed_when_anonymous;
    valid_trusted_edge_identity_precedes_missing_raw_credentials;
    plaintext_guard_serves_probes_but_rejects_everything_else;
    readyz_is_503_until_the_route_table_is_hydrated; shard_count_is_clamped_to_at_least_one ].
Proof. vm_compute. reflexivity. Qed.
