(* ===== verification/ForwardTests.v ===== *)
(** * Unit tests of [src/proxy.rs] on scopes and forwarding, run against the model

    The servers a test starts are the network, a function of the request. Nodes have
    names in place of the source's loopback ports. *)
From S2P Require Import Prelude RustStr Externals Instances Routing Table Identity Scopes Conc Directory.
From S2P Require Import Forward Testing.
Open Scope string_scope.
Open Scope list_scope.
Open Scope Z_scope.

(** ** Helpers of the tests *)

Definition identity_with_scopes (scopes : list string) : VerifiedIdentity :=
  mkIdentity ApiKey "org_test" (Some "key_test") scopes false.

Definition allowed (scopes : list string) (m : Method) (u : Uri) : bool :=
  is_ok (authorize_route (Some (identity_with_scopes scopes)) m u).

Definition quoted (s : string) : string := String (chr 34) (s +:+ String (chr 34) "").
Definition lf : string := String (chr 10) "".

(** The test's network: who answers, by the node's base URL. *)
Definition network (servers : list (string * Reply)) (_ : nat) (rq : SentRequest) : Reply :=
  default (mkReply 0 (SendError true))
    (snd <$> List.find (fun p => starts_with (fst p +:+ "/") (sr_url rq)) servers).

Definition balancer (servers : list (string * Reply)) : Surroundings :=
  mkSurroundings None (fun n => Z.of_nat n) (network servers).

(** A plain answer, in one piece. *)
Definition plain (status : Z) (headers : HeaderMap) (body : string) : Reply :=
  mkReply 1 (SendOk status headers (mkArrival [(1, body)] 1 false)).

(** [truncated_response_upstream]: it promises 100 bytes, sends one and closes. *)
Definition truncated_response_upstream : Reply :=
  mkReply 1 (SendOk 200 [("content-length", "100"); ("connection", "close")] (mkArrival [(1, "x")] 1 true)).

(** A future that never completes, against the timeouts of the tests. *)
Definition never : Z := 2 ^ 40.

(** [event_stream_upstream]: one event, then nothing. *)
Definition first_event : string :=
  "event: put" +:+ lf +:+ "data: {" +:+ quoted "value" +:+ ":" +:+ quoted "on" +:+ "}" +:+ lf +:+ lf.

Definition event_stream_upstream : Reply :=
  mkReply 1 (SendOk 200 [("content-type", "text/event-stream; charset=utf-8")]
    (mkArrival [(0, first_event)] never false)).

(** [forward_with_redirect] on a fresh table of these nodes: the answer, and the
    attempts made at a node. *)
Definition forwarded (servers : list (string * Reply)) (shards : Z) (members : list string)
    (target : string) (m : Method) (u : string) (body : string) : Response * (string -> nat) :=
  let (response, w) := run quiet
    (forward_with_redirect (balancer servers)
       (mkForwardRequest None target (Some 0) m (uri u) [] body))
    (mkWorld 0 (new shards members) []) in
  (response, fun node => length (List.filter (fun a => String.eqb (at_target a) node) (w_log w))).

(** ** Scopes *)

Definition observe_inventory_routes_require_an_admin_scope : test :=
  for_each ["/v1/observe/locks"; "/v1/observe/semaphores"; "/v1/observe/elections";
            "/v1/observe/shards"; "/v1/observe/metrics"] (fun path =>
    [ assert_eq (required_scopes_for_route GET (uri path)) ADMIN_READ_SCOPES;
      negb (allowed ["locks:read"] GET (uri path)); allowed ["admin:read"] GET (uri path) ]).

Definition plain_lock_reads_still_accept_locks_read : test :=
  let u := uri "/v1/locks?key=orders%2F42" in
  [ assert_eq (required_scopes_for_route GET u) LOCKS_READ_SCOPES; allowed ["locks:read"] GET u ].

Definition coordination_renew_and_cancel_require_lock_write_scope : test :=
  for_each ["/v1/locks/renew"; "/v1/locks/cancel"; "/v1/semaphores/renew"; "/v1/semaphores/cancel"]
    (fun path => let u := uri path in
    [ assert_eq (required_scopes_for_route POST u) LOCKS_WRITE_SCOPES;
      negb (is_ok (authorize_route None POST u)); negb (allowed ["locks:read"] POST u);
      negb (allowed ["admin:read"] POST u); allowed ["locks:write"] POST u; allowed ["admin:write"] POST u ]).

Definition route_scope_matrix_enforces_read_write_boundaries : test :=
  let read_uri := uri "/v1/services/api" in
  let write_uri := uri "/v1/services/api/instances/i-1" in
  [ allowed ["services:read"] GET read_uri; negb (allowed ["services:read"] PUT write_uri);
    allowed ["services:write"] PUT write_uri; allowed ["services:*"] PUT write_uri;
    allowed ["admin:read"] GET read_uri; negb (allowed ["admin:read"] PUT write_uri);
    allowed ["admin:write"] PUT write_uri; negb (is_ok (authorize_route None PUT write_uri));
    negb (is_ok (authorize_route None GET read_uri)); is_ok (authorize_route None GET (uri "/healthz")) ].

(** The scopes the authentication service issues to API keys. *)
Definition ISSUABLE : list string :=
  ["requests:read"; "requests:write"; "locks:read"; "locks:write"; "kv:read"; "kv:write"; "services:read";
   "services:write"; "elections:read"; "elections:write"; "cron:read"; "cron:write"; "rate-limit:read";
   "rate-limit:write"].

Definition FAMILIES : list string :=
  ["kv"; "locks"; "semaphores"; "rw"; "idempotency"; "rate-limit"; "cron"; "elections"; "services";
   "counters"; "barriers"; "tasks"; "effects"; "handoffs"; "decisions"; "budgets"; "claims"].

Definition every_routed_family_is_reachable_with_an_issuable_api_key_scope : test :=
  for_each FAMILIES (fun family => for_each [GET; POST] (fun method =>
    let u := uri ("/v1/" +:+ family) in
    let issuable := List.filter (fun scope => negb (starts_with "admin:" scope))
                      (required_scopes_for_route method u) in
    for_each issuable (fun scope => [bool_decide (scope ∈ ISSUABLE)]) ++
    unwrap (head issuable) (fun granted => [allowed [granted] method u]))).

Definition previously_unreachable_families_no_longer_require_admin : test :=
  for_each [("/v1/counters/hits", "kv:read", "kv:write"); ("/v1/barriers/b1", "locks:read", "locks:write");
            ("/v1/handoffs/h1", "locks:read", "locks:write"); ("/v1/claims/c1", "locks:read", "locks:write");
            ("/v1/tasks/t1", "requests:read", "requests:write");
            ("/v1/effects/e1", "requests:read", "requests:write");
            ("/v1/decisions/d1", "requests:read", "requests:write");
            ("/v1/budgets/b1", "rate-limit:read", "rate-limit:write")]
    (fun '(path, read_scope, write_scope) => let u := uri path in
    [ allowed [read_scope] GET u; allowed [write_scope] POST u; negb (allowed [read_scope] POST u) ]).

(** ** Requests and answers *)

Definition event_stream_detection_is_explicit_and_read_only : test :=
  let accepts_sse := hm_insert [] "accept" "application/json, text/event-stream" in
  [ is_streaming_request GET (uri "/v1/kv?key=x&watch=true") [];
    is_streaming_request GET (uri "/v1/elections/x/watch") accepts_sse;
    negb (is_streaming_request GET (uri "/v1/kv?key=x&watch=false") []);
    negb (is_streaming_request POST (uri "/v1/kv?key=x&watch=true") accepts_sse) ].

Definition classifies_current_node_not_leader_response_from_headers : test :=
  let headers := hm_insert (hm_insert [] "x-fiducia-not-leader" "true") "x-fiducia-leader" "http://leader-a:8090" in
  [ assert_eq (classify_upstream_response 503 headers "") (NotLeader (Some "http://leader-a:8090")) ].

Definition follower_without_a_leader_hint_yields_none_so_the_lb_round_robins : test :=
  [ assert_eq (classify_upstream_response 503 (hm_insert [] "x-fiducia-not-leader" "true") "") (NotLeader None) ].

Definition not_leader_body (leader : list (string * Json)) : string :=
  json [("committed", JBool false);
        ("error", JObj ([("reason", JStr "not_leader"); ("shard", JNum 9)] ++ leader ++ [("retryable", JBool true)]))].

Definition classifies_json_not_leader_fallback : test :=
  [ assert_eq (classify_upstream_response 200 [] (not_leader_body [("leader", JStr "http://leader-b:8090")]))
      (NotLeader (Some "http://leader-b:8090")) ].

Definition classifies_not_leader_without_hint_for_round_robin_retry : test :=
  [ assert_eq (classify_upstream_response 503 [] (not_leader_body [])) (NotLeader None) ].

Definition only_read_methods_are_safe_for_transport_failover : test :=
  for_each [GET; HEAD; OPTIONS] (fun method => [method_is_replay_safe method]) ++
  for_each [POST; PUT; PATCH; DELETE] (fun method => [negb (method_is_replay_safe method)]).

Definition location_header_can_supply_leader_base_url : test :=
  [ assert_eq (leader_base_url "http://leader-c:8090/v1/kv/orders?x=1") (Some "http://leader-c:8090") ].

(** A URL parser that resolves dot segments, as the [url] crate does. *)
Fixpoint resolve_dots (segments done_ : list string) : list string :=
  match segments with
  | [] => rev done_
  | ".." :: segments => resolve_dots segments (tail done_)
  | "." :: segments => resolve_dots segments done_
  | s :: segments => resolve_dots segments (s :: done_)
  end.

Definition resolving : UrlCrate := {|
  url_parse s :=
    match url_parse s with
    | Some u =>
        let path := "/" +:+ String.concat "/" (resolve_dots (tail (split_on "/" (url_path u))) []) in
        Some (mkUrl (url_as_str u) (url_scheme u) (url_host_str u) (url_username u) (url_password u)
                (url_query u) (url_fragment u) path)
    | None => None
    end;
|}.

Definition upstream_url_refuses_a_path_the_url_crate_would_rewrite : test :=
  [ assert_eq (upstream_url (UC := resolving) "http://node-a:8090" (uri "/v1/locks/../observe/locks")) None;
    assert_eq (upstream_url (UC := resolving) "http://node-a:8090/" (uri "/v1/kv?key=orders%2F42"))
      (Some "http://node-a:8090/v1/kv?key=orders%2F42") ].

(** ** Redirects and retries *)

Definition redirect_hint_updates_route_table_before_retry : test :=
  let table := new 16 ["http://old-leader:8090"; "http://new-leader:8090"] in
  let (next, w) := run quiet (redirected_leader_target (balancer []) (Some 3) "http://new-leader:8090")
                     (mkWorld 0 table []) in
  [ assert_eq next (Some "http://new-leader:8090");
    assert_eq (leader_for (w_state w) 3) (Some "http://new-leader:8090") ].

Definition redirect_hint_outside_membership_is_rejected : test :=
  let table := new 16 ["http://known:8090"] in
  let (next, w) := run quiet (redirected_leader_target (balancer []) (Some 3) "https://evil.example")
                     (mkWorld 0 table []) in
  [ assert_eq next None; assert_ne (leader_for (w_state w) 3) (Some "https://evil.example") ].

Definition retry_loop_does_not_revisit_a_dead_stale_leader_before_trying_every_member : test :=
  let servers := [("http://follower:1", plain 307 [("x-fiducia-leader", "http://dead:1")] "");
                  ("http://healthy:1", plain 200 [("content-type", "application/json")]
                                         (json [("served_by", JStr "healthy-third-member")]))] in
  let (response, _) := forwarded servers 1 ["http://dead:1"; "http://follower:1"; "http://healthy:1"]
                         "http://dead:1" GET "/v1/kv?key=x" "" in
  [ assert_eq (rs_status response) 200;
    assert_eq (rs_body response) (BodyFull (json [("served_by", JStr "healthy-third-member")])) ].

Definition retries_a_down_known_node_against_another_known_node : test :=
  let servers := [("http://live:1", plain 200 [] "live node")] in
  let (response, _) := forwarded servers 4 ["http://dead:1"; "http://live:1"] "http://dead:1" GET "/v1/status" "" in
  [ assert_eq (rs_status response) 200 ].

Definition retries_a_mutation_when_connection_failure_proves_it_was_not_sent : test :=
  let servers := [("http://live:1", plain 200 [] "committed")] in
  let (response, _) := forwarded servers 4 ["http://dead:1"; "http://live:1"] "http://dead:1" PUT
                         "/v1/kv?key=failover" (json [("value", JStr "safe")]) in
  [ assert_eq (rs_status response) 200 ].

Definition assert_ambiguous_mutation_not_replayed (method : Method) (u body : string) : test :=
  let servers := [("http://ambiguous:1", truncated_response_upstream);
                  ("http://live:1", plain 200 [] "would-commit")] in
  let (response, hits) := forwarded servers 4 ["http://ambiguous:1"; "http://live:1"] "http://ambiguous:1"
                            method u body in
  [ assert_eq (rs_status response) 502; assert_eq (hits "http://live:1") 0%nat ].

Definition ambiguous_mutation_transport_fails_closed_without_replaying : test :=
  assert_ambiguous_mutation_not_replayed PUT "/v1/kv?key=ambiguous" (json [("value", JStr "one")]).

Definition ambiguous_lock_renew_transport_fails_closed_without_replaying : test :=
  assert_ambiguous_mutation_not_replayed POST "/v1/locks/renew"
    (json [("keys", JArr [JStr "orders/42"]); ("holder", JStr "worker-1"); ("fencing_token", JNum 7);
           ("ttl_ms", JNum 30000)]).

Definition ambiguous_read_transport_retries_another_known_node : test :=
  let servers := [("http://ambiguous:1", truncated_response_upstream);
                  ("http://live:1", plain 200 [] "safe-read")] in
  let (response, hits) := forwarded servers 4 ["http://ambiguous:1"; "http://live:1"] "http://ambiguous:1"
                            GET "/v1/kv?key=ambiguous" "" in
  [ assert_eq (rs_status response) 200; assert_eq (hits "http://live:1") 1%nat ].

(** ** Event streams *)

(** [forward_once] against one server. *)
Definition attempt_once (server : Reply) (u : string) (headers : HeaderMap) (budget : Z) : Upstream :=
  fst (run quiet (forward_once_with_stream_budget (balancer [("http://upstream:1", server)]) "http://upstream:1"
                    None GET (uri u) headers "" budget) (mkWorld 0 (new 1 []) [])).

Definition accepts_events : HeaderMap := hm_insert [] "accept" "text/event-stream".

(** The test's own timeout is a second. *)
Definition successful_event_stream_is_forwarded_without_waiting_for_eof : test :=
  [ fst (receive true STREAM_NON_BODY_TIMEOUT event_stream_upstream) <=? 1000 ] ++
  match attempt_once event_stream_upstream "/v1/kv?key=x&watch=true" accepts_events STREAM_NON_BODY_TIMEOUT with
  | Served response =>
      [ assert_eq (rs_status response) 200;
        assert_eq (hm_get (rs_headers response) "content-type") (Some "text/event-stream; charset=utf-8");
        match rs_body response with
        | BodyStream chunks _ => assert_eq (head chunks) (Some first_event)
        | BodyFull _ => false
        end ]
  | _ => [false]
  end.

(** The tests' own timeout is five seconds, the stream budget 200 ms. *)
Definition a_streaming_request_answered_with_a_non_stream_body_is_still_timed : test :=
  let server := mkReply 1 (SendOk 200 [("content-type", "application/json"); ("content-length", "100")]
                             (mkArrival [(1, "x")] never false)) in
  [ fst (receive true 200 server) <=? 5000;
    assert_eq (attempt_once server "/v1/kv?key=x&watch=true" accepts_events 200) AmbiguousTransport ].

Definition a_streaming_request_with_a_silent_upstream_is_bounded : test :=
  let server := mkReply never (SendError false) in
  [ fst (receive true 200 server) <=? 5000;
    assert_eq (attempt_once server "/v1/kv?key=x" accepts_events 200) AmbiguousTransport ].

Lemma scope_tests_pass : all_pass
  [ observe_inventory_routes_require_an_admin_scope; plain_lock_reads_still_accept_locks_read;
    coordination_renew_and_cancel_require_lock_write_scope;
    route_scope_matrix_enforces_read_write_boundaries;
    every_routed_family_is_reachable_with_an_issuable_api_key_scope;
    previously_unreachable_families_no_longer_require_admin ].
Proof. vm_compute. reflexivity. Qed.

Lemma classification_tests_pass : all_pass
  [ event_stream_detection_is_explicit_and_read_only;
    classifies_current_node_not_leader_response_from_headers;
    follower_without_a_leader_hint_yields_none_so_the_lb_round_robins; classifies_json_not_leader_fallback;
    classifies_not_leader_without_hint_for_round_robin_retry;
    only_read_methods_are_safe_for_transport_failover; location_header_can_supply_leader_base_url;
    upstream_url_refuses_a_path_the_url_crate_would_rewrite ].
Proof. vm_compute. reflexivity. Qed.

Lemma forwarding_tests_pass : all_pass
  [ redirect_hint_updates_route_table_before_retry; redirect_hint_outside_membership_is_rejected;
    retry_loop_does_not_revisit_a_dead_stale_leader_before_trying_every_member;
    retries_a_down_known_node_against_another_known_node;
    retries_a_mutation_when_connection_failure_proves_it_was_not_sent;
    ambiguous_mutation_transport_fails_closed_without_replaying;
    ambiguous_lock_renew_transport_fails_closed_without_replaying;
    ambiguous_read_transport_retries_another_known_node;
    successful_event_stream_is_forwarded_without_waiting_for_eof;
    a_streaming_request_answered_with_a_non_stream_body_is_still_timed;
    a_streaming_request_with_a_silent_upstream_is_bounded ].
Proof. vm_compute. reflexivity. Qed.
