(* ===== verification/IdempotencyTests.v ===== *)
(** * Unit tests of [src/proxy.rs] on the pipeline and idempotency, run against the model

    The cluster of one [FakeNode] is stateful, a network in the model is a function:
    [with_fake] finds it one request at a time, running the call again with what the
    node answered to the requests so far, until the call asks nothing new. *)
From S2P Require Import Prelude RustStr Externals Instances Routing Table Identity Scopes Conc Directory.
From S2P Require Import Forward Idempotency Proxy Node Testing.
Open Scope string_scope.
Open Scope list_scope.
Open Scope Z_scope.

(** ** Helpers of the tests *)

Definition test_identity_with_scopes (org : string) (scopes : list string) : VerifiedIdentity :=
  mkIdentity ApiKey org (Some "key_1") scopes false.

Definition test_identity (org : string) : VerifiedIdentity := test_identity_with_scopes org ["kv:write"].

Definition test_identity_requiring_idempotency (org : string) : VerifiedIdentity :=
  mkIdentity ApiKey org (Some "key_1") ["kv:write"] true.

Definition idempotency_headers (key : string) : HeaderMap :=
  hm_insert (hm_insert [] IDEMPOTENCY_KEY_HEADER key) "content-type" "application/json".

(** [json_response]: the body is read as JSON, [null] when it is empty. *)
Definition json_value (response : Response) : Json :=
  match to_bytes (rs_body response) (MAX_REPLAY_BODY_BYTES + 1) with
  | Some "" => JNull
  | Some body => default JNull (json_from_slice body)
  | None => JNull
  end.

Definition header (response : Response) (name : string) : option string :=
  let! value := hm_get (rs_headers response) name in hv_to_str value.

Definition value_body (v : string) : string := json [("value", JStr v)].

Definition mutation_count (node : FakeNode) : nat := length (mutations node).
Definition abandon_count (node : FakeNode) : nat := length (abandons node).
Definition last_mutation_headers (node : FakeNode) : HeaderMap := default [] (last (mutations node)).

Definition queue_mutation_status (status : Z) (node : FakeNode) : FakeNode :=
  mkFakeNode (records node) (mutations node) (mutation_statuses node ++ [status]) (abandons node).

(** ** The cluster *)

Definition fake_url : string := "http://fake:1".

(** [fake_cluster]: the table of one member, and the node. *)
Definition fake_cluster : RouteTable * FakeNode := (new 4 [fake_url], fake_node).

Definition answered (answers : list (SentRequest * Reply)) (_ : nat) (rq : SentRequest) : Reply :=
  default (mkReply 0 (SendError false)) (snd <$> List.find (fun p => bool_decide (fst p = rq)) answers).

(** The first request of the run that has no answer yet. *)
Definition next_request (answers : list (SentRequest * Reply)) (l : list Attempt) : option SentRequest :=
  find_map (fun a =>
    let! rq := at_wire a in
    if existsb (fun p => bool_decide (fst p = rq)) answers then None else Some rq) l.

Fixpoint with_fake (requests : nat) (call : Surroundings -> M RouteTable Attempt Response)
    (answers : list (SentRequest * Reply)) (table : RouteTable) (node : FakeNode)
  : Response * RouteTable * FakeNode :=
  let surroundings := mkSurroundings None (fun n => Z.of_nat n) (answered answers) in
  let (response, w) := run quiet (call surroundings) (mkWorld 0 table []) in
  match requests with
  | O => (response, w_state w, node)
  | S requests =>
      match next_request answers (w_log w) with
      | None => (response, w_state w, node)
      | Some rq =>
          let answer := fake_node_handler node rq in
          with_fake requests call (answers ++ [(rq, prompt answer)]) table (default node (snd <$> answer))
      end
  end.

(** [route(table, identity, method, uri, headers, body).await] on the cluster. *)
Definition routed (cluster : RouteTable * FakeNode) (identity : option VerifiedIdentity) (m : Method)
    (u : string) (headers : HeaderMap) (body : string) : Response * (RouteTable * FakeNode) :=
  let '(response, table, node) :=
    with_fake 3 (fun S => route S identity m (uri u) headers body) [] (fst cluster) (snd cluster) in
  (response, (table, node)).

(** The same on a table without reachable nodes. *)
Definition routed_alone (table : RouteTable) (identity : option VerifiedIdentity) (m : Method)
    (u : string) (headers : HeaderMap) (body : string) : Response :=
  fst (run quiet (route (mkSurroundings None (fun n => Z.of_nat n) (answered [])) identity m (uri u) headers body)
         (mkWorld 0 table [])).

(** ** Identities and scopes *)

Definition edge_forwarded_request_with_secret_is_trusted_and_scope_checked : test :=
  let secret := "edge-secret" in
  let read_only := hm_insert [] EDGE_AUTH_HEADER secret in
  let read_only := hm_insert read_only "x-fiducia-auth-kind" "api_key" in
  let read_only := hm_insert read_only "x-fiducia-org-id" "org_1" in
  let read_only := hm_insert read_only "x-fiducia-scopes" "kv:read" in
  let identity := trusted_edge_identity read_only (Some secret) in
  let (denied, cluster) := routed fake_cluster identity PUT "/v1/kv?key=orders%2F1" read_only (value_body "x") in
  let writable := hm_insert [] EDGE_AUTH_HEADER secret in
  let writable := hm_insert writable "x-fiducia-org-id" "org_1" in
  let writable := hm_insert writable "x-fiducia-scopes" "kv:write" in
  let identity' := trusted_edge_identity writable (Some secret) in
  let (allowed, cluster') := routed cluster identity' PUT "/v1/kv?key=orders%2F1" writable (value_body "x") in
  [ negb (is_none identity); assert_eq (rs_status denied) 403; assert_eq (mutation_count (snd cluster)) 0%nat;
    assert_eq (rs_status allowed) 200; assert_eq (mutation_count (snd cluster')) 1%nat ].

Definition edge_headers_without_the_secret_are_anonymous_and_rejected_for_scoped_route : test :=
  let spoofed := hm_insert (hm_insert [] "x-fiducia-org-id" "org_evil") "x-fiducia-scopes" "admin:write" in
  let identity := trusted_edge_identity spoofed (Some "real-secret") in
  let (response, cluster) := routed fake_cluster identity PUT "/v1/kv?key=orders%2F1" spoofed (value_body "x") in
  [ is_none identity; assert_eq (rs_status response) 403; assert_eq (mutation_count (snd cluster)) 0%nat ].

Definition insufficient_scope_is_denied_before_forwarding : test :=
  let (response, cluster) := routed fake_cluster (Some (test_identity_with_scopes "org_1" ["kv:read"])) PUT
                               "/v1/kv?key=orders%2F42" [] (value_body "paid") in
  let body := json_value response in
  [ assert_eq (rs_status response) 403; assert_eq (at_key "error" body) (JStr "insufficient_scope");
    assert_eq (at_index 0 (at_key "required_scopes" body)) (JStr "kv:write");
    assert_eq (mutation_count (snd cluster)) 0%nat ].

Definition dot_segment_paths_are_rejected_before_authorization : test :=
  let table := new 4 ["http://node-a:8090"] in
  for_each [(GET, "/v1/locks/../observe/locks"); (GET, "/v1/locks/%2e%2e/observe/locks");
            (PUT, "/v1/locks/../kv?key=x"); (GET, "/v1/locks/./status")]
    (fun '(method, path) =>
       let response := routed_alone table (Some (test_identity "org_1")) method path [] "" in
       [ assert_eq (rs_status response) 400; assert_eq (at_key "error" (json_value response)) (JStr "invalid_path") ]).

(** ** Storing and replaying *)

Definition customer_idempotency_stores_and_replays_completed_mutation : test :=
  let put cluster := routed cluster (Some (test_identity "org_1")) PUT "/v1/kv?key=orders%2F42"
                       (idempotency_headers "cust-key-1") (value_body "paid") in
  let (first, cluster) := put fake_cluster in
  let (second, cluster') := put cluster in
  [ assert_eq (rs_status first) 200; assert_eq (header first FIDUCIA_IDEMPOTENCY_HEADER) (Some "stored");
    assert_eq (at_key "mutation_count" (json_value first)) (JNum 1);
    assert_eq (mutation_count (snd cluster)) 1%nat;
    is_none (hm_get (last_mutation_headers (snd cluster)) IDEMPOTENCY_KEY_HEADER);
    assert_eq (rs_status second) 200; assert_eq (header second IDEMPOTENCY_REPLAYED_HEADER) (Some "true");
    assert_eq (json_value second) (json_value first); assert_eq (mutation_count (snd cluster')) 1%nat ].

Definition only_final_responses_are_cacheable_for_idempotent_replay : test :=
  for_each [200; 201; 400; 404; 409] (fun status => [is_cacheable_idempotent_response status]) ++
  for_each [500; 502; 503; 504; 408; 429] (fun status => [negb (is_cacheable_idempotent_response status)]).

Definition customer_idempotency_does_not_cache_transient_failures_and_retry_reexecutes : test :=
  let put cluster := routed cluster (Some (test_identity "org_1")) PUT "/v1/kv?key=orders%2F99"
                       (idempotency_headers "cust-key-transient") (value_body "paid") in
  let (table, fake) := fake_cluster in
  let (first, cluster) := put (table, queue_mutation_status 503 fake) in
  let (second, cluster') := put cluster in
  [ assert_eq (rs_status first) 503; assert_eq (header first FIDUCIA_IDEMPOTENCY_HEADER) (Some "not_stored");
    assert_eq (abandon_count (snd cluster)) 1%nat; assert_eq (mutation_count (snd cluster)) 1%nat;
    assert_eq (rs_status second) 200; assert_eq (header second FIDUCIA_IDEMPOTENCY_HEADER) (Some "stored");
    assert_eq (mutation_count (snd cluster')) 2%nat;
    assert_eq (at_key "mutation_count" (json_value second)) (JNum 2) ].

Definition customer_idempotency_rejects_same_key_with_different_fingerprint : test :=
  let put cluster v := routed cluster (Some (test_identity "org_1")) PUT "/v1/kv?key=flags%2Fcheckout"
                         (idempotency_headers "same-key") (value_body v) in
  let (first, cluster) := put fake_cluster "on" in
  let (second, cluster') := put cluster "off" in
  [ assert_eq (rs_status first) 200; assert_eq (rs_status second) 409;
    assert_eq (at_key "error" (json_value second)) (JStr "idempotency_key_conflict");
    assert_eq (mutation_count (snd cluster')) 1%nat ].

(** ** Requiring and refusing keys *)

Definition require_idempotency_rejects_keyless_mutation_before_routing : test :=
  let response := routed_alone (new 4 []) (Some (test_identity_requiring_idempotency "org_1")) PUT
                    "/v1/kv?key=orders%2F7" [] (value_body "x") in
  [ assert_eq (rs_status response) 400;
    assert_eq (at_key "error" (json_value response)) (JStr "idempotency_key_required") ].

Definition require_idempotency_does_not_gate_reads : test :=
  let (response, _) := routed fake_cluster (Some (test_identity_requiring_idempotency "org_1")) GET
                         "/v1/kv?key=orders%2F7" [] "" in
  [ assert_eq (rs_status response) 200 ].

Definition require_idempotency_allows_mutation_carrying_a_key : test :=
  let (response, cluster) := routed fake_cluster (Some (test_identity_requiring_idempotency "org_1")) PUT
                               "/v1/kv?key=orders%2F7" (idempotency_headers "cust-key-required") (value_body "x") in
  [ assert_eq (rs_status response) 200; assert_eq (header response FIDUCIA_IDEMPOTENCY_HEADER) (Some "stored");
    assert_eq (mutation_count (snd cluster)) 1%nat ].

Definition customer_idempotency_rejects_blank_or_oversized_keys_before_routing : test :=
  let locks_writer := test_identity_with_scopes "org_1" ["locks:write"] in
  let acquire key := routed_alone (new 4 []) (Some locks_writer) POST "/v1/locks/acquire"
                       (hm_insert [] IDEMPOTENCY_KEY_HEADER key) (json [("key", JStr "orders/42")]) in
  let blank := acquire "   " in
  let long := acquire (repeat_str (Z.to_nat (MAX_IDEMPOTENCY_KEY_BYTES + 1)) "x") in
  [ assert_eq (rs_status blank) 400; assert_eq (at_key "error" (json_value blank)) (JStr "bad_idempotency_key");
    assert_eq (rs_status long) 400 ] ++
  unwrap (hv_from_bytes (String (chr 255) "")) (fun non_text => [ assert_eq (rs_status (acquire non_text)) 400 ]).

Definition customer_idempotency_reports_in_progress_duplicates : test :=
  let headers := hm_insert (hm_insert [] IDEMPOTENCY_KEY_HEADER "cust-key-2") "content-type" "application/json" in
  match from_request (Some (test_identity "org_1")) POST (uri "/v1/locks/acquire") headers
          (json [("key", JStr "orders/42")]) with
  | Ok (Some idempotency) =>
      unwrap (response_for_duplicate_claim idempotency
                (mkIdempotencyClaim false true None (Some (JObj
                   [("status", JStr "claimed");
                    ("metadata", JObj [("fingerprint", JStr (ci_fingerprint idempotency))])])))) (fun response =>
      [ assert_eq (rs_status response) 409; assert_eq (header response "retry-after") (Some "1") ])
  | _ => [false]
  end.

Definition customer_idempotency_scopes_keys_by_org_and_hashes_raw_key : test :=
  let headers := hm_insert [] IDEMPOTENCY_KEY_HEADER "order-create-123" in
  let of_org org := from_request (Some (test_identity org)) PUT (uri "/v1/kv?key=orders%2F123") headers
                      (value_body "one") in
  match of_org "org_a", of_org "org_b" with
  | Ok (Some a), Ok (Some b) =>
      [ assert_ne (ci_internal_key a) (ci_internal_key b);
        negb (str_contains "order-create-123" (ci_internal_key a)); assert_eq (str_len (ci_key_hash a)) 64 ]
  | _, _ => [false]
  end.

(** ** Stored bodies *)

Definition stored (body_hex : string) : StoredIdempotencyResponse :=
  mkStored "fp" 200 (Some "application/json") body_hex false.

Definition corrupt_stored_body_fails_closed_instead_of_replaying_empty : test :=
  for_each ["zz"; "abc"; "0g"] (fun corrupt =>
    let response := into_replay_response (stored corrupt) in
    [ assert_eq (rs_status response) 409;
      assert_eq (at_key "error" (json_value response)) (JStr "idempotency_replay_unavailable") ]).

Definition intact_stored_body_replays_verbatim : test :=
  let response := into_replay_response (stored "7b7d") in
  [ assert_eq (rs_status response) 200; assert_eq (header response IDEMPOTENCY_REPLAYED_HEADER) (Some "true");
    assert_eq (rs_body response) (BodyFull "{}") ].

Lemma pipeline_tests_pass : all_pass
  [ edge_forwarded_request_with_secret_is_trusted_and_scope_checked;
    edge_headers_without_the_secret_are_anonymous_and_rejected_for_scoped_route;
    insufficient_scope_is_denied_before_forwarding; dot_segment_paths_are_rejected_before_authorization;
    require_idempotency_rejects_keyless_mutation_before_routing; require_idempotency_does_not_gate_reads;
    customer_idempotency_rejects_blank_or_oversized_keys_before_routing;
    customer_idempotency_reports_in_progress_duplicates;
    customer_idempotency_scopes_keys_by_org_and_hashes_raw_key;
    only_final_responses_are_cacheable_for_idempotent_replay;
    corrupt_stored_body_fails_closed_instead_of_replaying_empty; intact_stored_body_replays_verbatim ].
Proof. vm_compute. reflexivity. Qed.

Lemma idempotency_tests_pass : all_pass
  [ customer_idempotency_stores_and_replays_completed_mutation;
    customer_idempotency_does_not_cache_transient_failures_and_retry_reexecutes;
    customer_idempotency_rejects_same_key_with_different_fingerprint;
    require_idempotency_allows_mutation_carrying_a_key ].
Proof. vm_compute. reflexivity. Qed.
